(** * hcga: feature extraction engine and fluid-communities partitioner

    A shallow embedding of
    - [hcga/feature_extraction.py] (registry, dispatcher, aggregator, filter),
    - [hcga/features/spectrum.py] (the memoised spectral decompositions),
    - [hcga/Operations/communities_asyn_fluid.py] (the partitioner and the
      features computed from its communities),
    - [hcga/Operations/vitality.py], [hcga/Operations/shortest_paths.py] and
      [hcga/Operations/node_features.py] (feature classes of the older
      interface),
    - [hcga/dataset_creation/test_dataset.py] (the test dataset),
    followed by the properties of these functions.

    Conventions.  Python exceptions are values of [Exception] and every
    fallible function returns a [result].  Python dictionaries keep their
    insertion order, which the code observes (column order, the order of
    [density.values()], the order of [groups(...)]), so they are association
    lists with unique keys.  Floating-point numbers are idealised as exact
    rationals extended with the two infinities and not-a-number. *)

From Stdlib Require Import List String ZArith QArith Bool Arith Lia Permutation.
Import ListNotations.

Set Implicit Arguments.

Close Scope Q_scope.

(* ================================================================== *)
(** * Part I: the program *)
(* ================================================================== *)

(** ** Python exceptions, results and dictionaries *)

Module Py.

Inductive Exception : Type :=
| KeyError
| IndexError
| ValueError
| ZeroDivisionError
| NetworkXError (msg : string)
| NetworkXNotImplemented
| NetworkXPointlessConcept
| BrokenPool
| OtherError (msg : string).

Inductive result (A : Type) : Type :=
| Ok (a : A)
| Raise (e : Exception).

Arguments Ok {A} a.
Arguments Raise {A} e.

Definition bind {A B} (m : result A) (f : A -> result B) : result B :=
  match m with
  | Ok a => f a
  | Raise e => Raise e
  end.

(** [try: body except KeyError: handler] *)
Definition except_KeyError {A} (body : result A) (handler : result A) : result A :=
  match body with
  | Raise KeyError => handler
  | r => r
  end.

Definition is_ok {A} (m : result A) : bool :=
  match m with Ok _ => true | Raise _ => false end.

Fixpoint mapM {A B} (f : A -> result B) (xs : list A) : result (list B) :=
  match xs with
  | [] => Ok []
  | x :: rest =>
      bind (f x) (fun y => bind (mapM f rest) (fun ys => Ok (y :: ys)))
  end.

(** Keys of a dictionary: a type with a boolean equality that decides [=]. *)
Class Key (K : Type) : Type := {
  key_eqb : K -> K -> bool;
  key_eqb_spec : forall a b, key_eqb a b = true <-> a = b
}.

#[export] Instance string_Key : Key string :=
  {| key_eqb := String.eqb; key_eqb_spec := String.eqb_eq |}.
#[export] Instance nat_Key : Key nat :=
  {| key_eqb := Nat.eqb; key_eqb_spec := Nat.eqb_eq |}.
#[export] Instance Z_Key : Key Z :=
  {| key_eqb := Z.eqb; key_eqb_spec := Z.eqb_eq |}.

Definition dict (K V : Type) : Type := list (K * V).

Section Dict.
Context {K V : Type} `{Key K}.

(** [k in d] *)
Fixpoint contains (d : dict K V) (k : K) : bool :=
  match d with
  | [] => false
  | (k', _) :: rest => if key_eqb k' k then true else contains rest k
  end.

(** [d[k]], raising [KeyError] on a missing key *)
Fixpoint getitem (d : dict K V) (k : K) : result V :=
  match d with
  | [] => Raise KeyError
  | (k', v) :: rest => if key_eqb k' k then Ok v else getitem rest k
  end.

(** [d[k] = v]: an existing key keeps its position, a new one goes last *)
Fixpoint setitem (d : dict K V) (k : K) (v : V) : dict K V :=
  match d with
  | [] => [(k, v)]
  | (k', v') :: rest =>
      if key_eqb k' k then (k', v) :: rest else (k', v') :: setitem rest k v
  end.

Definition keys (d : dict K V) : list K := map fst d.
Definition values (d : dict K V) : list V := map snd d.
End Dict.

(** [x in l] for a list *)
Definition list_contains {K} `{Key K} (l : list K) (k : K) : bool :=
  existsb (fun k' => key_eqb k' k) l.

End Py.

Import Py.

Declare Scope py_scope.
Delimit Scope py_scope with py.
Notation "x <- m ;; f" := (bind m (fun x => f))
  (at level 61, m at next level, right associativity) : py_scope.
Notation "' pat <- m ;; f" := (bind m (fun x => match x with pat => f end))
  (at level 61, pat pattern, m at next level, right associativity) : py_scope.
Open Scope py_scope.

(** ** The part of numpy and pandas that [feature_extraction.py] uses *)

Module Pandas.

(** A cell of a feature matrix: a float, idealised. *)
Inductive value : Type :=
| Fin (q : Q)
| PInf
| NInf
| NaN.

Definition isna (v : value) : bool :=
  match v with NaN => true | _ => false end.

Definition isfinite (v : value) : bool :=
  match v with Fin _ => true | _ => false end.

(** [==] on floats; not-a-number is equal to nothing *)
Definition value_eqb (a b : value) : bool :=
  match a, b with
  | Fin p, Fin q => Qeq_bool p q
  | PInf, PInf => true
  | NInf, NInf => true
  | _, _ => false
  end.

Definition vneg (a : value) : value :=
  match a with
  | Fin q => Fin (- q)%Q
  | PInf => NInf
  | NInf => PInf
  | NaN => NaN
  end.

Definition vadd (a b : value) : value :=
  match a, b with
  | NaN, _ | _, NaN => NaN
  | Fin p, Fin q => Fin (p + q)%Q
  | PInf, NInf | NInf, PInf => NaN
  | PInf, _ | _, PInf => PInf
  | NInf, _ | _, NInf => NInf
  end.

Definition vsub (a b : value) : value := vadd a (vneg b).

Definition sign_of (q : Q) : comparison := (q ?= 0)%Q.

Definition vmul (a b : value) : value :=
  match a, b with
  | NaN, _ | _, NaN => NaN
  | Fin p, Fin q => Fin (p * q)%Q
  | Fin p, PInf | PInf, Fin p =>
      match sign_of p with Gt => PInf | Lt => NInf | Eq => NaN end
  | Fin p, NInf | NInf, Fin p =>
      match sign_of p with Gt => NInf | Lt => PInf | Eq => NaN end
  | PInf, PInf | NInf, NInf => PInf
  | PInf, NInf | NInf, PInf => NInf
  end.

(** [a / b] on numpy floats: division by zero gives an infinity or
    not-a-number, never an exception *)
Definition vdiv (a b : value) : value :=
  match a, b with
  | NaN, _ | _, NaN => NaN
  | Fin p, Fin q =>
      match sign_of q with
      | Eq => match sign_of p with Gt => PInf | Lt => NInf | Eq => NaN end
      | _ => Fin (p / q)%Q
      end
  | Fin _, _ => Fin 0%Q
  | PInf, Fin q => match sign_of q with Lt => NInf | _ => PInf end
  | NInf, Fin q => match sign_of q with Lt => PInf | _ => NInf end
  | _, _ => NaN
  end.

(** division by a positive count *)
Definition vdiv_count (a : value) (n : nat) : value :=
  match a with
  | Fin p => Fin (p / inject_Z (Z.of_nat n))%Q
  | other => other
  end.

Definition vsum (l : list value) : value := fold_left vadd l (Fin 0%Q).

(** A data frame: its columns, in order, each with one cell per row. *)
Definition DataFrame : Type := dict string (list value).

Definition columns (df : DataFrame) : list string := keys df.

(** [len(df)]: the length of the index.  A frame built from a dictionary
    takes its index from its columns, so a frame without columns has no row. *)
Definition nrows (df : DataFrame) : nat :=
  match df with
  | [] => 0
  | (_, cells) :: _ => List.length cells
  end.

(** [pd.DataFrame.from_dict(d)] *)
Definition from_dict (d : dict string (list value)) : result DataFrame :=
  match d with
  | [] => Ok []
  | (_, c0) :: _ =>
      if forallb (fun nc => List.length (snd nc) =? List.length c0) d
      then Ok d else Raise ValueError
  end.

(** [df.replace(to_replace, v)]: a new frame, the receiver is unchanged *)
Definition replace (df : DataFrame) (to_replace : list value) (v : value)
  : DataFrame :=
  map (fun nc =>
         (fst nc,
          map (fun x => if existsb (value_eqb x) to_replace then v else x)
              (snd nc)))
      df.

(** [df.dropna(axis=1)]: the columns without a missing value *)
Definition dropna_axis1 (df : DataFrame) : DataFrame :=
  filter (fun nc => negb (existsb isna (snd nc))) df.

(** The variance pandas computes ([ddof = 1], missing values skipped). *)
Definition nanvar (cells : list value) : value :=
  let vals := filter (fun x => negb (isna x)) cells in
  let count := List.length vals in
  if count <=? 1 then NaN
  else
    let avg := vdiv_count (vsum vals) count in
    let sqr := map (fun x => let d := vsub avg x in vmul d d) vals in
    vdiv_count (vsum sqr) (count - 1).

(** A standard deviation is the square root of a variance; the root itself
    is never needed, only its comparison with zero. *)
Inductive root : Type := Sqrt (v : value).

(** [df.std()]: one standard deviation per column *)
Definition std (df : DataFrame) : dict string root :=
  map (fun nc => (fst nc, Sqrt (nanvar (snd nc)))) df.

(** [r == 0] *)
Definition root_eq_zero (r : root) : bool :=
  match r with
  | Sqrt (Fin v) => Qeq_bool v 0%Q
  | Sqrt _ => false
  end.

(** [s[mask].index] for [mask = (s == 0)] *)
Definition index_where_zero (s : dict string root) : list string :=
  keys (filter (fun nr => root_eq_zero (snd nr)) s).

(** [df.drop(labels, axis=1)] *)
Definition drop_axis1 (df : DataFrame) (labels : list string) : DataFrame :=
  filter (fun nc => negb (list_contains labels (fst nc))) df.

End Pandas.

Import Pandas.

(** ** [hcga/feature_extraction.py] *)

Module FeatureExtraction.

Section Engine.

(** Graphs are opaque to the engine. *)
Variable Graph : Type.

(** The features of one class for one graph, and the bundle of one graph:
    class shortname, then feature name, then value. *)
Definition Features : Type := dict string value.
Definition Bundle : Type := dict string Features.

(** What [get_feature_info] returns; only ["feature_name"] is read here. *)
Record FeatureInfo : Type := {
  feature_name : string;
  feature_description : string
}.

(** A feature class, as far as this file uses one.  The base class
    [hcga/feature_class.py] is not among the sources, so what its methods
    do is a parameter:
    - [modes] and [shortname] are the class attributes;
    - [update_features c g all_features] stands for
      [c(g).update_features(all_features)]: the dictionary after the call,
      or the exception the call raises;
    - [get_feature_info c f] stands for [c().get_feature_info(f)]. *)
Record FeatureClass : Type := {
  modes : list string;
  shortname : string;
  update_features : Graph -> Bundle -> result Bundle;
  get_feature_info : string -> FeatureInfo
}.

(** Modelled from the spec: [FeatureClass.update_features] of
    [hcga/feature_class.py], which is missing.  The contract runs
    [compute_features] on the graph and stores the class's features under
    its shortname; it is "unaware of failure handling", so an exception of
    [compute_features] leaves it unchanged. *)
Definition contract_update_features
    (name : string) (compute_features : Graph -> result Features)
  : Graph -> Bundle -> result Bundle :=
  fun graph all_features =>
    feats <- compute_features graph ;;
    Ok (setitem all_features name feats).

(** The files of the [features] directory, already loaded, in the order
    [glob] lists them, and the graph every active class is run on once. *)
Variable feature_files : list FeatureClass.
Variable trivial_graph : Graph.

Fixpoint get_list_loop (mode : string) (files : list FeatureClass)
    (list_feature_classes : list FeatureClass)
  : result (list FeatureClass) :=
  match files with
  | [] => Ok list_feature_classes
  | feature_class :: rest =>
      if list_contains (modes feature_class) mode || String.eqb mode "all"
      then
        _ <- update_features feature_class trivial_graph [] ;;
        get_list_loop mode rest (list_feature_classes ++ [feature_class])
      else get_list_loop mode rest list_feature_classes
  end.

Definition get_list_feature_classes (mode : string)
  : result (list FeatureClass) :=
  get_list_loop mode feature_files [].

(** [feature_extraction(graph, list_feature_classes)], with
    [with_runtimes=False] as every caller in this file leaves it. *)
Fixpoint feature_extraction_loop (graph : Graph)
    (list_feature_classes : list FeatureClass) (all_features : Bundle)
  : result Bundle :=
  match list_feature_classes with
  | [] => Ok all_features
  | feature_class :: rest =>
      all_features' <- update_features feature_class graph all_features ;;
      feature_extraction_loop graph rest all_features'
  end.

Definition feature_extraction (graph : Graph)
    (list_feature_classes : list FeatureClass) : result Bundle :=
  feature_extraction_loop graph list_feature_classes [].

(** [Worker(list_feature_classes)(graph)] *)
Definition Worker (list_feature_classes : list FeatureClass)
  : Graph -> result Bundle :=
  fun graph => feature_extraction graph list_feature_classes.

(** The builtin [map], consumed by [list]: the first exception ends it. *)
Definition map_ (worker : Graph -> result Bundle) (graphs : list Graph)
  : result (list Bundle) :=
  mapM worker graphs.

(** [multiprocessing.Pool.imap], consumed by [list].  The jobs are numbered
    in input order; the workers finish them in the order [completion], each
    outcome being filed under its job number; the iterator hands the
    outcomes out by job number, re-raising one that is an exception. *)
Definition run_jobs (completion : list nat)
    (worker : Graph -> result Bundle) (graphs : list Graph)
  : dict nat (result Bundle) :=
  fold_left
    (fun done job =>
       match nth_error graphs job with
       | Some graph => setitem done job (worker graph)
       | None => done
       end)
    completion [].

Definition pool_imap (completion : list nat)
    (worker : Graph -> result Bundle) (graphs : list Graph)
  : result (list Bundle) :=
  let done := run_jobs completion worker graphs in
  mapM (fun job =>
          match getitem done job with
          | Ok outcome => outcome
          | Raise _ => Raise BrokenPool
          end)
       (seq 0 (List.length graphs)).

(** [compute_all_features(graphs, list_feature_classes, n_workers)];
    [completion] is the order in which the pool's jobs happen to finish. *)
Definition compute_all_features (completion : list nat)
    (graphs : list Graph) (list_feature_classes : list FeatureClass)
    (n_workers : Z) : result (list Bundle) :=
  let worker := Worker list_feature_classes in
  if (n_workers =? 1)%Z then map_ worker graphs
  else if (n_workers <? 1)%Z then Raise ValueError
  else pool_imap completion worker graphs.

(** The innermost loop of [gather_features]: one cell per raw bundle. *)
Definition gather_column (all_features_raw : list Bundle)
    (name feature : string) : result (list value) :=
  mapM (fun raw_i =>
          class_features <- getitem raw_i name ;;
          getitem class_features feature)
       all_features_raw.

Fixpoint gather_class (all_features_raw : list Bundle)
    (feature_inst : FeatureClass) (features : list string)
    (acc : dict string FeatureInfo * dict string (list value))
  : result (dict string FeatureInfo * dict string (list value)) :=
  match features with
  | [] => Ok acc
  | feature :: rest =>
      let '(features_info, all_features) := acc in
      let feature_info := get_feature_info feature_inst feature in
      let features_info :=
        setitem features_info (feature_name feature_info) feature_info in
      column <- gather_column all_features_raw
                  (shortname feature_inst) feature ;;
      let all_features :=
        setitem all_features (feature_name feature_info) column in
      gather_class all_features_raw feature_inst rest
                   (features_info, all_features)
  end.

Fixpoint gather_loop (all_features_raw : list Bundle)
    (list_feature_classes : list FeatureClass)
    (acc : dict string FeatureInfo * dict string (list value))
  : result (dict string FeatureInfo * dict string (list value)) :=
  match list_feature_classes with
  | [] => Ok acc
  | feature_inst :: rest =>
      first <- match all_features_raw with
               | [] => Raise IndexError
               | raw_0 :: _ => Ok raw_0
               end ;;
      reference <- getitem first (shortname feature_inst) ;;
      acc' <- gather_class all_features_raw feature_inst
                (keys reference) acc ;;
      gather_loop all_features_raw rest acc'
  end.

Definition gather_features (all_features_raw : list Bundle)
    (list_feature_classes : list FeatureClass)
  : result (DataFrame * dict string FeatureInfo) :=
  '(features_info, all_features) <-
     gather_loop all_features_raw list_feature_classes ([], []) ;;
  df <- from_dict all_features ;;
  Ok (df, features_info).

(** [filter_features(features)].  The frame [replace] returns is dropped:
    the call is neither assigned nor made in place. *)
Definition filter_features (features : DataFrame) : DataFrame :=
  let _ := replace features [PInf; NInf] NaN in
  let valid_features := dropna_axis1 features in
  drop_axis1 valid_features (index_where_zero (std valid_features)).

(** [extract(graphs, n_workers, mode)]; the two [print]s are left out. *)
Definition extract (completion : list nat) (graphs : list Graph)
    (n_workers : Z) (mode : string)
  : result (DataFrame * dict string FeatureInfo) :=
  feat_classes <- get_list_feature_classes mode ;;
  raw_features <-
    compute_all_features completion graphs feat_classes n_workers ;;
  '(features, features_info) <- gather_features raw_features feat_classes ;;
  let good_features := filter_features features in
  Ok (features, features_info).

End Engine.

End FeatureExtraction.

(** ** [hcga/features/spectrum.py] *)

Module Spectrum.

Section Memo.

(** A networkx graph is hashed and compared by identity: an object is the
    pair of its identity and its content. *)
Variable GraphData : Type.

Record GraphObj : Type := {
  obj_id : nat;
  obj_data : GraphData
}.

(** [np.real(nx.linalg.spectrum.*_spectrum(graph))], or the exception
    that networkx or the eigenvalue solver raises, as they do on a graph
    without nodes *)
Variable adjacency_spectrum : GraphData -> result (list value).
Variable modularity_spectrum : GraphData -> result (list value).
Variable laplacian_spectrum : GraphData -> result (list value).

(** The three module-level [lru_cache(maxsize=None)] tables, and a count
    of the decompositions that were started: the calls that the tables
    could not answer, which [cache_info()] reports as [misses]. *)
Inductive memoised : Type := SpectrumAdj | SpectrumModularity | SpectrumLaplacian.

Record Caches : Type := {
  adj_cache : dict nat (list value);
  modularity_cache : dict nat (list value);
  laplacian_cache : dict nat (list value);
  computed : nat
}.

Definition empty_caches : Caches :=
  {| adj_cache := []; modularity_cache := []; laplacian_cache := [];
     computed := 0 |}.

Definition cache_of (f : memoised) (s : Caches) : dict nat (list value) :=
  match f with
  | SpectrumAdj => adj_cache s
  | SpectrumModularity => modularity_cache s
  | SpectrumLaplacian => laplacian_cache s
  end.

(** store a freshly computed value in the table of [f] *)
Definition remember (f : memoised) (k : nat) (v : list value) (s : Caches)
  : Caches :=
  match f with
  | SpectrumAdj =>
      {| adj_cache := setitem (adj_cache s) k v;
         modularity_cache := modularity_cache s;
         laplacian_cache := laplacian_cache s;
         computed := S (computed s) |}
  | SpectrumModularity =>
      {| adj_cache := adj_cache s;
         modularity_cache := setitem (modularity_cache s) k v;
         laplacian_cache := laplacian_cache s;
         computed := S (computed s) |}
  | SpectrumLaplacian =>
      {| adj_cache := adj_cache s;
         modularity_cache := modularity_cache s;
         laplacian_cache := setitem (laplacian_cache s) k v;
         computed := S (computed s) |}
  end.

(** count a decomposition that was started and raised: no table changes *)
Definition attempted (s : Caches) : Caches :=
  {| adj_cache := adj_cache s;
     modularity_cache := modularity_cache s;
     laplacian_cache := laplacian_cache s;
     computed := S (computed s) |}.

(** Code that reads and writes the module-level tables and may raise: the
    tables survive an exception. *)
Definition M (A : Type) : Type := Caches -> result A * Caches.

Definition ret {A} (a : A) : M A := fun s => (Ok a, s).

Definition raise {A} (e : Exception) : M A := fun s => (Raise e, s).

Definition mbind {A B} (m : M A) (f : A -> M B) : M B :=
  fun s =>
    match m s with
    | (Ok a, s') => f a s'
    | (Raise e, s') => (Raise e, s')
    end.

(** [@lru_cache(maxsize=None)] around a function of one graph: a value
    found in the table is returned; otherwise the function is called, and
    its result is stored once it has returned, so that nothing is stored
    for a call that raises. *)
Definition lru_cache (f : memoised)
    (body : GraphData -> result (list value))
  : GraphObj -> M (list value) :=
  fun graph s =>
    match getitem (cache_of f s) (obj_id graph) with
    | Ok v => (Ok v, s)
    | Raise _ =>
        match body (obj_data graph) with
        | Ok v => (Ok v, remember f (obj_id graph) v s)
        | Raise e => (Raise e, attempted s)
        end
    end.

Definition eval_spectrum_adj : GraphObj -> M (list value) :=
  lru_cache SpectrumAdj adjacency_spectrum.

Definition eval_spectrum_modularity : GraphObj -> M (list value) :=
  lru_cache SpectrumModularity modularity_spectrum.

Definition eval_spectrum_laplacian : GraphObj -> M (list value) :=
  lru_cache SpectrumLaplacian laplacian_spectrum.

(** [a[i]] on an array, for [i >= 0] *)
Definition array_getitem (a : list value) (i : nat) : result value :=
  match nth_error a i with
  | Some v => Ok v
  | None => Raise IndexError
  end.

Definition lift {A} (r : result A) : M A := fun s => (r, s).

Definition eigenvalue_ratio (graph : GraphObj) (i j : nat) : M value :=
  mbind (eval_spectrum_adj graph) (fun a =>
  mbind (lift (array_getitem a j)) (fun num =>
  mbind (eval_spectrum_adj graph) (fun b =>
  mbind (lift (array_getitem b i)) (fun den =>
  ret (vdiv num den))))).

(** A raw feature: a scalar, or a sequence pending its expansion. *)
Inductive feature_value : Type :=
| Scalar (v : value)
| Sequence (l : list value).

Definition features : Type := dict string feature_value.

(** Modelled from the spec: [FeatureClass.add_feature] of
    [hcga/feature_class.py], which is missing.  It calls the function with
    the graph and records the result under the name; it handles no
    failure. *)
Definition add_feature (graph : GraphObj) (name : string)
    (fn : GraphObj -> M feature_value) (acc : features) : M features :=
  mbind (fn graph) (fun v => ret (setitem acc name v)).

(** the pairs [(i, j)] of [for i in range(n): for j in range(i)] *)
Definition ratio_pairs (n_eigs : nat) : list (nat * nat) :=
  flat_map (fun i => map (fun j => (i, j)) (seq 0 i)) (seq 0 n_eigs).

(** ["eigenvalue_ratio_{}_{}".format(i, j)] for one-digit [i] and [j] *)
Definition digit (n : nat) : string :=
  String (Ascii.ascii_of_nat (48 + n)) EmptyString.

Definition ratio_name (i j : nat) : string :=
  ("eigenvalue_ratio_" ++ digit i ++ "_" ++ digit j)%string.

Fixpoint add_ratios (graph : GraphObj) (pairs : list (nat * nat))
    (acc : features) : M features :=
  match pairs with
  | [] => ret acc
  | (i, j) :: rest =>
      mbind (add_feature graph (ratio_name i j)
               (fun g => mbind (eigenvalue_ratio g i j)
                           (fun v => ret (Scalar v)))
               acc)
            (add_ratios graph rest)
  end.

Definition sequence_of (f : GraphObj -> M (list value))
  : GraphObj -> M feature_value :=
  fun g => mbind (f g) (fun l => ret (Sequence l)).

(** [Spectrum(graph).compute_features()]: one pass of the class over one
    graph *)
Definition compute_features (graph : GraphObj) : M features :=
  mbind (add_feature graph "eigenvalues_adjacency"
           (sequence_of eval_spectrum_adj) []) (fun acc =>
  mbind (add_ratios graph (ratio_pairs 10) acc) (fun acc =>
  mbind (add_feature graph "eigenvalues_modularity"
           (sequence_of eval_spectrum_modularity) acc) (fun acc =>
  add_feature graph "eigenvalues_laplacian"
    (sequence_of eval_spectrum_laplacian) acc))).

(** The passes of a sequential run, one graph after the other in one
    process: each starts from the tables the previous one left. *)
Fixpoint passes (graphs : list GraphObj) : M (list features) :=
  match graphs with
  | [] => ret []
  | graph :: rest =>
      mbind (compute_features graph) (fun fs =>
      mbind (passes rest) (fun others => ret (fs :: others)))
  end.

End Memo.

End Spectrum.

(** ** [hcga/Operations/communities_asyn_fluid.py] *)

Module AsynFluid.

Definition node : Type := nat.

(** A networkx graph: whether it is a [DiGraph], and its adjacency, one
    entry per node in insertion order. *)
Record Graph : Type := {
  is_directed : bool;
  adj : dict node (list node)
}.

(** [list(G)] *)
Definition nodes (G : Graph) : list node := keys (adj G).

(** [len(G)] *)
Definition len (G : Graph) : Z := Z.of_nat (List.length (adj G)).

(** [G[vertex]] *)
Definition neighbors (G : Graph) (vertex : node) : result (list node) :=
  getitem (adj G) vertex.

(** *** [networkx.algorithms.components.is_connected] *)

(** One level of the breadth-first search: the nodes of [thislevel] not seen
    yet are marked, and their neighbours make up the next level. *)
Definition bfs_level (G : Graph) (thislevel seen : list node)
  : list node * list node :=
  fold_left
    (fun st v =>
       let '(nextlevel, seen) := st in
       if list_contains seen v then (nextlevel, seen)
       else
         match neighbors G v with
         | Ok ns => (nextlevel ++ ns, v :: seen)
         | Raise _ => (nextlevel, v :: seen)
         end)
    thislevel ([], seen).

Fixpoint plain_bfs (fuel : nat) (G : Graph) (level seen : list node)
  : list node :=
  match fuel with
  | O => seen
  | S fuel' =>
      match level with
      | [] => seen
      | _ =>
          let '(nextlevel, seen') := bfs_level G level seen in
          plain_bfs fuel' G nextlevel seen'
      end
  end.

Definition is_connected (G : Graph) : result bool :=
  if is_directed G then Raise NetworkXNotImplemented
  else
    match nodes G with
    | [] => Raise NetworkXPointlessConcept
    | source :: _ =>
        let seen := plain_bfs (S (S (List.length (adj G)))) G [source] [] in
        Ok (List.length seen =? List.length (adj G))
    end.

(** *** the partitioner *)

(** The argument [k] as Python hands it over: an [int], or anything else. *)
Inductive pyobj : Type :=
| PyInt (z : Z)
| PyOther.

Definition foldM {S A} (f : S -> A -> result S) : list A -> S -> result S :=
  fix go (l : list A) (s : S) : result S :=
    match l with
    | [] => Ok s
    | x :: rest => s' <- f s x ;; go rest s'
    end.

(** [max(l)] of a non-empty list of floats: the first greatest element *)
Definition qmax (l : list Q) : Q :=
  match l with
  | [] => 0%Q
  | x :: rest =>
      fold_left (fun m y => match (m ?= y)%Q with Lt => y | _ => m end) rest x
  end.

Definition qltb (a b : Q) : bool :=
  match (a ?= b)%Q with Lt => true | _ => false end.

(** [Counter.update({elem: count})] *)
Definition counter_update (c : dict Z Q) (elem : Z) (count : Q) : dict Z Q :=
  match c with
  | [] => [(elem, count)]
  | _ =>
      match getitem c elem with
      | Ok old => setitem c elem (count + old)%Q
      | Raise _ => setitem c elem (count + 0)%Q
      end
  end.

(** [max_density / n] for an [int] [n] *)
Definition max_density : Q := 1%Q.

Definition density_of (n : Z) : result Q :=
  if (n =? 0)%Z then Raise ZeroDivisionError
  else Ok (max_density / inject_Z n)%Q.

(** [networkx.utils.groups]: the keys of a dictionary grouped by value, in
    the order in which the values first occur; a group is a set. *)
Definition groups (many_to_one : dict node Z) : dict Z (list node) :=
  fold_left
    (fun one_to_many vk =>
       let '(v, k) := vk in
       match getitem one_to_many k with
       | Ok s =>
           setitem one_to_many k (if list_contains s v then s else s ++ [v])
       | Raise _ => setitem one_to_many k [v]
       end)
    many_to_one [].

Definition default_max_iter : Z := 100.

Section Partitioner.

(** The random generator [seed], threaded through its two uses. *)
Variable RandomState : Type.
Variable shuffle : RandomState -> list node -> list node * RandomState.
Variable choice : RandomState -> list Z -> Z * RandomState.

Record State : Type := {
  communities : dict node Z;
  density : dict Z Q;
  com_to_numvertices : dict Z Z;
  seed : RandomState;
  cont : bool;
  iter_count : Z
}.

(** the "Initial checks" *)
Definition initial_checks (G : Graph) (k : pyobj) : result Z :=
  match k with
  | PyOther => Raise (NetworkXError "k must be an integer.")
  | PyInt k =>
      if negb (k >? 0)%Z
      then Raise (NetworkXError "k must be greater than 0.")
      else
        connected <- is_connected G ;;
        if negb connected
        then Raise (NetworkXError "Fluid Communities require connected Graphs.")
        else if (len G <? k)%Z
        then Raise (NetworkXError "k cannot be bigger than the number of nodes.")
        else Ok k
  end.

(** [{n: i for i, n in enumerate(vertices[:k])}] *)
Definition enumerate_communities (vertices : list node) (k : Z)
  : dict node Z :=
  fst (fold_left
         (fun acc n => (setitem (fst acc) n (snd acc), (snd acc + 1)%Z))
         (firstn (Z.to_nat k) vertices) ([], 0%Z)).

(** the "Initialization", up to the control variables *)
Definition initialize (G : Graph) (k : Z) (rng : RandomState)
  : result State :=
  let '(vertices, rng) := shuffle rng (nodes G) in
  let communities := enumerate_communities vertices k in
  '(density, com_to_numvertices) <-
    foldM (fun acc vertex =>
             let '(density, com_to_numvertices) := acc in
             com <- getitem communities vertex ;;
             let com_to_numvertices := setitem com_to_numvertices com 1%Z in
             com' <- getitem communities vertex ;;
             Ok (setitem density com' max_density, com_to_numvertices))
          (keys communities) ([], []) ;;
  Ok {| communities := communities;
        density := density;
        com_to_numvertices := com_to_numvertices;
        seed := rng;
        cont := true;
        iter_count := 0 |}.

(** [try: com_counter.update({communities[v]: density[communities[v]]})]
    with its handler, which leaves the counter as it is *)
Definition count_vote (st : State) (com_counter : dict Z Q) (v : node)
  : result (dict Z Q) :=
  except_KeyError
    (com <- getitem (communities st) v ;;
     d <- getitem (density st) com ;;
     Ok (counter_update com_counter com d))
    (Ok com_counter).

(** the body of [for vertex in vertices] *)
Definition update_vertex (G : Graph) (st : State) (vertex : node)
  : result State :=
  (* Updating rule *)
  com_counter <- count_vote st [] vertex ;;
  ns <- neighbors G vertex ;;
  com_counter <- foldM (count_vote st) ns com_counter ;;
  (* Check which is the community with highest density *)
  let new_com := (-1)%Z in
  if 0 <? List.length (keys com_counter) then
    let max_freq := qmax (values com_counter) in
    let best_communities :=
      keys (filter (fun cf => qltb (max_freq - snd cf)%Q (1 # 10000)%Q)
                   com_counter) in
    new_com <-
      except_KeyError
        (com <- getitem (communities st) vertex ;;
         Ok (if list_contains best_communities com then com else new_com))
        (Ok new_com) ;;
    if (new_com =? -1)%Z then
      (* the vertex changes community *)
      '(new_com, rng) <-
        match best_communities with
        | [] => Raise IndexError
        | _ => Ok (choice (seed st) best_communities)
        end ;;
      '(com_to_numvertices, density) <-
        except_KeyError
          (old <- getitem (communities st) vertex ;;
           n <- getitem (com_to_numvertices st) old ;;
           let com_to_numvertices :=
             setitem (com_to_numvertices st) old (n - 1)%Z in
           n' <- getitem com_to_numvertices old ;;
           d <- density_of n' ;;
           Ok (com_to_numvertices, setitem (density st) old d))
          (Ok (com_to_numvertices st, density st)) ;;
      let communities := setitem (communities st) vertex new_com in
      n <- getitem com_to_numvertices new_com ;;
      let com_to_numvertices :=
        setitem com_to_numvertices new_com (n + 1)%Z in
      n' <- getitem com_to_numvertices new_com ;;
      d <- density_of n' ;;
      Ok {| communities := communities;
            density := setitem density new_com d;
            com_to_numvertices := com_to_numvertices;
            seed := rng;
            cont := true;
            iter_count := iter_count st |}
    else Ok st
  else Ok st.

(** one turn of [while cont], up to the test of [max_iter] *)
Definition sweep (G : Graph) (st : State) : result State :=
  let '(vertices, rng) := shuffle (seed st) (nodes G) in
  foldM (update_vertex G) vertices
        {| communities := communities st;
           density := density st;
           com_to_numvertices := com_to_numvertices st;
           seed := rng;
           cont := false;
           iter_count := (iter_count st + 1)%Z |}.

(** [while cont: ...], by recursion on a number of turns; [None] when the
    turns granted do not reach the end of the loop *)
Fixpoint while_cont (fuel : nat) (G : Graph) (max_iter : Z) (st : State)
  : option (result State) :=
  if cont st then
    match fuel with
    | O => None
    | S fuel' =>
        match sweep G st with
        | Raise e => Some (Raise e)
        | Ok st' =>
            if (iter_count st' >? max_iter)%Z then Some (Ok st')
            else while_cont fuel' G max_iter st'
        end
    end
  else Some (Ok st).

(** The state in which [asyn_fluidc] leaves its loop. *)
Definition asyn_fluidc_run (G : Graph) (k : pyobj) (max_iter : Z)
    (rng : RandomState) : option (result State) :=
  match initial_checks G k with
  | Raise e => Some (Raise e)
  | Ok k =>
      match initialize G k rng with
      | Raise e => Some (Raise e)
      | Ok st => while_cont (S (Z.to_nat max_iter)) G max_iter st
      end
  end.

(** what the [return] statement builds from that state *)
Definition results (st : State) : list (list node) * list Q :=
  (values (groups (communities st)), values (density st)).

(** [asyn_fluidc(G, k, max_iter, seed)] *)
Definition asyn_fluidc (G : Graph) (k : pyobj) (max_iter : Z)
    (rng : RandomState) : option (result (list (list node) * list Q)) :=
  match asyn_fluidc_run G k max_iter rng with
  | None => None
  | Some (Raise e) => Some (Raise e)
  | Some (Ok st) => Some (Ok (results st))
  end.

End Partitioner.

(** *** [AsynfluidCommunities.feature_extraction], the sizes it reads *)

(** [np.argmax] and [np.argmin]: the first position of an extremum *)
Fixpoint arg_best (better : Q -> Q -> bool) (l : list Q) (i best_i : nat)
    (best : Q) : nat :=
  match l with
  | [] => best_i
  | x :: rest =>
      if better x best then arg_best better rest (S i) i x
      else arg_best better rest (S i) best_i best
  end.

Definition argmax (l : list Q) : nat :=
  match l with
  | [] => 0
  | x :: rest => arg_best (fun a b => qltb b a) rest 1 0 x
  end.

(** [len(c[np.argmax(density)])], the feature [most_dense_i] *)
Definition most_dense (c : list (list node)) (density : list Q) : result nat :=
  match nth_error c (argmax density) with
  | Some g => Ok (List.length g)
  | None => Raise IndexError
  end.

End AsynFluid.

(** ** The part of numpy that the classes of [hcga/Operations] use *)

Module Numpy.

(** [sum(l)] on floats *)
Definition sum (l : list Q) : Q := fold_left Qplus l 0%Q.

Definition count (l : list Q) : Q := inject_Z (Z.of_nat (List.length l)).

(** the finite entries of an array of floats: [a[np.isfinite(a)]] *)
Fixpoint finite (a : list value) : list Q :=
  match a with
  | [] => []
  | Fin q :: rest => q :: finite rest
  | _ :: rest => finite rest
  end.

(** [np.max(l)] and [np.min(l)], which refuse an empty sequence *)
Definition qmin (l : list Q) : Q :=
  match l with
  | [] => 0%Q
  | x :: rest =>
      fold_left (fun m y => match (y ?= m)%Q with Lt => y | _ => m end) rest x
  end.

Definition np_max (l : list Q) : result Q :=
  match l with
  | [] => Raise ValueError
  | _ => Ok (AsynFluid.qmax l)
  end.

Definition np_min (l : list Q) : result Q :=
  match l with
  | [] => Raise ValueError
  | _ => Ok (qmin l)
  end.

(** [np.mean(l)]: not-a-number, with a warning, on an empty sequence *)
Definition np_mean (l : list Q) : value :=
  match l with
  | [] => NaN
  | _ => Fin (sum l / count l)%Q
  end.

(** [np.std(l)]: the root of the mean of the squared deviations *)
Definition np_std (l : list Q) : root :=
  match l with
  | [] => Sqrt NaN
  | _ =>
      let avg := (sum l / count l)%Q in
      Sqrt (Fin (sum (map (fun x => (x - avg) * (x - avg))%Q l) / count l)%Q)
  end.

(** [np.median(l)]: the middle of the sorted values, the mean of the two
    middle ones when their number is even *)
Fixpoint insert (x : Q) (l : list Q) : list Q :=
  match l with
  | [] => [x]
  | y :: rest => if Qle_bool x y then x :: l else y :: insert x rest
  end.

Definition sort (l : list Q) : list Q := fold_right insert [] l.

Definition np_median (l : list Q) : value :=
  match l with
  | [] => NaN
  | _ =>
      let sorted := sort l in
      let n := List.length l in
      if Nat.even n
      then Fin ((nth (n / 2 - 1) sorted 0 + nth (n / 2) sorted 0) / 2)%Q
      else Fin (nth (n / 2) sorted 0%Q)
  end.

End Numpy.

(** ** What the classes of [hcga/Operations] have in common *)

Module Operations.

Section Features.

(** What a fit of a distribution returns is a model; its type is a
    parameter, as is [hcga/Operations/utils.py], which is not among the
    sources. *)
Variable Model : Type.

Inductive feature : Type :=
| Number (v : value)
| Deviation (r : root)
| Fitted (m : Model).

(** The body of a [try] writes into [feature_list] as it goes: what it has
    written before it raises is there when the handler runs. *)
Definition Body (A : Type) : Type :=
  dict string feature -> result A * dict string feature.

Definition done : Body unit := fun fl => (Ok tt, fl).

Definition assign (name : string) (v : feature) : Body unit :=
  fun fl => (Ok tt, setitem fl name v).

Definition eval {A} (r : result A) : Body A := fun fl => (r, fl).

Definition and_then {A B} (m : Body A) (f : A -> Body B) : Body B :=
  fun fl =>
    match m fl with
    | (Ok a, fl') => f a fl'
    | (Raise e, fl') => (Raise e, fl')
    end.

(** [try: body except: handler], the handler of every exception *)
Definition try_except {A} (body handler : Body A) : Body A :=
  fun fl =>
    match body fl with
    | (Ok a, fl') => (Ok a, fl')
    | (Raise _, fl') => handler fl'
    end.

End Features.

Arguments Number {Model} v.
Arguments Deviation {Model} r.
Arguments Fitted {Model} m.
Arguments done {Model}.
Arguments eval {Model A} r.

End Operations.

(** ** [feature_extraction] with [with_runtimes=True] *)

Module Runtimes.

Import FeatureExtraction.

Section Timed.

Variable Graph : Type.

(** [time.time()]: the clock is read, and has moved on by the next
    reading. *)
Variable Clock : Type.
Variable time : Clock -> Q * Clock.

(** The loop of [feature_extraction] when [with_runtimes] is set: the clock
    is read before a class is run and after it, and the difference is filed
    under the shortname of the class. *)
Fixpoint feature_extraction_loop (graph : Graph)
    (list_feature_classes : list (FeatureClass Graph))
    (all_features : Bundle) (runtimes : dict string Q) (clock : Clock)
  : result (Bundle * dict string Q) * Clock :=
  match list_feature_classes with
  | [] => (Ok (all_features, runtimes), clock)
  | feature_class :: rest =>
      let '(start_time, clock) := time clock in
      match update_features feature_class graph all_features with
      | Raise e => (Raise e, clock)
      | Ok all_features =>
          let '(end_time, clock) := time clock in
          let runtimes :=
            setitem runtimes (shortname feature_class)
                    (end_time - start_time)%Q in
          feature_extraction_loop graph rest all_features runtimes clock
      end
  end.

(** [feature_extraction(graph, list_feature_classes, with_runtimes=True)] *)
Definition feature_extraction (graph : Graph)
    (list_feature_classes : list (FeatureClass Graph)) (clock : Clock)
  : result (Bundle * dict string Q) * Clock :=
  feature_extraction_loop graph list_feature_classes [] [] clock.

End Timed.

End Runtimes.

(** ** [AsynfluidCommunities.feature_extraction] *)

Module Communities.

Import AsynFluid Numpy.

Definition argmin (l : list Q) : nat :=
  match l with
  | [] => 0
  | x :: rest => arg_best (fun a b => qltb a b) rest 1 0 x
  end.

(** [len(c[np.argmin(density)])], the feature [least_dense_i] *)
Definition least_dense (c : list (list node)) (density : list Q)
  : result nat :=
  match nth_error c (argmin density) with
  | Some g => Ok (List.length g)
  | None => Raise IndexError
  end.

(** [len(c[0]) / len(c[1])], a division of two [int]s *)
Definition num_nodes_ratio (c : list (list node)) : result value :=
  match nth_error c 0 with
  | None => Raise IndexError
  | Some c0 =>
      match nth_error c 1 with
      | None => Raise IndexError
      | Some c1 =>
          if List.length c1 =? 0 then Raise ZeroDivisionError
          else Ok (Fin (inject_Z (Z.of_nat (List.length c0))
                        / inject_Z (Z.of_nat (List.length c1)))%Q)
      end
  end.

(** [str(i)] for the numbers of one digit that [range(2, kmax)] yields *)
Definition str (i : nat) : string :=
  String (Ascii.ascii_of_nat (48 + i)) EmptyString.

Definition of_nat (n : nat) : value := Fin (inject_Z (Z.of_nat n)).

Definition kmax : nat := 10.

Definition qual_names : list string :=
  [ "mod"; "coverage"; "performance"; "inter_comm_edge";
    "inter_comm_nedge"; "intra_comm_edge" ]%string.

(** [for j in range(len(qual_names)):
       feature_list[qual_names[j] + '_' + str(i)] = qual_vals[j]] *)
Fixpoint add_quality (qual_names : list string) (qual_vals : list value)
    (i : nat) (feature_list : dict string value)
  : result (dict string value) :=
  match qual_names with
  | [] => Ok feature_list
  | name :: names =>
      match qual_vals with
      | [] => Raise IndexError
      | val :: vals =>
          add_quality names vals i
            (setitem feature_list (name ++ "_" ++ str i)%string val)
      end
  end.

(** the branch of the directed graphs: every feature is not-a-number *)
Definition all_nan (i : nat) (feature_list : dict string value)
  : dict string value :=
  let feature_list :=
    setitem feature_list ("total_density_" ++ str i)%string NaN in
  let feature_list :=
    setitem feature_list ("ratio_density_" ++ str i)%string NaN in
  let feature_list :=
    setitem feature_list ("most_dense_" ++ str i)%string NaN in
  let feature_list :=
    setitem feature_list ("least_dense_" ++ str i)%string NaN in
  let feature_list :=
    fold_left (fun fl name => setitem fl (name ++ "_" ++ str i)%string NaN)
              qual_names feature_list in
  setitem feature_list ("num_nodes_ratio_" ++ str i)%string NaN.

Section Features.

(** The generator that [asyn_fluidc] falls back on when it is given no
    seed, which one call leaves to the next. *)
Variable RandomState : Type.
Variable shuffle : RandomState -> list node -> list node * RandomState.
Variable choice : RandomState -> list Z -> Z * RandomState.

(** [hcga/Operations/utils.py] is not among the sources; what its
    [clustering_quality(G, c)] returns, or raises, is a parameter. *)
Variable clustering_quality :
  Graph -> list (list node) -> result (list string * list value).

(** what the body of [for i in range(2, kmax)] makes of the communities
    and densities that [asyn_fluidc] returned *)
Definition community_features (G : Graph) (i : nat)
    (c : list (list node)) (density : list Q)
    (feature_list : dict string value) : result (dict string value) :=
  (* total density *)
  let feature_list :=
    setitem feature_list ("total_density_" ++ str i)%string
            (Fin (sum density)) in
  (* ratio density *)
  lowest <- np_min density ;;
  highest <- np_max density ;;
  let feature_list :=
    setitem feature_list ("ratio_density_" ++ str i)%string
            (vdiv (Fin lowest) (Fin highest)) in
  (* length of most dense community *)
  most <- most_dense c density ;;
  let feature_list :=
    setitem feature_list ("most_dense_" ++ str i)%string (of_nat most) in
  (* length of least dense community *)
  least <- least_dense c density ;;
  let feature_list :=
    setitem feature_list ("least_dense_" ++ str i)%string (of_nat least) in
  (* clustering quality functions *)
  '(qual_names, qual_vals) <- clustering_quality G c ;;
  feature_list <- add_quality qual_names qual_vals i feature_list ;;
  (* size ratio of the first two communities *)
  ratio <- num_nodes_ratio c ;;
  Ok (setitem feature_list ("num_nodes_ratio_" ++ str i)%string ratio).

(** the loop [for i in range(2, kmax)] of the undirected graphs; [None]
    when a call of [asyn_fluidc] is not granted the turns it needs *)
Fixpoint for_each_k (G : Graph) (range : list nat)
    (feature_list : dict string value) (rng : RandomState)
  : option (result (dict string value * RandomState)) :=
  match range with
  | [] => Some (Ok (feature_list, rng))
  | i :: rest =>
      (* if not enough nodes, as many communities as nodes *)
      let k := if (Z.of_nat i >? len G)%Z then len G else Z.of_nat i in
      match asyn_fluidc_run shuffle choice G (PyInt k) default_max_iter rng
      with
      | None => None
      | Some (Raise e) => Some (Raise e)
      | Some (Ok st) =>
          let '(c, density) := results st in
          match community_features G i c density feature_list with
          | Raise e => Some (Raise e)
          | Ok feature_list => for_each_k G rest feature_list (seed st)
          end
      end
  end.

(** [AsynfluidCommunities(G).feature_extraction()]: the dictionary that
    ends up in [self.features] *)
Definition feature_extraction (G : Graph) (rng : RandomState)
  : option (result (dict string value * RandomState)) :=
  if negb (is_directed G) then
    for_each_k G (seq 2 (kmax - 2)) [] rng
  else
    Some (Ok (fold_left (fun fl i => all_nan i fl) (seq 2 (kmax - 2)) [],
              rng)).

End Features.

End Communities.

(** ** [hcga/Operations/vitality.py] *)

Module Vitality.

Import AsynFluid Numpy Operations.

Section Features.

Variable Graph : Type.

(** [nx.closeness_vitality(G)]: a float for every node, or an exception *)
Variable closeness_vitality : Graph -> result (dict node value).

(** [hcga/Operations/utils.py] is not among the sources;
    [best_fit_distribution(data, bins)] is a parameter, which returns a
    fitted model and its error, or raises. *)
Variable Model : Type.
Variable best_fit_distribution : list Q -> nat -> result (Model * value).

(** either handler: the six features are not-a-number *)
Definition all_nan : Body Model unit :=
  and_then (assign "closeness_mean" (Number NaN)) (fun _ =>
  and_then (assign "closeness_std" (Number NaN)) (fun _ =>
  and_then (assign "closeness_median" (Number NaN)) (fun _ =>
  and_then (assign "closeness_max" (Number NaN)) (fun _ =>
  and_then (assign "closeness_min" (Number NaN)) (fun _ =>
  assign "opt_mod" (Number NaN)))))).

(** [len(a) / len(b)], a division of two [int]s *)
Definition ratio (a b : nat) : result Q :=
  if b =? 0 then Raise ZeroDivisionError
  else Ok (inject_Z (Z.of_nat a) / inject_Z (Z.of_nat b))%Q.

(** the inner [try] *)
Definition standard_measures (fin : list Q) : Body Model unit :=
  and_then (assign "closeness_mean" (Number (np_mean fin))) (fun _ =>
  and_then (assign "closeness_std" (Deviation (np_std fin))) (fun _ =>
  and_then (assign "closeness_median" (Number (np_median fin))) (fun _ =>
  and_then (eval (np_max fin)) (fun highest =>
  and_then (assign "closeness_max" (Number (Fin highest))) (fun _ =>
  and_then (eval (np_min fin)) (fun lowest =>
  and_then (assign "closeness_min" (Number (Fin lowest))) (fun _ =>
  (* fit distribution *)
  and_then (eval (best_fit_distribution fin 10)) (fun fit =>
  assign "opt_mod" (Fitted (fst fit)))))))))).

(** the outer [try] *)
Definition measures (closeness_vitality_vals : list value)
  : Body Model unit :=
  try_except
    ((* remove infinites *)
     let closeness_vitality_vals_fin := finite closeness_vitality_vals in
     (* ratio of finite nodes to infinite vitality nodes *)
     and_then (eval (ratio (List.length closeness_vitality_vals_fin)
                           (List.length closeness_vitality_vals)))
       (fun ratio_finite =>
          try_except (standard_measures closeness_vitality_vals_fin)
                     all_nan))
    all_nan.

(** [Vitality(G).feature_extraction()]: the dictionary that ends up in
    [self.features] *)
Definition feature_extraction (G : Graph)
  : result (dict string (feature Model)) :=
  vitality <- closeness_vitality G ;;
  let closeness_vitality_vals := values vitality in
  let '(outcome, feature_list) := measures closeness_vitality_vals [] in
  _ <- outcome ;;
  Ok feature_list.

End Features.

End Vitality.

(** ** [hcga/Operations/shortest_paths.py] *)

Module ShortestPaths.

Import AsynFluid Numpy.

(** [np.mean] of a list of floats that may hold a not-a-number *)
Definition np_mean_floats (l : list value) : value :=
  match l with
  | [] => NaN
  | _ => vdiv_count (vsum l) (List.length l)
  end.

(** [len(p)] as a number *)
Definition path_len (p : list node) : Q := inject_Z (Z.of_nat (List.length p)).

Section Features.

(** [nx.shortest_path(G)]: for every source, a dictionary from the targets
    it reaches to a path, which is a list of nodes that begins with the
    source and ends with the target. *)
Variable shortest_path : Graph -> dict node (dict node (list node)).

(** the loop [for i in G.nodes()] *)
Fixpoint for_each_node (shortest_paths : dict node (dict node (list node)))
    (nodes : list node)
    (shortest_path_length_mean : list value)
    (shortest_path_length_max : list Q)
  : result (list value * list Q) :=
  match nodes with
  | [] => Ok (shortest_path_length_mean, shortest_path_length_max)
  | i :: rest =>
      paths <- getitem shortest_paths i ;;
      let sp := values paths in
      let shortest_path_length := map path_len sp in
      let shortest_path_length_mean :=
        shortest_path_length_mean ++ [np_mean shortest_path_length] in
      highest <- np_max shortest_path_length ;;
      for_each_node shortest_paths rest shortest_path_length_mean
                    (shortest_path_length_max ++ [highest])
  end.

(** [ShortestPaths(G).feature_extraction()]: the dictionary that ends up
    in [self.features] *)
Definition feature_extraction (G : Graph) : result (dict string value) :=
  let feature_list : dict string value := [] in
  let shortest_paths := shortest_path G in
  '(shortest_path_length_mean, shortest_path_length_max) <-
    for_each_node shortest_paths (nodes G) [] [] ;;
  let feature_list :=
    setitem feature_list "path_length_mean"%string
            (np_mean_floats shortest_path_length_mean) in
  let feature_list :=
    setitem feature_list "path_length_mean_max"%string
            (np_mean shortest_path_length_max) in
  highest <- np_max shortest_path_length_max ;;
  Ok (setitem feature_list "path_length_max"%string (Fin highest)).

End Features.

End ShortestPaths.

(** ** [hcga/dataset_creation/test_dataset.py] *)

Module TestDataset.

Import AsynFluid.

(** the values of the attributes that the file sets *)
Inductive attr : Type :=
| Text (s : string)
| Int (z : Z)
| Array (a : list Q).

(** What the file reads and writes of a networkx graph: [G.graph], the
    nodes with their attributes, the edges. *)
Record GraphData : Type := {
  directed : bool;
  graph : dict string attr;
  node_attrs : dict node (dict string attr);
  edges : list (node * node)
}.

(** Graphs are objects: the list [graphs] holds references, and a graph
    that is appended twice is one object listed twice.  The store holds
    the objects, a reference is a position in it. *)
Definition Heap : Type := list GraphData.
Definition ref : Type := nat.

Definition new_object (g : GraphData) (h : Heap) : ref * Heap :=
  (List.length h, h ++ [g]).

Fixpoint update (h : Heap) (r : ref) (f : GraphData -> GraphData) : Heap :=
  match h, r with
  | [], _ => []
  | g :: rest, O => f g :: rest
  | g :: rest, S r' => g :: update rest r' f
  end.

(** [g.graph[key] = v] *)
Definition set_graph_attr (key : string) (v : attr) (g : GraphData)
  : GraphData :=
  {| directed := directed g;
     graph := setitem (graph g) key v;
     node_attrs := node_attrs g;
     edges := edges g |}.

(** [g.nodes[u][key] = v] *)
Definition set_node_attr (u : node) (key : string) (v : attr)
    (g : GraphData) : GraphData :=
  {| directed := directed g;
     graph := graph g;
     node_attrs :=
       match getitem (node_attrs g) u with
       | Ok attrs => setitem (node_attrs g) u (setitem attrs key v)
       | Raise _ => node_attrs g
       end;
     edges := edges g |}.

(** [nx.Graph()] and [nx.DiGraph()] *)
Definition empty_graph (is_digraph : bool) : GraphData :=
  {| directed := is_digraph; graph := []; node_attrs := []; edges := [] |}.

(** [G.add_node(u, **attrs)] *)
Definition add_node (u : node) (attrs : dict string attr) (g : GraphData)
  : GraphData :=
  {| directed := directed g;
     graph := graph g;
     node_attrs :=
       match getitem (node_attrs g) u with
       | Ok old =>
           setitem (node_attrs g) u
                   (fold_left (fun d kv => setitem d (fst kv) (snd kv))
                              attrs old)
       | Raise _ => setitem (node_attrs g) u attrs
       end;
     edges := edges g |}.

(** [G.add_nodes_from(nodes)] *)
Definition add_nodes_from (nodes : list node) (g : GraphData) : GraphData :=
  fold_left (fun g u => add_node u [] g) nodes g.

(** [G.add_edges_from(edges)], between nodes that are there *)
Definition add_edges_from (new_edges : list (node * node)) (g : GraphData)
  : GraphData :=
  {| directed := directed g;
     graph := graph g;
     node_attrs := node_attrs g;
     edges := edges g ++ new_edges |}.

(** [nx.path_graph(n)], which is also [nx.grid_graph([n])] *)
Definition path_edges (n : nat) : list (node * node) :=
  map (fun i => (i, S i)) (seq 0 (n - 1)).

Definition path_graph (n : nat) : GraphData :=
  add_edges_from (path_edges n) (add_nodes_from (seq 0 n) (empty_graph false)).

Definition grid_graph (n : nat) : GraphData := path_graph n.

(** [range(n)] *)
Definition range (n : Z) : list nat := seq 0 (Z.to_nat n).

Section Dataset.

(** [np.random.rand(n)] and [np.random.randint(low, high, size)], on the
    global generator of numpy *)
Variable RandomState : Type.
Variable rand : RandomState -> nat -> list Q * RandomState.
Variable randint : RandomState -> Z -> Z -> nat -> list Z * RandomState.

(** [hcga/io.py] is not among the sources: what [save_dataset] writes of
    the graphs as they are when it is called, or the exception it raises,
    is a parameter. *)
Variable Disk : Type.
Variable save_dataset :
  list ref -> Heap -> list Z -> string -> string -> Disk -> result Disk.

Record World : Type := {
  heap : Heap;
  random : RandomState;
  disk : Disk
}.

(** [_add_graph_desc(g, desc)] *)
Definition _add_graph_desc (g : ref) (desc : string) (h : Heap)
  : ref * Heap :=
  (g, update h g (set_graph_attr "description" (Text desc))).

(** [add_dummy_node_features(graph)] *)
Definition add_dummy_node_features (graph : ref) (h : Heap)
    (rng : RandomState) : ref * Heap * RandomState :=
  let nodes :=
    match nth_error h graph with
    | Some g => keys (node_attrs g)
    | None => []
    end in
  let '(h, rng) :=
    fold_left
      (fun st u =>
         let '(h, rng) := st in
         let '(feat, rng) := rand rng 10 in
         (update h graph (set_node_attr u "feat" (Array feat)), rng))
      nodes (h, rng) in
  (graph, h, rng).

(** a graph built by the file, described, and appended [n_graphs] times *)
Definition append_times (n_graphs : Z) (G : ref) (desc : string)
    (graphs : list ref) (h : Heap) : list ref * Heap :=
  fold_left
    (fun st _ =>
       let '(graphs, h) := st in
       let '(g, h) := _add_graph_desc G desc h in
       (graphs ++ [g], h))
    (range n_graphs) (graphs, h).

(** the body of the first loop: one, two and three node graphs *)
Definition small_graphs (graphs : list ref) (h : Heap) : list ref * Heap :=
  let '(g, h) := new_object (grid_graph 1) h in
  let '(g, h) := _add_graph_desc g "one-node graph" h in
  let graphs := graphs ++ [g] in
  let '(g, h) := new_object (grid_graph 2) h in
  let '(g, h) := _add_graph_desc g "two-node graph" h in
  let graphs := graphs ++ [g] in
  let '(g, h) := new_object (grid_graph 3) h in
  let '(g, h) := _add_graph_desc g "three-node graph" h in
  (graphs ++ [g], h).

(** [graphs = [add_dummy_node_features(graph) for graph in graphs]] *)
Definition add_features_to_all (graphs : list ref) (h : Heap)
    (rng : RandomState) : list ref * Heap * RandomState :=
  fold_left
    (fun st graph =>
       let '(graphs, h, rng) := st in
       let '(graph, h, rng) := add_dummy_node_features graph h rng in
       (graphs ++ [graph], h, rng))
    graphs ([], h, rng).

(** the function up to the point where the data set is written *)
Definition build (add_features : bool) (n_graphs : Z) (w : World)
  : list ref * list Z * World :=
  let graphs : list ref := [] in
  let h := heap w in
  (* one, two and three node graphs *)
  let '(graphs, h) :=
    fold_left (fun st _ => small_graphs (fst st) (snd st))
              (range n_graphs) (graphs, h) in
  (* no edges *)
  let '(G, h) := new_object (empty_graph false) h in
  let h := update h G (add_node 0 []) in
  let h := update h G (add_node 1 [("weight"%string, Int 2)]) in
  let h := update h G (add_node 2 [("weight"%string, Int 3)]) in
  let '(graphs, h) := append_times n_graphs G "graph without edges" graphs h in
  (* directed graph no weights *)
  let '(G, h) := new_object (empty_graph true) h in
  let h := update h G (add_nodes_from (seq 100 10)) in
  let '(graphs, h) :=
    append_times n_graphs G "directed graph with no weights" graphs h in
  (* directed graph weighted *)
  let '(G, h) := new_object (empty_graph true) h in
  let H := path_graph 10 in
  let h := update h G (add_nodes_from (keys (node_attrs H))) in
  let h := update h G (add_edges_from (edges H)) in
  let '(graphs, h) :=
    append_times n_graphs G "directed graph weighted" graphs h in
  (* adding features to all *)
  let '(graphs, h, rng) :=
    if add_features then add_features_to_all graphs h (random w)
    else (graphs, h, random w) in
  let '(labels, rng) := randint rng 0 2 (List.length graphs) in
  (graphs, labels, {| heap := h; random := rng; disk := disk w |}).

(** [for i, graph in enumerate(graphs): graph.graph['id'] = 1] *)
Definition number_graphs (graphs : list ref) (h : Heap) : Heap :=
  fold_left (fun h graph => update h graph (set_graph_attr "id" (Int 1)))
            graphs h.

(** [make_test_dataset(folder, add_features, write_to_file, n_graphs)] *)
Definition make_test_dataset (folder : string)
    (add_features write_to_file : bool) (n_graphs : Z) (w : World)
  : result (list ref * list Z * World) :=
  let '(graphs, labels, w) := build add_features n_graphs w in
  d <- (if write_to_file
        then save_dataset graphs (heap w) labels "TESTDATA" folder (disk w)
        else Ok (disk w)) ;;
  Ok (graphs, labels,
      {| heap := number_graphs graphs (heap w);
         random := random w;
         disk := d |}).

End Dataset.

End TestDataset.

(** ** [hcga/Operations/node_features.py] *)

Module NodeFeatures.

Import AsynFluid Numpy Operations.

#[local] Open Scope string_scope.

(** [nx.degree(G)[i]]: the number of neighbours, a loop counting twice; in
    a directed graph, the successors and the predecessors *)
Definition degree (G : Graph) (i : node) : result Q :=
  ns <- neighbors G i ;;
  let others :=
    if is_directed G
    then List.length (filter (fun vns => list_contains (snd vns) i) (adj G))
    else List.length (filter (Nat.eqb i) ns) in
  Ok (inject_Z (Z.of_nat (List.length ns + others))).

(** ['{}'.format(b)] for a number of two digits at most *)
Definition digit (n : nat) : string :=
  String (Ascii.ascii_of_nat (48 + n)) EmptyString.

Definition format (b : nat) : string :=
  if (b <? 10)%nat then digit b else digit (b / 10) ++ digit (b mod 10).

(** [a[-2]] *)
Definition second_to_last (a : list value) : result value :=
  match rev a with
  | _ :: x :: _ => Ok x
  | _ => Raise IndexError
  end.

(** [np.vstack([node_matrix, row])]: the rows must be as long as those of
    the matrix *)
Definition vstack (node_matrix : list (list Q)) (row : list Q)
  : result (list (list Q)) :=
  match node_matrix with
  | [] => Ok [row]
  | first :: _ =>
      if (List.length first =? List.length row)%nat
      then Ok (List.app node_matrix [row])
      else Raise ValueError
  end.

(** the entries of a matrix, row after row, and its column [i] *)
Definition entries (node_matrix : list (list Q)) : list Q :=
  List.concat node_matrix.

Definition column (node_matrix : list (list Q)) (i : nat) : list Q :=
  map (fun row => nth i row 0%Q) node_matrix.

(** the mean of a row or of a column that holds a value at least *)
Definition mean (l : list Q) : Q := (sum l / count l)%Q.

Section Features.

Variable Model : Type.

(** [hcga/Operations/utils.py] is not among the sources: what its
    functions [best_fit_distribution(data, bins)] and
    [power_law_fit(data, bins)] return, or raise, is a parameter. *)
Variable best_fit_distribution : list Q -> nat -> result (Model * value).
Variable power_law_fit : list Q -> nat -> result (list value * value).

(** [G.node[i]['feat']]: the features of a node, or the exception raised
    when the node is not there or has none *)
Variable feat : Graph -> node -> result (list Q).

Definition bins : list nat := [10].

(** the six statistics filed under [prefix]: mean, max, min, median, std
    and sum *)
Definition six_statistics (prefix : string) (data : list Q)
  : Body Model unit :=
  and_then (assign (prefix ++ "mean") (Number (np_mean data))) (fun _ =>
  and_then (eval (np_max data)) (fun highest =>
  and_then (assign (prefix ++ "max") (Number (Fin highest))) (fun _ =>
  and_then (eval (np_min data)) (fun lowest =>
  and_then (assign (prefix ++ "min") (Number (Fin lowest))) (fun _ =>
  and_then (assign (prefix ++ "median") (Number (np_median data))) (fun _ =>
  and_then (assign (prefix ++ "std") (Deviation (np_std data))) (fun _ =>
  assign (prefix ++ "sum") (Number (Fin (sum data)))))))))).

(** the four statistics filed under [prefix]: max, min, median and std *)
Definition four_statistics (prefix : string) (data : list Q)
  : Body Model unit :=
  and_then (eval (np_max data)) (fun highest =>
  and_then (assign (prefix ++ "max") (Number (Fin highest))) (fun _ =>
  and_then (eval (np_min data)) (fun lowest =>
  and_then (assign (prefix ++ "min") (Number (Fin lowest))) (fun _ =>
  and_then (assign (prefix ++ "median") (Number (np_median data))) (fun _ =>
  assign (prefix ++ "std") (Deviation (np_std data))))))).

(** the body of [for i in range(len(bins))]: distribution calculations and
    fit *)
Definition fit (prefix : string) (data : list Q) (b : nat)
  : Body Model unit :=
  and_then (eval (best_fit_distribution data b)) (fun best =>
  and_then (assign (prefix ++ "opt_model_" ++ format b)
                   (Fitted (fst best))) (fun _ =>
  and_then (eval (power_law_fit data b)) (fun law =>
  and_then (eval (second_to_last (fst law))) (fun a =>
  and_then (assign (prefix ++ "powerlaw_a_" ++ format b) (Number a))
    (fun _ =>
  and_then (eval (power_law_fit data b)) (fun law =>
  assign (prefix ++ "powerlaw_SSE_" ++ format b) (Number (snd law)))))))).

Fixpoint for_each_bin (prefix : string) (data : list Q) (bins : list nat)
  : Body Model unit :=
  match bins with
  | [] => done
  | b :: rest => and_then (fit prefix data b)
                          (fun _ => for_each_bin prefix data rest)
  end.

(** the handler's counterpart of [six_statistics], [four_statistics] and
    [for_each_bin] *)
Fixpoint all_nan (names : list string) : Body Model unit :=
  match names with
  | [] => done
  | name :: rest => and_then (assign name (Number NaN))
                             (fun _ => all_nan rest)
  end.

Definition fit_names (prefix : string) (bins : list nat) : list string :=
  flat_map (fun b => [ prefix ++ "opt_model_" ++ format b;
                       prefix ++ "powerlaw_a_" ++ format b;
                       prefix ++ "powerlaw_SSE_" ++ format b ])
           bins.

(** what the handler sets to not-a-number, in its order *)
Definition handler_names : list string :=
  List.concat
    [ [ "mean"; "max"; "min"; "median"; "std"; "sum";
        "feat_mean_max"; "feat_mean_min"; "feat_mean_median";
        "feat_mean_std" ];
      fit_names "feat_" bins;
      [ "node_mean_max"; "node_mean_min"; "node_mean_median";
        "node_mean_std" ];
      fit_names "node_" bins;
      [ "norm_mean"; "norm_max"; "norm_min"; "norm_median"; "norm_std" ];
      fit_names "norm_" bins ].

(** [node_matrix = np.array([G.node[0]['feat']])
     for i in range(N): node_matrix = np.vstack([node_matrix, G.node[i]['feat']])] *)
Definition node_rows (G : Graph) (N : nat) : result (list (list Q)) :=
  first <- feat G 0 ;;
  AsynFluid.foldM (fun node_matrix i =>
                     row <- feat G i ;;
                     vstack node_matrix row)
                  (seq 0 N) [first].

(** [[a[i] - b[i] for i in range(N)]] *)
Definition differences (a b : list Q) (N : nat) : result (list Q) :=
  mapM (fun i =>
          match nth_error a i, nth_error b i with
          | Some x, Some y => Ok (x - y)%Q
          | _, _ => Raise IndexError
          end)
       (seq 0 N).

(** the body of the [try]: only for networks with node features *)
Definition feature_statistics (G : Graph) (N : nat) (node_degrees : list Q)
  : Body Model unit :=
  (* matrix of the features of each node *)
  and_then (eval (node_rows G N)) (fun node_matrix =>
  and_then (six_statistics "" (entries node_matrix)) (fun _ =>
  let dim := (List.length node_matrix,
              match node_matrix with
              | [] => 0
              | first :: _ => List.length first
              end) in
  (* the mean of each feature for all nodes *)
  let mean_feat_val_list :=
    map (fun i => mean (column node_matrix i)) (seq 0 (snd dim)) in
  and_then (four_statistics "feat_mean_" mean_feat_val_list) (fun _ =>
  and_then (for_each_bin "feat_" mean_feat_val_list bins) (fun _ =>
  (* the mean feature value for each node *)
  let mean_node_feat_list :=
    map (fun i => mean (nth i node_matrix [])) (seq 0 (fst dim)) in
  and_then (four_statistics "node_mean_" mean_node_feat_list) (fun _ =>
  and_then (for_each_bin "node_" mean_node_feat_list bins) (fun _ =>
  (* the mean of the features of a node, and its degree *)
  and_then (eval (differences mean_node_feat_list node_degrees N))
    (fun mean_node_feat_norm =>
  and_then (six_statistics "norm_" mean_node_feat_norm) (fun _ =>
  for_each_bin "norm_" mean_node_feat_norm bins)))))))).

(** the part of the function that comes before the [try]: the degrees and
    their statistics *)
Definition degree_statistics (G : Graph) : Body Model (list Q) :=
  let N := List.length (adj G) in
  (* degree of each node *)
  and_then (eval (mapM (degree G) (seq 0 N))) (fun node_degrees =>
  and_then (six_statistics "deg_" node_degrees) (fun _ =>
  and_then (for_each_bin "deg_" node_degrees bins) (fun _ =>
  eval (Ok node_degrees)))).

(** the whole function, as a body that may raise *)
Definition features (G : Graph) : Body Model unit :=
  let N := List.length (adj G) in
  and_then (degree_statistics G) (fun node_degrees =>
  try_except (feature_statistics G N node_degrees)
             (all_nan handler_names)).

(** [NodeFeatures(G).feature_extraction()]: the dictionary that ends up
    in [self.features] *)
Definition feature_extraction (G : Graph)
  : result (dict string (feature Model)) :=
  let '(outcome, feature_list) := features G [] in
  _ <- outcome ;;
  Ok feature_list.

End Features.

End NodeFeatures.

(* ================================================================== *)
(** * Part II: inputs used as examples, and the properties as stated *)
(* ================================================================== *)

Module Examples.

Import FeatureExtraction.

#[local] Open Scope string_scope.

(** ** Feature matrices and feature classes *)

(** Three rows, four columns: [A] is constant, [B] holds one infinite
    value, [C] and [D] are finite and vary. *)
Definition synthetic_matrix : DataFrame :=
  [ ("A", [Fin 1; Fin 1; Fin 1]);
    ("B", [Fin 1; PInf; Fin 3]);
    ("C", [Fin 1; Fin 2; Fin 3]);
    ("D", [Fin 2; Fin 5; Fin 4]) ].

(** In these examples a graph is known by its number of nodes. *)
Definition info_of (class_name feature : string) : FeatureInfo :=
  {| feature_name := class_name ++ "_" ++ feature;
     feature_description := feature |}.

(** A class with a constant feature, a feature that is infinite on the
    graph with two nodes, and a feature that varies. *)
Definition basic_compute (g : nat) : result Features :=
  Ok [ ("one", Fin 1);
       ("inverse_gap", if (g =? 2)%nat then PInf else Fin (inject_Z (Z.of_nat g)));
       ("order", Fin (inject_Z (Z.of_nat g))) ].

Definition basic_class : FeatureClass nat :=
  {| modes := ["fast"; "medium"; "slow"];
     shortname := "BS";
     update_features := contract_update_features "BS" basic_compute;
     get_feature_info := info_of "BS" |}.

(** A class whose [compute_features] raises on the graph with two nodes. *)
Definition fragile_compute (g : nat) : result Features :=
  if (g =? 2)%nat then Raise (OtherError "not implemented for this graph")
  else Ok [ ("diameter", Fin (inject_Z (Z.of_nat g))) ].

Definition fragile_class : FeatureClass nat :=
  {| modes := ["fast"];
     shortname := "FR";
     update_features := contract_update_features "FR" fragile_compute;
     get_feature_info := info_of "FR" |}.

(** A class that reports a feature only for graphs with three nodes or
    more. *)
Definition partial_compute (g : nat) : result Features :=
  Ok (("order", Fin (inject_Z (Z.of_nat g)))
        :: (if (3 <=? g)%nat then [("triangles", Fin 1)] else [])).

Definition partial_class : FeatureClass nat :=
  {| modes := ["fast"];
     shortname := "PT";
     update_features := contract_update_features "PT" partial_compute;
     get_feature_info := info_of "PT" |}.

(** A class computed in the medium and slow modes only, like
    [hcga/features/spectrum.py]. *)
Definition slow_compute (g : nat) : result Features :=
  Ok [ ("largest_eigenvalue", Fin (inject_Z (Z.of_nat g))) ].

Definition slow_class : FeatureClass nat :=
  {| modes := ["medium"; "slow"];
     shortname := "SL";
     update_features := contract_update_features "SL" slow_compute;
     get_feature_info := info_of "SL" |}.

(** The canary of the registry: the complete graph on three nodes. *)
Definition canary : nat := 3.

(** Three graphs, the classes [basic_class] and [fragile_class], three
    workers finishing their jobs in the order 2, 0, 1. *)
Definition three_graphs : list nat := [1; 2; 3]%nat.
Definition late_first : list nat := [2; 0; 1]%nat.

(** what [extract] returns for them with [basic_class] alone *)
Definition basic_matrix : DataFrame :=
  Eval vm_compute in
    match extract [basic_class] canary late_first three_graphs 3 "fast" with
    | Ok (features, _) => features
    | Raise _ => []
    end.

Definition basic_info : dict string FeatureInfo :=
  Eval vm_compute in
    match extract [basic_class] canary late_first three_graphs 3 "fast" with
    | Ok (_, info) => info
    | Raise _ => []
    end.

(** Two raw bundles of [partial_class]: the graph with three nodes first,
    then the graph with two nodes, which has no ["triangles"]. *)
Definition mismatched_bundles : list Bundle :=
  [ [ ("PT", [ ("order", Fin 3); ("triangles", Fin 1) ]) ];
    [ ("PT", [ ("order", Fin 2) ]) ] ].

End Examples.

Module Stated.

Import FeatureExtraction.

(** ** The properties of the engine, as the specification words them *)

Definition all_finite (cells : list value) : bool := forallb isfinite cells.

(** every row holds the same value *)
Definition constant (cells : list value) : bool :=
  match cells with
  | [] => true
  | x :: rest => forallb (value_eqb x) rest
  end.

(** no column with a non-finite value, none that is constant *)
Definition clean (df : DataFrame) : bool :=
  forallb (fun nc => all_finite (snd nc) && negb (constant (snd nc))) df.

(** The filter drops exactly the columns that hold a non-finite value or
    are constant. *)
Definition filter_as_stated (df : DataFrame) : DataFrame :=
  filter (fun nc => all_finite (snd nc) && negb (constant (snd nc))) df.

(** what [filter_features] turns out to keep: the columns without missing value whose
    standard deviation is not zero *)
Definition kept (cells : list value) : bool :=
  negb (existsb isna cells) && negb (root_eq_zero (Sqrt (nanvar cells))).

Section Engine.

Variable Graph : Type.
Variable feature_files : list (FeatureClass Graph).
Variable trivial_graph : Graph.

(** *** notions used to word the properties *)

(** [all_features_raw[0][feature_inst.shortname]] *)
Definition reference (all_features_raw : list Bundle) (c : FeatureClass Graph)
  : result Features :=
  first <- match all_features_raw with
           | [] => Raise IndexError
           | raw_0 :: _ => Ok raw_0
           end ;;
  getitem first (shortname c).

Definition column_name (c : FeatureClass Graph) (feature : string) : string :=
  feature_name (get_feature_info c feature).

(** the cell of one raw bundle for one feature of one class *)
Definition cell_of (raw_i : Bundle) (c : FeatureClass Graph) (feature : string)
  : result value :=
  class_features <- getitem raw_i (shortname c) ;;
  getitem class_features feature.

(** the column [name] holds, row by row, the cells of one feature of one
    class whose name the first bundle lists *)
Definition gathered (all_features_raw : list Bundle)
    (classes : list (FeatureClass Graph)) (name : string)
    (cells : list value) : Prop :=
  exists c ref feature,
    In c classes /\ reference all_features_raw c = Ok ref /\
    In feature (keys ref) /\ name = column_name c feature /\
    mapM (fun raw_i => cell_of raw_i c feature) all_features_raw = Ok cells.

(** *** the properties *)

(** [extract] returns the filtered matrix. *)
Definition extract_returns_clean (completion : list nat)
    (graphs : list Graph) (n_workers : Z) (mode : string) : Prop :=
  forall features info,
    extract feature_files trivial_graph completion graphs n_workers mode
      = Ok (features, info) ->
    clean features = true.

(** The matrix has one row per input graph. *)
Definition one_row_per_graph (completion : list nat)
    (graphs : list Graph) (n_workers : Z) (mode : string) : Prop :=
  forall features info,
    extract feature_files trivial_graph completion graphs n_workers mode
      = Ok (features, info) ->
    nrows features = List.length graphs.

(** A class that fails on a graph leaves sentinels under its expected
    names in the bundle of that graph, and the extraction of the graph goes
    on to its end. *)
Definition failure_isolated (graph : Graph)
    (list_feature_classes : list (FeatureClass Graph))
    (failing : FeatureClass Graph) (expected : list string) : Prop :=
  exists bundle feats,
    feature_extraction graph list_feature_classes = Ok bundle /\
    getitem bundle (shortname failing) = Ok feats /\
    forall name, In name expected -> getitem feats name = Ok NaN.

(** A column of the first bundle that a later bundle lacks is filled with
    the sentinel, and the aggregation returns. *)
Definition mismatch_filled (all_features_raw : list Bundle)
    (list_feature_classes : list (FeatureClass Graph)) : Prop :=
  exists features info,
    gather_features all_features_raw list_feature_classes
      = Ok (features, info) /\
    forall feature_inst ref feature i raw_i,
      In feature_inst list_feature_classes ->
      reference all_features_raw feature_inst = Ok ref ->
      In feature (keys ref) ->
      nth_error all_features_raw i = Some raw_i ->
      cell_of raw_i feature_inst feature = Raise KeyError ->
      exists cells,
        getitem features (column_name feature_inst feature) = Ok cells /\
        nth_error cells i = Some NaN.

End Engine.

End Stated.

Module SpectrumStated.

Import Spectrum.

Section Memo.

Variable GraphData : Type.
Variable adjacency_spectrum : GraphData -> result (list value).
Variable modularity_spectrum : GraphData -> result (list value).
Variable laplacian_spectrum : GraphData -> result (list value).

(** *** notions used to word the properties *)

(** the decomposition that each table memoises, and the decorated function
    that reads the table *)
Definition decomposition (f : memoised)
  : GraphData -> result (list value) :=
  match f with
  | SpectrumAdj => adjacency_spectrum
  | SpectrumModularity => modularity_spectrum
  | SpectrumLaplacian => laplacian_spectrum
  end.

Definition eval_spectrum (f : memoised)
  : GraphObj GraphData -> M (list value) :=
  match f with
  | SpectrumAdj => eval_spectrum_adj adjacency_spectrum
  | SpectrumModularity => eval_spectrum_modularity modularity_spectrum
  | SpectrumLaplacian => eval_spectrum_laplacian laplacian_spectrum
  end.

(** every entry of [s] is an entry of [s'] *)
Definition extends (s s' : Caches) : Prop :=
  forall f k v, getitem (cache_of f s) k = Ok v ->
                getitem (cache_of f s') k = Ok v.

Definition tables_empty (s : Caches) : Prop :=
  adj_cache s = [] /\ modularity_cache s = [] /\ laplacian_cache s = [].

(** what [eigenvalue_ratio] makes of an adjacency spectrum *)
Definition ratio_of (a : list value) (i j : nat) : result value :=
  num <- array_getitem a j ;;
  den <- array_getitem a i ;;
  Ok (vdiv num den).

Fixpoint ratios_of (a : list value) (pairs : list (nat * nat))
    (acc : features) : result features :=
  match pairs with
  | [] => Ok acc
  | (i, j) :: rest =>
      v <- ratio_of a i j ;;
      ratios_of a rest (setitem acc (ratio_name i j) (Scalar v))
  end.

(** the tables as the pass of the graph at position [i] finds them, in a
    sequential run that starts with empty tables *)
Definition caches_before (graphs : list (GraphObj GraphData)) (i : nat)
  : Caches :=
  snd (passes adjacency_spectrum modularity_spectrum laplacian_spectrum
         (firstn i graphs) empty_caches).

(** *** the property *)

(** The cache is created fresh for the pass of each graph. *)
Definition fresh_for_each_pass (graphs : list (GraphObj GraphData)) : Prop :=
  forall i, i < List.length graphs ->
    tables_empty (caches_before graphs i).

End Memo.

(** *** an example *)

(** A graph of twelve nodes, whose spectra are taken to be [1, ..., 12],
    and a data set that lists this one object twice, as
    [make_test_dataset] does with each of its hand-made graphs. *)
Definition spectrum_of (n : nat) : list value :=
  map (fun i => Fin (inject_Z (Z.of_nat i))) (seq 1 n).

(** the decomposition of a graph of [n] nodes: networkx refuses the graph
    without nodes *)
Definition spectrum_or_error (n : nat) : result (list value) :=
  match n with
  | 0 => Raise (NetworkXError "Graph has no nodes or edges")
  | _ => Ok (spectrum_of n)
  end.

Definition twelve : GraphObj nat := {| obj_id := 7; obj_data := 12 |}.

Definition same_object_twice : list (GraphObj nat) := [twelve; twelve].

End SpectrumStated.

Module PartitionStated.

Import AsynFluid.

(** *** notions used to word the properties *)

(** [v] can be reached from [u] along the adjacency of [G] *)
Inductive reachable (G : Graph) (u : node) : node -> Prop :=
| reachable_here : reachable G u u
| reachable_step v w ns :
    reachable G u v -> neighbors G v = Ok ns -> In w ns ->
    reachable G u w.

Definition connected (G : Graph) : Prop :=
  forall u v, In u (nodes G) -> In v (nodes G) -> reachable G u v.

(** What networkx maintains of an undirected graph: a node has one entry,
    its neighbours are nodes and are listed once, and adjacency is
    symmetric. *)
Record undirected_graph (G : Graph) : Prop := {
  graph_undirected : is_directed G = false;
  nodes_once : NoDup (nodes G);
  neighbors_are_nodes :
    forall v ns w, neighbors G v = Ok ns -> In w ns -> In w (nodes G);
  neighbors_once :
    forall v ns, neighbors G v = Ok ns -> NoDup ns;
  adjacency_symmetric :
    forall v ns w, neighbors G v = Ok ns -> In w ns ->
      exists ns', neighbors G w = Ok ns' /\ In v ns'
}.

(** every neighbour of a node met is met, or waits in the level *)
Definition frontier_closed (G : Graph) (seen level : list node) : Prop :=
  forall u ns v, In u seen -> neighbors G u = Ok ns -> In v ns ->
                 In v seen \/ In v level.

(** the candidates: the communities whose vote is within the tolerance of
    the greatest *)
Definition best_of (c : dict Z Q) : list Z :=
  keys (filter (fun cf => qltb (qmax (values c) - snd cf)%Q (1 # 10000)%Q) c).

(** the groups split the node set: every node is in one group, once *)
Definition partitions (G : Graph) (groups : list (list node)) : Prop :=
  Permutation (List.concat groups) (nodes G).

(** the groups do not overlap and hold nodes of the graph only *)
Definition disjoint_groups (G : Graph) (groups : list (list node)) : Prop :=
  NoDup (List.concat groups) /\ incl (List.concat groups) (nodes G).

(** position by position, the density of a group times its size is one *)
Definition densities_match (groups : list (list node)) (dens : list Q)
  : Prop :=
  Forall2 (fun g d => (d * inject_Z (Z.of_nat (List.length g)) == 1)%Q)
          groups dens.

Section Partitioner.

Variable RandomState : Type.
Variable shuffle : RandomState -> list node -> list node * RandomState.
Variable choice : RandomState -> list Z -> Z * RandomState.

(** what a random generator does: [shuffle] permutes, [choice] picks an
    element *)
Definition shuffle_permutes : Prop :=
  forall rng l, Permutation (fst (shuffle rng l)) l.

Definition choice_picks : Prop :=
  forall rng l, l <> [] -> In (fst (choice rng l)) l.

(** the node has been given a community *)
Definition assigned (st : State RandomState) (v : node) : Prop :=
  In v (keys (communities st)).

(** what holds of the dictionaries at every point of a run: a node has one
    community at most, only nodes of the graph have one, some node has
    one, and a community that has a member has a density *)
Record sound_state (G : Graph) (st : State RandomState) : Prop := {
  assigned_once : NoDup (keys (communities st));
  assigned_are_nodes : incl (keys (communities st)) (nodes G);
  some_assigned : communities st <> [];
  community_has_density :
    forall v com, getitem (communities st) v = Ok com ->
                  In com (keys (density st))
}.

(** the node has a community, and the community a density *)
Definition votes (st : State RandomState) (w : node) : Prop :=
  exists com d, getitem (communities st) w = Ok com /\
                getitem (density st) com = Ok d.

(** a node is at rest when it has a community, or no neighbour has one *)
Definition at_rest (G : Graph) (st : State RandomState) (v : node)
  : Prop :=
  forall ns w, neighbors G v = Ok ns -> In w ns ->
               assigned st w -> assigned st v.

(** the number of nodes that the dictionary gives the community [c] *)
Definition size (communities : dict node Z) (c : Z) : Z :=
  Z.of_nat (List.length (filter (fun vk => (snd vk =? c)%Z) communities)).

(** the node has the community [c] *)
Definition in_community (st : State RandomState) (c : Z) (w : node) : bool :=
  match getitem (communities st) w with
  | Ok c' => (c' =? c)%Z
  | Raise _ => false
  end.

(** how many nodes of the list have the community [c] *)
Definition tally (st : State RandomState) (c : Z) (l : list node) : Z :=
  Z.of_nat (List.length (filter (in_community st c) l)).

(** What holds of the two tables of numbers when the communities have the
    sizes [sizes]: the tables have the same communities, numbered from
    zero; the number of vertices recorded for a community is its size, and
    is not zero; its density is one over that number. *)
Record counted (sizes : Z -> Z) (density : dict Z Q)
    (com_to_numvertices : dict Z Z) : Prop := {
  same_communities :
    forall c, In c (keys com_to_numvertices) <-> In c (keys density);
  communities_numbered :
    forall c, In c (keys density) -> (0 <= c)%Z;
  count_is_size :
    forall c n, getitem com_to_numvertices c = Ok n ->
                n = sizes c /\ (1 <= n)%Z;
  density_is_inverse :
    forall c n, getitem com_to_numvertices c = Ok n ->
                getitem density c = Ok (max_density / inject_Z n)%Q;
  density_once : NoDup (keys density)
}.

(** at every point of a run, the tables count the nodes of the
    communities *)
Definition counted_state (st : State RandomState) : Prop :=
  counted (size (communities st)) (density st) (com_to_numvertices st).

(** the counter holds, for every community that got a vote, the number of
    its votes times its density *)
Definition tallied (st : State RandomState) (voters : list node)
    (c : dict Z Q) : Prop :=
  NoDup (keys c) /\
  (forall com q, In (com, q) c ->
     exists d, getitem (density st) com = Ok d /\
               (q == inject_Z (tally st com voters) * d)%Q) /\
  (forall com, (1 <= tally st com voters)%Z -> In com (keys c)).

(** no node without a community has a neighbour with one *)
Definition settled (G : Graph) (st : State RandomState) : Prop :=
  forall v ns w,
    In v (nodes G) -> neighbors G v = Ok ns -> In w ns ->
    assigned st w -> assigned st v.

(** the input violates a precondition of the partitioner *)
Definition violates_precondition (G : Graph) (k : pyobj) : Prop :=
  k = PyOther \/
  (exists z, k = PyInt z /\ (z <= 0)%Z) \/
  (exists z, k = PyInt z /\ (len G < z)%Z) \/
  ~ connected G \/
  is_directed G = true.

(** the exceptions of the "Initial checks" *)
Definition precondition_error (e : Exception) : Prop :=
  match e with
  | NetworkXError _ | NetworkXNotImplemented | NetworkXPointlessConcept => True
  | _ => False
  end.

(** *** the properties *)

(** The groups returned partition the node set. *)
Definition returns_partition (G : Graph) (k : pyobj) (max_iter : Z)
    (rng : RandomState) : Prop :=
  forall groups dens,
    asyn_fluidc shuffle choice G k max_iter rng = Some (Ok (groups, dens)) ->
    partitions G groups.

(** No more than [max_iter] sweeps are made. *)
Definition sweeps_within_max_iter (G : Graph) (k : pyobj) (max_iter : Z)
    (rng : RandomState) : Prop :=
  forall st,
    asyn_fluidc_run shuffle choice G k max_iter rng = Some (Ok st) ->
    (iter_count st <= max_iter)%Z.

(** Each returned community has the density one over its size. *)
Definition returns_matching_densities (G : Graph) (k : pyobj) (max_iter : Z)
    (rng : RandomState) : Prop :=
  forall groups dens,
    asyn_fluidc shuffle choice G k max_iter rng = Some (Ok (groups, dens)) ->
    densities_match groups dens.

End Partitioner.

(** *** examples *)

(** A generator that leaves the first list it is given in order, reverses
    every later one, and picks the first candidate.  Its state counts the
    shuffles made. *)
Definition rev_shuffle (rng : nat) (l : list node) : list node * nat :=
  (if rng =? 0 then l else rev l, S rng).

Definition first_choice (rng : nat) (l : list Z) : Z * nat :=
  (hd 0%Z l, rng).

(** the path [0 - 1 - ... - (n-1)] *)
Definition path_graph (n : nat) : Graph :=
  {| is_directed := false;
     adj := map (fun i =>
                   (i, (if i =? 0 then [] else [i - 1])
                         ++ (if S i <? n then [S i] else [])))
                (seq 0 n) |}.

Definition long_path : Graph := path_graph 104.

(** Five nodes: a triangle 0 - 1 - 4 and a tail 0 - 3 - 2. *)
Definition triangle_with_tail : Graph :=
  {| is_directed := false;
     adj := [ (0, [3; 1; 4]); (1, [4; 0]); (2, [3]); (3, [0; 2]);
              (4, [1; 0]) ] |}.

(** two nodes and no edge *)
Definition two_isolated_nodes : Graph :=
  {| is_directed := false; adj := [ (0, []); (1, []) ] |}.

End PartitionStated.

Module Tests.

(** [l] lists nothing twice *)
Fixpoint nodupb {K} `{Key K} (l : list K) : bool :=
  match l with
  | [] => true
  | x :: rest => negb (list_contains rest x) && nodupb rest
  end.

End Tests.

Module EngineNotions.

Import FeatureExtraction Stated.

(** the test of the registry: [mode in feature_class.modes or mode == "all"] *)
Definition selected {Graph : Type} (mode : string) (c : FeatureClass Graph)
  : bool :=
  list_contains (modes c) mode || String.eqb mode "all".

(** what the two dictionaries of [gather_features] keep in step *)
Definition in_step (acc : dict string FeatureInfo * dict string (list value))
  : Prop :=
  keys (fst acc) = keys (snd acc) /\
  NoDup (keys (snd acc)) /\
  forall name fi, getitem (fst acc) name = Ok fi -> feature_name fi = name.

(** the sum of a list of rationals *)
Fixpoint qsum (l : list Q) : Q :=
  match l with
  | [] => 0%Q
  | x :: rest => (x + qsum rest)%Q
  end.

(** one row, three columns: a constant cannot be told from a variable *)
Definition single_row : DataFrame :=
  [ ("A"%string, [Fin 1]); ("B"%string, [NaN]); ("C"%string, [PInf]) ].

End EngineNotions.

Module SpectrumNotions.

Import Spectrum.

(** the number of spectra that the three tables hold *)
Definition entries (s : Caches) : nat :=
  List.length (adj_cache s) + List.length (modularity_cache s)
  + List.length (laplacian_cache s).

(** a table lists a graph object once, and only objects of [ids] *)
Definition listed_once (ids : list nat) (s : Caches) : Prop :=
  forall f, NoDup (keys (cache_of f s)) /\ incl (keys (cache_of f s)) ids.

(** Tables in order: every decomposition started is in a table. *)
Definition tidy (ids : list nat) (s : Caches) : Prop :=
  computed s = entries s /\ listed_once ids s.

(** Tables as a decomposition that raised leaves them: all the
    decompositions started are in a table except the last, which was that
    of an object of [ids] that its table does not list. *)
Definition stopped (ids : list nat) (s : Caches) : Prop :=
  computed s = S (entries s) /\ listed_once ids s /\
  exists f k, In k ids /\ ~ In k (keys (cache_of f s)).

(** how a run leaves tables that it found in order: in order if it
    returns, in order or stopped by a decomposition if it raises *)
Definition left_in_order {A : Type} (ids : list nat)
    (run : result A * Caches) : Prop :=
  match fst run with
  | Ok _ => tidy ids (snd run)
  | Raise _ => tidy ids (snd run) \/ stopped ids (snd run)
  end.

(** the adjacency spectrum that a call on [graph] reads: the one in the
    table if the object is there, the one it computes otherwise, unless
    the decomposition raises *)
Definition spectrum_read {GraphData : Type}
    (adjacency_spectrum : GraphData -> result (list value)) (s : Caches)
    (graph : GraphObj GraphData) : result (list value) :=
  match getitem (adj_cache s) (obj_id graph) with
  | Ok a => Ok a
  | Raise _ => adjacency_spectrum (obj_data graph)
  end.

End SpectrumNotions.

Module PartitionNotions.

Import AsynFluid PartitionStated Tests.

(** a test for [undirected_graph] *)
Definition undirected_graphb (G : Graph) : bool :=
  negb (is_directed G) && nodupb (nodes G) &&
  forallb (fun vns =>
             nodupb (snd vns) &&
             forallb (fun w =>
                        match neighbors G w with
                        | Ok ns' => list_contains ns' (fst vns)
                        | Raise _ => false
                        end)
                     (snd vns))
          (adj G).

(** a dictionary of communities: the nodes 0 and 2 in the community 0, the
    node 1 in the community 1 *)
Definition three_in_two : dict node Z := [ (0, 0%Z); (1, 1%Z); (2, 0%Z) ].

End PartitionNotions.

Module CommunitiesNotions.

Import AsynFluid PartitionStated Communities.

(** the five features that the loop files under its own names for [i] *)
Definition own_names (i : nat) : list string :=
  [ "total_density_" ++ str i; "ratio_density_" ++ str i;
    "most_dense_" ++ str i; "least_dense_" ++ str i;
    "num_nodes_ratio_" ++ str i ]%string.

(** a measure of quality that always answers, with one value *)
Definition one_quality (G : Graph) (c : list (list node))
  : result (list string * list value) :=
  Ok (["mod"%string], [Fin (inject_Z (Z.of_nat (List.length c)))]).

(** one node, no edge *)
Definition one_node : Graph := {| is_directed := false; adj := [ (0, []) ] |}.

End CommunitiesNotions.

Module VitalityNotions.

Import AsynFluid Operations Vitality.

Definition feature_names : list string :=
  [ "closeness_mean"; "closeness_std"; "closeness_median"; "closeness_max";
    "closeness_min"; "opt_mod" ]%string.

(** the feature is the not-a-number that the handlers write *)
Definition is_nan {Model : Type} (f : feature Model) : Prop :=
  f = Number NaN.

(** the feature is a number, a deviation or a model that was computed from
    finite values *)
Definition is_computed {Model : Type} (f : feature Model) : Prop :=
  match f with
  | Number v => isfinite v = true
  | Deviation (Sqrt v) => isfinite v = true
  | Fitted _ => True
  end.

End VitalityNotions.

Module ShortestPathsNotions.

Import AsynFluid ShortestPaths.

(** What networkx answers: every node of the graph is a source, which
    reaches itself at least, and a path holds a node at least. *)
Definition paths_from_every_node (G : Graph)
    (shortest_paths : dict node (dict node (list node))) : Prop :=
  forall i, In i (nodes G) ->
    exists paths, getitem shortest_paths i = Ok paths /\ paths <> [] /\
                  forall p, In p (values paths) -> p <> [].

(** the shortest paths of the graph of two nodes and one edge *)
Definition one_edge : Graph :=
  {| is_directed := false; adj := [ (0, [1]); (1, [0]) ] |}.

Definition one_edge_paths (G : Graph) : dict node (dict node (list node)) :=
  [ (0, [ (0, [0]); (1, [0; 1]) ]); (1, [ (1, [1]); (0, [1; 0]) ]) ].

End ShortestPathsNotions.

Module TestDatasetNotions.

Import TestDataset.

(** The references that [make_test_dataset] lists when the store holds
    [first] objects before the call: [3 * n] graphs made in the first loop,
    then each of the three hand-made graphs [n] times. *)
Definition listed (first n : nat) : list ref :=
  seq first (3 * n)
  ++ repeat (first + 3 * n) n
  ++ repeat (first + 3 * n + 1) n
  ++ repeat (first + 3 * n + 2) n.

(** Of the objects made since the store held [first] objects, the
    dictionary [G.graph] holds a description at most. *)
Definition described_only (first : nat) (h : Heap) : Prop :=
  forall r g, first <= r -> nth_error h r = Some g ->
    forall key, In key (keys (graph g)) -> key = "description"%string.

(** the object has the identifier one *)
Definition numbered_one (h : Heap) (r : ref) : Prop :=
  exists g, nth_error h r = Some g /\
            getitem (graph g) "id"%string = Ok (Int 1).

(** a generator that draws zeros, and a disk that keeps the number of
    graphs written *)
Definition zeros (rng : unit) (n : nat) : list Q * unit := (repeat 0%Q n, tt).

Definition zero_labels (rng : unit) (low high : Z) (n : nat)
  : list Z * unit :=
  (repeat low n, tt).

Definition count_graphs (graphs : list ref) (h : Heap) (labels : list Z)
    (name folder : string) (d : nat) : result nat :=
  Ok (List.length graphs).

Definition empty_world : World unit nat :=
  {| heap := []; random := tt; disk := 0 |}.

End TestDatasetNotions.

Module NodeFeaturesNotions.

Import AsynFluid Operations NodeFeatures.

#[local] Open Scope string_scope.

(** the features of the degrees, in the order in which they are set *)
Definition degree_names : list string :=
  [ "deg_mean"; "deg_max"; "deg_min"; "deg_median"; "deg_std"; "deg_sum";
    "deg_opt_model_10"; "deg_powerlaw_a_10"; "deg_powerlaw_SSE_10" ].

(** fits that always answer, and nodes without features *)
Definition constant_fit (data : list Q) (b : nat) : result (unit * value) :=
  Ok (tt, Fin 0).

Definition constant_law (data : list Q) (b : nat)
  : result (list value * value) :=
  Ok ([Fin 1; Fin 2; Fin 3], Fin 0).

Definition no_feat (G : Graph) (i : node) : result (list Q) :=
  Raise KeyError.

(** every node has the two features [i] and [i + 1] *)
Definition two_feats (G : Graph) (i : node) : result (list Q) :=
  Ok [inject_Z (Z.of_nat i); inject_Z (Z.of_nat (S i))].

(** the graph of two nodes and one edge, and a graph whose nodes are not
    numbered from zero *)
Definition edge_graph : Graph :=
  {| is_directed := false; adj := [ (0, [1]); (1, [0]) ] |}.

Definition renumbered_graph : Graph :=
  {| is_directed := true; adj := [ (100, []); (101, []) ] |}.

End NodeFeaturesNotions.

(* ================================================================== *)
(** * Part III: proofs *)
(* ================================================================== *)

Unset Implicit Arguments.

(** ** Dictionaries and results *)

Module PyFacts.

Section Dict.

Context {K V : Type} `{Key K}.

Lemma key_eqb_refl (k : K) : key_eqb k k = true.
Proof. now apply key_eqb_spec. Qed.

Lemma key_eqb_neq (a b : K) : a <> b -> key_eqb a b = false.
Proof.
  intros Hne. destruct (key_eqb a b) eqn:E; [|reflexivity].
  apply key_eqb_spec in E. contradiction.
Qed.

Lemma key_eq_dec (a b : K) : {a = b} + {a <> b}.
Proof.
  destruct (key_eqb a b) eqn:E.
  - left. now apply key_eqb_spec.
  - right. intros ->. rewrite key_eqb_refl in E. discriminate.
Qed.

Lemma getitem_setitem_same (d : dict K V) k v :
  getitem (setitem d k v) k = Ok v.
Proof.
  induction d as [|[k' v'] d IH]; simpl.
  - now rewrite key_eqb_refl.
  - destruct (key_eqb k' k) eqn:E; simpl; rewrite E; auto.
Qed.

Lemma getitem_setitem_other (d : dict K V) k k' v :
  k <> k' -> getitem (setitem d k v) k' = getitem d k'.
Proof.
  intros Hne. induction d as [|[k0 v0] d IH]; simpl.
  - now rewrite key_eqb_neq.
  - destruct (key_eqb k0 k) eqn:E; simpl.
    + apply key_eqb_spec in E. subst k0. now rewrite key_eqb_neq.
    + destruct (key_eqb k0 k'); auto.
Qed.

Lemma getitem_raises_KeyError (d : dict K V) k e :
  getitem d k = Raise e -> e = KeyError.
Proof.
  induction d as [|[k' v'] d IH]; simpl.
  - congruence.
  - destruct (key_eqb k' k); [discriminate | exact IH].
Qed.

Lemma getitem_Ok_In (d : dict K V) k v :
  getitem d k = Ok v -> In (k, v) d.
Proof.
  induction d as [|[k' v'] d IH]; simpl; [discriminate|].
  destruct (key_eqb k' k) eqn:E.
  - intros [= ->]. apply key_eqb_spec in E. subst. now left.
  - intros Hg. right. auto.
Qed.

Lemma getitem_Ok_keys (d : dict K V) k :
  In k (keys d) <-> exists v, getitem d k = Ok v.
Proof.
  induction d as [|[k' v'] d IH]; simpl.
  - split; [tauto | intros [? ?]; discriminate].
  - destruct (key_eqb k' k) eqn:E.
    + apply key_eqb_spec in E. subst. split; eauto.
    + rewrite IH. split; [intros [->|?]|]; auto.
      rewrite key_eqb_refl in E. discriminate.
Qed.

Lemma getitem_Raise_keys (d : dict K V) k :
  ~ In k (keys d) <-> getitem d k = Raise KeyError.
Proof.
  rewrite getitem_Ok_keys. split.
  - intros Hn. destruct (getitem d k) eqn:E.
    + exfalso. eauto.
    + now rewrite (getitem_raises_KeyError _ _ _ E).
  - intros -> [v ?]. discriminate.
Qed.

Lemma keys_setitem (d : dict K V) k v k' :
  In k' (keys (setitem d k v)) <-> k' = k \/ In k' (keys d).
Proof.
  induction d as [|[k0 v0] d IH]; simpl.
  - intuition.
  - destruct (key_eqb k0 k) eqn:E; simpl.
    + apply key_eqb_spec in E. subst. intuition.
    + rewrite IH. intuition.
Qed.

Lemma In_setitem (d : dict K V) k v k' v' :
  In (k', v') (setitem d k v) -> (k' = k /\ v' = v) \/ In (k', v') d.
Proof.
  induction d as [|[k0 v0] d IH]; simpl.
  - intros [[= -> ->]|[]]. now left.
  - destruct (key_eqb k0 k) eqn:E; simpl.
    + apply key_eqb_spec in E. subst.
      intros [[= -> ->]|Hin]; [now left | right; now right].
    + intros [Heq|Hin]; [right; now left|].
      destruct (IH Hin) as [?|?]; [now left | right; now right].
Qed.

Lemma keys_setitem_present (d : dict K V) k v :
  In k (keys d) -> keys (setitem d k v) = keys d.
Proof.
  induction d as [|[k0 v0] d IH]; simpl; [intros []|].
  destruct (key_eqb k0 k) eqn:E; simpl; [reflexivity|].
  intros [->|Hin]; [rewrite key_eqb_refl in E; discriminate|].
  now rewrite IH.
Qed.

Lemma setitem_absent (d : dict K V) k v :
  ~ In k (keys d) -> setitem d k v = d ++ [(k, v)].
Proof.
  induction d as [|[k0 v0] d IH]; simpl; [reflexivity|].
  intros Hn. destruct (key_eqb k0 k) eqn:E.
  - apply key_eqb_spec in E. subst. exfalso. apply Hn. now left.
  - rewrite IH; [reflexivity|]. intros Hin. apply Hn. now right.
Qed.

Lemma setitem_present (d : dict K V) k v old :
  getitem d k = Ok old ->
  exists l1 l2, d = l1 ++ (k, old) :: l2 /\
                setitem d k v = l1 ++ (k, v) :: l2.
Proof.
  induction d as [|[k0 v0] d IH]; simpl; [discriminate|].
  destruct (key_eqb k0 k) eqn:E.
  - intros [= ->]. apply key_eqb_spec in E. subst.
    exists [], d. split; reflexivity.
  - intros Hg. destruct (IH Hg) as (l1 & l2 & -> & ->).
    exists ((k0, v0) :: l1), l2. split; reflexivity.
Qed.

Lemma NoDup_keys_setitem (d : dict K V) k v :
  NoDup (keys d) -> NoDup (keys (setitem d k v)).
Proof.
  intros Hd. destruct (getitem d k) as [old|e] eqn:Hg.
  - rewrite keys_setitem_present; [assumption|].
    apply getitem_Ok_keys. eauto.
  - rewrite (getitem_raises_KeyError _ _ _ Hg) in Hg.
    apply getitem_Raise_keys in Hg.
    rewrite setitem_absent by assumption.
    unfold keys. rewrite map_app. simpl.
    apply NoDup_app; [assumption | repeat constructor; intros [] |].
    intros x Hx [<-|[]]. contradiction.
Qed.

Lemma setitem_nonempty (d : dict K V) k v : setitem d k v <> [].
Proof.
  destruct d as [|[k0 v0] d]; simpl; [discriminate|].
  destruct (key_eqb k0 k); discriminate.
Qed.

End Dict.

Lemma bind_Ok_inv {A B} (m : result A) (f : A -> result B) b :
  bind m f = Ok b -> exists a, m = Ok a /\ f a = Ok b.
Proof. destruct m; simpl; [eauto | discriminate]. Qed.

Lemma mapM_length {A B} (f : A -> result B) xs ys :
  mapM f xs = Ok ys -> List.length ys = List.length xs.
Proof.
  revert ys. induction xs as [|x xs IH]; simpl; intros ys.
  - now intros [= <-].
  - intros Hb. apply bind_Ok_inv in Hb as (y & _ & Hb).
    apply bind_Ok_inv in Hb as (ys' & Hys & [= <-]).
    simpl. f_equal. auto.
Qed.

Lemma mapM_nth {A B} (f : A -> result B) xs ys i x :
  mapM f xs = Ok ys -> nth_error xs i = Some x ->
  exists y, nth_error ys i = Some y /\ f x = Ok y.
Proof.
  revert ys i. induction xs as [|x0 xs IH]; simpl; intros ys i.
  - destruct i; discriminate.
  - intros Hb. apply bind_Ok_inv in Hb as (y & Hy & Hb).
    apply bind_Ok_inv in Hb as (ys' & Hys & [= <-]).
    destruct i as [|i]; simpl.
    + intros [= <-]. eauto.
    + eauto.
Qed.

Lemma mapM_In {A B} (f : A -> result B) xs ys x :
  mapM f xs = Ok ys -> In x xs -> exists y, f x = Ok y /\ In y ys.
Proof.
  intros Hm Hin. apply In_nth_error in Hin as [i Hi].
  destruct (mapM_nth _ _ _ _ _ Hm Hi) as (y & Hy & Hf).
  exists y. split; [assumption|]. eapply nth_error_In; eauto.
Qed.

(** the first element that raises decides the outcome *)
Lemma mapM_raise {A B} (f : A -> result B) pre x post e :
  (forall p, In p pre -> is_ok (f p) = true) ->
  f x = Raise e ->
  mapM f (pre ++ x :: post) = Raise e.
Proof.
  intros Hpre Hx. induction pre as [|p pre IH]; simpl.
  - now rewrite Hx.
  - pose proof (Hpre p (or_introl eq_refl)) as Hp.
    destruct (f p); [|discriminate]. simpl.
    rewrite IH; [reflexivity|]. intros q Hq. apply Hpre. now right.
Qed.

Lemma mapM_ext_in {A B} (f g : A -> result B) xs :
  (forall x, In x xs -> f x = g x) -> mapM f xs = mapM g xs.
Proof.
  induction xs as [|x xs IH]; simpl; intros Hfg; [reflexivity|].
  rewrite Hfg by now left. rewrite IH; [reflexivity|].
  intros y Hy. apply Hfg. now right.
Qed.

Lemma mapM_raise_inv {A B} (f : A -> result B) xs e :
  mapM f xs = Raise e -> exists x, In x xs /\ f x = Raise e.
Proof.
  induction xs as [|x xs IH]; simpl; [discriminate|].
  destruct (f x) eqn:Hx; simpl.
  - destruct (mapM f xs); simpl; [discriminate|].
    intros [= ->]. destruct IH as (y & Hy & Hfy); [reflexivity|].
    exists y. split; [now right | assumption].
  - intros [= ->]. exists x. split; [now left | assumption].
Qed.

Lemma mapM_Ok_inv {A B} (f : A -> result B) xs ys :
  mapM f xs = Ok ys -> forall x, In x xs -> exists y, f x = Ok y.
Proof.
  intros Hm x Hin. destruct (mapM_In _ _ _ _ Hm Hin) as (y & Hy & _). eauto.
Qed.

Lemma list_contains_In {K} `{Key K} (l : list K) (k : K) :
  list_contains l k = true <-> In k l.
Proof.
  unfold list_contains. rewrite existsb_exists. split.
  - intros (k' & Hin & Heq). apply key_eqb_spec in Heq. now subst.
  - intros Hin. exists k. split; [assumption | apply key_eqb_refl].
Qed.

Lemma list_contains_not_In {K} `{Key K} (l : list K) (k : K) :
  list_contains l k = false <-> ~ In k l.
Proof.
  rewrite <- list_contains_In. destruct (list_contains l k); split;
    congruence.
Qed.

Lemma In_setitem_NoDup {K V} `{Key K} (d : dict K V) k v k' v' :
  NoDup (keys d) -> In (k', v') (setitem d k v) ->
  (k' = k /\ v' = v) \/ (k' <> k /\ In (k', v') d).
Proof.
  induction d as [|[k0 v0] d IH]; simpl.
  - intros _ [[= -> ->]|[]]. now left.
  - intros Hd. inversion Hd as [|? ? Hnot Hd']; subst.
    destruct (key_eqb k0 k) eqn:E; simpl.
    + apply key_eqb_spec in E. subst k0.
      intros [[= -> ->]|Hin]; [now left|]. right. split; [|now right].
      intros ->. apply Hnot. apply (in_map fst) in Hin. exact Hin.
    + intros [[= -> ->]|Hin].
      * right. split; [|now left]. intros ->.
        rewrite key_eqb_refl in E. discriminate.
      * destruct (IH Hd' Hin) as [?|[? ?]]; [now left|]. right.
        split; [assumption | now right].
Qed.

Lemma values_app {K V} (d1 d2 : dict K V) :
  values (d1 ++ d2) = values d1 ++ values d2.
Proof. apply map_app. Qed.

Lemma keys_app {K V} (d1 d2 : dict K V) :
  keys (d1 ++ d2) = keys d1 ++ keys d2.
Proof. apply map_app. Qed.

Lemma values_by_keys {K V} `{Key K} (d : dict K V) (default : V) :
  NoDup (keys d) ->
  values d
  = map (fun k => match getitem d k with Ok v => v | Raise _ => default end)
        (keys d).
Proof.
  induction d as [|[k v] d IH]; simpl; [reflexivity|].
  intros Hd. inversion Hd as [|? ? Hnot Hd']; subst.
  rewrite key_eqb_refl. f_equal. rewrite (IH Hd') at 1.
  apply map_ext_in. intros k' Hk'.
  rewrite key_eqb_neq; [reflexivity|]. intros ->. contradiction.
Qed.

Lemma In_getitem_NoDup {K V} `{Key K} (d : dict K V) k v :
  NoDup (keys d) -> In (k, v) d -> getitem d k = Ok v.
Proof.
  induction d as [|[k' v'] d IH]; simpl; [intros _ []|].
  intros Hd. inversion Hd as [|? ? Hnot Hd']; subst.
  intros [[= -> ->]|Hin].
  - now rewrite key_eqb_refl.
  - rewrite key_eqb_neq; [now apply IH|].
    intros ->. apply Hnot. apply (in_map fst) in Hin. exact Hin.
Qed.

Lemma Forall2_map_same {A B C} (P : B -> C -> Prop) (f : A -> B)
    (h : A -> C) (l : list A) :
  (forall x, In x l -> P (f x) (h x)) -> Forall2 P (map f l) (map h l).
Proof.
  induction l as [|x l IH]; simpl; intros Hl; constructor.
  - apply Hl. now left.
  - apply IH. intros y Hy. apply Hl. now right.
Qed.

Lemma forallb_false {A} (f : A -> bool) (l : list A) :
  forallb f l = false -> exists x, In x l /\ f x = false.
Proof.
  induction l as [|x l IH]; simpl; [discriminate|].
  destruct (f x) eqn:Hx; simpl.
  - intros Hl. destruct (IH Hl) as (y & Hy & Hfy). eauto.
  - intros _. eauto.
Qed.

End PyFacts.

(** ** The dispatcher, the aggregator and the filter *)

Module EngineFacts.

Import FeatureExtraction PyFacts Stated.

Section Engine.

Variable Graph : Type.
Variable feature_files : list (FeatureClass Graph).
Variable trivial_graph : Graph.

(** *** the loop over the classes *)

Lemma feature_extraction_loop_app graph (pre post : list (FeatureClass Graph)) acc :
  feature_extraction_loop graph (pre ++ post) acc
  = bind (feature_extraction_loop graph pre acc)
         (feature_extraction_loop graph post).
Proof.
  revert acc. induction pre as [|c pre IH]; simpl; intros acc; [reflexivity|].
  destruct (update_features c graph acc); simpl; auto.
Qed.

Lemma feature_extraction_raise graph (pre post : list (FeatureClass Graph)) c b e :
  feature_extraction graph pre = Ok b ->
  update_features c graph b = Raise e ->
  feature_extraction graph (pre ++ c :: post) = Raise e.
Proof.
  unfold feature_extraction. intros Hpre Hc.
  rewrite feature_extraction_loop_app, Hpre. simpl. now rewrite Hc.
Qed.

(** *** sequential and parallel dispatch *)

Section Pool.

Variable worker : Graph -> result Bundle.
Variable graphs : list Graph.

Let step (done : dict nat (result Bundle)) (job : nat) :=
  match nth_error graphs job with
  | Some graph => setitem done job (worker graph)
  | None => done
  end.

Let filed (done : dict nat (result Bundle)) : Prop :=
  forall job r, getitem done job = Ok r ->
    exists graph, nth_error graphs job = Some graph /\ r = worker graph.

Lemma run_jobs_filed completion done :
  filed done -> filed (fold_left step completion done).
Proof.
  revert done. induction completion as [|j l IH]; simpl; intros done Hd;
    [assumption|].
  apply IH. unfold step. destruct (nth_error graphs j) as [g|] eqn:Hg;
    [|assumption].
  intros job r. destruct (Nat.eq_dec j job) as [->|Hne].
  - rewrite getitem_setitem_same. intros [= <-]. eauto.
  - rewrite getitem_setitem_other by assumption. apply Hd.
Qed.

Lemma run_jobs_keeps completion done job :
  In job (keys done) -> In job (keys (fold_left step completion done)).
Proof.
  revert done. induction completion as [|j l IH]; simpl; intros done Hd;
    [assumption|].
  apply IH. unfold step. destruct (nth_error graphs j); [|assumption].
  apply keys_setitem. now right.
Qed.

Lemma run_jobs_done completion done job graph :
  In job completion -> nth_error graphs job = Some graph ->
  In job (keys (fold_left step completion done)).
Proof.
  revert done. induction completion as [|j l IH]; simpl; intros done Hin Hg;
    [contradiction|].
  destruct Hin as [->|Hin].
  - apply run_jobs_keeps. unfold step. rewrite Hg.
    apply keys_setitem. now left.
  - now apply IH.
Qed.

Lemma run_jobs_getitem completion job graph :
  In job completion -> nth_error graphs job = Some graph ->
  getitem (run_jobs completion worker graphs) job = Ok (worker graph).
Proof.
  intros Hin Hg.
  pose proof (run_jobs_done completion [] job graph Hin Hg) as Hk.
  apply getitem_Ok_keys in Hk as [r Hr].
  unfold run_jobs. fold step. rewrite Hr. f_equal.
  assert (Hf : filed []) by (intros ? ? ?; discriminate).
  destruct (run_jobs_filed completion [] Hf _ _ Hr) as (g' & Hg' & ->).
  congruence.
Qed.

Lemma mapM_by_index (pre rest : list Graph) :
  graphs = pre ++ rest ->
  mapM (fun job => match nth_error graphs job with
                   | Some graph => worker graph
                   | None => Raise BrokenPool
                   end)
       (seq (List.length pre) (List.length rest))
  = mapM worker rest.
Proof.
  revert pre. induction rest as [|g rest IH]; intros pre Heq; simpl;
    [reflexivity|].
  assert (Hn : nth_error graphs (List.length pre) = Some g).
  { rewrite Heq, nth_error_app2, Nat.sub_diag by lia. reflexivity. }
  rewrite Hn.
  specialize (IH (pre ++ [g])).
  rewrite length_app, Nat.add_1_r in IH. simpl in IH.
  rewrite IH; [reflexivity|]. now rewrite <- app_assoc.
Qed.

(** Whatever the order in which the jobs finish, the pool hands the
    outcomes out as the builtin [map] does. *)
Lemma pool_imap_map completion :
  Permutation completion (seq 0 (List.length graphs)) ->
  pool_imap completion worker graphs = map_ worker graphs.
Proof.
  intros Hperm. unfold pool_imap, map_.
  rewrite <- (mapM_by_index [] graphs eq_refl). simpl.
  apply mapM_ext_in. intros job Hjob.
  apply in_seq in Hjob as [_ Hlt]. simpl in Hlt.
  destruct (nth_error graphs job) as [g|] eqn:Hg.
  - rewrite (run_jobs_getitem completion job g); auto.
    apply (Permutation_in job (Permutation_sym Hperm)).
    apply in_seq. lia.
  - apply nth_error_None in Hg. lia.
Qed.

End Pool.

Lemma compute_all_features_map completion graphs
    (list_feature_classes : list (FeatureClass Graph)) n_workers :
  (1 <= n_workers)%Z ->
  Permutation completion (seq 0 (List.length graphs)) ->
  compute_all_features completion graphs list_feature_classes n_workers
  = mapM (fun graph => feature_extraction graph list_feature_classes) graphs.
Proof.
  intros Hn Hperm. unfold compute_all_features.
  destruct (n_workers =? 1)%Z; [reflexivity|].
  destruct (n_workers <? 1)%Z eqn:E; [lia|].
  now apply pool_imap_map.
Qed.

(** *** the aggregator *)

Lemma cell_of_raises raw_i (c : FeatureClass Graph) feature e :
  cell_of raw_i c feature = Raise e -> e = KeyError.
Proof.
  unfold cell_of. destruct (getitem raw_i (shortname c)) eqn:E; simpl.
  - apply getitem_raises_KeyError.
  - intros [= <-]. apply (getitem_raises_KeyError _ _ _ E).
Qed.

Lemma gather_column_cell raw (c : FeatureClass Graph) feature :
  gather_column raw (shortname c) feature
  = mapM (fun raw_i => cell_of raw_i c feature) raw.
Proof. reflexivity. Qed.

Section Gather.

Variable all_features_raw : list Bundle.

(** what a column of the accumulator is known to be *)
Variable column_ok : string -> list value -> Prop.

Let columns_ok (acc : dict string FeatureInfo * dict string (list value)) :=
  forall name cells, In (name, cells) (snd acc) -> column_ok name cells.

Lemma gather_class_Ok (c : FeatureClass Graph) features acc acc' :
  gather_class all_features_raw c features acc = Ok acc' ->
  (forall feature cells,
      In feature features ->
      gather_column all_features_raw (shortname c) feature = Ok cells ->
      column_ok (feature_name (get_feature_info c feature)) cells) ->
  columns_ok acc ->
  columns_ok acc' /\
  (forall feature, In feature features ->
     exists cells,
       gather_column all_features_raw (shortname c) feature = Ok cells) /\
  (forall name, In name (keys (snd acc')) <->
     In name (keys (snd acc)) \/
     exists feature, In feature features /\
                     name = feature_name (get_feature_info c feature)).
Proof.
  revert acc. induction features as [|f fs IH]; simpl; intros [fi af].
  - intros [= <-] _ Hacc. repeat split; auto.
    + intros _ [].
    + intros [?|(? & [] & _)]; auto.
  - intros Hrun Hnew Hacc.
    apply bind_Ok_inv in Hrun as (column & Hcol & Hrun).
    destruct (IH _ Hrun) as (Hok & Hall & Hkeys).
    { intros; apply Hnew; auto. }
    { intros name cells Hin. simpl in Hin.
      apply In_setitem in Hin as [[-> ->]|Hin]; [|now apply Hacc].
      apply Hnew; auto. }
    repeat split; auto.
    + intros f' [<-|Hin]; eauto.
    + intros Hin. apply Hkeys in Hin as [Hin|(f' & Hf' & ->)].
      * simpl in Hin. apply keys_setitem in Hin as [->|Hin]; eauto.
      * eauto.
    + intros [Hin|(f' & [<-|Hf'] & ->)]; apply Hkeys.
      * left. simpl. apply keys_setitem. now right.
      * left. simpl. apply keys_setitem. now left.
      * eauto.
Qed.

Lemma gather_class_Raise (c : FeatureClass Graph) features acc e :
  gather_class all_features_raw c features acc = Raise e ->
  exists feature,
    In feature features /\
    gather_column all_features_raw (shortname c) feature = Raise e.
Proof.
  revert acc. induction features as [|f fs IH]; simpl; intros [fi af];
    [discriminate|].
  destruct (gather_column all_features_raw (shortname c) f) eqn:Hcol; simpl.
  - intros Hrun. destruct (IH _ Hrun) as (f' & Hin & Hf'). eauto.
  - intros [= ->]. eauto.
Qed.

End Gather.

Section GatherLoop.

Variable all_features_raw : list Bundle.
Variable column_ok : string -> list value -> Prop.

Let columns_ok (acc : dict string FeatureInfo * dict string (list value)) :=
  forall name cells, In (name, cells) (snd acc) -> column_ok name cells.

Lemma gather_loop_Ok (classes : list (FeatureClass Graph)) acc acc' :
  gather_loop all_features_raw classes acc = Ok acc' ->
  (forall c ref feature cells,
      In c classes -> reference all_features_raw c = Ok ref ->
      In feature (keys ref) ->
      gather_column all_features_raw (shortname c) feature = Ok cells ->
      column_ok (column_name c feature) cells) ->
  columns_ok acc ->
  columns_ok acc' /\
  (forall c, In c classes ->
     exists ref, reference all_features_raw c = Ok ref /\
       forall feature, In feature (keys ref) ->
         exists cells,
           gather_column all_features_raw (shortname c) feature = Ok cells) /\
  (forall name, In name (keys (snd acc')) <->
     In name (keys (snd acc)) \/
     exists c ref feature,
       In c classes /\ reference all_features_raw c = Ok ref /\
       In feature (keys ref) /\ name = column_name c feature).
Proof.
  revert acc. induction classes as [|c cs IH]; simpl; intros acc.
  - intros [= <-] _ Hacc. repeat split; auto.
    + intros _ [].
    + intros [?|(? & ? & ? & [] & _)]; auto.
  - intros Hrun Hnew Hacc.
    apply bind_Ok_inv in Hrun as (first & Hfirst & Hrun).
    apply bind_Ok_inv in Hrun as (ref & Href & Hrun).
    apply bind_Ok_inv in Hrun as (acc1 & Hclass & Hrun).
    assert (Hrefc : reference all_features_raw c = Ok ref).
    { unfold reference. rewrite Hfirst. exact Href. }
    destruct (gather_class_Ok all_features_raw column_ok c _ _ _ Hclass)
      as (Hok1 & Hall1 & Hkeys1).
    { intros f cells Hf Hcol. apply (Hnew c ref); auto. }
    { exact Hacc. }
    destruct (IH _ Hrun) as (Hok & Hall & Hkeys).
    { intros c' ref' f cells Hc'. apply Hnew. now right. }
    { exact Hok1. }
    repeat split; auto.
    + intros c' [<-|Hc']; eauto.
    + intros Hin. apply Hkeys in Hin as [Hin|(c' & r' & f & Hc' & Hr & Hf & ->)].
      * apply Hkeys1 in Hin as [Hin|(f & Hf & ->)]; [now left|].
        right. exists c, ref, f. auto.
      * right. exists c', r', f. auto.
    + intros [Hin|(c' & r' & f & [<-|Hc'] & Hr & Hf & ->)]; apply Hkeys.
      * left. apply Hkeys1. now left.
      * left. apply Hkeys1. right. exists f. split; [|reflexivity].
        rewrite Hrefc in Hr. now injection Hr as <-.
      * right. exists c', r', f. auto.
Qed.

Lemma gather_loop_Raise (classes : list (FeatureClass Graph)) acc e :
  gather_loop all_features_raw classes acc = Raise e ->
  exists c, In c classes /\
    (reference all_features_raw c = Raise e \/
     exists ref feature,
       reference all_features_raw c = Ok ref /\ In feature (keys ref) /\
       gather_column all_features_raw (shortname c) feature = Raise e).
Proof.
  revert acc. induction classes as [|c cs IH]; simpl; intros acc;
    [discriminate|].
  destruct (reference all_features_raw c) as [ref|e'] eqn:Hrefc.
  - unfold reference in Hrefc.
    destruct (match all_features_raw with
              | [] => Raise IndexError | raw_0 :: _ => Ok raw_0 end)
      as [first|] eqn:Hfirst; simpl in *; [|discriminate].
    rewrite Hrefc. simpl.
    destruct (gather_class all_features_raw c (keys ref) acc) eqn:Hclass;
      simpl.
    + intros Hrun. destruct (IH _ Hrun) as (c' & Hc' & H').
      exists c'. split; [now right | exact H'].
    + intros [= ->].
      destruct (gather_class_Raise all_features_raw c _ _ _ Hclass)
        as (f & Hf & Hcol).
      exists c. split; [now left|]. right. exists ref, f.
      unfold reference. rewrite Hfirst. simpl. auto.
  - intros Hrun. exists c. split; [now left|]. left.
    unfold reference in Hrefc.
    destruct (match all_features_raw with
              | [] => Raise IndexError | raw_0 :: _ => Ok raw_0 end)
      as [first|] eqn:Hfirst; simpl in *.
    + rewrite Hrefc in Hrun. simpl in Hrun. injection Hrun as ->.
      unfold reference. rewrite Hfirst. exact Hrefc.
    + injection Hrefc as ->. injection Hrun as ->.
      unfold reference. now rewrite Hfirst.
Qed.

End GatherLoop.

Lemma from_dict_same_length (d : dict string (list value)) n :
  (forall name cells, In (name, cells) d -> List.length cells = n) ->
  from_dict d = Ok d.
Proof.
  intros Hlen. destruct d as [|[name c0] d]; [reflexivity|].
  unfold from_dict.
  replace (forallb _ _) with true; [reflexivity|].
  symmetry. apply forallb_forall. intros [name' cells] Hin. simpl.
  apply Nat.eqb_eq. rewrite (Hlen name' cells Hin).
  symmetry. apply (Hlen name c0). now left.
Qed.

Lemma from_dict_Ok (d : dict string (list value)) df :
  from_dict d = Ok df -> df = d.
Proof.
  unfold from_dict. destruct d as [|[name c0] d]; [now intros [= <-]|].
  destruct (forallb _ _); [now intros [= <-] | discriminate].
Qed.

Lemma gathered_length raw (classes : list (FeatureClass Graph)) name cells :
  gathered raw classes name cells -> List.length cells = List.length raw.
Proof.
  intros (c & ref & f & _ & _ & _ & _ & Hm). now apply mapM_length in Hm.
Qed.

Lemma gather_features_Ok raw (classes : list (FeatureClass Graph))
    features info :
  gather_features raw classes = Ok (features, info) ->
  (forall name cells, In (name, cells) features ->
     gathered raw classes name cells) /\
  (forall c, In c classes ->
     exists ref, reference raw c = Ok ref /\
       forall feature raw_i, In feature (keys ref) -> In raw_i raw ->
         exists v, cell_of raw_i c feature = Ok v) /\
  (forall name, In name (columns features) <->
     exists c ref feature,
       In c classes /\ reference raw c = Ok ref /\
       In feature (keys ref) /\ name = column_name c feature).
Proof.
  unfold gather_features. intros Hrun.
  apply bind_Ok_inv in Hrun as ([fi af] & Hloop & Hrun).
  apply bind_Ok_inv in Hrun as (df & Hdf & [= <- <-]).
  apply from_dict_Ok in Hdf. subst df.
  destruct (gather_loop_Ok raw (gathered raw classes) classes _ _ Hloop)
    as (Hok & Hall & Hkeys).
  { intros c ref f cells Hc Href Hf Hcol. exists c, ref, f. auto. }
  { intros name cells []. }
  repeat split.
  - exact Hok.
  - intros c Hc. destruct (Hall c Hc) as (ref & Href & Hcols).
    exists ref. split; [assumption|]. intros f raw_i Hf Hraw.
    destruct (Hcols f Hf) as (cells & Hcells).
    rewrite gather_column_cell in Hcells.
    exact (mapM_Ok_inv _ _ _ Hcells raw_i Hraw).
  - intros Hin. apply Hkeys in Hin as [[]|Hin]. exact Hin.
  - intros Hin. apply Hkeys. now right.
Qed.

Lemma gather_features_Raise raw (classes : list (FeatureClass Graph)) e :
  gather_features raw classes = Raise e ->
  exists c, In c classes /\
    (reference raw c = Raise e \/
     exists ref feature raw_i,
       reference raw c = Ok ref /\ In feature (keys ref) /\
       In raw_i raw /\ cell_of raw_i c feature = Raise e).
Proof.
  unfold gather_features.
  destruct (gather_loop raw classes ([], [])) as [[fi af]|e'] eqn:Hloop;
    simpl.
  - destruct (gather_loop_Ok raw (gathered raw classes) classes _ _ Hloop)
      as (Hok & _ & _).
    { intros c ref f cells Hc Href Hf Hcol. exists c, ref, f. auto. }
    { intros name cells []. }
    rewrite (from_dict_same_length af (List.length raw)); [discriminate|].
    intros name cells Hin. eapply gathered_length. apply Hok. exact Hin.
  - intros [= ->].
    destruct (gather_loop_Raise raw classes _ _ Hloop) as (c & Hc & H').
    exists c. split; [assumption|].
    destruct H' as [H'|(ref & f & Href & Hf & Hcol)]; [now left|].
    right. rewrite gather_column_cell in Hcol.
    apply mapM_raise_inv in Hcol as (raw_i & Hraw & Hcell).
    exists ref, f, raw_i. auto.
Qed.

(** *** the pipeline *)

Lemma extract_pipeline completion graphs n_workers mode :
  extract feature_files trivial_graph completion graphs n_workers mode
  = (feat_classes <-
       get_list_feature_classes feature_files trivial_graph mode ;;
     raw_features <-
       compute_all_features completion graphs feat_classes n_workers ;;
     gather_features raw_features feat_classes).
Proof.
  unfold extract.
  destruct (get_list_feature_classes _ _ _) as [classes|]; simpl;
    [|reflexivity].
  destruct (compute_all_features _ _ _ _) as [raw|]; simpl; [|reflexivity].
  destruct (gather_features raw classes) as [[features info]|]; reflexivity.
Qed.

End Engine.

End EngineFacts.

(** ** The filter *)

Module FilterFacts.

Import FeatureExtraction PyFacts Stated.

Lemma index_where_zero_std (df : DataFrame) name :
  In name (index_where_zero (std df)) <->
  exists cells, In (name, cells) df /\
                root_eq_zero (Sqrt (nanvar cells)) = true.
Proof.
  unfold index_where_zero, std, keys. rewrite in_map_iff. split.
  - intros ([n r] & <- & Hin). apply filter_In in Hin as (Hin & Hz).
    apply in_map_iff in Hin as ([n' cells] & [= <- <-] & Hin).
    exists cells. split; assumption.
  - intros (cells & Hin & Hz).
    exists (name, Sqrt (nanvar cells)). split; [reflexivity|].
    apply filter_In. split; [|exact Hz].
    apply in_map_iff. exists (name, cells). split; [reflexivity | exact Hin].
Qed.

Lemma NoDup_keys_unique {V} (d : dict string V) k v v' :
  NoDup (keys d) -> In (k, v) d -> In (k, v') d -> v = v'.
Proof.
  induction d as [|[k0 v0] d IH]; simpl; [intros _ []|].
  intros Hd. inversion Hd as [|? ? Hnot Hd']; subst.
  intros [[= -> ->]|Hin] [[= <-]|Hin'].
  - reflexivity.
  - exfalso. apply Hnot. apply (in_map fst) in Hin'. exact Hin'.
  - subst. exfalso. apply Hnot. apply (in_map fst) in Hin. exact Hin.
  - apply IH; assumption.
Qed.

(** On a frame whose columns have distinct names, [filter_features] keeps
    the columns without missing value whose standard deviation is not
    zero, and those only. *)
Lemma filter_features_kept (df : DataFrame) name cells :
  NoDup (columns df) ->
  (In (name, cells) (filter_features df) <->
   In (name, cells) df /\ kept cells = true).
Proof.
  intros Hd. unfold filter_features, drop_axis1, dropna_axis1, kept.
  rewrite !filter_In. cbn [fst snd].
  rewrite andb_true_iff, !negb_true_iff.
  split.
  - intros ((Hin & Hna) & Hdrop). repeat split; try assumption.
    destruct (root_eq_zero (Sqrt (nanvar cells))) eqn:Hz; [|reflexivity].
    apply list_contains_not_In in Hdrop. exfalso. apply Hdrop.
    apply index_where_zero_std. exists cells. split; [|assumption].
    apply filter_In. split; [assumption|]. cbn [snd]. now rewrite Hna.
  - intros (Hin & Hna & Hz). repeat split; try assumption.
    apply list_contains_not_In. intros Hidx.
    apply index_where_zero_std in Hidx as (cells' & Hin' & Hz').
    apply filter_In in Hin' as (Hin' & _).
    rewrite (NoDup_keys_unique df name cells cells' Hd Hin Hin') in Hz.
    congruence.
Qed.

(** *** a column with an infinite value has no zero deviation *)

Lemma vadd_not_finite_l a b : isfinite a = false -> isfinite (vadd a b) = false.
Proof. destruct a, b; simpl; congruence. Qed.

Lemma vadd_not_finite_r a b : isfinite b = false -> isfinite (vadd a b) = false.
Proof. destruct a, b; simpl; congruence. Qed.

Lemma vmul_not_finite a : isfinite a = false -> isfinite (vmul a a) = false.
Proof. destruct a; simpl; congruence. Qed.

Lemma fold_vadd_not_finite l a :
  isfinite a = false -> isfinite (fold_left vadd l a) = false.
Proof.
  revert a. induction l as [|x l IH]; simpl; intros a Ha; [assumption|].
  apply IH. now apply vadd_not_finite_l.
Qed.

Lemma vsum_not_finite l :
  (exists x, In x l /\ isfinite x = false) -> isfinite (vsum l) = false.
Proof.
  unfold vsum. generalize (Fin 0). induction l as [|y l IH]; intros a;
    simpl; [intros (x & [] & _)|].
  intros (x & [->|Hin] & Hx).
  - apply fold_vadd_not_finite. now apply vadd_not_finite_r.
  - apply IH. eauto.
Qed.

Lemma vdiv_count_not_finite a n :
  isfinite a = false -> isfinite (vdiv_count a n) = false.
Proof. destruct a; simpl; congruence. Qed.

Lemma nanvar_not_finite cells :
  (exists x, In x cells /\ (x = PInf \/ x = NInf)) ->
  isfinite (nanvar cells) = false.
Proof.
  intros (x & Hin & Hx). unfold nanvar.
  set (vals := filter (fun x => negb (isna x)) cells).
  destruct (List.length vals <=? 1) eqn:Hlen; [reflexivity|].
  apply vdiv_count_not_finite.
  assert (Hxf : isfinite x = false) by (destruct Hx; subst; reflexivity).
  assert (Hxv : In x vals).
  { apply filter_In. split; [assumption|]. destruct Hx; subst; reflexivity. }
  pose proof (vsum_not_finite vals (ex_intro _ x (conj Hxv Hxf))) as Hs.
  pose proof (vdiv_count_not_finite _ (List.length vals) Hs) as Havg.
  apply vsum_not_finite.
  exists (let d := vsub (vdiv_count (vsum vals) (List.length vals)) x in
          vmul d d).
  split.
  - apply in_map_iff. exists x. split; [reflexivity | assumption].
  - simpl. apply vmul_not_finite. unfold vsub.
    now apply vadd_not_finite_l.
Qed.

(** A column that holds an infinite value and no missing one is kept. *)
Lemma infinite_column_kept cells :
  existsb isna cells = false ->
  (exists x, In x cells /\ (x = PInf \/ x = NInf)) ->
  kept cells = true.
Proof.
  intros Hna Hinf. unfold kept. rewrite Hna. simpl.
  pose proof (nanvar_not_finite cells Hinf) as Hv.
  destruct (nanvar cells); [discriminate | reflexivity ..].
Qed.

(** Whatever the frame, a column that holds an infinite value and no
    missing one passes the filter. *)
Lemma filter_features_keeps_infinite (df : DataFrame) name cells :
  NoDup (columns df) -> In (name, cells) df ->
  existsb isna cells = false ->
  (exists x, In x cells /\ (x = PInf \/ x = NInf)) ->
  In (name, cells) (filter_features df).
Proof.
  intros Hd Hin Hna Hinf. apply filter_features_kept; [assumption|].
  split; [assumption|]. now apply infinite_column_kept.
Qed.

End FilterFacts.

(** ** The engine: what holds of the dispatcher, aggregator and filter *)

Module EngineClaims.

Import FeatureExtraction PyFacts Stated EngineFacts Examples.

#[local] Open Scope string_scope.

(** C1, as stated, fails.  [fragile_class] raises on the graph with two
    nodes; the extraction of that graph then returns no bundle at all, so
    no sentinel is written under the expected name ["diameter"], and the
    exception leaves [compute_all_features] too. *)
Lemma failure_is_not_isolated :
  fragile_compute 2 = Raise (OtherError "not implemented for this graph") /\
  ~ failure_isolated 2%nat [basic_class; fragile_class] fragile_class
      ["diameter"] /\
  compute_all_features [] three_graphs [basic_class; fragile_class] 1
    = Raise (OtherError "not implemented for this graph").
Proof.
  split; [reflexivity|]. split; [|reflexivity].
  intros (bundle & feats & Hrun & _). vm_compute in Hrun. discriminate.
Qed.

(** C1, amended.  An exception raised by a feature class while a graph is
    processed propagates: [feature_extraction] raises it without running
    the classes that follow and without recording any sentinel, and
    [compute_all_features], sequential or parallel, raises the exception of
    the first graph (in input order) on which a class fails. *)
Theorem failing_class_aborts_extraction :
  forall (Graph : Type) (graph : Graph)
         (pre post : list (FeatureClass Graph)) (failing : FeatureClass Graph)
         (bundle : Bundle) (e : Exception) (before after : list Graph)
         (completion : list nat) (n_workers : Z),
    feature_extraction graph pre = Ok bundle ->
    update_features failing graph bundle = Raise e ->
    (forall g, In g before ->
       is_ok (feature_extraction g (pre ++ failing :: post)) = true) ->
    (1 <= n_workers)%Z ->
    Permutation completion
      (seq 0 (List.length (before ++ graph :: after))) ->
    feature_extraction graph (pre ++ failing :: post) = Raise e /\
    compute_all_features completion (before ++ graph :: after)
      (pre ++ failing :: post) n_workers = Raise e.
Proof.
  intros Graph graph pre post failing bundle e before after completion
         n_workers Hpre Hfail Hbefore Hn Hperm.
  assert (Hg : feature_extraction graph (pre ++ failing :: post) = Raise e)
    by (eapply feature_extraction_raise; eauto).
  split; [exact Hg|].
  rewrite compute_all_features_map by assumption.
  now apply mapM_raise.
Qed.

Lemma failing_class_aborts_extraction_witness :
  feature_extraction 2%nat ([basic_class] ++ fragile_class :: [slow_class])
    = Raise (OtherError "not implemented for this graph") /\
  compute_all_features late_first ([1%nat] ++ 2%nat :: [3%nat])
    ([basic_class] ++ fragile_class :: [slow_class]) 3
    = Raise (OtherError "not implemented for this graph").
Proof.
  apply (failing_class_aborts_extraction nat 2%nat [basic_class] [slow_class]
           fragile_class
           [("BS", [("one", Fin 1); ("inverse_gap", PInf); ("order", Fin 2)])]).
  - reflexivity.
  - reflexivity.
  - intros g [<-|[]]. reflexivity.
  - lia.
  - apply (Permutation_cons_app [0; 1]%nat []). apply Permutation_refl.
Defined.

(** C2: the column with an infinite value survives the filter.  On the
    three-by-four matrix of the specification the code keeps [B], [C] and
    [D], where the rule as stated keeps [C] and [D] only. *)
Theorem filter_features_keeps_infinite_column :
  columns (filter_features synthetic_matrix) = ["B"; "C"; "D"] /\
  columns (filter_as_stated synthetic_matrix) = ["C"; "D"].
Proof. split; reflexivity. Qed.

(** C3, as stated, fails: with [basic_class], the matrix [extract] returns
    for three graphs holds a constant column and a column with an infinite
    value. *)
Lemma extract_returns_unfiltered_columns :
  ~ extract_returns_clean [basic_class] canary [] three_graphs 1 "fast".
Proof.
  intros H.
  pose proof (H basic_matrix basic_info eq_refl) as Hclean.
  vm_compute in Hclean. discriminate.
Qed.

(** C3, amended.  [extract] returns the matrix and the table that
    [gather_features] builds, as they are before the filter: the filtered
    matrix is computed and left aside.  The columns returned are all the
    features that the first bundle lists for the active classes, none
    being removed. *)
Theorem extract_returns_gathered_matrix :
  forall (Graph : Type) (feature_files : list (FeatureClass Graph))
         (trivial_graph : Graph) (completion : list nat)
         (graphs : list Graph) (n_workers : Z) (mode : string),
    extract feature_files trivial_graph completion graphs n_workers mode
    = (feat_classes <-
         get_list_feature_classes feature_files trivial_graph mode ;;
       raw_features <-
         compute_all_features completion graphs feat_classes n_workers ;;
       gather_features raw_features feat_classes) /\
    forall features info,
      extract feature_files trivial_graph completion graphs n_workers mode
        = Ok (features, info) ->
      exists classes raw,
        get_list_feature_classes feature_files trivial_graph mode
          = Ok classes /\
        compute_all_features completion graphs classes n_workers = Ok raw /\
        forall name, In name (columns features) <->
          exists c ref feature,
            In c classes /\ reference raw c = Ok ref /\
            In feature (keys ref) /\ name = column_name c feature.
Proof.
  intros. split; [apply extract_pipeline|].
  intros features info Hrun. rewrite extract_pipeline in Hrun.
  apply bind_Ok_inv in Hrun as (classes & Hclasses & Hrun).
  apply bind_Ok_inv in Hrun as (raw & Hraw & Hgather).
  exists classes, raw. split; [assumption|]. split; [assumption|].
  now destruct (gather_features_Ok Graph raw classes features info Hgather)
    as (_ & _ & Hkeys).
Qed.

(** C4, as stated, fails: when no class of the directory is active in the
    requested mode the matrix has no column, hence no row, however many
    graphs were given. *)
Lemma no_active_class_no_row :
  ~ one_row_per_graph [slow_class] canary [] three_graphs 1 "fast".
Proof.
  intros H. pose proof (H [] [] eq_refl) as Hrows. discriminate.
Qed.

(** C4, amended.  Whenever [extract] returns, for any worker count of at
    least one and any order in which the workers finish: there is one raw
    bundle per input graph, the bundle at each position being that of the
    graph at the same position; every column of the matrix has one cell per
    input graph, the cell at each position being read from the bundle at
    that position; and, provided the matrix has a column at all, its number
    of rows is the number of input graphs. *)
Theorem rows_follow_input_order :
  forall (Graph : Type) (feature_files : list (FeatureClass Graph))
         (trivial_graph : Graph) (completion : list nat)
         (graphs : list Graph) (n_workers : Z) (mode : string)
         (features : DataFrame) (info : dict string FeatureInfo),
    (1 <= n_workers)%Z ->
    Permutation completion (seq 0 (List.length graphs)) ->
    extract feature_files trivial_graph completion graphs n_workers mode
      = Ok (features, info) ->
    exists classes raw,
      get_list_feature_classes feature_files trivial_graph mode
        = Ok classes /\
      compute_all_features completion graphs classes n_workers = Ok raw /\
      List.length raw = List.length graphs /\
      (forall i graph, nth_error graphs i = Some graph ->
         exists bundle, nth_error raw i = Some bundle /\
                        feature_extraction graph classes = Ok bundle) /\
      (forall name cells, In (name, cells) features ->
         List.length cells = List.length graphs /\
         exists c feature,
           In c classes /\ name = column_name c feature /\
           forall i raw_i, nth_error raw i = Some raw_i ->
             exists v, nth_error cells i = Some v /\
                       cell_of raw_i c feature = Ok v) /\
      (features <> [] -> nrows features = List.length graphs).
Proof.
  intros Graph files trivial completion graphs n_workers mode features info
         Hn Hperm Hrun.
  rewrite extract_pipeline in Hrun.
  apply bind_Ok_inv in Hrun as (classes & Hclasses & Hrun).
  apply bind_Ok_inv in Hrun as (raw & Hraw & Hgather).
  exists classes, raw. split; [assumption|]. split; [assumption|].
  rewrite compute_all_features_map in Hraw by assumption.
  pose proof (mapM_length _ _ _ Hraw) as Hlen.
  destruct (gather_features_Ok Graph raw classes features info Hgather)
    as (Hcols & _ & _).
  assert (Hcells : forall name cells, In (name, cells) features ->
            List.length cells = List.length graphs).
  { intros name cells Hin. rewrite <- Hlen.
    eapply gathered_length. apply Hcols. exact Hin. }
  split; [assumption|]. split; [|split].
  - intros i graph Hi. destruct (mapM_nth _ _ _ _ _ Hraw Hi) as (b & ? & ?).
    eauto.
  - intros name cells Hin. split; [eauto|].
    destruct (Hcols name cells Hin) as (c & ref & f & Hc & _ & _ & -> & Hm).
    exists c, f. split; [assumption|]. split; [reflexivity|].
    intros i raw_i Hi. exact (mapM_nth _ _ _ _ _ Hm Hi).
  - destruct features as [|[name cells] rest]; [congruence|].
    intros _. simpl. apply (Hcells name). now left.
Qed.

Lemma rows_follow_input_order_witness :
  exists classes raw,
    get_list_feature_classes [basic_class] canary "fast" = Ok classes /\
    compute_all_features late_first three_graphs classes 3 = Ok raw /\
    List.length raw = List.length three_graphs /\
    (forall i graph, nth_error three_graphs i = Some graph ->
       exists bundle, nth_error raw i = Some bundle /\
                      feature_extraction graph classes = Ok bundle) /\
    (forall name cells, In (name, cells) basic_matrix ->
       List.length cells = List.length three_graphs /\
       exists c feature,
         In c classes /\ name = column_name c feature /\
         forall i raw_i, nth_error raw i = Some raw_i ->
           exists v, nth_error cells i = Some v /\
                     cell_of raw_i c feature = Ok v) /\
    (basic_matrix <> [] -> nrows basic_matrix = List.length three_graphs).
Proof.
  apply (rows_follow_input_order nat [basic_class] canary late_first
           three_graphs 3 "fast" basic_matrix basic_info).
  - lia.
  - apply (Permutation_cons_app [0; 1]%nat []). apply Permutation_refl.
  - reflexivity.
Defined.

(** C7, as stated, fails: the second bundle of [mismatched_bundles] lacks
    the column ["triangles"] of the first, and [gather_features] raises
    [KeyError] instead of filling a sentinel. *)
Lemma missing_column_raises_KeyError :
  gather_features mismatched_bundles [partial_class] = Raise KeyError /\
  ~ mismatch_filled mismatched_bundles [partial_class].
Proof.
  split; [reflexivity|].
  intros (features & info & Hrun & _). vm_compute in Hrun. discriminate.
Qed.

(** C7, amended.  [gather_features] takes its columns from the first
    bundle: when it returns, the first bundle holds every active class,
    the columns of the matrix are exactly the features the first bundle
    lists for the active classes, and every bundle holds every one of
    them.  It does not return otherwise: it raises [KeyError], and nothing
    else, exactly when the first bundle lacks an active class or some
    bundle lacks a feature the first one lists. *)
Theorem gather_features_schema :
  forall (Graph : Type) (raw_0 : Bundle) (later : list Bundle)
         (classes : list (FeatureClass Graph)),
    let mismatch :=
      exists c, In c classes /\
        (getitem raw_0 (shortname c) = Raise KeyError \/
         exists ref feature raw_i,
           getitem raw_0 (shortname c) = Ok ref /\
           In feature (keys ref) /\ In raw_i (raw_0 :: later) /\
           cell_of raw_i c feature = Raise KeyError) in
    match gather_features (raw_0 :: later) classes with
    | Ok (features, _) =>
        (forall c, In c classes ->
           exists ref, getitem raw_0 (shortname c) = Ok ref) /\
        (forall name, In name (columns features) <->
           exists c ref feature,
             In c classes /\ getitem raw_0 (shortname c) = Ok ref /\
             In feature (keys ref) /\ name = column_name c feature) /\
        (forall c ref feature raw_i,
           In c classes -> getitem raw_0 (shortname c) = Ok ref ->
           In feature (keys ref) -> In raw_i (raw_0 :: later) ->
           exists v, cell_of raw_i c feature = Ok v) /\
        ~ mismatch
    | Raise e => e = KeyError /\ mismatch
    end.
Proof.
  intros Graph raw_0 later classes mismatch.
  destruct (gather_features (raw_0 :: later) classes)
    as [[features info]|e] eqn:Hrun.
  - destruct (gather_features_Ok Graph _ _ _ _ Hrun) as (_ & Hall & Hkeys).
    assert (Hcells : forall c ref feature raw_i,
               In c classes -> getitem raw_0 (shortname c) = Ok ref ->
               In feature (keys ref) -> In raw_i (raw_0 :: later) ->
               exists v, cell_of raw_i c feature = Ok v).
    { intros c ref f raw_i Hc Href Hf Hraw.
      destruct (Hall c Hc) as (ref' & Href' & Hcells).
      unfold reference in Href'. simpl in Href'.
      rewrite Href in Href'. injection Href' as <-. auto. }
    split; [|split; [|split]].
    + intros c Hc. destruct (Hall c Hc) as (ref & Href & _).
      exists ref. exact Href.
    + intros name. rewrite Hkeys. unfold reference. simpl. reflexivity.
    + exact Hcells.
    + intros (c & Hc & [Hmiss|(ref & f & raw_i & Href & Hf & Hraw & Hcell)]).
      * destruct (Hall c Hc) as (ref & Href & _).
        unfold reference in Href. simpl in Href. congruence.
      * destruct (Hcells c ref f raw_i Hc Href Hf Hraw) as (v & Hv).
        congruence.
  - destruct (gather_features_Raise Graph _ _ _ Hrun) as (c & Hc & H').
    unfold reference in H'. simpl in H'.
    assert (He : e = KeyError).
    { destruct H' as [H'|(ref & f & raw_i & _ & _ & _ & H')].
      - exact (getitem_raises_KeyError _ _ _ H').
      - exact (cell_of_raises Graph _ _ _ _ H'). }
    subst e. split; [reflexivity|]. exists c. split; [assumption|].
    exact H'.
Qed.

End EngineClaims.

(** ** The memoised spectra *)

Module SpectrumFacts.

Import Spectrum SpectrumStated PyFacts.

Section Memo.

Variable GraphData : Type.
Variable adjacency_spectrum : GraphData -> result (list value).
Variable modularity_spectrum : GraphData -> result (list value).
Variable laplacian_spectrum : GraphData -> result (list value).

Lemma extends_refl (s : Caches) : extends s s.
Proof. intros f k v Hk. exact Hk. Qed.

Lemma extends_trans (s1 s2 s3 : Caches) :
  extends s1 s2 -> extends s2 s3 -> extends s1 s3.
Proof. intros H12 H23 f k v Hk. apply H23, H12, Hk. Qed.

Lemma cache_of_remember f f' k v s :
  cache_of f' (remember f k v s)
  = if match f, f' with
       | SpectrumAdj, SpectrumAdj
       | SpectrumModularity, SpectrumModularity
       | SpectrumLaplacian, SpectrumLaplacian => true
       | _, _ => false
       end
    then setitem (cache_of f' s) k v else cache_of f' s.
Proof. destruct f, f'; reflexivity. Qed.

Lemma remember_getitem f k v s :
  getitem (cache_of f (remember f k v s)) k = Ok v.
Proof.
  rewrite cache_of_remember. destruct f; apply getitem_setitem_same.
Qed.

(** storing under a key that was absent loses nothing *)
Lemma remember_extends f k v s :
  getitem (cache_of f s) k = Raise KeyError ->
  extends s (remember f k v s).
Proof.
  intros Hmiss f' k' v' Hk'. rewrite cache_of_remember.
  destruct f, f'; try exact Hk';
    (destruct (Nat.eq_dec k k') as [->|Hne];
     [congruence | now rewrite getitem_setitem_other]).
Qed.

(** a decomposition that raised is counted, and changes no table *)
Lemma cache_of_attempted f s : cache_of f (attempted s) = cache_of f s.
Proof. destruct f; reflexivity. Qed.

Lemma attempted_extends s : extends s (attempted s).
Proof. intros f k v Hk. now rewrite cache_of_attempted. Qed.

Section OneFunction.

Variable f : memoised.
Variable body : GraphData -> result (list value).

Lemma lru_cache_hit (graph : GraphObj GraphData) s v :
  getitem (cache_of f s) (obj_id graph) = Ok v ->
  lru_cache f body graph s = (Ok v, s).
Proof. intros Hhit. unfold lru_cache. now rewrite Hhit. Qed.

Lemma lru_cache_miss (graph : GraphObj GraphData) s :
  ~ In (obj_id graph) (keys (cache_of f s)) ->
  lru_cache f body graph s
  = match body (obj_data graph) with
    | Ok v => (Ok v, remember f (obj_id graph) v s)
    | Raise e => (Raise e, attempted s)
    end.
Proof.
  intros Hmiss. apply getitem_Raise_keys in Hmiss.
  unfold lru_cache. now rewrite Hmiss.
Qed.

(** A call keeps what was cached.  When it returns, its value is cached;
    when it raises, the object was not in the table, the exception is that
    of the decomposition, and no table has changed. *)
Lemma lru_cache_run (graph : GraphObj GraphData) s :
  extends s (snd (lru_cache f body graph s)) /\
  match fst (lru_cache f body graph s) with
  | Ok v =>
      getitem (cache_of f (snd (lru_cache f body graph s))) (obj_id graph)
      = Ok v
  | Raise e =>
      body (obj_data graph) = Raise e /\
      ~ In (obj_id graph) (keys (cache_of f s)) /\
      snd (lru_cache f body graph s) = attempted s
  end.
Proof.
  unfold lru_cache.
  destruct (getitem (cache_of f s) (obj_id graph)) as [v|e] eqn:Hk; simpl.
  - split; [apply extends_refl | assumption].
  - rewrite (getitem_raises_KeyError _ _ _ Hk) in Hk.
    destruct (body (obj_data graph)) as [v|e'] eqn:Hbody; simpl.
    + split; [now apply remember_extends | apply remember_getitem].
    + split; [apply attempted_extends|].
      split; [reflexivity|]. split; [|reflexivity].
      now apply getitem_Raise_keys.
Qed.

End OneFunction.

(** With the adjacency spectrum of the graph in the table, the ratios read
    it and touch nothing. *)
Lemma eigenvalue_ratio_cached (graph : GraphObj GraphData) s a i j :
  getitem (adj_cache s) (obj_id graph) = Ok a ->
  eigenvalue_ratio adjacency_spectrum graph i j s = (ratio_of a i j, s).
Proof.
  intros Hhit. unfold eigenvalue_ratio, eval_spectrum_adj, mbind, ratio_of.
  rewrite (lru_cache_hit SpectrumAdj adjacency_spectrum graph s a Hhit).
  unfold lift. destruct (array_getitem a j) as [num|]; simpl; [|reflexivity].
  rewrite (lru_cache_hit SpectrumAdj adjacency_spectrum graph s a Hhit).
  destruct (array_getitem a i) as [den|]; reflexivity.
Qed.

Lemma add_ratios_cached (graph : GraphObj GraphData) s a pairs acc :
  getitem (adj_cache s) (obj_id graph) = Ok a ->
  add_ratios adjacency_spectrum graph pairs acc s = (ratios_of a pairs acc, s).
Proof.
  intros Hhit. revert acc. induction pairs as [|[i j] rest IH]; intros acc;
    simpl; [reflexivity|].
  unfold mbind at 1. unfold add_feature, mbind at 1. unfold mbind at 1.
  rewrite (eigenvalue_ratio_cached graph s a i j Hhit).
  destruct (ratio_of a i j) as [v|]; simpl; [|reflexivity].
  apply IH.
Qed.

(** the pass, call by call *)
Lemma compute_features_unfold (graph : GraphObj GraphData) s :
  compute_features adjacency_spectrum modularity_spectrum laplacian_spectrum
    graph s
  = match eval_spectrum_adj adjacency_spectrum graph s with
    | (Raise e, s1) => (Raise e, s1)
    | (Ok a, s1) =>
        match add_ratios adjacency_spectrum graph (ratio_pairs 10)
                [("eigenvalues_adjacency"%string, Sequence a)] s1 with
        | (Raise e, s2) => (Raise e, s2)
        | (Ok acc, s2) =>
            match eval_spectrum_modularity modularity_spectrum graph s2 with
            | (Raise e, s3) => (Raise e, s3)
            | (Ok m, s3) =>
                match eval_spectrum_laplacian laplacian_spectrum graph s3 with
                | (Raise e, s4) => (Raise e, s4)
                | (Ok l, s4) =>
                    (Ok (setitem
                           (setitem acc "eigenvalues_modularity"%string
                                    (Sequence m))
                           "eigenvalues_laplacian"%string (Sequence l)),
                     s4)
                end
            end
        end
    end.
Proof.
  unfold compute_features, add_feature, sequence_of, mbind, ret.
  destruct (eval_spectrum_adj adjacency_spectrum graph s) as [[a|e] s1];
    [|reflexivity].
  simpl setitem.
  destruct (add_ratios _ _ _ _ s1) as [[acc|e] s2]; [|reflexivity].
  destruct (eval_spectrum_modularity _ graph s2) as [[m|e] s3];
    [|reflexivity].
  destruct (eval_spectrum_laplacian _ graph s3) as [[l|e] s4]; reflexivity.
Qed.

(** what a pass computes once the adjacency spectrum [a] is in the table
    [s1] *)
Lemma compute_features_cached (graph : GraphObj GraphData) s1 a :
  getitem (adj_cache s1) (obj_id graph) = Ok a ->
  compute_features adjacency_spectrum modularity_spectrum laplacian_spectrum
    graph s1
  = match ratios_of a (ratio_pairs 10)
            [("eigenvalues_adjacency"%string, Sequence a)] with
    | Raise e => (Raise e, s1)
    | Ok acc =>
        match eval_spectrum_modularity modularity_spectrum graph s1 with
        | (Raise e, s3) => (Raise e, s3)
        | (Ok m, s3) =>
            match eval_spectrum_laplacian laplacian_spectrum graph s3 with
            | (Raise e, s4) => (Raise e, s4)
            | (Ok l, s4) =>
                (Ok (setitem
                       (setitem acc "eigenvalues_modularity"%string
                                (Sequence m))
                       "eigenvalues_laplacian"%string (Sequence l)),
                 s4)
            end
        end
    end.
Proof.
  intros Hhit. rewrite compute_features_unfold. unfold eval_spectrum_adj.
  rewrite (lru_cache_hit SpectrumAdj adjacency_spectrum graph s1 a Hhit).
  now rewrite (add_ratios_cached graph s1 a _ _ Hhit).
Qed.

(** A pass keeps every entry it finds.  A pass that returns leaves the
    three spectra of its graph in the tables, and a pass that a ratio
    stops leaves the adjacency spectrum there; what such a pass returns is
    returned again, with no table touched, by any later pass on the same
    object. *)
Lemma compute_features_replay (graph : GraphObj GraphData) s :
  extends s
    (snd (compute_features adjacency_spectrum modularity_spectrum
            laplacian_spectrum graph s)) /\
  (forall fs,
      fst (compute_features adjacency_spectrum modularity_spectrum
             laplacian_spectrum graph s) = Ok fs ->
      (forall f, exists v,
          getitem
            (cache_of f
               (snd (compute_features adjacency_spectrum
                       modularity_spectrum laplacian_spectrum graph s)))
            (obj_id graph) = Ok v) /\
      forall s2 (g2 : GraphObj GraphData),
        extends
          (snd (compute_features adjacency_spectrum modularity_spectrum
                  laplacian_spectrum graph s)) s2 ->
        obj_id g2 = obj_id graph ->
        compute_features adjacency_spectrum modularity_spectrum
          laplacian_spectrum g2 s2 = (Ok fs, s2)) /\
  (forall a e,
      getitem
        (adj_cache
           (snd (compute_features adjacency_spectrum modularity_spectrum
                   laplacian_spectrum graph s)))
        (obj_id graph) = Ok a ->
      ratios_of a (ratio_pairs 10)
        [("eigenvalues_adjacency"%string, Sequence a)] = Raise e ->
      fst (compute_features adjacency_spectrum modularity_spectrum
             laplacian_spectrum graph s) = Raise e /\
      forall s2 (g2 : GraphObj GraphData),
        extends
          (snd (compute_features adjacency_spectrum modularity_spectrum
                  laplacian_spectrum graph s)) s2 ->
        obj_id g2 = obj_id graph ->
        compute_features adjacency_spectrum modularity_spectrum
          laplacian_spectrum g2 s2 = (Raise e, s2)).
Proof.
  pose proof (compute_features_unfold graph s) as Hun.
  destruct (lru_cache_run SpectrumAdj adjacency_spectrum graph s)
    as (Hext1 & Hadj).
  unfold eval_spectrum_adj in Hun at 1.
  destruct (lru_cache SpectrumAdj adjacency_spectrum graph s)
    as [[a1|e1] s1].
  - (* the adjacency spectrum is read *)
    simpl in Hext1, Hadj.
    rewrite (add_ratios_cached graph s1 a1 _ _ Hadj) in Hun.
    assert (Hstopped : forall e,
               ratios_of a1 (ratio_pairs 10)
                 [("eigenvalues_adjacency"%string, Sequence a1)] = Raise e ->
               forall s2 (g2 : GraphObj GraphData),
                 extends s1 s2 -> obj_id g2 = obj_id graph ->
                 compute_features adjacency_spectrum modularity_spectrum
                   laplacian_spectrum g2 s2 = (Raise e, s2)).
    { intros e He s2 g2 Hext Hid.
      rewrite (compute_features_cached g2 s2 a1).
      - now rewrite He.
      - rewrite Hid. exact (Hext SpectrumAdj _ _ Hadj). }
    destruct (ratios_of a1 (ratio_pairs 10) _) as [acc|e] eqn:Hratios.
    + destruct (lru_cache_run SpectrumModularity modularity_spectrum
                  graph s1) as (Hext2 & Hmod).
      unfold eval_spectrum_modularity in Hun at 1.
      destruct (lru_cache SpectrumModularity modularity_spectrum graph s1)
        as [[m|e2] s2'].
      * simpl in Hext2, Hmod.
        destruct (lru_cache_run SpectrumLaplacian laplacian_spectrum
                    graph s2') as (Hext3 & Hlap).
        unfold eval_spectrum_laplacian in Hun at 1.
        destruct (lru_cache SpectrumLaplacian laplacian_spectrum graph s2')
          as [[l|e3] s3]; simpl in Hext3, Hlap;
          rewrite Hun; simpl fst; simpl snd.
        -- split; [|split].
           ++ eapply extends_trans; [exact Hext1|].
              eapply extends_trans; [exact Hext2 | exact Hext3].
           ++ intros fs [= <-]. split.
              ** intros [ | | ].
                 --- exists a1.
                     exact (Hext3 SpectrumAdj _ _
                              (Hext2 SpectrumAdj _ _ Hadj)).
                 --- exists m. exact (Hext3 SpectrumModularity _ _ Hmod).
                 --- exists l. exact Hlap.
              ** intros s2 g2 Hext Hid.
                 rewrite (compute_features_cached g2 s2 a1).
                 2:{ rewrite Hid.
                     exact (Hext SpectrumAdj _ _
                              (Hext3 SpectrumAdj _ _
                                 (Hext2 SpectrumAdj _ _ Hadj))). }
                 rewrite Hratios.
                 unfold eval_spectrum_modularity, eval_spectrum_laplacian.
                 rewrite (lru_cache_hit SpectrumModularity
                            modularity_spectrum g2 s2 m).
                 2:{ rewrite Hid.
                     exact (Hext SpectrumModularity _ _
                              (Hext3 SpectrumModularity _ _ Hmod)). }
                 rewrite (lru_cache_hit SpectrumLaplacian
                            laplacian_spectrum g2 s2 l).
                 2:{ rewrite Hid. exact (Hext SpectrumLaplacian _ _ Hlap). }
                 reflexivity.
           ++ intros a e Ha.
              pose proof (Hext3 SpectrumAdj _ _
                            (Hext2 SpectrumAdj _ _ Hadj)) as Ha1.
              simpl in Ha1. rewrite Ha in Ha1. injection Ha1 as ->.
              congruence.
        -- split; [|split].
           ++ eapply extends_trans; [exact Hext1|].
              eapply extends_trans; [exact Hext2 | exact Hext3].
           ++ intros fs [=].
           ++ intros a e Ha.
              pose proof (Hext3 SpectrumAdj _ _
                            (Hext2 SpectrumAdj _ _ Hadj)) as Ha1.
              simpl in Ha1. rewrite Ha in Ha1. injection Ha1 as ->.
              congruence.
      * simpl in Hext2. rewrite Hun. simpl fst. simpl snd.
        split; [|split].
        -- eapply extends_trans; [exact Hext1 | exact Hext2].
        -- intros fs [=].
        -- intros a e Ha.
           pose proof (Hext2 SpectrumAdj _ _ Hadj) as Ha1.
           simpl in Ha1. rewrite Ha in Ha1. injection Ha1 as ->.
           congruence.
    + rewrite Hun. simpl fst. simpl snd. split; [exact Hext1|]. split.
      * intros fs [=].
      * intros a e' Ha.
        simpl in Hadj. rewrite Ha in Hadj. injection Hadj as ->.
        intros He'. rewrite Hratios in He'. injection He' as <-.
        split; [reflexivity|]. now apply Hstopped.
  - (* the adjacency decomposition raises *)
    simpl in Hext1, Hadj. destruct Hadj as (_ & Hmiss & ->).
    rewrite Hun. simpl fst. simpl snd. split; [exact Hext1|]. split.
    + intros fs [=].
    + intros a e Ha. exfalso. apply Hmiss.
      apply getitem_Ok_keys. exists a. exact Ha.
Qed.

End Memo.

End SpectrumFacts.

Module SpectrumClaims.

Import Spectrum SpectrumStated SpectrumFacts PyFacts.

(** C10, as stated, fails.  In a run over a data set that lists one graph
    object twice, the second pass finds the tables as the first left them,
    and carries out no decomposition of its own: three are made in all,
    the three of the first pass. *)
Lemma second_pass_reuses_first :
  ~ fresh_for_each_pass spectrum_or_error spectrum_or_error
      spectrum_or_error same_object_twice /\
  computed (caches_before spectrum_or_error spectrum_or_error
              spectrum_or_error same_object_twice 1) = 3 /\
  computed (snd (passes spectrum_or_error spectrum_or_error
                   spectrum_or_error same_object_twice empty_caches)) = 3.
Proof.
  split; [|split; reflexivity].
  intros H. destruct (H 1) as (Hadj & _); [simpl; lia|].
  vm_compute in Hadj. discriminate.
Qed.

(** C10, amended.  The cache is a set of tables of the module, keyed by
    the graph object, that outlive every pass.  A pass removes no entry.
    A pass that returns leaves the three spectra of its graph in the
    tables, and a later pass on the same object, whatever was cached in
    between, returns the same features and computes nothing; so does a
    pass that a ratio of eigenvalues stops, with the adjacency spectrum.
    A graph object that is not in a table has its spectrum computed from
    its own content, and stored once the decomposition has returned: a
    decomposition that raises, as networkx does on a graph without nodes,
    stores nothing, its exception ends the pass, and the next call starts
    it again. *)
Theorem spectrum_caches_outlive_the_pass :
  forall (GraphData : Type)
         (adjacency_spectrum modularity_spectrum laplacian_spectrum :
            GraphData -> result (list value))
         (s : Caches) (graph : GraphObj GraphData),
    let pass := compute_features adjacency_spectrum modularity_spectrum
                  laplacian_spectrum in
    let eval := eval_spectrum adjacency_spectrum modularity_spectrum
                  laplacian_spectrum in
    let body := decomposition adjacency_spectrum modularity_spectrum
                  laplacian_spectrum in
    extends s (snd (pass graph s)) /\
    (forall fs,
        fst (pass graph s) = Ok fs ->
        (forall f, exists v,
            getitem (cache_of f (snd (pass graph s))) (obj_id graph)
            = Ok v) /\
        forall s2 g2,
          extends (snd (pass graph s)) s2 -> obj_id g2 = obj_id graph ->
          pass g2 s2 = (Ok fs, s2)) /\
    (forall a e,
        getitem (adj_cache (snd (pass graph s))) (obj_id graph) = Ok a ->
        ratios_of a (ratio_pairs 10)
          [("eigenvalues_adjacency"%string, Sequence a)] = Raise e ->
        fst (pass graph s) = Raise e /\
        forall s2 g2,
          extends (snd (pass graph s)) s2 -> obj_id g2 = obj_id graph ->
          pass g2 s2 = (Raise e, s2)) /\
    (forall f s2 g2,
        ~ In (obj_id g2) (keys (cache_of f s2)) ->
        match body f (obj_data g2) with
        | Ok v => eval f g2 s2 = (Ok v, remember f (obj_id g2) v s2)
        | Raise e =>
            eval f g2 s2 = (Raise e, attempted s2) /\
            eval f g2 (attempted s2) = (Raise e, attempted (attempted s2))
        end) /\
    (forall e,
        ~ In (obj_id graph) (keys (adj_cache s)) ->
        adjacency_spectrum (obj_data graph) = Raise e ->
        pass graph s = (Raise e, attempted s) /\
        pass graph (attempted s) = (Raise e, attempted (attempted s))).
Proof.
  intros GraphData adjacency_spectrum modularity_spectrum laplacian_spectrum
         s graph pass eval body.
  destruct (compute_features_replay GraphData adjacency_spectrum
              modularity_spectrum laplacian_spectrum graph s)
    as (Hext & Hreturned & Hstopped).
  assert (Hmiss : forall f s2 (g2 : GraphObj GraphData),
             ~ In (obj_id g2) (keys (cache_of f s2)) ->
             eval f g2 s2
             = match body f (obj_data g2) with
               | Ok v => (Ok v, remember f (obj_id g2) v s2)
               | Raise e => (Raise e, attempted s2)
               end).
  { intros f s2 g2 Hnot. subst eval body.
    destruct f; simpl;
      [ exact (lru_cache_miss GraphData SpectrumAdj adjacency_spectrum
                 g2 s2 Hnot)
      | exact (lru_cache_miss GraphData SpectrumModularity
                 modularity_spectrum g2 s2 Hnot)
      | exact (lru_cache_miss GraphData SpectrumLaplacian
                 laplacian_spectrum g2 s2 Hnot) ]. }
  split; [exact Hext|]. split; [exact Hreturned|].
  split; [exact Hstopped|]. split.
  - intros f s2 g2 Hnot.
    pose proof (Hmiss f s2 g2 Hnot) as H1.
    assert (Hnot' : ~ In (obj_id g2) (keys (cache_of f (attempted s2))))
      by now rewrite cache_of_attempted.
    pose proof (Hmiss f (attempted s2) g2 Hnot') as H2.
    destruct (body f (obj_data g2)) as [v|e]; [exact H1 | now split].
  - intros e Hnot Hraise.
    assert (Hpass : forall s2,
               ~ In (obj_id graph) (keys (adj_cache s2)) ->
               pass graph s2 = (Raise e, attempted s2)).
    { intros s2 Hnot2. subst pass.
      rewrite compute_features_unfold. unfold eval_spectrum_adj.
      rewrite (lru_cache_miss GraphData SpectrumAdj adjacency_spectrum
                 graph s2 Hnot2).
      now rewrite Hraise. }
    split; [now apply Hpass|]. now apply Hpass.
Qed.

End SpectrumClaims.

(** ** The partitioner *)

Module PartitionFacts.

Import AsynFluid PartitionStated PyFacts.

(** *** reachability and the breadth-first search *)

Section Search.

Variable G : Graph.

Lemma reachable_trans u v w :
  reachable G u v -> reachable G v w -> reachable G u w.
Proof.
  intros Huv Hvw. induction Hvw as [|x y ns _ IH Hns Hy]; [assumption|].
  eapply reachable_step; eauto.
Qed.

Hypothesis Hnodes :
  forall v ns w, neighbors G v = Ok ns -> In w ns -> In w (nodes G).

Lemma reachable_sym :
  (forall v ns w, neighbors G v = Ok ns -> In w ns ->
     exists ns', neighbors G w = Ok ns' /\ In v ns') ->
  forall u v, reachable G u v -> reachable G v u.
Proof.
  intros Hsym u v Huv. induction Huv as [|x y ns _ IH Hns Hy].
  - constructor.
  - destruct (Hsym x ns y Hns Hy) as (ns' & Hns' & Hx).
    apply reachable_trans with x; [|assumption].
    eapply reachable_step; [constructor | exact Hns' | exact Hx].
Qed.

Variable source : node.

(** nodes met so far: reached from the source, and nodes of the graph *)
Let met (l : list node) : Prop :=
  forall x, In x l -> reachable G source x /\ In x (nodes G).

Lemma bfs_level_met thislevel nextlevel seen :
  met thislevel -> met nextlevel -> met seen -> NoDup seen ->
  let r := fold_left
             (fun st v =>
                let '(nextlevel, seen) := st in
                if list_contains seen v then (nextlevel, seen)
                else
                  match neighbors G v with
                  | Ok ns => (nextlevel ++ ns, v :: seen)
                  | Raise _ => (nextlevel, v :: seen)
                  end)
             thislevel (nextlevel, seen) in
  met (fst r) /\ met (snd r) /\ NoDup (snd r).
Proof.
  revert nextlevel seen.
  induction thislevel as [|v rest IH]; intros nextlevel seen Hl Hn Hs Hd;
    simpl; [auto|].
  assert (Hrest : met rest) by (intros x Hx; apply Hl; now right).
  destruct (Hl v (or_introl eq_refl)) as (Hv & Hvn).
  destruct (list_contains seen v) eqn:Hc.
  - apply IH; auto.
  - apply list_contains_not_In in Hc.
    assert (Hs' : met (v :: seen)) by (intros x [<-|Hx]; auto).
    assert (Hd' : NoDup (v :: seen)) by (constructor; assumption).
    destruct (neighbors G v) as [ns|] eqn:Hns.
    + apply IH; auto.
      intros x Hx. apply in_app_or in Hx as [Hx|Hx]; [auto|].
      split; [eapply reachable_step; eauto | eapply Hnodes; eauto].
    + apply IH; auto.
Qed.

Lemma plain_bfs_met fuel level seen :
  met level -> met seen -> NoDup seen ->
  met (plain_bfs fuel G level seen) /\ NoDup (plain_bfs fuel G level seen).
Proof.
  revert level seen. induction fuel as [|fuel IH]; intros level seen Hl Hs Hd;
    simpl; [auto|].
  destruct level as [|v rest]; [auto|].
  assert (Hnil : met []) by (intros x []).
  destruct (bfs_level_met (v :: rest) [] seen Hl Hnil Hs Hd)
    as (Hn' & Hs' & Hd').
  unfold bfs_level.
  destruct (fold_left _ (v :: rest) ([], seen)) as [nextlevel seen'].
  apply IH; assumption.
Qed.

End Search.

(** A graph that passes [is_connected] has every node reachable from its
    first node. *)
Lemma is_connected_reachable (G : Graph) :
  (forall v ns w, neighbors G v = Ok ns -> In w ns -> In w (nodes G)) ->
  is_connected G = Ok true ->
  exists source, In source (nodes G) /\
    forall v, In v (nodes G) -> reachable G source v.
Proof.
  intros Hnodes Hc. unfold is_connected in Hc.
  destruct (is_directed G); [discriminate|].
  remember (plain_bfs (S (S (List.length (adj G)))) G) as search eqn:Hsearch.
  remember (nodes G) as all eqn:Hn.
  destruct all as [|source rest]; [discriminate|].
  rewrite Hn in Hnodes |- *.
  injection Hc as Hlen. apply Nat.eqb_eq in Hlen.
  assert (Hsrc : In source (nodes G)) by (rewrite <- Hn; now left).
  exists source. split; [assumption|].
  destruct (plain_bfs_met G Hnodes source (S (S (List.length (adj G))))
              [source] [])
    as (Hmet & Hdup).
  { intros x [<-|[]]. split; [constructor | assumption]. }
  { intros x []. }
  { constructor. }
  rewrite <- Hsearch in Hmet, Hdup.
  assert (Hincl : incl (nodes G) (search [source] [])).
  { apply NoDup_length_incl; [assumption| |].
    - unfold nodes, keys. rewrite length_map. lia.
    - intros x Hx. now apply Hmet. }
  intros v Hv. now apply Hmet, Hincl.
Qed.

Lemma is_connected_connected (G : Graph) :
  undirected_graph G -> is_connected G = Ok true -> connected G.
Proof.
  intros Hwf Hc u v Hu Hv.
  destruct (is_connected_reachable G (neighbors_are_nodes Hwf) Hc)
    as (source & _ & Hreach).
  apply reachable_trans with source; [|auto].
  apply (reachable_sym G (adjacency_symmetric Hwf)). auto.
Qed.

(** *** [groups] *)

Lemma concat_values_app {A} (d1 d2 : dict Z (list A)) :
  List.concat (values (d1 ++ d2))
  = List.concat (values d1) ++ List.concat (values d2).
Proof. unfold values. now rewrite map_app, concat_app. Qed.

(** one step of [groups] adds the key to the groups, and nothing else *)
Lemma groups_step (one_to_many : dict Z (list node)) (v : node) (k : Z) :
  ~ In v (List.concat (values one_to_many)) ->
  Permutation
    (List.concat
       (values
          match getitem one_to_many k with
          | Ok s =>
              setitem one_to_many k
                      (if list_contains s v then s else s ++ [v])
          | Raise _ => setitem one_to_many k [v]
          end))
    (List.concat (values one_to_many) ++ [v]).
Proof.
  intros Hfresh. destruct (getitem one_to_many k) as [s|e] eqn:Hg.
  - destruct (setitem_present one_to_many k
                (if list_contains s v then s else s ++ [v]) s Hg)
      as (l1 & l2 & Hd & ->).
    assert (Hs : list_contains s v = false).
    { apply list_contains_not_In. intros Hin. apply Hfresh.
      rewrite Hd, concat_values_app. apply in_or_app. right.
      simpl. apply in_or_app. now left. }
    rewrite Hs, Hd, !concat_values_app. simpl.
    rewrite <- !app_assoc. apply Permutation_app_head.
    apply Permutation_app_head. apply Permutation_app_comm.
  - rewrite (getitem_raises_KeyError _ _ _ Hg) in Hg.
    apply getitem_Raise_keys in Hg.
    rewrite setitem_absent by assumption.
    rewrite concat_values_app. simpl. reflexivity.
Qed.

Lemma groups_fold (many_to_one : dict node Z) :
  forall one_to_many : dict Z (list node),
    NoDup (List.concat (values one_to_many) ++ keys many_to_one) ->
    Permutation
      (List.concat
         (values
            (fold_left
               (fun one_to_many vk =>
                  let '(v, k) := vk in
                  match getitem one_to_many k with
                  | Ok s =>
                      setitem one_to_many k
                              (if list_contains s v then s else s ++ [v])
                  | Raise _ => setitem one_to_many k [v]
                  end)
               many_to_one one_to_many)))
      (List.concat (values one_to_many) ++ keys many_to_one).
Proof.
  induction many_to_one as [|[v k] rest IH]; intros acc Hdup; simpl.
  - now rewrite app_nil_r.
  - assert (Hfresh : ~ In v (List.concat (values acc))).
    { intros Hin. apply NoDup_remove_2 in Hdup. apply Hdup.
      apply in_or_app. now left. }
    pose proof (groups_step acc v k Hfresh) as Hstep.
    etransitivity.
    + apply IH. eapply Permutation_NoDup; [|exact Hdup].
      symmetry. etransitivity.
      * apply Permutation_app_tail. exact Hstep.
      * rewrite <- app_assoc. reflexivity.
    + etransitivity.
      * apply Permutation_app_tail. exact Hstep.
      * rewrite <- app_assoc. reflexivity.
Qed.

(** The groups hold the keys of the dictionary, each once. *)
Lemma groups_permutation (many_to_one : dict node Z) :
  NoDup (keys many_to_one) ->
  Permutation (List.concat (values (groups many_to_one))) (keys many_to_one).
Proof.
  intros Hdup. apply (groups_fold many_to_one []). exact Hdup.
Qed.

(** *** the initial checks *)

Lemma is_connected_raises (G : Graph) e :
  is_connected G = Raise e -> precondition_error e.
Proof.
  unfold is_connected. destruct (is_directed G).
  - intros [= <-]. exact I.
  - destruct (nodes G); [|discriminate]. intros [= <-]. exact I.
Qed.

Lemma initial_checks_raises (G : Graph) (k : pyobj) e :
  initial_checks G k = Raise e -> precondition_error e.
Proof.
  unfold initial_checks. destruct k as [z|]; [|intros [= <-]; exact I].
  destruct (negb (z >? 0)%Z); [intros [= <-]; exact I|].
  destruct (is_connected G) as [c|e'] eqn:Hc; simpl.
  - destruct (negb c); [intros [= <-]; exact I|].
    destruct (len G <? z)%Z; [intros [= <-]; exact I | discriminate].
  - intros [= <-]. eapply is_connected_raises; eauto.
Qed.

(** what an input that passes the checks is known to satisfy *)
Lemma initial_checks_Ok (G : Graph) (k : pyobj) z :
  initial_checks G k = Ok z ->
  k = PyInt z /\ (0 < z <= len G)%Z /\ is_connected G = Ok true.
Proof.
  unfold initial_checks. destruct k as [z'|]; [|discriminate].
  destruct (z' >? 0)%Z eqn:Hpos; simpl; [|discriminate].
  destruct (is_connected G) as [c|e'] eqn:Hc; simpl; [|discriminate].
  destruct c; simpl; [|discriminate].
  destruct (len G <? z')%Z eqn:Hlen; [discriminate|].
  intros [= <-]. repeat split; lia.
Qed.

Lemma violation_fails_checks (G : Graph) (k : pyobj) :
  (is_directed G = false -> undirected_graph G) ->
  violates_precondition G k ->
  exists e, initial_checks G k = Raise e.
Proof.
  intros Hwf Hbad.
  destruct (initial_checks G k) as [z|e] eqn:Hchecks; [exfalso | eauto].
  apply initial_checks_Ok in Hchecks as (-> & Hz & Hc).
  assert (Hund : is_directed G = false).
  { unfold is_connected in Hc. destruct (is_directed G);
      [discriminate | reflexivity]. }
  destruct Hbad as [Hk|[(z' & Hk & Hz')|[(z' & Hk & Hz')|[Hdis|Hdir]]]];
    try discriminate; try (injection Hk as <-; lia).
  - apply Hdis. apply is_connected_connected; auto.
  - congruence.
Qed.

(** *** the sweeps *)

Section Run.

Variable RandomState : Type.
Variable shuffle : RandomState -> list node -> list node * RandomState.
Variable choice : RandomState -> list Z -> Z * RandomState.
Variable G : Graph.


Lemma counter_update_nonempty c com d : counter_update c com d <> [].
Proof.
  unfold counter_update. destruct c as [|[k0 q0] c]; [discriminate|].
  destruct (getitem _ com); apply setitem_nonempty.
Qed.

Lemma count_vote_Ok (st : State RandomState) c w :
  exists c', count_vote st c w = Ok c' /\
    ((votes st w /\ c' <> []) \/ (~ votes st w /\ c' = c)).
Proof.
  unfold count_vote, votes.
  destruct (getitem (communities st) w) as [com|e] eqn:Hcom; simpl.
  - destruct (getitem (density st) com) as [d|e] eqn:Hd; simpl.
    + eexists. split; [reflexivity|]. left. split; [eauto|].
      apply counter_update_nonempty.
    + rewrite (getitem_raises_KeyError _ _ _ Hd). simpl.
      eexists. split; [reflexivity|]. right. split; [|reflexivity].
      intros (com' & d' & [= <-] & Hd'). congruence.
  - rewrite (getitem_raises_KeyError _ _ _ Hcom). simpl.
    eexists. split; [reflexivity|]. right. split; [|reflexivity].
    intros (com' & d' & Heq & _). discriminate.
Qed.

Lemma foldM_count_vote (st : State RandomState) ns c :
  exists c', foldM (count_vote st) ns c = Ok c' /\
    (c <> [] -> c' <> []) /\
    (c' = [] -> forall w, In w ns -> ~ votes st w).
Proof.
  revert c. induction ns as [|w ns IH]; intros c; simpl.
  - exists c. split; [reflexivity|]. split; [auto|]. intros _ w [].
  - destruct (count_vote_Ok st c w) as (c1 & Hc1 & Hcase).
    rewrite Hc1. simpl. destruct (IH c1) as (c' & Hc' & Hne & Hempty).
    exists c'. split; [assumption|]. split.
    + intros Hc. apply Hne. destruct Hcase as [[_ ?]|[_ ->]]; assumption.
    + intros He w' [<-|Hin]; [|now apply Hempty].
      destruct Hcase as [[_ Hc1ne]|[Hno _]]; [|assumption].
      exfalso. now apply Hne.
Qed.


(** leaving the old community keeps every density key *)
Lemma leave_block_keys (st : State RandomState) v c2n dens :
  except_KeyError
    (old <- getitem (communities st) v ;;
     n <- getitem (com_to_numvertices st) old ;;
     n' <- getitem (setitem (com_to_numvertices st) old (n - 1)%Z) old ;;
     d <- density_of n' ;;
     Ok (setitem (com_to_numvertices st) old (n - 1)%Z,
         setitem (density st) old d))
    (Ok (com_to_numvertices st, density st))
  = Ok (c2n, dens) ->
  forall c, In c (keys (density st)) -> In c (keys dens).
Proof.
  destruct (getitem (communities st) v) as [old|e]; simpl.
  - destruct (getitem (com_to_numvertices st) old) as [n|e]; simpl.
    + rewrite getitem_setitem_same. simpl.
      destruct (density_of (n - 1)) as [d|e]; simpl.
      * intros [= <- <-] c Hc. apply keys_setitem. now right.
      * destruct e; discriminate || (intros [= <- <-]; auto).
    + destruct e; discriminate || (intros [= <- <-]; auto).
  - destruct e; discriminate || (intros [= <- <-]; auto).
Qed.

Lemma update_vertex_cases (st st' : State RandomState) v :
  update_vertex choice G st v = Ok st' ->
  exists ns, neighbors G v = Ok ns /\
    ((st' = st /\
      ((~ votes st v /\ forall w, In w ns -> ~ votes st w) \/
       assigned st v)) \/
     (cont st' = true /\ iter_count st' = iter_count st /\
      (exists new_com,
          communities st' = setitem (communities st) v new_com /\
          In new_com (keys (density st'))) /\
      (forall c, In c (keys (density st)) -> In c (keys (density st'))))).
Proof.
  unfold update_vertex. intros Hrun.
  destruct (count_vote_Ok st [] v) as (c0 & Hc0 & Hcase0).
  rewrite Hc0 in Hrun. simpl in Hrun.
  destruct (neighbors G v) as [ns|e] eqn:Hns; simpl in Hrun; [|discriminate].
  exists ns. split; [reflexivity|].
  destruct (foldM_count_vote st ns c0) as (c & Hc & Hne & Hempty).
  rewrite Hc in Hrun. simpl in Hrun.
  destruct c as [|p c].
  { simpl in Hrun. injection Hrun as <-. left. split; [reflexivity|]. left.
    split; [|auto]. destruct Hcase0 as [[_ Hc0ne]|[Hno _]]; [|assumption].
    exfalso. now apply Hne. }
  remember (p :: c) as counter eqn:Hcounter.
  replace (0 <? List.length (keys counter)) with true in Hrun
    by (subst counter; reflexivity).
  remember (keys (filter (fun cf : Z * Q =>
                            qltb (qmax (values counter) - snd cf) (1 # 10000))
                         counter)) as best eqn:Hbest.
  assert (Hchange :
    ('(new_com, rng) <-
       match best with
       | [] => Raise IndexError
       | _ => Ok (choice (seed st) best)
       end ;;
     '(com_to_numvertices, density) <-
       except_KeyError
         (old <- getitem (communities st) v ;;
          n <- getitem (com_to_numvertices st) old ;;
          n' <- getitem (setitem (com_to_numvertices st) old (n - 1)%Z) old ;;
          d <- density_of n' ;;
          Ok (setitem (com_to_numvertices st) old (n - 1)%Z,
              setitem (density st) old d))
         (Ok (com_to_numvertices st, density st)) ;;
     n <- getitem com_to_numvertices new_com ;;
     n' <- getitem (setitem com_to_numvertices new_com (n + 1)%Z) new_com ;;
     d <- density_of n' ;;
     Ok {| communities := setitem (communities st) v new_com;
           density := setitem density new_com d;
           com_to_numvertices := setitem com_to_numvertices new_com (n + 1)%Z;
           seed := rng;
           cont := true;
           iter_count := iter_count st |}) = Ok st' ->
    cont st' = true /\ iter_count st' = iter_count st /\
    (exists new_com,
        communities st' = setitem (communities st) v new_com /\
        In new_com (keys (density st'))) /\
    (forall c, In c (keys (density st)) -> In c (keys (density st')))).
  { clear Hrun. intros Hrun.
    apply bind_Ok_inv in Hrun as ([new_com rng] & _ & Hrun).
    apply bind_Ok_inv in Hrun as ([c2n dens] & Hleave & Hrun).
    apply bind_Ok_inv in Hrun as (n & _ & Hrun).
    apply bind_Ok_inv in Hrun as (n' & _ & Hrun).
    apply bind_Ok_inv in Hrun as (d & _ & [= <-]). simpl.
    split; [reflexivity|]. split; [reflexivity|]. split.
    - exists new_com. split; [reflexivity|]. apply keys_setitem. now left.
    - intros c1 Hc1. apply keys_setitem. right.
      eapply leave_block_keys; eauto. }
  destruct (getitem (communities st) v) as [com|e] eqn:Hcom.
  - simpl in Hrun.
    destruct ((if list_contains best com then com else -1) =? -1)%Z.
    + right. apply Hchange. exact Hrun.
    + injection Hrun as <-. left. split; [reflexivity|]. right.
      apply getitem_Ok_keys. eauto.
  - pose proof (getitem_raises_KeyError _ _ _ Hcom) as ->.
    right. apply Hchange. exact Hrun.
Qed.


Lemma votes_assigned (st : State RandomState) w :
  sound_state G st -> (votes st w <-> assigned st w).
Proof.
  intros Hs. unfold votes, assigned. rewrite getitem_Ok_keys. split.
  - intros (com & d & Hcom & _). eauto.
  - intros (com & Hcom). exists com.
    pose proof (community_has_density Hs _ Hcom) as Hd.
    apply getitem_Ok_keys in Hd as (d & Hd). eauto.
Qed.

Lemma update_vertex_sound (st st' : State RandomState) v :
  sound_state G st -> In v (nodes G) ->
  update_vertex choice G st v = Ok st' ->
  sound_state G st'.
Proof.
  intros Hs Hv Hrun.
  destruct (update_vertex_cases st st' v Hrun)
    as (ns & _ & [[-> _]|(_ & _ & (new_com & Hcom & Hnew) & Hmono)]);
    [assumption|].
  split; rewrite Hcom.
  - apply NoDup_keys_setitem, (assigned_once Hs).
  - intros x Hx. apply keys_setitem in Hx as [->|Hx]; [assumption|].
    now apply (assigned_are_nodes Hs).
  - apply setitem_nonempty.
  - intros w com. destruct (Nat.eq_dec v w) as [<-|Hne].
    + rewrite getitem_setitem_same. now intros [= <-].
    + rewrite getitem_setitem_other by assumption.
      intros Hw. apply Hmono. exact (community_has_density Hs _ Hw).
Qed.

Lemma foldM_update_vertex vs (st st' : State RandomState) :
  foldM (update_vertex choice G) vs st = Ok st' ->
  sound_state G st -> incl vs (nodes G) ->
  sound_state G st' /\
  iter_count st' = iter_count st /\
  (cont st' = false ->
     st' = st /\ forall v, In v vs -> at_rest G st v).
Proof.
  revert st. induction vs as [|v vs IH]; simpl; intros st Hrun Hs Hvs.
  - injection Hrun as <-. split; [assumption|]. split; [reflexivity|].
    intros _. split; [reflexivity|]. intros v [].
  - apply bind_Ok_inv in Hrun as (st1 & Hv & Hrun).
    assert (Hvn : In v (nodes G)) by (apply Hvs; now left).
    assert (Hs1 : sound_state G st1) by (eapply update_vertex_sound; eauto).
    destruct (IH st1 Hrun Hs1) as (Hs' & Hit & Hrest).
    { intros x Hx. apply Hvs. now right. }
    destruct (update_vertex_cases st st1 v Hv)
      as (ns & Hns & [[-> Hv0]|(Hcont & Hit1 & _ & _)]).
    + split; [assumption|]. split; [assumption|].
      intros Hc. destruct (Hrest Hc) as (-> & Hvs').
      split; [reflexivity|]. intros x [<-|Hx]; [|auto].
      intros ns' w Hns' Hw Haw. rewrite Hns in Hns'. injection Hns' as <-.
      destruct Hv0 as [[_ Hno]|Hav]; [|assumption].
      exfalso. apply (Hno w Hw). now apply votes_assigned.
    + split; [assumption|]. split; [congruence|].
      intros Hc. destruct (Hrest Hc) as (-> & _). congruence.
Qed.


Lemma foldM_update_vertex_count vs (st st' : State RandomState) :
  foldM (update_vertex choice G) vs st = Ok st' ->
  iter_count st' = iter_count st.
Proof.
  revert st. induction vs as [|v vs IH]; simpl; intros st Hrun.
  - now injection Hrun as <-.
  - apply bind_Ok_inv in Hrun as (st1 & Hv & Hrun).
    rewrite (IH st1 Hrun).
    destruct (update_vertex_cases st st1 v Hv)
      as (ns & _ & [[-> _]|(_ & Hit & _)]); auto.
Qed.

Lemma sweep_count (st st' : State RandomState) :
  sweep shuffle choice G st = Ok st' ->
  iter_count st' = (iter_count st + 1)%Z.
Proof.
  unfold sweep. destruct (shuffle (seed st) (nodes G)) as [vertices rng].
  intros Hrun. now rewrite (foldM_update_vertex_count _ _ _ Hrun).
Qed.

(** The turns granted to [asyn_fluidc_run] are enough: the loop is left
    within [max_iter + 1] sweeps. *)
Lemma while_cont_terminates fuel max_iter (st : State RandomState) :
  Z.to_nat (max_iter - iter_count st) < fuel ->
  exists r, while_cont shuffle choice fuel G max_iter st = Some r.
Proof.
  revert st. induction fuel as [|fuel IH]; intros st Hfuel; [lia|].
  simpl. destruct (cont st); [|eauto].
  destruct (sweep shuffle choice G st) as [st1|e] eqn:Hsweep; [|eauto].
  pose proof (sweep_count st st1 Hsweep) as Hit.
  destruct (iter_count st1 >? max_iter)%Z eqn:Hgt; [eauto|].
  apply IH. lia.
Qed.

Hypothesis Hshuffle : shuffle_permutes shuffle.

Lemma sweep_sound (st st' : State RandomState) :
  sweep shuffle choice G st = Ok st' ->
  sound_state G st ->
  sound_state G st' /\
  iter_count st' = (iter_count st + 1)%Z /\
  (cont st' = false -> settled G st').
Proof.
  unfold sweep. intros Hrun Hs.
  pose proof (Hshuffle (seed st) (nodes G)) as Hperm.
  destruct (shuffle (seed st) (nodes G)) as [vertices rng].
  simpl in Hperm.
  destruct (foldM_update_vertex _ _ _ Hrun) as (Hs' & Hit & Hrest).
  { destruct Hs. split; assumption. }
  { intros x Hx. eapply Permutation_in; eauto. }
  split; [assumption|]. split; [exact Hit|].
  intros Hc. destruct (Hrest Hc) as (-> & Hvs).
  intros v ns w Hv. apply Hvs.
  eapply Permutation_in; [symmetry|]; eauto.
Qed.

Lemma while_cont_sound fuel max_iter (st st' : State RandomState) :
  while_cont shuffle choice fuel G max_iter st = Some (Ok st') ->
  sound_state G st -> (cont st = false -> settled G st) ->
  sound_state G st' /\ (cont st' = false -> settled G st').
Proof.
  revert st. induction fuel as [|fuel IH]; intros st; simpl.
  - destruct (cont st) eqn:Hc; [discriminate|].
    intros [= <-] Hs Hset. split; [assumption|]. intros _. auto.
  - destruct (cont st) eqn:Hc.
    + destruct (sweep shuffle choice G st) as [st1|e] eqn:Hsweep;
        [|discriminate].
      intros Hrun Hs _.
      destruct (sweep_sound st st1 Hsweep Hs) as (Hs1 & _ & Hset1).
      destruct (iter_count st1 >? max_iter)%Z.
      * injection Hrun as <-. auto.
      * eapply IH; eauto.
    + intros [= <-] Hs Hset. split; [assumption|]. intros _. auto.
Qed.

(** every sweep granted is used at most once: the count of turns made is
    at most [max_iter + 1], and positive *)
Lemma while_cont_count fuel max_iter (st st' : State RandomState) :
  while_cont shuffle choice fuel G max_iter st = Some (Ok st') ->
  sound_state G st -> (iter_count st <= Z.max max_iter 0)%Z ->
  (iter_count st <= iter_count st' <= Z.max max_iter 0 + 1)%Z.
Proof.
  revert st. induction fuel as [|fuel IH]; intros st; simpl.
  - destruct (cont st); [discriminate|]. intros [= <-]. lia.
  - destruct (cont st).
    + destruct (sweep shuffle choice G st) as [st1|e] eqn:Hsweep;
        [|discriminate].
      intros Hrun Hs Hle.
      destruct (sweep_sound st st1 Hsweep Hs) as (Hs1 & Hit & _).
      destruct (iter_count st1 >? max_iter)%Z eqn:Hgt.
      * injection Hrun as <-. lia.
      * specialize (IH st1 Hrun Hs1). lia.
    + intros [= <-]. lia.
Qed.


(** *** the initialisation *)

Lemma enumerate_fold (l : list node) :
  forall (acc : dict node Z) (i : Z),
    NoDup (keys acc) ->
    let r := fst (fold_left
                    (fun acc n =>
                       (setitem (fst acc) n (snd acc), (snd acc + 1)%Z))
                    l (acc, i)) in
    NoDup (keys r) /\
    (forall x, In x (keys r) <-> In x (keys acc) \/ In x l).
Proof.
  induction l as [|n l IH]; intros acc i Hd; simpl.
  - split; [assumption|]. intros x. tauto.
  - destruct (IH (setitem acc n i) (i + 1)%Z) as (Hd' & Hkeys).
    { now apply NoDup_keys_setitem. }
    split; [assumption|]. intros x. rewrite Hkeys, keys_setitem.
    intuition.
Qed.

Lemma initialize_densities (communities : dict node Z) (l : list node) :
  forall (acc acc' : dict Z Q * dict Z Z),
    foldM (fun acc vertex =>
             let '(density, com_to_numvertices) := acc in
             com <- getitem communities vertex ;;
             let com_to_numvertices := setitem com_to_numvertices com 1%Z in
             com' <- getitem communities vertex ;;
             Ok (setitem density com' max_density, com_to_numvertices))
          l acc = Ok acc' ->
    (forall c, In c (keys (fst acc)) -> In c (keys (fst acc'))) /\
    (forall v com, In v l -> getitem communities v = Ok com ->
                   In com (keys (fst acc'))).
Proof.
  induction l as [|v l IH]; intros [dens c2n] acc'; simpl.
  - intros [= <-]. split; [auto|]. intros v com [].
  - intros Hrun. apply bind_Ok_inv in Hrun as ([dens1 c2n1] & Hstep & Hrun).
    apply bind_Ok_inv in Hstep as (com & Hcom & Hstep).
    rewrite Hcom in Hstep. simpl in Hstep. injection Hstep as <- <-.
    destruct (IH _ _ Hrun) as (Hmono & Hcov). simpl in Hmono.
    split.
    + intros c Hc. apply Hmono. apply keys_setitem. now right.
    + intros w com' [<-|Hw] Hw'; [|eauto].
      apply Hmono. apply keys_setitem. left. congruence.
Qed.

Lemma initialize_sound k rng (st : State RandomState) :
  initialize shuffle G k rng = Ok st ->
  NoDup (nodes G) -> (0 < k <= len G)%Z ->
  sound_state G st /\ cont st = true /\ iter_count st = 0%Z.
Proof.
  unfold initialize. intros Hrun Hnodes Hk.
  pose proof (Hshuffle rng (nodes G)) as Hperm.
  destruct (shuffle rng (nodes G)) as [vertices rng'] eqn:Hsh.
  simpl in Hperm.
  apply bind_Ok_inv in Hrun as ([dens c2n] & Hdens & [= <-]). simpl.
  split; [|split; reflexivity].
  destruct (enumerate_fold (firstn (Z.to_nat k) vertices) [] 0%Z)
    as (Hdup & Hkeys); [constructor|].
  fold (enumerate_communities vertices k) in Hdup, Hkeys.
  destruct (initialize_densities _ _ _ _ Hdens) as (_ & Hcov).
  split; simpl.
  - assumption.
  - intros x Hx. apply Hkeys in Hx as [[]|Hx].
    apply (Permutation_in x Hperm).
    rewrite <- (firstn_skipn (Z.to_nat k) vertices).
    apply in_or_app. now left.
  - assert (Hlen : List.length vertices = List.length (adj G)).
    { rewrite (Permutation_length Hperm). unfold nodes, keys.
      apply length_map. }
    unfold len in Hk.
    destruct vertices as [|v0 vs]; [simpl in Hlen; lia|].
    intros Hempty.
    assert (Hin : In v0 (keys (enumerate_communities (v0 :: vs) k))).
    { apply Hkeys. right.
      destruct (Z.to_nat k) eqn:Hn; [lia|]. now left. }
    rewrite Hempty in Hin. destruct Hin.
  - intros v com Hv. apply (Hcov v com); [|assumption].
    apply getitem_Ok_keys. eauto.
Qed.

(** *** convergence covers the graph *)

Lemma settled_covers (st : State RandomState) :
  undirected_graph G -> is_connected G = Ok true ->
  sound_state G st -> settled G st ->
  forall v, In v (nodes G) -> assigned st v.
Proof.
  intros Hwf Hc Hs Hset.
  destruct (is_connected_reachable G (neighbors_are_nodes Hwf) Hc)
    as (source & _ & Hreach).
  destruct (communities st) as [|[a com] rest] eqn:Hcom;
    [now destruct (some_assigned Hs)|].
  assert (Ha : assigned st a) by (unfold assigned; rewrite Hcom; now left).
  assert (Han : In a (nodes G)) by now apply (assigned_are_nodes Hs).
  assert (Hfrom : forall x, reachable G a x -> assigned st x).
  { intros x Hx. induction Hx as [|x y ns _ IH Hns Hy]; [assumption|].
    destruct (adjacency_symmetric Hwf _ _ Hns Hy) as (ns' & Hns' & Hx').
    apply (Hset y ns' x); auto.
    exact (@neighbors_are_nodes G Hwf x ns y Hns Hy). }
  intros v Hv. apply Hfrom.
  apply reachable_trans with source; [|auto].
  apply (reachable_sym G (adjacency_symmetric Hwf)). auto.
Qed.

End Run.

(** *** arithmetic of the densities *)

Lemma qmax_In (l : list Q) : l <> [] -> In (qmax l) l.
Proof.
  destruct l as [|x l]; [congruence|]. intros _. unfold qmax.
  assert (H : forall m, In (fold_left (fun m y =>
                 match (m ?= y)%Q with Lt => y | _ => m end) l m) (m :: l)).
  { induction l as [|y l IH]; intros m; simpl; [now left|].
    destruct (IH (match (m ?= y)%Q with Lt => y | _ => m end)) as [Heq|Hin].
    - destruct (m ?= y)%Q; rewrite <- Heq; auto.
    - auto. }
  apply H.
Qed.

Lemma qltb_true (a b : Q) : (a < b)%Q -> qltb a b = true.
Proof.
  intros Hlt. pose proof (proj1 (Qlt_alt a b) Hlt) as H.
  unfold qltb. now rewrite H.
Qed.

Lemma share_le_one (t n : Z) :
  (0 <= t <= n)%Z -> (1 <= n)%Z ->
  (inject_Z t * (max_density / inject_Z n) <= 1)%Q.
Proof.
  intros Ht Hn. unfold max_density.
  destruct n as [|p|p]; try lia.
  unfold Qle, Qmult, Qdiv, Qinv, inject_Z. simpl. lia.
Qed.

Lemma share_ge_one (t : Z) :
  (1 <= t)%Z -> (1 <= inject_Z t * (max_density / inject_Z 1))%Q.
Proof.
  intros Ht. unfold max_density, Qle, Qmult, Qdiv, Qinv, inject_Z. simpl. lia.
Qed.

(** *** sizes of communities *)

Lemma size_app (d1 d2 : dict node Z) c :
  size (d1 ++ d2) c = (size d1 c + size d2 c)%Z.
Proof. unfold size. rewrite filter_app, length_app. lia. Qed.

Lemma size_one (v : node) (c' c : Z) :
  size [(v, c')] c = if (c' =? c)%Z then 1%Z else 0%Z.
Proof. unfold size. simpl. destruct (c' =? c)%Z; reflexivity. Qed.

Lemma size_cons (v : node) (c' : Z) (d : dict node Z) c :
  size ((v, c') :: d) c = ((if (c' =? c)%Z then 1 else 0) + size d c)%Z.
Proof. rewrite (size_app [(v, c')] d), size_one. reflexivity. Qed.

Lemma size_nonneg (d : dict node Z) c : (0 <= size d c)%Z.
Proof. unfold size. lia. Qed.

(** giving a community to a node that had none *)
Lemma size_setitem_new (d : dict node Z) v c' c :
  ~ In v (keys d) ->
  size (setitem d v c') c
  = (size d c + if (c' =? c)%Z then 1 else 0)%Z.
Proof.
  intros Hnew. rewrite setitem_absent by assumption.
  now rewrite size_app, size_one.
Qed.

(** moving a node from one community to another *)
Lemma size_setitem_move (d : dict node Z) v old c' c :
  getitem d v = Ok old ->
  size (setitem d v c') c
  = (size d c - (if (old =? c)%Z then 1 else 0)
     + if (c' =? c)%Z then 1 else 0)%Z.
Proof.
  intros Hold. destruct (setitem_present d v c' old Hold)
    as (l1 & l2 & -> & ->).
  rewrite !size_app, !size_cons. lia.
Qed.

Section Tally.

Variable RandomState : Type.
Variable st : State RandomState.

Hypothesis Hdensity :
  forall v com, getitem (communities st) v = Ok com ->
                In com (keys (density st)).

Lemma tally_nonneg c l : (0 <= tally st c l)%Z.
Proof. unfold tally. lia. Qed.

Lemma tally_cons c w l :
  tally st c (w :: l)
  = ((if in_community st c w then 1 else 0) + tally st c l)%Z.
Proof.
  unfold tally. cbn [filter].
  destruct (in_community st c w); cbn [List.length]; lia.
Qed.

Lemma tally_app c l1 l2 :
  tally st c (l1 ++ l2) = (tally st c l1 + tally st c l2)%Z.
Proof. unfold tally. rewrite filter_app, length_app. lia. Qed.

Lemma tally_rev c l : tally st c (rev l) = tally st c l.
Proof.
  induction l as [|w l IH]; [reflexivity|].
  simpl. rewrite tally_app, IH, (tally_cons c w l), (tally_cons c w []).
  replace (tally st c []) with 0%Z by reflexivity. lia.
Qed.

Lemma tallied_nil : tallied st [] [].
Proof.
  split; [constructor|]. split; [intros ? ? []|].
  intros com. unfold tally. simpl. lia.
Qed.

Lemma count_vote_tallied voters c w c' :
  tallied st voters c -> count_vote st c w = Ok c' ->
  tallied st (w :: voters) c'.
Proof.
  intros (Hd & Hval & Hkeys). unfold count_vote.
  destruct (getitem (communities st) w) as [com'|e] eqn:Hw; simpl.
  - pose proof (Hdensity w com' Hw) as Hin.
    apply getitem_Ok_keys in Hin as (d' & Hd').
    rewrite Hd'. simpl. intros [= <-].
    assert (Htally : forall com,
               tally st com (w :: voters)
               = ((if (com' =? com)%Z then 1 else 0)
                  + tally st com voters)%Z).
    { intros com. rewrite tally_cons. unfold in_community. now rewrite Hw. }
    assert (Hzero : ~ In com' (keys c) -> tally st com' voters = 0%Z).
    { intros Hnot. pose proof (tally_nonneg com' voters).
      destruct (Z.le_gt_cases 1 (tally st com' voters)) as [Hge|]; [|lia].
      now apply Hkeys in Hge. }
    assert (Hfresh : forall (q : Q),
               ~ In com' (keys c) -> (q == d')%Q ->
               tallied st (w :: voters) (setitem c com' q)).
    { intros q Hnot Hq. split; [now apply NoDup_keys_setitem|]. split.
      - intros com q0 Hin0.
        apply In_setitem_NoDup in Hin0 as [[-> ->]|[Hne Hin0]];
          [|destruct (Hval com q0 Hin0) as (d & Hdk & Hq0)|assumption].
        + exists d'. split; [assumption|].
          rewrite Htally, Z.eqb_refl, (Hzero Hnot), Hq. simpl. ring.
        + exists d. split; [assumption|]. rewrite Htally.
          destruct (com' =? com)%Z eqn:E; [apply Z.eqb_eq in E; congruence|].
          exact Hq0.
      - intros com. rewrite Htally, keys_setitem.
        destruct (com' =? com)%Z eqn:E.
        + apply Z.eqb_eq in E. now left.
        + intros Hge. right. now apply Hkeys. }
    unfold counter_update. destruct c as [|p c].
    { change [(com', d')] with (setitem (@nil (Z * Q)) com' d').
      apply Hfresh; [intros []|reflexivity]. }
    remember (p :: c) as counter eqn:Hcounter. clear Hcounter p c.
    destruct (getitem counter com') as [old|e] eqn:Hold.
    + split; [now apply NoDup_keys_setitem|]. split.
      * intros com q0 Hin0.
        apply In_setitem_NoDup in Hin0 as [[-> ->]|[Hne Hin0]];
          [|destruct (Hval com q0 Hin0) as (d & Hdk & Hq0)|assumption].
        -- destruct (Hval com' old (getitem_Ok_In _ _ _ Hold))
             as (d & Hdk & Hq0).
           rewrite Hd' in Hdk. injection Hdk as <-.
           exists d'. split; [assumption|].
           rewrite Htally, Z.eqb_refl, Hq0, inject_Z_plus. simpl. ring.
        -- exists d. split; [assumption|]. rewrite Htally.
           destruct (com' =? com)%Z eqn:E; [apply Z.eqb_eq in E; congruence|].
           exact Hq0.
      * intros com. rewrite Htally, keys_setitem.
        destruct (com' =? com)%Z eqn:E.
        -- apply Z.eqb_eq in E. now left.
        -- intros Hge. right. now apply Hkeys.
    + apply Hfresh; [|ring].
      rewrite (getitem_raises_KeyError _ _ _ Hold) in Hold.
      now apply getitem_Raise_keys.
  - pose proof (getitem_raises_KeyError _ _ _ Hw) as ->. simpl.
    intros [= <-]. split; [assumption|].
    assert (Htally : forall com,
               tally st com (w :: voters) = tally st com voters).
    { intros com. rewrite tally_cons. unfold in_community. now rewrite Hw. }
    split.
    + intros com q Hin. rewrite Htally. auto.
    + intros com. rewrite Htally. auto.
Qed.

Lemma foldM_count_vote_tallied ns voters c c' :
  tallied st voters c -> foldM (count_vote st) ns c = Ok c' ->
  tallied st (rev ns ++ voters) c'.
Proof.
  revert voters c. induction ns as [|w ns IH]; simpl; intros voters c Ht.
  - now intros [= <-].
  - intros Hrun. apply bind_Ok_inv in Hrun as (c1 & Hw & Hrun).
    rewrite <- app_assoc. simpl. eapply IH; [|exact Hrun].
    eapply count_vote_tallied; eauto.
Qed.

End Tally.

Section Counting.

Variable RandomState : Type.

Lemma tally_le_size (st : State RandomState) com ns :
  NoDup ns -> (tally st com ns <= size (communities st) com)%Z.
Proof.
  intros Hd. unfold tally, size. apply Nat2Z.inj_le.
  rewrite <- (length_map fst (filter _ (communities st))).
  apply NoDup_incl_length; [now apply NoDup_filter|].
  intros w Hw. apply filter_In in Hw as (_ & Hc).
  unfold in_community in Hc.
  destruct (getitem (communities st) w) as [c'|] eqn:Hg; [|discriminate].
  apply in_map_iff. exists (w, c'). split; [reflexivity|].
  apply filter_In. split; [now apply getitem_Ok_In | exact Hc].
Qed.

Lemma counted_ext sizes sizes' dens c2n :
  (forall c, sizes c = sizes' c) -> counted sizes dens c2n ->
  counted sizes' dens c2n.
Proof.
  intros Hext [H1 H2 H3 H4 H5]. split; auto.
  intros c n Hn. rewrite <- Hext. auto.
Qed.

(** recording [n] nodes for a community that is in the tables *)
Lemma counted_update sizes dens c2n c0 n0 n :
  counted sizes dens c2n -> getitem c2n c0 = Ok n0 -> (1 <= n)%Z ->
  counted (fun c => if (c =? c0)%Z then n else sizes c)
          (setitem dens c0 (max_density / inject_Z n)%Q)
          (setitem c2n c0 n).
Proof.
  intros [H1 H2 H3 H4 H5] Hc0 Hn.
  assert (Hin : In c0 (keys c2n)) by (apply getitem_Ok_keys; eauto).
  split; [| | | |now apply NoDup_keys_setitem].
  - intros c. rewrite !keys_setitem, H1. tauto.
  - intros c Hc. apply keys_setitem in Hc as [->|Hc]; [|auto].
    apply H2, H1, Hin.
  - intros c x. destruct (Z.eq_dec c0 c) as [<-|Hne].
    + rewrite getitem_setitem_same, Z.eqb_refl. intros [= <-]. auto.
    + rewrite getitem_setitem_other by assumption.
      destruct (c =? c0)%Z eqn:E; [apply Z.eqb_eq in E; congruence|]. auto.
  - intros c x. destruct (Z.eq_dec c0 c) as [<-|Hne].
    + rewrite !getitem_setitem_same. now intros [= <-].
    + rewrite !getitem_setitem_other by assumption. auto.
Qed.

Variable st : State RandomState.

Hypothesis Hdensity :
  forall v com, getitem (communities st) v = Ok com ->
                In com (keys (density st)).
Hypothesis Hcounted : counted_state st.

(** the communities in the counter are in the tables, and a vote counts
    for one at most *)
Lemma tallied_share voters c com q n :
  tallied st voters c -> In (com, q) c ->
  getitem (com_to_numvertices st) com = Ok n ->
  (q == inject_Z (tally st com voters) * (max_density / inject_Z n))%Q.
Proof.
  intros (_ & Hval & _) Hin Hn.
  destruct (Hval com q Hin) as (d & Hd & Hq).
  rewrite (density_is_inverse Hcounted _ Hn) in Hd. injection Hd as <-.
  exact Hq.
Qed.

Lemma tallied_counted voters c com q :
  tallied st voters c -> In (com, q) c ->
  exists n, getitem (com_to_numvertices st) com = Ok n.
Proof.
  intros (_ & Hval & _) Hin. destruct (Hval com q Hin) as (d & Hd & _).
  apply getitem_Ok_keys, (same_communities Hcounted), getitem_Ok_keys.
  eauto.
Qed.

Lemma best_of_nonempty c : c <> [] -> best_of c <> [].
Proof.
  intros Hc.
  assert (Hv : values c <> []) by (destruct c; [congruence | discriminate]).
  pose proof (qmax_In (values c) Hv) as Hin.
  apply in_map_iff in Hin as ([com q] & Hq & Hin). simpl in Hq.
  assert (Hbest : In com (best_of c)).
  { apply in_map_iff. exists (com, q). split; [reflexivity|].
    apply filter_In. split; [assumption|]. simpl. apply qltb_true.
    rewrite Hq. setoid_replace (qmax (values c) - qmax (values c))%Q
      with 0%Q by ring. reflexivity. }
  intros Hnil. rewrite Hnil in Hbest. destruct Hbest.
Qed.

Lemma best_of_counter c com :
  In com (best_of c) -> exists q, In (com, q) c.
Proof.
  intros Hin. apply in_map_iff in Hin as ([com' q] & <- & Hin).
  apply filter_In in Hin as (Hin & _). eauto.
Qed.

(** A node that is alone in its community keeps it: its own vote weighs
    one, and no other community can weigh more. *)
Lemma alone_stays v old ns counter :
  getitem (communities st) v = Ok old ->
  size (communities st) old = 1%Z ->
  NoDup ns ->
  tallied st (rev ns ++ [v]) counter ->
  In old (best_of counter).
Proof.
  intros Hv Hone Hns Htal.
  pose proof Htal as (_ & Hval & Hkeys).
  assert (Hown : in_community st old v = true).
  { unfold in_community. rewrite Hv. apply Z.eqb_refl. }
  assert (Htv : forall com,
             tally st com (rev ns ++ [v])
             = (tally st com ns + if in_community st com v then 1 else 0)%Z).
  { intros com. rewrite tally_app, tally_rev, tally_cons.
    replace (tally st com []) with 0%Z by reflexivity. lia. }
  assert (Hin : In old (keys counter)).
  { apply Hkeys. rewrite Htv, Hown. pose proof (tally_nonneg _ st old ns).
    lia. }
  apply getitem_Ok_keys in Hin as (q_old & Hq_old).
  apply getitem_Ok_In in Hq_old.
  destruct (tallied_counted _ _ _ _ Htal Hq_old) as (n & Hn).
  destruct (count_is_size Hcounted _ Hn) as (Hsize & _).
  rewrite Hone in Hsize. subst n.
  pose proof (tallied_share _ _ _ _ _ Htal Hq_old Hn) as Hshare.
  assert (Hge : (1 <= q_old)%Q).
  { rewrite Hshare. apply share_ge_one. rewrite Htv, Hown.
    pose proof (tally_nonneg _ st old ns). lia. }
  apply in_map_iff. exists (old, q_old). split; [reflexivity|].
  apply filter_In. split; [assumption|]. simpl. apply qltb_true.
  assert (Hmax : (qmax (values counter) <= q_old)%Q).
  { assert (Hv' : values counter <> [])
      by (destruct counter; [destruct Hq_old | discriminate]).
    pose proof (qmax_In (values counter) Hv') as Hm.
    apply in_map_iff in Hm as ([com q] & Hq & Hm). simpl in Hq. subst q.
    destruct (tallied_counted _ _ _ _ Htal Hm) as (m & Hmn).
    rewrite (tallied_share _ _ _ _ _ Htal Hm Hmn).
    destruct (Z.eq_dec com old) as [->|Hne].
    - rewrite Hn in Hmn. injection Hmn as <-. rewrite Hshare.
      apply Qle_refl.
    - destruct (count_is_size Hcounted _ Hmn) as (Hm_size & Hm_pos).
      apply Qle_trans with 1%Q; [|exact Hge].
      apply share_le_one; [|assumption].
      split; [apply tally_nonneg|].
      rewrite Htv.
      replace (in_community st com v) with false.
      + rewrite Z.add_0_r, Hm_size. now apply tally_le_size.
      + unfold in_community. rewrite Hv. symmetry.
        apply Z.eqb_neq. congruence. }
  apply Qle_lt_trans with 0%Q; [|reflexivity].
  apply (Qplus_le_r _ _ q_old). ring_simplify. exact Hmax.
Qed.

End Counting.

Section Total.

Variable RandomState : Type.
Variable shuffle : RandomState -> list node -> list node * RandomState.
Variable choice : RandomState -> list Z -> Z * RandomState.
Variable G : Graph.

Hypothesis Hchoice : choice_picks choice.
Hypothesis Hwf : undirected_graph G.

Lemma update_vertex_counted (st : State RandomState) v :
  sound_state G st -> counted_state st -> In v (nodes G) ->
  exists st', update_vertex choice G st v = Ok st' /\ counted_state st'.
Proof.
  intros Hs Hcnt Hv.
  pose proof (community_has_density Hs) as Hdensity.
  unfold update_vertex.
  destruct (count_vote_Ok RandomState st [] v) as (c0 & Hc0 & _).
  rewrite Hc0. simpl.
  apply getitem_Ok_keys in Hv as (ns & Hns).
  unfold neighbors at 1. rewrite Hns. simpl.
  destruct (foldM_count_vote RandomState st ns c0) as (counter & Hc & _).
  rewrite Hc. simpl.
  assert (Htal : tallied st (rev ns ++ [v]) counter).
  { eapply foldM_count_vote_tallied; [exact Hdensity| |exact Hc].
    eapply count_vote_tallied; [exact Hdensity| |exact Hc0].
    apply tallied_nil. }
  destruct counter as [|p counter']; [simpl; eauto|].
  remember (p :: counter') as counter eqn:Hcounter.
  replace (0 <? List.length (keys counter)) with true
    by (subst counter; reflexivity).
  fold (best_of counter).
  assert (Hbest : best_of counter <> [])
    by (apply best_of_nonempty; subst counter; discriminate).
  pose proof (Hchoice (seed st) (best_of counter) Hbest) as Hpick.
  destruct (choice (seed st) (best_of counter)) as [nc rng] eqn:Hch.
  simpl in Hpick.
  destruct (best_of_counter _ _ Hpick) as (q_nc & Hq_nc).
  destruct (tallied_counted _ st Hcnt _ _ _ _ Htal Hq_nc) as (m & Hm).
  destruct (count_is_size Hcnt _ Hm) as (Hm_size & Hm_pos).
  assert (Hpickterm :
            match best_of counter with
            | [] => Raise IndexError
            | _ :: _ => Ok (nc, rng)
            end = Ok (nc, rng)).
  { destruct (best_of counter); [congruence | reflexivity]. }
  destruct (getitem (communities st) v) as [old|e] eqn:Hold.
  - simpl. destruct (list_contains (best_of counter) old) eqn:Hstay.
    + assert (Hpos : (0 <= old)%Z).
      { apply (communities_numbered Hcnt). eapply Hdensity; eauto. }
      replace (old =? -1)%Z with false by (symmetry; apply Z.eqb_neq; lia).
      eauto.
    + simpl. rewrite Hpickterm. simpl.
      apply list_contains_not_In in Hstay.
      assert (Hold_c : In old (keys (com_to_numvertices st))).
      { apply (same_communities Hcnt). eapply Hdensity; eauto. }
      apply getitem_Ok_keys in Hold_c as (n & Hn).
      destruct (count_is_size Hcnt _ Hn) as (Hn_size & Hn_pos).
      assert (Hn2 : (2 <= n)%Z).
      { destruct (Z.eq_dec n 1) as [->|]; [|lia]. exfalso. apply Hstay.
        eapply alone_stays; eauto. eapply (neighbors_once Hwf). exact Hns. }
      rewrite Hn. simpl. rewrite getitem_setitem_same. simpl.
      unfold density_of at 1.
      replace (n - 1 =? 0)%Z with false by (symmetry; apply Z.eqb_neq; lia).
      simpl.
      assert (Hne : old <> nc) by (intros ->; contradiction).
      rewrite getitem_setitem_other by assumption. rewrite Hm. simpl.
      rewrite getitem_setitem_same. simpl.
      unfold density_of.
      replace (m + 1 =? 0)%Z with false by (symmetry; apply Z.eqb_neq; lia).
      simpl. eexists. split; [reflexivity|].
      unfold counted_state. simpl.
      assert (Hleave := counted_update _ _ _ old n (n - 1)%Z Hcnt Hn
                          ltac:(lia)).
      assert (Hm' : getitem (setitem (com_to_numvertices st) old (n - 1)%Z)
                            nc = Ok m)
        by now rewrite getitem_setitem_other.
      assert (Hjoin := counted_update _ _ _ nc m (m + 1)%Z Hleave Hm'
                         ltac:(lia)).
      eapply counted_ext; [|exact Hjoin].
      intros c. simpl. rewrite (size_setitem_move _ v old nc c Hold).
      destruct (c =? nc)%Z eqn:E1; destruct (c =? old)%Z eqn:E2;
        rewrite ?(Z.eqb_sym nc c), ?(Z.eqb_sym old c), ?E1, ?E2;
        try apply Z.eqb_eq in E1; try apply Z.eqb_eq in E2; subst; lia.
  - pose proof (getitem_raises_KeyError _ _ _ Hold) as ->. simpl.
    rewrite Hpickterm. simpl. rewrite Hm. simpl.
    rewrite getitem_setitem_same. simpl.
    unfold density_of.
    replace (m + 1 =? 0)%Z with false by (symmetry; apply Z.eqb_neq; lia).
    simpl. eexists. split; [reflexivity|].
    unfold counted_state. simpl.
    assert (Hjoin := counted_update _ _ _ nc m (m + 1)%Z Hcnt Hm
                       ltac:(lia)).
    eapply counted_ext; [|exact Hjoin].
    intros c. simpl. rewrite size_setitem_new.
    + destruct (c =? nc)%Z eqn:E1; rewrite (Z.eqb_sym nc c), E1;
        try apply Z.eqb_eq in E1; subst; lia.
    + now apply getitem_Raise_keys.
Qed.

Lemma foldM_update_vertex_total vs (st : State RandomState) :
  sound_state G st -> counted_state st -> incl vs (nodes G) ->
  exists st', foldM (update_vertex choice G) vs st = Ok st' /\
              sound_state G st' /\ counted_state st'.
Proof.
  revert st. induction vs as [|v vs IH]; simpl; intros st Hs Hcnt Hvs.
  - eauto.
  - assert (Hv : In v (nodes G)) by (apply Hvs; now left).
    destruct (update_vertex_counted st v Hs Hcnt Hv) as (st1 & Hrun & Hcnt1).
    rewrite Hrun. simpl. apply IH; [|assumption|].
    + eapply update_vertex_sound; eauto.
    + intros x Hx. apply Hvs. now right.
Qed.

Hypothesis Hshuffle : shuffle_permutes shuffle.

Lemma sweep_total (st : State RandomState) :
  sound_state G st -> counted_state st ->
  exists st', sweep shuffle choice G st = Ok st' /\
              sound_state G st' /\ counted_state st'.
Proof.
  intros Hs Hcnt. unfold sweep.
  pose proof (Hshuffle (seed st) (nodes G)) as Hperm.
  destruct (shuffle (seed st) (nodes G)) as [vertices rng].
  simpl in Hperm. apply foldM_update_vertex_total.
  - destruct Hs. split; assumption.
  - exact Hcnt.
  - intros x Hx. eapply Permutation_in; eauto.
Qed.

Lemma while_cont_total fuel max_iter (st : State RandomState) :
  Z.to_nat (max_iter - iter_count st) < fuel ->
  sound_state G st -> counted_state st ->
  exists st', while_cont shuffle choice fuel G max_iter st = Some (Ok st') /\
              counted_state st'.
Proof.
  revert st. induction fuel as [|fuel IH]; intros st Hfuel Hs Hcnt; [lia|].
  simpl. destruct (cont st); [|eauto].
  destruct (sweep_total st Hs Hcnt) as (st1 & Hsweep & Hs1 & Hcnt1).
  rewrite Hsweep.
  pose proof (sweep_count RandomState shuffle choice G st st1 Hsweep) as Hit.
  destruct (iter_count st1 >? max_iter)%Z eqn:Hgt; [eauto|].
  apply IH; [lia | assumption | assumption].
Qed.

End Total.

(** *** the initialisation counts one node for every community *)

Lemma enumerate_values (l : list node) :
  forall (acc : dict node Z) (i : Z),
    NoDup l -> (forall x, In x l -> ~ In x (keys acc)) ->
    NoDup (values acc) ->
    (forall c, In c (values acc) -> (0 <= c < i)%Z) -> (0 <= i)%Z ->
    let r := fst (fold_left
                    (fun acc n =>
                       (setitem (fst acc) n (snd acc), (snd acc + 1)%Z))
                    l (acc, i)) in
    NoDup (values r) /\ forall c, In c (values r) -> (0 <= c)%Z.
Proof.
  induction l as [|n l IH]; intros acc i Hl Hfresh Hd Hlt Hi; simpl.
  - split; [assumption|]. intros c Hc. apply Hlt in Hc. lia.
  - inversion Hl as [|? ? Hn Hl']; subst.
    rewrite setitem_absent by (apply Hfresh; now left).
    apply IH; try assumption; try lia.
    + intros x Hx. rewrite keys_app. simpl. intros Hin.
      apply in_app_or in Hin as [Hin|[<-|[]]]; [|contradiction].
      apply (Hfresh x); [now right | assumption].
    + rewrite values_app. simpl. apply NoDup_app; [assumption| |].
      * repeat constructor. intros [].
      * intros c Hc [<-|[]]. apply Hlt in Hc. lia.
    + intros c Hc. rewrite values_app in Hc. simpl in Hc.
      apply in_app_or in Hc as [Hc|[<-|[]]]; [apply Hlt in Hc|]; lia.
Qed.

Lemma size_absent (d : dict node Z) c : ~ In c (values d) -> size d c = 0%Z.
Proof.
  induction d as [|[v c'] d IH]; [reflexivity|]. simpl. intros Hn.
  rewrite size_cons, IH by tauto.
  destruct (c' =? c)%Z eqn:E; [apply Z.eqb_eq in E; tauto | reflexivity].
Qed.

Lemma size_once (d : dict node Z) c :
  NoDup (values d) -> In c (values d) -> size d c = 1%Z.
Proof.
  induction d as [|[v c'] d IH]; simpl; [intros _ []|].
  intros Hd. inversion Hd as [|? ? Hn Hd']; subst.
  rewrite size_cons. intros [->|Hin].
  - rewrite Z.eqb_refl, size_absent by assumption. reflexivity.
  - rewrite IH by assumption.
    destruct (c' =? c)%Z eqn:E; [|reflexivity].
    apply Z.eqb_eq in E. subst. contradiction.
Qed.

Lemma groups_fold_spec (l : dict node Z) :
  forall (acc : dict Z (list node)) (processed : dict node Z),
    NoDup (keys processed ++ keys l) ->
    NoDup (keys acc) ->
    (forall c, In c (keys acc) <-> In c (values processed)) ->
    (forall c s, getitem acc c = Ok s ->
       incl s (keys processed) /\
       Z.of_nat (List.length s) = size processed c) ->
    let r := fold_left
               (fun one_to_many vk =>
                  let '(v, k) := vk in
                  match getitem one_to_many k with
                  | Ok s =>
                      setitem one_to_many k
                              (if list_contains s v then s else s ++ [v])
                  | Raise _ => setitem one_to_many k [v]
                  end)
               l acc in
    NoDup (keys r) /\
    (forall c, In c (keys r) <-> In c (values (processed ++ l))) /\
    (forall c s, getitem r c = Ok s ->
       Z.of_nat (List.length s) = size (processed ++ l) c).
Proof.
  induction l as [|[v k] l IH]; intros acc processed Hdup Hacc Hkeys Hsize;
    simpl.
  - rewrite app_nil_r. split; [assumption|]. split; [assumption|].
    intros c s Hs. now apply Hsize.
  - assert (Hv : ~ In v (keys processed)).
    { simpl in Hdup. apply NoDup_remove_2 in Hdup. intros Hin. apply Hdup.
      apply in_or_app. now left. }
    assert (Hdup' : NoDup (keys (processed ++ [(v, k)]) ++ keys l)).
    { rewrite keys_app. simpl. rewrite <- app_assoc. exact Hdup. }
    replace (processed ++ (v, k) :: l) with ((processed ++ [(v, k)]) ++ l)
      by (rewrite <- app_assoc; reflexivity).
    assert (Hvals : forall c, In c (values (processed ++ [(v, k)])) <->
                              In c (values processed) \/ c = k).
    { intros c. rewrite values_app, in_app_iff. simpl. intuition. }
    assert (Hsz : forall c, size (processed ++ [(v, k)]) c
                            = (size processed c
                               + if (k =? c)%Z then 1 else 0)%Z).
    { intros c. now rewrite size_app, size_one. }
    apply IH; try assumption.
    + destruct (getitem acc k); now apply NoDup_keys_setitem.
    + intros c. rewrite Hvals.
      destruct (getitem acc k) as [s|e] eqn:Hk; rewrite keys_setitem, Hkeys.
      * split; [intros [ -> | ? ]; auto | intros [ ? | -> ]; auto].
      * split; [intros [ -> | ? ]; auto | intros [ ? | -> ]; auto].
    + intros c s'. rewrite keys_app, Hsz. simpl.
      destruct (getitem acc k) as [s|e] eqn:Hk.
      * destruct (Hsize k s Hk) as (Hincl & Hlen).
        assert (Hns : list_contains s v = false).
        { apply list_contains_not_In. intros Hin. apply Hv. auto. }
        rewrite Hns. destruct (Z.eq_dec k c) as [<-|Hne].
        -- rewrite getitem_setitem_same. intros [= <-]. split.
           ++ intros x Hx. apply in_app_or in Hx as [Hx | [ <- | [] ] ];
                apply in_or_app; [left; auto | right; now left].
           ++ rewrite length_app, Z.eqb_refl. simpl. lia.
        -- rewrite getitem_setitem_other by assumption. intros Hs'.
           destruct (Hsize c s' Hs') as (Hincl' & Hlen'). split.
           ++ intros x Hx. apply in_or_app. left. auto.
           ++ replace (k =? c)%Z with false
                by (symmetry; now apply Z.eqb_neq). lia.
      * pose proof (getitem_raises_KeyError _ _ _ Hk) as ->.
        apply getitem_Raise_keys in Hk.
        destruct (Z.eq_dec k c) as [<-|Hne].
        -- rewrite getitem_setitem_same. intros [= <-]. split.
           ++ intros x [ <- | [] ]. apply in_or_app. right. now left.
           ++ rewrite Z.eqb_refl, size_absent; [reflexivity|].
              intros Hin. apply Hk. now apply Hkeys.
        -- rewrite getitem_setitem_other by assumption. intros Hs'.
           destruct (Hsize c s' Hs') as (Hincl' & Hlen'). split.
           ++ intros x Hx. apply in_or_app. left. auto.
           ++ replace (k =? c)%Z with false
                by (symmetry; now apply Z.eqb_neq). lia.
Qed.

(** [groups] has one group for every community that has a node, and the
    group has as many nodes as the community *)
Lemma groups_spec (many_to_one : dict node Z) :
  NoDup (keys many_to_one) ->
  NoDup (keys (groups many_to_one)) /\
  (forall c, In c (keys (groups many_to_one)) <->
             In c (values many_to_one)) /\
  (forall c s, getitem (groups many_to_one) c = Ok s ->
     Z.of_nat (List.length s) = size many_to_one c).
Proof.
  intros Hd. apply (groups_fold_spec many_to_one [] []); simpl.
  - exact Hd.
  - constructor.
  - tauto.
  - intros c s Hs. discriminate.
Qed.

Lemma initialize_tables (communities : dict node Z) (l : list node) :
  (forall v, In v l -> In v (keys communities)) ->
  forall acc : dict Z Q * dict Z Z,
    (forall c, In c (keys (snd acc)) <-> In c (keys (fst acc))) ->
    (forall c n, getitem (snd acc) c = Ok n -> n = 1%Z) ->
    (forall c d, getitem (fst acc) c = Ok d -> d = max_density) ->
    (forall c, In c (keys (fst acc)) -> In c (values communities)) ->
    NoDup (keys (fst acc)) ->
    exists acc',
      foldM (fun acc vertex =>
               let '(density, com_to_numvertices) := acc in
               com <- getitem communities vertex ;;
               let com_to_numvertices := setitem com_to_numvertices com 1%Z in
               com' <- getitem communities vertex ;;
               Ok (setitem density com' max_density, com_to_numvertices))
            l acc = Ok acc' /\
      (forall c, In c (keys (snd acc')) <-> In c (keys (fst acc'))) /\
      (forall c n, getitem (snd acc') c = Ok n -> n = 1%Z) /\
      (forall c d, getitem (fst acc') c = Ok d -> d = max_density) /\
      (forall c, In c (keys (fst acc')) -> In c (values communities)) /\
      NoDup (keys (fst acc')).
Proof.
  induction l as [|v l IH]; intros Hl [dens c2n] H1 H2 H3 H4 H5; simpl in *.
  - eexists. split; [reflexivity|]. auto.
  - destruct (proj1 (getitem_Ok_keys communities v) (Hl v (or_introl eq_refl)))
      as (com & Hcom).
    rewrite Hcom. simpl.
    apply IH; simpl.
    + intros x Hx. apply Hl. now right.
    + intros c. rewrite !keys_setitem, H1. tauto.
    + intros c n. destruct (Z.eq_dec com c) as [<-|Hne].
      * rewrite getitem_setitem_same. now intros [= <-].
      * rewrite getitem_setitem_other by assumption. apply H2.
    + intros c d. destruct (Z.eq_dec com c) as [<-|Hne].
      * rewrite getitem_setitem_same. now intros [= <-].
      * rewrite getitem_setitem_other by assumption. apply H3.
    + intros c Hc. apply keys_setitem in Hc as [->|Hc]; [|auto].
      apply getitem_Ok_In in Hcom. apply (in_map snd) in Hcom. exact Hcom.
    + now apply NoDup_keys_setitem.
Qed.

Section Initial.

Variable RandomState : Type.
Variable shuffle : RandomState -> list node -> list node * RandomState.
Variable G : Graph.

Hypothesis Hshuffle : shuffle_permutes shuffle.

Lemma initialize_total k rng :
  NoDup (nodes G) ->
  exists st, initialize shuffle G k rng = Ok st /\ counted_state st.
Proof.
  intros Hnodes. unfold initialize.
  pose proof (Hshuffle rng (nodes G)) as Hperm.
  destruct (shuffle rng (nodes G)) as [vertices rng']. simpl in Hperm.
  assert (Hv : NoDup vertices)
    by (eapply Permutation_NoDup; [symmetry; exact Hperm | exact Hnodes]).
  assert (Hfirst : NoDup (firstn (Z.to_nat k) vertices)).
  { rewrite <- (firstn_skipn (Z.to_nat k) vertices) in Hv.
    now apply NoDup_app_remove_r in Hv. }
  destruct (enumerate_values (firstn (Z.to_nat k) vertices) [] 0%Z Hfirst)
    as (Hvals & Hpos); try (simpl; intros; tauto || lia); [constructor|].
  fold (enumerate_communities vertices k) in Hvals, Hpos.
  destruct (initialize_tables (enumerate_communities vertices k)
              (keys (enumerate_communities vertices k)) (fun v H => H)
              ([], []))
    as ([dens c2n] & Hrun & H1 & H2 & H3 & H4 & H5);
    try (simpl; intros; tauto || discriminate); [constructor|].
  cbv zeta in Hrun |- *. rewrite Hrun. simpl. eexists. split; [reflexivity|].
  unfold counted_state. simpl in *. split.
  - exact H1.
  - intros c Hc. auto.
  - intros c n Hn. rewrite (H2 c n Hn). split; [|lia].
    symmetry. apply size_once; [assumption|].
    apply H4, H1, getitem_Ok_keys. eauto.
  - intros c n Hn. rewrite (H2 c n Hn).
    assert (Hin : In c (keys dens)) by (apply H1, getitem_Ok_keys; eauto).
    apply getitem_Ok_keys in Hin as (d & Hd).
    rewrite Hd, (H3 c d Hd). reflexivity.
  - exact H5.
Qed.

End Initial.

(** *** the search is complete *)

Section Complete.

Variable G : Graph.

Hypothesis Hnodes :
  forall v ns w, neighbors G v = Ok ns -> In w ns -> In w (nodes G).

Lemma bfs_level_spec thislevel :
  forall nextlevel seen,
    let r := fold_left
               (fun st v =>
                  let '(nextlevel, seen) := st in
                  if list_contains seen v then (nextlevel, seen)
                  else
                    match neighbors G v with
                    | Ok ns => (nextlevel ++ ns, v :: seen)
                    | Raise _ => (nextlevel, v :: seen)
                    end)
               thislevel (nextlevel, seen) in
    (forall x, In x (snd r) <-> In x seen \/ In x thislevel) /\
    (forall x, In x nextlevel -> In x (fst r)) /\
    (forall u ns v, In u thislevel -> ~ In u seen ->
                    neighbors G u = Ok ns -> In v ns -> In v (fst r)) /\
    ((forall u, In u thislevel -> In u seen) -> r = (nextlevel, seen)) /\
    ((exists u, In u thislevel /\ ~ In u seen) ->
     S (List.length seen) <= List.length (snd r)) /\
    List.length seen <= List.length (snd r) /\
    (NoDup seen -> NoDup (snd r)) /\
    (forall x, In x (fst r) ->
       In x nextlevel \/
       exists u ns, In u thislevel /\ neighbors G u = Ok ns /\ In x ns).
Proof.
  induction thislevel as [|w rest IH]; intros nextlevel seen; simpl.
  - repeat split; auto; try tauto.
    intros (u & [] & _).
  - destruct (list_contains seen w) eqn:Hw.
    + apply list_contains_In in Hw.
      destruct (IH nextlevel seen)
        as (H1 & H2 & H3 & H4 & H5 & H6 & H7 & H8).
      repeat split; auto.
      * intros Hx. apply H1 in Hx. tauto.
      * intros [Hx|[<-|Hx]]; apply H1; auto.
      * intros u ns v [<-|Hu] Hn; [contradiction|]. eapply H3; eauto.
      * intros (u & [<-|Hu] & Hn); [contradiction|]. apply H5. eauto.
      * intros x Hx. apply H8 in Hx as [Hx|(u & ns & Hu & Hns & Hx)];
          [now left|]. right. exists u, ns. auto.
    + apply list_contains_not_In in Hw.
      set (next' := match neighbors G w with
                    | Ok ns => nextlevel ++ ns
                    | Raise _ => nextlevel
                    end).
      assert (Hst : match neighbors G w with
                    | Ok ns => (nextlevel ++ ns, w :: seen)
                    | Raise _ => (nextlevel, w :: seen)
                    end = (next', w :: seen))
        by (unfold next'; destruct (neighbors G w); reflexivity).
      rewrite Hst.
      destruct (IH next' (w :: seen))
        as (H1 & H2 & H3 & H4 & H5 & H6 & H7 & H8).
      assert (Hnext : forall x, In x nextlevel -> In x next').
      { intros x Hx. unfold next'. destruct (neighbors G w); [|assumption].
        apply in_or_app. now left. }
      simpl in H6.
      repeat split; auto; try lia.
      * intros Hx. apply H1 in Hx. simpl in Hx. tauto.
      * intros Hx. apply H1. simpl. tauto.
      * intros u ns v [<-|Hu] Hn Hns Hv.
        -- apply H2. unfold next'. rewrite Hns. apply in_or_app. now right.
        -- destruct (Nat.eq_dec w u) as [<-|Hne].
           ++ apply H2. unfold next'. rewrite Hns. apply in_or_app.
              now right.
           ++ eapply H3; eauto. simpl. tauto.
      * intros Hall. exfalso. apply Hw. apply Hall. now left.
      * intros Hd. apply H7. now constructor.
      * intros x Hx. apply H8 in Hx as [Hx|(u & ns & Hu & Hns & Hx)].
        -- unfold next' in Hx. destruct (neighbors G w) as [ns|] eqn:Hns;
             [|now left].
           apply in_app_or in Hx as [Hx|Hx]; [now left|].
           right. exists w, ns. auto.
        -- right. exists u, ns. auto.
Qed.

Lemma plain_bfs_closed fuel :
  forall level seen,
    NoDup seen -> incl seen (nodes G) -> incl level (nodes G) ->
    frontier_closed G seen level ->
    List.length (nodes G) <= fuel + List.length seen ->
    let r := plain_bfs fuel G level seen in
    frontier_closed G r [] /\ incl seen r /\ incl level r.
Proof.
  induction fuel as [|fuel IH]; intros level seen Hd Hs Hl Hc Hfuel; simpl.
  - assert (Hall : incl (nodes G) seen)
      by (apply NoDup_length_incl; assumption).
    split; [|split].
    + intros u ns v _ Hns Hv. left. eapply Hall, Hnodes; eauto.
    + intros x Hx. exact Hx.
    + intros x Hx. auto.
  - destruct level as [|w rest].
    { split; [exact Hc|]. split; [intros x Hx; exact Hx | intros x []]. }
    remember (w :: rest) as level eqn:Hlevel.
    destruct (bfs_level_spec level [] seen)
      as (H1 & H2 & H3 & H4 & H5 & H6 & H7 & H8).
    fold (bfs_level G level seen) in H1, H2, H3, H4, H5, H6, H7, H8.
    destruct (forallb (list_contains seen) level) eqn:Hold.
    + assert (Hall : forall u, In u level -> In u seen).
      { intros u Hu. apply list_contains_In.
        exact (proj1 (forallb_forall _ _) Hold u Hu). }
      rewrite (H4 Hall).
      assert (Hr : plain_bfs fuel G [] seen = seen) by (destruct fuel; reflexivity).
      rewrite Hr. split; [|split].
      * intros u ns v Hu Hns Hv.
        destruct (Hc u ns v Hu Hns Hv) as [?|?]; [now left | left; auto].
      * intros x Hx. exact Hx.
      * intros x Hx. auto.
    + assert (Hnew : exists u, In u level /\ ~ In u seen).
      { destruct (forallb_false _ _ Hold) as (u & Hu & Hn).
        exists u. split; [assumption|]. now apply list_contains_not_In. }
      specialize (H5 Hnew).
      destruct (bfs_level G level seen) as [nextlevel seen'].
      simpl in H1, H2, H3, H5, H7, H8.
      destruct (IH nextlevel seen') as (Hclosed & Hseen & Hnext).
      * auto.
      * intros x Hx. apply H1 in Hx as [Hx|Hx]; auto.
      * intros x Hx. apply H8 in Hx as [[]|(u & ns & Hu & Hns & Hx)].
        eapply Hnodes; eauto.
      * intros u ns v Hu Hns Hv.
        destruct (in_dec Nat.eq_dec u seen) as [Hin|Hout].
        -- left. apply H1. destruct (Hc u ns v Hin Hns Hv); auto.
        -- apply H1 in Hu as [Hu|Hu]; [contradiction|].
           right. eapply H3; eauto.
      * lia.
      * split; [exact Hclosed|]. split.
        -- intros x Hx. apply Hseen, H1. now left.
        -- intros x Hx. apply Hseen, H1. now right.
Qed.

Lemma closed_reachable (r : list node) source :
  frontier_closed G r [] -> In source r ->
  forall v, reachable G source v -> In v r.
Proof.
  intros Hc Hs v Hv. induction Hv as [|x y ns _ IH Hns Hy]; [assumption|].
  destruct (Hc x ns y IH Hns Hy) as [?|[]]. assumption.
Qed.

(** A graph all of whose nodes can be reached from its first node passes
    [is_connected]. *)
Lemma reachable_is_connected :
  is_directed G = false -> NoDup (nodes G) ->
  (exists source rest, nodes G = source :: rest /\
     forall v, In v (nodes G) -> reachable G source v) ->
  is_connected G = Ok true.
Proof.
  intros Hund Hdup (source & rest & Hn & Hreach).
  unfold is_connected. rewrite Hund, Hn. f_equal. apply Nat.eqb_eq.
  assert (Hsrc : In source (nodes G)) by (rewrite Hn; now left).
  destruct (plain_bfs_closed (S (S (List.length (adj G)))) [source] [])
    as (Hclosed & _ & Hlevel).
  - constructor.
  - intros x [].
  - intros x [<-|[]]. assumption.
  - intros u ns v [].
  - unfold nodes, keys. rewrite length_map. simpl. lia.
  - destruct (plain_bfs_met G Hnodes source (S (S (List.length (adj G))))
                [source] [])
      as (Hmet & Hd).
    { intros x [<-|[]]. split; [constructor | assumption]. }
    { intros x []. }
    { constructor. }
    set (r := plain_bfs (S (S (List.length (adj G)))) G [source] []) in *.
    replace (List.length (adj G)) with (List.length (nodes G))
      by (unfold nodes, keys; apply length_map).
    apply Permutation_length, NoDup_Permutation; try assumption.
    intros x. split.
    + intros Hx. now apply Hmet.
    + intros Hx. apply (closed_reachable r source); auto.
      apply Hlevel. now left.
Qed.

End Complete.

(** *** the whole run *)

Section WholeRun.

Variable RandomState : Type.
Variable shuffle : RandomState -> list node -> list node * RandomState.
Variable choice : RandomState -> list Z -> Z * RandomState.

(** The loop is always left: the number of turns the model grants is
    enough, whatever the input. *)
Lemma asyn_fluidc_run_terminates (G : Graph) (k : pyobj) (max_iter : Z)
    (rng : RandomState) :
  exists r, asyn_fluidc_run shuffle choice G k max_iter rng = Some r.
Proof.
  unfold asyn_fluidc_run.
  destruct (initial_checks G k) as [z|e]; [|eauto].
  destruct (initialize shuffle G z rng) as [st|e] eqn:Hinit; [|eauto].
  apply while_cont_terminates.
  unfold initialize in Hinit.
  destruct (shuffle rng (nodes G)) as [vertices rng'].
  apply bind_Ok_inv in Hinit as ([dens c2n] & _ & [= <-]). simpl. lia.
Qed.

Hypothesis Hshuffle : shuffle_permutes shuffle.

(** what is known of the state in which a run ends *)
Lemma asyn_fluidc_run_sound (G : Graph) (k : pyobj) (max_iter : Z)
    (rng : RandomState) (st : State RandomState) :
  undirected_graph G ->
  asyn_fluidc_run shuffle choice G k max_iter rng = Some (Ok st) ->
  is_connected G = Ok true /\
  sound_state G st /\
  (cont st = false -> settled G st) /\
  (1 <= iter_count st <= Z.max max_iter 0 + 1)%Z.
Proof.
  intros Hwf. unfold asyn_fluidc_run.
  destruct (initial_checks G k) as [z|e] eqn:Hchecks; [|discriminate].
  apply initial_checks_Ok in Hchecks as (-> & Hz & Hc).
  destruct (initialize shuffle G z rng) as [st0|e] eqn:Hinit; [|discriminate].
  destruct (initialize_sound RandomState shuffle G Hshuffle z rng st0 Hinit
              (nodes_once Hwf) Hz)
    as (Hs0 & Hcont0 & Hit0).
  intros Hrun. split; [assumption|].
  destruct (while_cont_sound RandomState shuffle choice G Hshuffle _ _ _ _
              Hrun Hs0)
    as (Hs & Hset); [congruence|].
  split; [assumption|]. split; [assumption|].
  assert (Hcount : (iter_count st0 <= iter_count st
                    <= Z.max max_iter 0 + 1)%Z).
  { apply (while_cont_count RandomState shuffle choice G Hshuffle _ _ _ _
             Hrun Hs0). lia. }
  assert (Hfirst : (1 <= iter_count st)%Z).
  { simpl in Hrun. rewrite Hcont0 in Hrun.
    destruct (sweep shuffle choice G st0) as [st1|e] eqn:Hsweep;
      [|discriminate].
    pose proof (sweep_sound RandomState shuffle choice G Hshuffle _ _
                  Hsweep Hs0) as (Hs1 & Hit1 & _).
    destruct (iter_count st1 >? max_iter)%Z eqn:Hgt.
    - injection Hrun as <-. lia.
    - assert (Hc1 : (iter_count st1 <= iter_count st
                     <= Z.max max_iter 0 + 1)%Z).
      { apply (while_cont_count RandomState shuffle choice G Hshuffle
                 _ _ _ _ Hrun Hs1). lia. }
      lia. }
  lia.
Qed.

Hypothesis Hchoice : choice_picks choice.

(** For an undirected graph, [is_connected] decides connectedness. *)
Lemma connected_is_connected (G : Graph) :
  undirected_graph G -> nodes G <> [] -> connected G ->
  is_connected G = Ok true.
Proof.
  intros Hwf Hne Hc.
  apply (reachable_is_connected G (neighbors_are_nodes Hwf)
           (graph_undirected Hwf) (nodes_once Hwf)).
  destruct (nodes G) as [|source rest] eqn:Hn; [congruence|].
  exists source, rest. split; [reflexivity|].
  intros v Hv. apply Hc; [rewrite Hn; now left | now rewrite Hn].
Qed.

(** On a connected undirected graph, with [k] between one and the number
    of nodes, the run ends and raises nothing. *)
Lemma asyn_fluidc_run_total (G : Graph) (k : Z) (max_iter : Z)
    (rng : RandomState) :
  undirected_graph G -> connected G -> (0 < k <= len G)%Z ->
  exists st,
    asyn_fluidc_run shuffle choice G (PyInt k) max_iter rng = Some (Ok st) /\
    counted_state st.
Proof.
  intros Hwf Hc Hk. unfold asyn_fluidc_run, initial_checks.
  replace (k >? 0)%Z with true by (symmetry; apply Z.gtb_lt; lia).
  assert (Hne : nodes G <> []).
  { unfold len in Hk. unfold nodes, keys.
    destruct (adj G); [simpl in Hk; lia | discriminate]. }
  rewrite (connected_is_connected G Hwf Hne Hc). simpl.
  replace (len G <? k)%Z with false by (symmetry; apply Z.ltb_ge; lia).
  destruct (initialize_total RandomState shuffle G Hshuffle k rng
              (nodes_once Hwf))
    as (st0 & Hinit & Hcnt0).
  rewrite Hinit.
  destruct (initialize_sound RandomState shuffle G Hshuffle k rng st0 Hinit
              (nodes_once Hwf) Hk)
    as (Hs0 & _ & Hit0).
  apply (while_cont_total RandomState shuffle choice G Hchoice Hwf Hshuffle
           (S (Z.to_nat max_iter)) max_iter st0);
    [rewrite Hit0; lia | assumption | assumption].
Qed.

(** in a counted state, the density of a community times its size is one *)
Lemma density_times_size (st : State RandomState) c d :
  counted_state st -> getitem (density st) c = Ok d ->
  (d * inject_Z (size (communities st) c) == 1)%Q.
Proof.
  intros Hcnt Hd.
  assert (Hin : In c (keys (com_to_numvertices st))).
  { apply (same_communities Hcnt), getitem_Ok_keys. eauto. }
  apply getitem_Ok_keys in Hin as (n & Hn).
  destruct (count_is_size Hcnt _ Hn) as (Hsize & Hpos).
  rewrite (density_is_inverse Hcnt _ Hn) in Hd. injection Hd as <-.
  rewrite <- Hsize. unfold max_density. field.
  intros H0. apply (Qeq_bool_neq (inject_Z n) 0); [|exact H0].
  destruct n; try lia. reflexivity.
Qed.

(** The densities returned are those of the groups returned, in another
    order at worst. *)
Lemma returned_densities_up_to_order (G : Graph)
    (st : State RandomState) :
  sound_state G st -> counted_state st ->
  exists dens,
    Permutation dens (snd (results st)) /\
    densities_match (fst (results st)) dens.
Proof.
  intros Hs Hcnt. unfold results. simpl.
  destruct (groups_spec (communities st) (assigned_once Hs))
    as (Hgd & Hgk & Hgs).
  set (g := groups (communities st)) in *.
  set (get_d := fun c => match getitem (density st) c with
                         | Ok d => d | Raise _ => 0%Q end).
  assert (Hperm : Permutation (keys g) (keys (density st))).
  { apply NoDup_Permutation; [assumption | exact (density_once Hcnt) |].
    intros c. rewrite Hgk. split.
    - intros Hc. apply in_map_iff in Hc as ([v c'] & <- & Hin). simpl.
      apply (community_has_density Hs v).
      apply In_getitem_NoDup; [exact (assigned_once Hs) | exact Hin].
    - intros Hc. destruct (in_dec Z.eq_dec c (values (communities st)))
        as [Hin|Hout]; [assumption|].
      apply size_absent in Hout.
      apply (same_communities Hcnt) in Hc.
      apply getitem_Ok_keys in Hc as (n & Hn).
      destruct (count_is_size Hcnt _ Hn) as (-> & Hpos). lia. }
  exists (map get_d (keys g)). split.
  - rewrite (values_by_keys (density st) 0%Q (density_once Hcnt)).
    now apply Permutation_map.
  - rewrite (values_by_keys g [] Hgd). apply Forall2_map_same.
    intros c Hc. unfold get_d.
    assert (Hcd : In c (keys (density st)))
      by (eapply Permutation_in; eassumption).
    apply getitem_Ok_keys in Hc as (s & Hgc).
    apply getitem_Ok_keys in Hcd as (d & Hdc).
    rewrite Hgc, Hdc, (Hgs c s Hgc).
    now apply (density_times_size st c d).
Qed.

End WholeRun.

End PartitionFacts.

Module PartitionClaims.

Import AsynFluid PartitionStated PartitionFacts PyFacts.

(** C6.  When [k] is not an integer, or not positive, or exceeds the
    number of nodes, or the graph is disconnected or directed, the call
    raises the exception of its initial checks: neither the initialisation
    nor any sweep is run, and no partition is returned. *)
Theorem precondition_violation_raises :
  forall (RandomState : Type)
         (shuffle : RandomState -> list node -> list node * RandomState)
         (choice : RandomState -> list Z -> Z * RandomState)
         (G : Graph) (k : pyobj) (max_iter : Z) (rng : RandomState),
    (is_directed G = false -> undirected_graph G) ->
    violates_precondition G k ->
    exists e,
      precondition_error e /\
      initial_checks G k = Raise e /\
      asyn_fluidc_run shuffle choice G k max_iter rng = Some (Raise e) /\
      asyn_fluidc shuffle choice G k max_iter rng = Some (Raise e).
Proof.
  intros RandomState shuffle choice G k max_iter rng Hwf Hbad.
  destruct (violation_fails_checks G k Hwf Hbad) as (e & He).
  exists e. split; [eapply initial_checks_raises; eauto|].
  split; [assumption|].
  unfold asyn_fluidc, asyn_fluidc_run. rewrite He. auto.
Qed.

Lemma two_isolated_nodes_undirected : undirected_graph two_isolated_nodes.
Proof.
  split.
  - reflexivity.
  - repeat constructor; simpl; intuition discriminate.
  - intros [|[|v]] ns w Hns; simpl in Hns; try discriminate;
      injection Hns as <-; intros [].
  - intros [|[|v]] ns Hns; simpl in Hns; try discriminate;
      injection Hns as <-; constructor.
  - intros [|[|v]] ns w Hns; simpl in Hns; try discriminate;
      injection Hns as <-; intros [].
Defined.

Lemma two_isolated_nodes_disconnected : ~ connected two_isolated_nodes.
Proof.
  intros Hc.
  assert (Hstay : forall v, reachable two_isolated_nodes 0 v -> v = 0).
  { intros v Hv. induction Hv as [|x y ns _ IH Hns Hy]; [reflexivity|].
    subst x. simpl in Hns. injection Hns as <-. destruct Hy. }
  specialize (Hstay 1 (Hc 0 1 (or_introl eq_refl)
                             (or_intror (or_introl eq_refl)))).
  discriminate.
Defined.

Lemma precondition_violation_raises_witness :
  exists e,
    precondition_error e /\
    initial_checks two_isolated_nodes (PyInt 2) = Raise e /\
    asyn_fluidc_run rev_shuffle first_choice two_isolated_nodes (PyInt 2)
      default_max_iter 0 = Some (Raise e) /\
    asyn_fluidc rev_shuffle first_choice two_isolated_nodes (PyInt 2)
      default_max_iter 0 = Some (Raise e).
Proof.
  apply (precondition_violation_raises nat rev_shuffle first_choice
           two_isolated_nodes (PyInt 2) default_max_iter 0).
  - intros _. exact two_isolated_nodes_undirected.
  - right. right. right. left. exact two_isolated_nodes_disconnected.
Defined.

(** C5, as stated, fails.  On the path with 104 nodes, with the loop left
    at the default [max_iter] of 100, the one group returned holds 102
    nodes: the last two nodes of the path are in no group. *)
Lemma long_path_not_covered :
  ~ returns_partition rev_shuffle first_choice long_path (PyInt 1)
      default_max_iter 0.
Proof.
  intros H.
  pose proof (H _ _ ltac:(vm_compute; reflexivity)) as Hperm.
  apply Permutation_length in Hperm. vm_compute in Hperm. discriminate.
Qed.

(** C5, amended.  On a connected undirected graph, with [k] between one
    and the number of nodes, the call returns; in whichever state the loop
    is left, the groups returned do not overlap and hold nodes of the
    graph only; when the loop is left because a sweep changed nothing,
    they partition the node set.  (When it is left on the count of sweeps,
    nodes that no community has reached yet are in no group.) *)
Theorem groups_partition_when_converged :
  forall (RandomState : Type)
         (shuffle : RandomState -> list node -> list node * RandomState)
         (choice : RandomState -> list Z -> Z * RandomState)
         (G : Graph) (k : Z) (max_iter : Z) (rng : RandomState),
    shuffle_permutes shuffle ->
    choice_picks choice ->
    undirected_graph G ->
    connected G ->
    (0 < k <= len G)%Z ->
    exists st,
      asyn_fluidc_run shuffle choice G (PyInt k) max_iter rng
        = Some (Ok st) /\
      asyn_fluidc shuffle choice G (PyInt k) max_iter rng
        = Some (Ok (results st)) /\
      disjoint_groups G (fst (results st)) /\
      (cont st = false -> partitions G (fst (results st))).
Proof.
  intros RandomState shuffle choice G k max_iter rng Hshuffle Hchoice Hwf
         Hconn Hk.
  destruct (asyn_fluidc_run_total RandomState shuffle choice Hshuffle
              Hchoice G k max_iter rng Hwf Hconn Hk)
    as (st & Hrun & _).
  exists st. split; [assumption|].
  destruct (asyn_fluidc_run_sound RandomState shuffle choice Hshuffle
              G (PyInt k) max_iter rng st Hwf Hrun)
    as (Hc & Hs & Hset & _).
  split; [unfold asyn_fluidc; now rewrite Hrun|].
  pose proof (groups_permutation (communities st) (assigned_once Hs))
    as Hperm.
  simpl. split; [split|].
  - eapply Permutation_NoDup; [symmetry; exact Hperm|].
    exact (assigned_once Hs).
  - intros x Hx. apply (assigned_are_nodes Hs).
    eapply Permutation_in; eauto.
  - intros Hconv. unfold partitions.
    etransitivity; [exact Hperm|].
    apply NoDup_Permutation;
      [exact (assigned_once Hs) | exact (nodes_once Hwf) |].
    intros x. split; [apply (assigned_are_nodes Hs)|].
    apply (settled_covers RandomState G st Hwf Hc Hs (Hset Hconv)).
Qed.

Lemma rev_shuffle_permutes : shuffle_permutes rev_shuffle.
Proof.
  intros rng l. unfold rev_shuffle. simpl.
  destruct (rng =? 0); [reflexivity|].
  symmetry. apply Permutation_rev.
Defined.

Lemma first_choice_picks : choice_picks first_choice.
Proof.
  intros rng [|x l] Hl; [congruence|]. now left.
Defined.

Lemma triangle_with_tail_undirected : undirected_graph triangle_with_tail.
Proof.
  split.
  - reflexivity.
  - repeat constructor; simpl; intuition discriminate.
  - intros v ns w Hns.
    do 5 (destruct v as [|v]; [injection Hns as <-; simpl; tauto|]).
    discriminate.
  - intros v ns Hns.
    do 5 (destruct v as [|v];
          [injection Hns as <-;
           repeat constructor; simpl; intuition discriminate|]).
    discriminate.
  - intros v ns w Hns.
    do 5 (destruct v as [|v];
          [injection Hns as <-; simpl;
           intros Hw; repeat (destruct Hw as [<-|Hw]);
           try (eexists; split; [reflexivity | simpl; tauto]);
           destruct Hw|]).
    discriminate.
Defined.

Lemma triangle_with_tail_connected : connected triangle_with_tail.
Proof.
  apply is_connected_connected;
    [exact triangle_with_tail_undirected | reflexivity].
Defined.

Lemma groups_partition_when_converged_witness :
  exists st,
    asyn_fluidc_run rev_shuffle first_choice triangle_with_tail (PyInt 2)
      default_max_iter 0 = Some (Ok st) /\
    asyn_fluidc rev_shuffle first_choice triangle_with_tail (PyInt 2)
      default_max_iter 0 = Some (Ok (results st)) /\
    disjoint_groups triangle_with_tail (fst (results st)) /\
    (cont st = false -> partitions triangle_with_tail (fst (results st))).
Proof.
  apply (groups_partition_when_converged nat rev_shuffle first_choice
           triangle_with_tail 2 default_max_iter 0).
  - exact rev_shuffle_permutes.
  - exact first_choice_picks.
  - exact triangle_with_tail_undirected.
  - exact triangle_with_tail_connected.
  - unfold len. simpl. lia.
Defined.

(** C8: one sweep more than [max_iter] is made.  On the path with 104
    nodes and the default [max_iter] of 100 the loop is left after its
    101st sweep, not yet converged. *)
Theorem sweeps_exceed_max_iter :
  match asyn_fluidc_run rev_shuffle first_choice long_path (PyInt 1)
          default_max_iter 0 with
  | Some (Ok st) =>
      iter_count st = (default_max_iter + 1)%Z /\ cont st = true
  | _ => False
  end /\
  ~ sweeps_within_max_iter rev_shuffle first_choice long_path (PyInt 1)
      default_max_iter 0.
Proof.
  split; [vm_compute; auto|].
  intros H.
  pose proof (H _ ltac:(vm_compute; reflexivity)) as Hle.
  vm_compute in Hle. apply Hle. reflexivity.
Qed.

(** C9: the densities are listed by community number, the groups in the
    order in which the communities first occur among the nodes, and the
    two orders differ once a seed node has changed community.  On the
    triangle with a tail, with two communities, the group of three nodes
    is returned first and the density one half first: their product is
    not one, and the caller reads three as the size of the densest
    community, which has two nodes. *)
Theorem densities_listed_in_another_order :
  asyn_fluidc rev_shuffle first_choice triangle_with_tail (PyInt 2)
    default_max_iter 0
  = Some (Ok ([[0; 1; 4]; [3; 2]], [(1 # 2)%Q; (1 # 3)%Q])) /\
  ~ densities_match [[0; 1; 4]; [3; 2]] [(1 # 2)%Q; (1 # 3)%Q] /\
  ~ returns_matching_densities rev_shuffle first_choice triangle_with_tail
      (PyInt 2) default_max_iter 0 /\
  most_dense [[0; 1; 4]; [3; 2]] [(1 # 2)%Q; (1 # 3)%Q] = Ok 3.
Proof.
  assert (Hno : ~ densities_match [[0; 1; 4]; [3; 2]] [(1 # 2)%Q; (1 # 3)%Q]).
  { intros Hm. inversion Hm as [|g d gs ds Hgd _]; subst.
    vm_compute in Hgd. discriminate. }
  split; [vm_compute; reflexivity|]. split; [exact Hno|].
  split; [|reflexivity].
  intros H. apply Hno. apply H. vm_compute. reflexivity.
Qed.

End PartitionClaims.

(* ================================================================== *)
(** * Part IV: further properties of the program *)
(* ================================================================== *)

(** ** Tests that compute *)

Module TestsFacts.

Import Tests PyFacts.

Lemma nodupb_NoDup {K} `{Key K} (l : list K) : nodupb l = true -> NoDup l.
Proof.
  induction l as [|x l IH]; simpl; [constructor|].
  intros Hl. apply andb_true_iff in Hl as (Hx & Hl).
  constructor; [|now apply IH].
  apply negb_true_iff in Hx. now apply list_contains_not_In.
Qed.

End TestsFacts.

(** ** Further properties of [feature_extraction.py] *)

Module EngineProperties.

Import FeatureExtraction Stated Examples EngineNotions PyFacts EngineFacts
       FilterFacts.

Lemma get_list_loop_filter {Graph : Type} (trivial_graph : Graph)
    (mode : string) (files : list (FeatureClass Graph)) :
  forall acc,
    get_list_loop trivial_graph mode files acc
    = (_ <- mapM (fun c => update_features c trivial_graph [])
                 (filter (selected mode) files) ;;
       Ok (acc ++ filter (selected mode) files)).
Proof.
  induction files as [|c files IH]; intros acc.
  - simpl. now rewrite app_nil_r.
  - cbn [get_list_loop filter].
    change (list_contains (modes c) mode || (mode =? "all")%string)
      with (selected mode c).
    destruct (selected mode c) eqn:Hsel; [|apply IH].
    cbn [mapM].
    destruct (update_features c trivial_graph []) as [b|e];
      cbn [bind]; [|reflexivity].
    rewrite IH.
    destruct (mapM (fun c0 => update_features c0 trivial_graph [])
                   (filter (selected mode) files)); cbn [bind];
      [|reflexivity].
    now rewrite <- app_assoc.
Qed.

(** X1.  The registry returns the feature files whose [modes] hold the
    mode, all of them for the mode ["all"], in the order of the directory,
    after it has run each of them once on the trivial graph; the first of
    them that fails there makes the registry fail, and a file that is not
    selected is not run. *)
Theorem registry_selects_by_mode :
  forall (Graph : Type) (feature_files : list (FeatureClass Graph))
         (trivial_graph : Graph) (mode : string),
    get_list_feature_classes feature_files trivial_graph mode
    = (_ <- mapM (fun c => update_features c trivial_graph [])
                 (filter (selected mode) feature_files) ;;
       Ok (filter (selected mode) feature_files)).
Proof.
  intros. unfold get_list_feature_classes.
  now rewrite get_list_loop_filter.
Qed.

(** *** the meta-data and the columns *)

Lemma keys_setitem_together {K V W} `{Key K} (d : dict K V) (d' : dict K W)
    k v w :
  keys d = keys d' -> keys (setitem d k v) = keys (setitem d' k w).
Proof.
  revert d'. induction d as [|[k0 v0] d IH]; intros [|[k1 w1] d']; simpl;
    try discriminate; [reflexivity|].
  intros [= -> Hk]. destruct (key_eqb k1 k); simpl; [now rewrite Hk|].
  f_equal. now apply IH.
Qed.

Lemma gather_class_in_step {Graph : Type} raw (c : FeatureClass Graph)
    features :
  forall acc acc',
    gather_class raw c features acc = Ok acc' ->
    in_step acc -> in_step acc'.
Proof.
  induction features as [|f features IH]; intros [info cols] acc'; simpl.
  - intros [= <-]. auto.
  - destruct (gather_column raw (shortname c) f) as [column|e]; simpl;
      [|discriminate].
    intros Hrest (Hk & Hd & Hname). apply (IH _ _ Hrest).
    split; [|split]; simpl in *.
    + now apply keys_setitem_together.
    + now apply NoDup_keys_setitem.
    + intros name fi.
      destruct (string_dec (feature_name (get_feature_info c f)) name)
        as [<-|Hne].
      * rewrite getitem_setitem_same. now intros [= <-].
      * rewrite getitem_setitem_other by assumption. apply Hname.
Qed.

Lemma gather_loop_in_step {Graph : Type} raw
    (classes : list (FeatureClass Graph)) :
  forall acc acc',
    gather_loop raw classes acc = Ok acc' -> in_step acc -> in_step acc'.
Proof.
  induction classes as [|c classes IH]; intros acc acc'; simpl.
  - intros [= <-]. auto.
  - destruct raw as [|raw_0 later]; simpl; [discriminate|].
    destruct (getitem raw_0 (shortname c)) as [ref|e]; simpl;
      [|discriminate].
    destruct (gather_class (raw_0 :: later) c (keys ref) acc)
      as [acc1|e] eqn:Hclass; simpl; [|discriminate].
    intros Hrest Hacc. apply (IH _ _ Hrest).
    exact (gather_class_in_step _ _ _ _ _ Hclass Hacc).
Qed.

(** X2.  When [gather_features] returns, the meta-data has one entry per
    column of the matrix, in the order of the columns; no two columns have
    the same name (two features with one name share a column, which holds
    the cells of the later one); and an entry is filed under the
    ["feature_name"] it holds. *)
Theorem metadata_matches_columns :
  forall (Graph : Type) (all_features_raw : list Bundle)
         (classes : list (FeatureClass Graph)) (features : DataFrame)
         (features_info : dict string FeatureInfo),
    gather_features all_features_raw classes = Ok (features, features_info) ->
    keys features_info = columns features /\
    NoDup (columns features) /\
    forall name fi, getitem features_info name = Ok fi ->
                    feature_name fi = name.
Proof.
  intros Graph raw classes features info. unfold gather_features.
  destruct (gather_loop raw classes ([], [])) as [[info' cols]|e] eqn:Hloop;
    simpl; [|discriminate].
  destruct (from_dict cols) as [df|e] eqn:Hdf; simpl; [|discriminate].
  intros [= <- <-]. apply from_dict_Ok in Hdf as ->.
  apply (gather_loop_in_step _ _ _ _ Hloop).
  split; [reflexivity|]. split; [constructor|]. intros name fi. discriminate.
Qed.

Lemma metadata_matches_columns_witness :
  keys basic_info = columns basic_matrix /\
  NoDup (columns basic_matrix) /\
  forall name fi, getitem basic_info name = Ok fi -> feature_name fi = name.
Proof.
  apply (metadata_matches_columns nat
           [ [ ("BS"%string, [ ("one"%string, Fin 1);
                               ("inverse_gap"%string, Fin 1);
                               ("order"%string, Fin 1) ]) ];
             [ ("BS"%string, [ ("one"%string, Fin 1);
                               ("inverse_gap"%string, PInf);
                               ("order"%string, Fin 2) ]) ];
             [ ("BS"%string, [ ("one"%string, Fin 1);
                               ("inverse_gap"%string, Fin 3);
                               ("order"%string, Fin 3) ]) ] ]
           [basic_class]).
  reflexivity.
Defined.

(** X3.  Without any graph, [extract] returns an empty matrix when no
    class is active and raises [IndexError] as soon as one is: the
    aggregator reads the first bundle of a list that has none. *)
Theorem extract_without_graphs :
  forall (Graph : Type) (feature_files : list (FeatureClass Graph))
         (trivial_graph : Graph) (completion : list nat) (n_workers : Z)
         (mode : string),
    (1 <= n_workers)%Z ->
    extract feature_files trivial_graph completion [] n_workers mode
    = (feat_classes <-
         get_list_feature_classes feature_files trivial_graph mode ;;
       match feat_classes with
       | [] => Ok ([], [])
       | _ :: _ => Raise IndexError
       end).
Proof.
  intros Graph files tg completion n mode Hn.
  rewrite extract_pipeline.
  destruct (get_list_feature_classes files tg mode) as [classes|e]; simpl;
    [|reflexivity].
  assert (Hraw : compute_all_features completion [] classes n = Ok []).
  { unfold compute_all_features.
    destruct (n =? 1)%Z; [reflexivity|].
    destruct (n <? 1)%Z eqn:E; [apply Z.ltb_lt in E; lia | reflexivity]. }
  rewrite Hraw. simpl. destruct classes; reflexivity.
Qed.

Lemma extract_without_graphs_witness :
  extract [basic_class] canary [] [] 4 "fast" = Raise IndexError.
Proof.
  rewrite (extract_without_graphs nat [basic_class] canary [] 4 "fast");
    [reflexivity | lia].
Defined.

(** *** the filter *)

Lemma filter_idem {A} (f : A -> bool) (l : list A) :
  filter f (filter f l) = filter f l.
Proof.
  induction l as [|x l IH]; simpl; [reflexivity|].
  destruct (f x) eqn:E; simpl; [rewrite E; now f_equal | exact IH].
Qed.

Lemma filter_all {A} (f : A -> bool) (l : list A) :
  (forall x, In x l -> f x = true) -> filter f l = l.
Proof.
  induction l as [|x l IH]; simpl; intros Hl; [reflexivity|].
  rewrite (Hl x) by now left. f_equal. apply IH. intros y Hy. apply Hl.
  now right.
Qed.

Lemma filter_features_In (df : DataFrame) name cells :
  In (name, cells) (filter_features df) ->
  In (name, cells) df /\ existsb isna cells = false /\
  ~ In name (index_where_zero (std (dropna_axis1 df))).
Proof.
  unfold filter_features, drop_axis1, dropna_axis1.
  intros Hin. apply filter_In in Hin as (Hin & Hlab).
  apply filter_In in Hin as (Hin & Hna). simpl in Hlab, Hna.
  split; [assumption|]. split; [now apply negb_true_iff|].
  apply negb_true_iff in Hlab. now apply list_contains_not_In.
Qed.

(** X4.  What the filter achieves: a column it returns is a column it was
    given, with the same cells, holds no not-a-number, and has a standard
    deviation that is not zero (it may hold an infinity: its standard
    deviation is then not a number). *)
Theorem filter_features_postcondition :
  forall (df : DataFrame),
    incl (filter_features df) df /\
    forallb (fun nc => kept (snd nc)) (filter_features df) = true.
Proof.
  intros df. split.
  - intros [name cells] Hin. now apply filter_features_In in Hin.
  - apply forallb_forall. intros [name cells] Hin. simpl.
    pose proof Hin as Hin'.
    apply filter_features_In in Hin' as (Hdf & Hna & Hzero).
    unfold kept. rewrite Hna. simpl. apply negb_true_iff.
    destruct (root_eq_zero (Sqrt (nanvar cells))) eqn:Hroot; [|exact Hroot].
    exfalso. apply Hzero. apply index_where_zero_std. exists cells.
    split; [|assumption].
    unfold dropna_axis1. apply filter_In. split; [assumption|].
    simpl. now rewrite Hna.
Qed.

(** X5.  Filtering twice is filtering once. *)
Theorem filter_features_idempotent :
  forall (df : DataFrame),
    filter_features (filter_features df) = filter_features df.
Proof.
  intros df.
  assert (Hvalid : dropna_axis1 (filter_features df) = filter_features df).
  { unfold dropna_axis1. apply filter_all. intros [name cells] Hin.
    apply filter_features_In in Hin as (_ & Hna & _). simpl.
    now rewrite Hna. }
  unfold filter_features at 1. rewrite Hvalid.
  unfold drop_axis1 at 1. apply filter_all. intros [name cells] Hin. simpl.
  apply negb_true_iff, list_contains_not_In. intros Hzero.
  apply index_where_zero_std in Hzero as (cells' & Hin' & Hroot).
  apply filter_features_In in Hin' as (Hdf & Hna & Hnot).
  apply Hnot. apply index_where_zero_std. exists cells'.
  split; [|assumption]. unfold dropna_axis1. apply filter_In.
  split; [assumption|]. simpl. now rewrite Hna.
Qed.

Lemma nanvar_short (cells : list value) :
  List.length cells <= 1 -> nanvar cells = NaN.
Proof.
  intros Hlen. unfold nanvar.
  set (vals := filter (fun x => negb (isna x)) cells).
  assert (Hv : List.length vals <= 1).
  { unfold vals. pose proof (filter_length_le (fun x => negb (isna x)) cells).
    lia. }
  destruct (List.length vals <=? 1) eqn:E; [reflexivity|].
  apply Nat.leb_gt in E. lia.
Qed.

(** X6.  On a matrix of one row (one graph) no column is dropped for
    being constant: the standard deviation of a single value is not a
    number, which is not zero, so the filter only drops the columns that
    hold a not-a-number. *)
Theorem single_row_keeps_constant_columns :
  forall (df : DataFrame),
    Forall (fun nc => List.length (snd nc) <= 1) df ->
    filter_features df = dropna_axis1 df.
Proof.
  intros df Hrows. unfold filter_features.
  set (valid := dropna_axis1 df).
  assert (Hzero : index_where_zero (std valid) = []).
  { destruct (index_where_zero (std valid)) as [|name l] eqn:E;
      [reflexivity|].
    assert (Hin : In name (index_where_zero (std valid)))
      by (rewrite E; now left).
    apply index_where_zero_std in Hin as (cells & Hin & Hroot).
    unfold valid, dropna_axis1 in Hin. apply filter_In in Hin as (Hin & _).
    rewrite Forall_forall in Hrows. specialize (Hrows _ Hin). simpl in Hrows.
    rewrite (nanvar_short _ Hrows) in Hroot. discriminate. }
  rewrite Hzero. unfold drop_axis1. apply filter_all. reflexivity.
Qed.

Lemma single_row_keeps_constant_columns_witness :
  filter_features single_row = dropna_axis1 single_row.
Proof.
  apply (single_row_keeps_constant_columns single_row).
  repeat constructor.
Defined.

(** *** sums of finite values *)

Lemma fold_vadd_Fin (qs : list Q) (a : Q) :
  exists s, fold_left vadd (map Fin qs) (Fin a) = Fin s /\
            (s == a + qsum qs)%Q.
Proof.
  revert a. induction qs as [|q qs IH]; intros a; simpl.
  - exists a. split; [reflexivity | ring].
  - destruct (IH (a + q)%Q) as (s & -> & Hs). exists s.
    split; [reflexivity|]. rewrite Hs. ring.
Qed.

Lemma vsum_Fin (qs : list Q) :
  exists s, vsum (map Fin qs) = Fin s /\ (s == qsum qs)%Q.
Proof.
  destruct (fold_vadd_Fin qs 0%Q) as (s & Hs & Heq). exists s.
  split; [exact Hs|]. rewrite Heq. ring.
Qed.

(** *** the run times *)

Lemma timed_loop_agrees {Graph Clock : Type} (time : Clock -> Q * Clock)
    (graph : Graph) (classes : list (FeatureClass Graph)) :
  forall all_features runtimes clock,
    match fst (Runtimes.feature_extraction_loop time graph classes
                 all_features runtimes clock) with
    | Ok (bundle, runtimes') =>
        feature_extraction_loop graph classes all_features = Ok bundle /\
        (NoDup (keys runtimes) -> NoDup (keys runtimes')) /\
        (forall name, In name (keys runtimes') <->
                      In name (keys runtimes) \/
                      In name (map (@shortname Graph) classes))
    | Raise e => feature_extraction_loop graph classes all_features = Raise e
    end.
Proof.
  induction classes as [|c classes IH]; intros acc rt clock.
  - simpl. intuition.
  - cbn [Runtimes.feature_extraction_loop feature_extraction_loop].
    destruct (time clock) as [start_time clock1].
    destruct (update_features c graph acc) as [acc'|e]; cbn [bind fst];
      [|reflexivity].
    destruct (time clock1) as [end_time clock2].
    specialize (IH acc' (setitem rt (shortname c) (end_time - start_time)%Q)
                   clock2).
    destruct (fst (Runtimes.feature_extraction_loop time graph classes acc'
                     (setitem rt (shortname c) (end_time - start_time)%Q)
                     clock2)) as [[bundle rt']|e]; [|exact IH].
    destruct IH as (Hb & Hd & Hk). split; [exact Hb|]. split.
    + intros Hrt. apply Hd. now apply NoDup_keys_setitem.
    + intros name. rewrite Hk, keys_setitem. simpl. intuition.
Qed.

(** X8.  Asking for the run times changes nothing to the features: the
    call returns the bundle, or raises the exception, of the call that does
    not ask for them; and the run times it returns have one entry per
    shortname of the classes run (classes that share a shortname share an
    entry). *)
Theorem runtimes_beside_features :
  forall (Graph Clock : Type) (time : Clock -> Q * Clock) (graph : Graph)
         (classes : list (FeatureClass Graph)) (clock : Clock),
    match fst (Runtimes.feature_extraction time graph classes clock) with
    | Ok (bundle, runtimes) =>
        feature_extraction graph classes = Ok bundle /\
        NoDup (keys runtimes) /\
        (forall name, In name (keys runtimes) <->
                      In name (map (@shortname Graph) classes))
    | Raise e => feature_extraction graph classes = Raise e
    end.
Proof.
  intros Graph Clock time graph classes clock.
  unfold Runtimes.feature_extraction, feature_extraction.
  pose proof (timed_loop_agrees time graph classes [] [] clock) as H.
  destruct (fst (Runtimes.feature_extraction_loop time graph classes [] []
                   clock)) as [[bundle rt]|e]; [|exact H].
  destruct H as (Hb & Hd & Hk). split; [exact Hb|]. split.
  - apply Hd. constructor.
  - intros name. rewrite Hk. simpl. intuition.
Qed.

End EngineProperties.
(** ** Further properties of [spectrum.py] *)

Module SpectrumProperties.

Import Spectrum SpectrumStated SpectrumNotions PyFacts SpectrumFacts.

Section Memo.

Variable GraphData : Type.
Variable adjacency_spectrum : GraphData -> result (list value).
Variable modularity_spectrum : GraphData -> result (list value).
Variable laplacian_spectrum : GraphData -> result (list value).

Lemma lru_cache_tidy (f : memoised)
    (body : GraphData -> result (list value))
    (graph : GraphObj GraphData) (ids : list nat) (s : Caches) :
  In (obj_id graph) ids -> tidy ids s ->
  match fst (lru_cache f body graph s) with
  | Ok _ => tidy ids (snd (lru_cache f body graph s))
  | Raise _ => stopped ids (snd (lru_cache f body graph s))
  end.
Proof.
  intros Hid (Hcount & Htables). unfold lru_cache.
  destruct (getitem (cache_of f s) (obj_id graph)) as [v|e] eqn:Hget;
    [split; assumption|].
  rewrite (getitem_raises_KeyError _ _ _ Hget) in Hget.
  apply getitem_Raise_keys in Hget.
  destruct (body (obj_data graph)) as [v|e']; simpl.
  - assert (Hlen : List.length (setitem (cache_of f s) (obj_id graph) v)
                   = S (List.length (cache_of f s))).
    { rewrite setitem_absent by assumption. rewrite length_app. simpl. lia. }
    split.
    + unfold entries in *. destruct f; simpl in *; lia.
    + intros f'. rewrite cache_of_remember.
      destruct (Htables f') as (Hnd & Hincl).
      destruct (match f, f' with
                | SpectrumAdj, SpectrumAdj
                | SpectrumModularity, SpectrumModularity
                | SpectrumLaplacian, SpectrumLaplacian => true
                | _, _ => false
                end); [|split; assumption].
      split; [now apply NoDup_keys_setitem|].
      intros k Hk. apply keys_setitem in Hk as [->|Hk]; auto.
  - split; [|split].
    + unfold entries in *. simpl. lia.
    + intros f'. rewrite cache_of_attempted. apply Htables.
    + exists f, (obj_id graph). rewrite cache_of_attempted. now split.
Qed.

Lemma compute_features_tidy (graph : GraphObj GraphData) (ids : list nat)
    (s : Caches) :
  In (obj_id graph) ids -> tidy ids s ->
  left_in_order ids
    (compute_features adjacency_spectrum modularity_spectrum
       laplacian_spectrum graph s).
Proof.
  intros Hid Htidy. unfold left_in_order. rewrite compute_features_unfold.
  pose proof (lru_cache_tidy SpectrumAdj adjacency_spectrum graph ids s Hid
                Htidy) as Ht1.
  destruct (lru_cache_run _ SpectrumAdj adjacency_spectrum graph s)
    as (_ & Hadj).
  unfold eval_spectrum_adj.
  destruct (lru_cache SpectrumAdj adjacency_spectrum graph s)
    as [[a|e1] s1]; simpl in Hadj, Ht1; [|now right].
  rewrite (add_ratios_cached _ adjacency_spectrum graph s1 a _ _ Hadj).
  destruct (ratios_of a (ratio_pairs 10) _) as [acc|e]; [|now left].
  pose proof (lru_cache_tidy SpectrumModularity modularity_spectrum graph
                ids s1 Hid Ht1) as Ht2.
  unfold eval_spectrum_modularity.
  destruct (lru_cache SpectrumModularity modularity_spectrum graph s1)
    as [[m|e2] s2]; simpl in Ht2; [|now right].
  pose proof (lru_cache_tidy SpectrumLaplacian laplacian_spectrum graph
                ids s2 Hid Ht2) as Ht3.
  unfold eval_spectrum_laplacian.
  destruct (lru_cache SpectrumLaplacian laplacian_spectrum graph s2)
    as [[l|e3] s3]; simpl in Ht3; [exact Ht3 | now right].
Qed.

Lemma passes_tidy (graphs : list (GraphObj GraphData)) (ids : list nat) :
  forall s,
    incl (map (@obj_id GraphData) graphs) ids -> tidy ids s ->
    left_in_order ids
      (passes adjacency_spectrum modularity_spectrum laplacian_spectrum
         graphs s).
Proof.
  induction graphs as [|graph graphs IH]; intros s Hincl Htidy;
    [exact Htidy|].
  cbn [passes]. unfold mbind at 1.
  assert (Hid : In (obj_id graph) ids) by (apply Hincl; now left).
  pose proof (compute_features_tidy graph ids s Hid Htidy) as Ht1.
  unfold left_in_order in Ht1.
  destruct (compute_features adjacency_spectrum modularity_spectrum
              laplacian_spectrum graph s) as [[fs|e] s1]; [|exact Ht1].
  simpl in Ht1. unfold mbind at 1.
  assert (Hincl' : incl (map (@obj_id GraphData) graphs) ids)
    by (intros k Hk; apply Hincl; now right).
  specialize (IH s1 Hincl' Ht1). unfold left_in_order in IH.
  destruct (passes adjacency_spectrum modularity_spectrum
              laplacian_spectrum graphs s1) as [[others|e] s2]; exact IH.
Qed.

End Memo.

(** a table that lists objects of [ids] once has no more entries than
    there are objects, and fewer if it misses one *)
Lemma table_length (ids : list nat) (s : Caches) (f : memoised) :
  listed_once ids s ->
  List.length (cache_of f s) <= List.length (nodup Nat.eq_dec ids) /\
  forall k, In k ids -> ~ In k (keys (cache_of f s)) ->
            S (List.length (cache_of f s))
            <= List.length (nodup Nat.eq_dec ids).
Proof.
  intros Htables. destruct (Htables f) as (Hnd & Hincl).
  rewrite <- (length_map fst). split.
  - apply NoDup_incl_length; [exact Hnd|].
    intros k Hk. apply nodup_In. now apply Hincl.
  - intros k Hk Hnot.
    change (S (List.length (map fst (cache_of f s))))
      with (List.length (k :: keys (cache_of f s))).
    apply NoDup_incl_length; [now constructor|].
    intros k' [<-|Hk']; apply nodup_In; [assumption | now apply Hincl].
Qed.

(** X18.  However many graphs a run goes through, however often one
    graph object comes back, and however many features read a spectrum,
    each of the three decompositions is started once per graph object at
    most, the one that raises and ends the run included: the count of
    decompositions is no more than three times the number of distinct
    objects. *)
Theorem each_decomposition_at_most_once :
  forall (GraphData : Type)
         (adjacency_spectrum modularity_spectrum laplacian_spectrum :
            GraphData -> result (list value))
         (graphs : list (GraphObj GraphData)),
    computed (snd (passes adjacency_spectrum modularity_spectrum
                     laplacian_spectrum graphs empty_caches))
    <= 3 * List.length
             (nodup Nat.eq_dec (map (@obj_id GraphData) graphs)).
Proof.
  intros GraphData adj mdl lap graphs.
  set (ids := map (@obj_id GraphData) graphs).
  assert (Hrun : left_in_order ids (passes adj mdl lap graphs empty_caches)).
  { apply passes_tidy; [apply incl_refl|].
    split; [reflexivity|]. intros f. destruct f; simpl;
      (split; [constructor | intros k []]). }
  set (s := snd (passes adj mdl lap graphs empty_caches)) in *.
  assert (Hcases : tidy ids s \/ stopped ids s).
  { unfold left_in_order in Hrun. fold s in Hrun.
    destruct (fst (passes adj mdl lap graphs empty_caches));
      [now left | exact Hrun]. }
  destruct Hcases as [(Hcount & Htables)|(Hcount & Htables & f & k & Hk & Hnot)];
    rewrite Hcount; unfold entries;
    pose proof (proj1 (table_length ids s SpectrumAdj Htables));
    pose proof (proj1 (table_length ids s SpectrumModularity Htables));
    pose proof (proj1 (table_length ids s SpectrumLaplacian Htables));
    simpl in *; [lia|].
  pose proof (proj2 (table_length ids s f Htables) k Hk Hnot) as Hless.
  destruct f; simpl in Hless; lia.
Qed.

(** X19.  [eigenvalue_ratio(graph, i, j)] reads the adjacency spectrum in
    the table if the graph object is there, and asks for its decomposition
    otherwise.  When it has a spectrum it returns the eigenvalue [j] over
    the eigenvalue [i], by the division of floats, which raises nothing
    when the divisor is zero, and it raises [IndexError] when the spectrum
    has no eigenvalue [i] or [j]; afterwards the spectrum is in the table.
    When the decomposition raises (as on a graph without nodes) it raises
    that exception and no table changes.  Its two readings of the
    spectrum start one decomposition at most, none if the graph object is
    in the table. *)
Theorem eigenvalue_ratio_outcome :
  forall (GraphData : Type)
         (adjacency_spectrum : GraphData -> result (list value))
         (s : Caches) (graph : GraphObj GraphData) (i j : nat),
    let run := eigenvalue_ratio adjacency_spectrum graph i j s in
    match spectrum_read adjacency_spectrum s graph with
    | Ok a =>
        fst run = match nth_error a j, nth_error a i with
                  | Some num, Some den => Ok (vdiv num den)
                  | _, _ => Raise IndexError
                  end /\
        getitem (adj_cache (snd run)) (obj_id graph) = Ok a
    | Raise e =>
        fst run = Raise e /\
        forall f, cache_of f (snd run) = cache_of f s
    end /\
    computed (snd run)
    = computed s
      + (if is_ok (getitem (adj_cache s) (obj_id graph)) then 0 else 1).
Proof.
  intros GraphData adj s graph i j run. subst run.
  unfold spectrum_read.
  assert (Hratio : forall a,
             ratio_of a i j
             = match nth_error a j, nth_error a i with
               | Some num, Some den => Ok (vdiv num den)
               | _, _ => Raise IndexError
               end).
  { intros a. unfold ratio_of, array_getitem.
    destruct (nth_error a j), (nth_error a i); reflexivity. }
  destruct (getitem (adj_cache s) (obj_id graph)) as [a|e] eqn:Hget.
  - rewrite (eigenvalue_ratio_cached _ adj graph s a i j Hget). simpl.
    split; [split; [apply Hratio | assumption] | lia].
  - destruct (adj (obj_data graph)) as [a|e'] eqn:Hbody.
    + set (s1 := remember SpectrumAdj (obj_id graph) a s).
      assert (Hhit : getitem (adj_cache s1) (obj_id graph) = Ok a)
        by exact (remember_getitem SpectrumAdj (obj_id graph) a s).
      assert (Hfirst : lru_cache SpectrumAdj adj graph s = (Ok a, s1)).
      { unfold lru_cache. simpl cache_of. now rewrite Hget, Hbody. }
      assert (Hrun : eigenvalue_ratio adj graph i j s
                     = (ratio_of a i j, s1)).
      { unfold eigenvalue_ratio, eval_spectrum_adj. unfold mbind at 1.
        rewrite Hfirst. unfold ratio_of, lift. unfold mbind at 1.
        destruct (array_getitem a j) as [num|]; simpl; [|reflexivity].
        unfold mbind at 1.
        rewrite (lru_cache_hit _ SpectrumAdj adj graph s1 a Hhit).
        unfold mbind. destruct (array_getitem a i) as [den|]; reflexivity. }
      rewrite Hrun. simpl fst. simpl snd.
      split; [split; [apply Hratio | assumption]|]. simpl. lia.
    + assert (Hrun : eigenvalue_ratio adj graph i j s
                     = (Raise e', attempted s)).
      { unfold eigenvalue_ratio, eval_spectrum_adj. unfold mbind at 1.
        unfold lru_cache. simpl cache_of. now rewrite Hget, Hbody. }
      rewrite Hrun. simpl fst. simpl snd.
      split; [split; [reflexivity|]|].
      * intros f. apply cache_of_attempted.
      * simpl. lia.
Qed.

End SpectrumProperties.
(** ** Further properties of the partitioner *)

Module PartitionProperties.

Import AsynFluid PartitionStated Tests PartitionNotions PyFacts TestsFacts
       PartitionFacts.

Section Tables.

Variable RandomState : Type.
Variable shuffle : RandomState -> list node -> list node * RandomState.
Variable choice : RandomState -> list Z -> Z * RandomState.
Variable G : Graph.

Hypothesis Hchoice : choice_picks choice.
Hypothesis Hwf : undirected_graph G.

(** A step of the loop leaves the communities of the tables as they are:
    it writes under communities that are there. *)
Lemma update_vertex_tables (st : State RandomState) v :
  sound_state G st -> counted_state st -> In v (nodes G) ->
  exists st', update_vertex choice G st v = Ok st' /\
              keys (density st') = keys (density st) /\
              ((forall old, getitem (communities st) v = Ok old ->
                            size (communities st) old = 1%Z) ->
               assigned st v -> st' = st).
Proof.
  intros Hs Hcnt Hv.
  pose proof (community_has_density Hs) as Hdensity.
  unfold update_vertex.
  destruct (count_vote_Ok RandomState st [] v) as (c0 & Hc0 & _).
  rewrite Hc0. simpl.
  apply getitem_Ok_keys in Hv as (ns & Hns).
  unfold neighbors at 1. rewrite Hns. simpl.
  destruct (foldM_count_vote RandomState st ns c0) as (counter & Hc & _).
  rewrite Hc. simpl.
  assert (Htal : tallied st (rev ns ++ [v]) counter).
  { eapply foldM_count_vote_tallied; [exact Hdensity| |exact Hc].
    eapply count_vote_tallied; [exact Hdensity| |exact Hc0].
    apply tallied_nil. }
  destruct counter as [|p counter']; [simpl; eauto|].
  remember (p :: counter') as counter eqn:Hcounter.
  replace (0 <? List.length (keys counter)) with true
    by (subst counter; reflexivity).
  fold (best_of counter).
  assert (Hbest : best_of counter <> [])
    by (apply best_of_nonempty; subst counter; discriminate).
  pose proof (Hchoice (seed st) (best_of counter) Hbest) as Hpick.
  destruct (choice (seed st) (best_of counter)) as [nc rng] eqn:Hch.
  simpl in Hpick.
  destruct (best_of_counter _ _ Hpick) as (q_nc & Hq_nc).
  destruct (tallied_counted _ st Hcnt _ _ _ _ Htal Hq_nc) as (m & Hm).
  destruct (count_is_size Hcnt _ Hm) as (Hm_size & Hm_pos).
  assert (Hnc : In nc (keys (density st))).
  { apply (same_communities Hcnt), getitem_Ok_keys. eauto. }
  assert (Hpickterm :
            match best_of counter with
            | [] => Raise IndexError
            | _ :: _ => Ok (nc, rng)
            end = Ok (nc, rng)).
  { destruct (best_of counter); [congruence | reflexivity]. }
  destruct (getitem (communities st) v) as [old|e] eqn:Hold.
  - simpl. destruct (list_contains (best_of counter) old) eqn:Hstay.
    + assert (Hpos : (0 <= old)%Z).
      { apply (communities_numbered Hcnt). eapply Hdensity; eauto. }
      replace (old =? -1)%Z with false by (symmetry; apply Z.eqb_neq; lia).
      eauto.
    + simpl. rewrite Hpickterm. simpl.
      apply list_contains_not_In in Hstay.
      assert (Hold_d : In old (keys (density st)))
        by (eapply Hdensity; eauto).
      assert (Hold_c : In old (keys (com_to_numvertices st)))
        by now apply (same_communities Hcnt).
      apply getitem_Ok_keys in Hold_c as (n & Hn).
      destruct (count_is_size Hcnt _ Hn) as (Hn_size & Hn_pos).
      assert (Hn2 : (2 <= n)%Z).
      { destruct (Z.eq_dec n 1) as [->|]; [|lia]. exfalso. apply Hstay.
        eapply alone_stays; eauto. eapply (neighbors_once Hwf). exact Hns. }
      rewrite Hn. simpl. rewrite getitem_setitem_same. simpl.
      unfold density_of at 1.
      replace (n - 1 =? 0)%Z with false by (symmetry; apply Z.eqb_neq; lia).
      simpl.
      assert (Hne : old <> nc) by (intros ->; contradiction).
      rewrite getitem_setitem_other by assumption. rewrite Hm. simpl.
      rewrite getitem_setitem_same. simpl.
      unfold density_of.
      replace (m + 1 =? 0)%Z with false by (symmetry; apply Z.eqb_neq; lia).
      simpl. eexists. split; [reflexivity|]. simpl. split.
      * rewrite keys_setitem_present;
          [now apply keys_setitem_present | apply keys_setitem; now right].
      * intros Halone _. specialize (Halone old eq_refl). lia.
  - pose proof (getitem_raises_KeyError _ _ _ Hold) as ->. simpl.
    rewrite Hpickterm. simpl. rewrite Hm. simpl.
    rewrite getitem_setitem_same. simpl.
    unfold density_of.
    replace (m + 1 =? 0)%Z with false by (symmetry; apply Z.eqb_neq; lia).
    simpl. eexists. split; [reflexivity|]. simpl. split.
    + now apply keys_setitem_present.
    + intros _ Ha. apply getitem_Ok_keys in Ha as (old & Ha).
      unfold assigned in Ha. congruence.
Qed.

Lemma foldM_update_vertex_tables vs (st : State RandomState) :
  sound_state G st -> counted_state st -> incl vs (nodes G) ->
  exists st', foldM (update_vertex choice G) vs st = Ok st' /\
              sound_state G st' /\ counted_state st' /\
              keys (density st') = keys (density st) /\
              ((forall v old, getitem (communities st) v = Ok old ->
                              size (communities st) old = 1%Z) ->
               (forall v, In v vs -> assigned st v) -> st' = st).
Proof.
  revert st. induction vs as [|v vs IH]; simpl; intros st Hs Hcnt Hvs.
  - exists st. intuition.
  - assert (Hv : In v (nodes G)) by (apply Hvs; now left).
    destruct (update_vertex_tables st v Hs Hcnt Hv)
      as (st1 & Hrun & Hk1 & Hsame).
    destruct (update_vertex_counted RandomState choice G Hchoice Hwf st v
                Hs Hcnt Hv) as (st1' & Hrun' & Hcnt1).
    rewrite Hrun in Hrun'. injection Hrun' as <-.
    rewrite Hrun. simpl.
    assert (Hs1 : sound_state G st1)
      by (eapply update_vertex_sound; eauto).
    destruct (IH st1 Hs1 Hcnt1) as (st2 & Hrest & Hs2 & Hcnt2 & Hk2 & Hsame2).
    { intros x Hx. apply Hvs. now right. }
    exists st2. split; [assumption|]. split; [assumption|].
    split; [assumption|]. split; [congruence|].
    intros Halone Hall.
    assert (E : st1 = st).
    { apply Hsame; [|apply Hall; now left]. intros old. apply Halone. }
    subst st1. apply Hsame2; [assumption|]. intros x Hx. apply Hall.
    now right.
Qed.

Hypothesis Hshuffle : shuffle_permutes shuffle.

Lemma sweep_tables (st : State RandomState) :
  sound_state G st -> counted_state st ->
  exists st', sweep shuffle choice G st = Ok st' /\
              sound_state G st' /\ counted_state st' /\
              keys (density st') = keys (density st) /\
              iter_count st' = (iter_count st + 1)%Z /\
              ((forall v old, getitem (communities st) v = Ok old ->
                              size (communities st) old = 1%Z) ->
               (forall v, In v (nodes G) -> assigned st v) ->
               cont st' = false /\ communities st' = communities st /\
               density st' = density st).
Proof.
  intros Hs Hcnt.
  assert (Hex : exists st', sweep shuffle choice G st = Ok st').
  { destruct (sweep_total RandomState shuffle choice G Hchoice Hwf Hshuffle
                st Hs Hcnt) as (st' & H' & _). eauto. }
  destruct Hex as (st' & Hsweep).
  pose proof (sweep_count RandomState shuffle choice G st st' Hsweep) as Hit.
  pose proof Hsweep as Hsweep0.
  unfold sweep in Hsweep.
  pose proof (Hshuffle (seed st) (nodes G)) as Hperm.
  destruct (shuffle (seed st) (nodes G)) as [vertices rng].
  simpl in Hperm.
  set (st1 := {| communities := communities st;
                 density := density st;
                 com_to_numvertices := com_to_numvertices st;
                 seed := rng;
                 cont := false;
                 iter_count := (iter_count st + 1)%Z |}) in *.
  assert (Hs1 : sound_state G st1) by (destruct Hs; split; assumption).
  assert (Hcnt1 : counted_state st1) by exact Hcnt.
  destruct (foldM_update_vertex_tables vertices st1 Hs1 Hcnt1)
    as (st2 & Hrun & Hs2 & Hcnt2 & Hk2 & Hsame).
  { intros x Hx. eapply Permutation_in; eauto. }
  rewrite Hsweep in Hrun. injection Hrun as <-.
  exists st'.
  split; [exact Hsweep0|]. split; [assumption|]. split; [assumption|].
  split; [exact Hk2|]. split; [exact Hit|].
  intros Halone Hall.
  assert (E : st' = st1).
  { apply Hsame; [exact Halone|]. intros x Hx. apply Hall.
    eapply Permutation_in; eauto. }
  rewrite E. auto.
Qed.

Lemma while_cont_tables fuel max_iter (st : State RandomState) :
  Z.to_nat (max_iter - iter_count st) < fuel ->
  sound_state G st -> counted_state st ->
  exists st', while_cont shuffle choice fuel G max_iter st = Some (Ok st') /\
              sound_state G st' /\ counted_state st' /\
              keys (density st') = keys (density st).
Proof.
  revert st. induction fuel as [|fuel IH]; intros st Hfuel Hs Hcnt; [lia|].
  simpl. destruct (cont st); [|exists st; auto].
  destruct (sweep_tables st Hs Hcnt)
    as (st1 & Hsweep & Hs1 & Hcnt1 & Hk1 & Hit & _).
  rewrite Hsweep.
  destruct (iter_count st1 >? max_iter)%Z eqn:Hgt; [exists st1; auto|].
  destruct (IH st1) as (st2 & Hrun & Hs2 & Hcnt2 & Hk2);
    [lia | assumption | assumption |].
  exists st2. split; [assumption|]. split; [assumption|].
  split; [assumption | congruence].
Qed.

(** the tables that the initialisation builds *)
Lemma initialize_shape k rng (st : State RandomState) :
  initialize shuffle G k rng = Ok st -> (0 < k <= len G)%Z ->
  sound_state G st /\ counted_state st /\
  cont st = true /\ iter_count st = 0%Z /\
  List.length (density st) = Z.to_nat k /\
  List.length (communities st) = Z.to_nat k /\
  NoDup (values (communities st)) /\
  (forall c d, getitem (density st) c = Ok d -> d = max_density).
Proof.
  intros Hinit Hk.
  pose proof (nodes_once Hwf) as Hnodes.
  destruct (initialize_sound RandomState shuffle G Hshuffle k rng st Hinit
              Hnodes Hk) as (Hs & Hcont & Hit).
  destruct (initialize_total RandomState shuffle G Hshuffle k rng Hnodes)
    as (st' & Hinit' & Hcnt).
  rewrite Hinit in Hinit'. injection Hinit' as <-.
  split; [assumption|]. split; [assumption|].
  split; [assumption|]. split; [assumption|].
  unfold initialize in Hinit.
  pose proof (Hshuffle rng (nodes G)) as Hperm.
  destruct (shuffle rng (nodes G)) as [vertices rng']. simpl in Hperm.
  assert (Hv : NoDup vertices)
    by (eapply Permutation_NoDup; [symmetry; exact Hperm | exact Hnodes]).
  assert (Hfirst : NoDup (firstn (Z.to_nat k) vertices)).
  { rewrite <- (firstn_skipn (Z.to_nat k) vertices) in Hv.
    now apply NoDup_app_remove_r in Hv. }
  assert (Hlen : List.length (firstn (Z.to_nat k) vertices) = Z.to_nat k).
  { apply firstn_length_le. rewrite (Permutation_length Hperm).
    unfold nodes, keys. rewrite length_map. unfold len in Hk. lia. }
  destruct (enumerate_values (firstn (Z.to_nat k) vertices) [] 0%Z Hfirst)
    as (Hvals & Hpos); try (simpl; intros; tauto || lia); [constructor|].
  destruct (enumerate_fold (firstn (Z.to_nat k) vertices) [] 0%Z)
    as (Hdup & Hkeys); [constructor|].
  fold (enumerate_communities vertices k) in Hvals, Hpos, Hdup, Hkeys.
  destruct (initialize_tables (enumerate_communities vertices k)
              (keys (enumerate_communities vertices k)) (fun v H => H)
              ([], []))
    as ([dens c2n] & Hrun & H1 & H2 & H3 & H4 & H5);
    try (simpl; intros; tauto || discriminate); [constructor|].
  pose proof Hrun as Hrun0. cbv zeta in Hinit, Hrun. rewrite Hrun in Hinit.
  simpl in Hinit.
  injection Hinit as <-. simpl in *.
  assert (Hcom : List.length (enumerate_communities vertices k)
                 = Z.to_nat k).
  { rewrite <- Hlen. rewrite <- (length_map fst).
    apply Permutation_length. apply NoDup_Permutation; try assumption.
    intros x. rewrite (Hkeys x). simpl. tauto. }
  split; [|split; [assumption|split; [assumption|exact H3]]].
  rewrite <- Hcom, <- (length_map fst dens),
    <- (length_map snd (enumerate_communities vertices k)).
  apply Permutation_length. apply NoDup_Permutation; try assumption.
  intros c. split; [apply H4|].
  intros Hc. apply in_map_iff in Hc as ([v c'] & <- & Hin). simpl.
  destruct (initialize_densities _ _ _ _ Hrun0) as (_ & Hcov).
  apply (Hcov v c').
  - apply (in_map fst) in Hin. exact Hin.
  - now apply In_getitem_NoDup.
Qed.

(** What a run on a valid input ends with. *)
Lemma asyn_fluidc_run_tables (k : Z) (max_iter : Z) (rng : RandomState) :
  connected G -> (0 < k <= len G)%Z ->
  exists st,
    asyn_fluidc_run shuffle choice G (PyInt k) max_iter rng = Some (Ok st) /\
    sound_state G st /\ counted_state st /\
    List.length (density st) = Z.to_nat k.
Proof.
  intros Hc Hk. unfold asyn_fluidc_run, initial_checks.
  replace (k >? 0)%Z with true by (symmetry; apply Z.gtb_lt; lia).
  assert (Hne : nodes G <> []).
  { unfold len in Hk. unfold nodes, keys.
    destruct (adj G); [simpl in Hk; lia | discriminate]. }
  rewrite (connected_is_connected G Hwf Hne Hc). simpl.
  replace (len G <? k)%Z with false by (symmetry; apply Z.ltb_ge; lia).
  destruct (initialize_total RandomState shuffle G Hshuffle k rng
              (nodes_once Hwf)) as (st0 & Hinit & _).
  rewrite Hinit.
  destruct (initialize_shape k rng st0 Hinit Hk)
    as (Hs0 & Hcnt0 & _ & Hit0 & Hlen0 & _).
  destruct (while_cont_tables (S (Z.to_nat max_iter)) max_iter st0)
    as (st & Hrun & Hs & Hcnt & Hkeys); [rewrite Hit0; lia | auto | auto |].
  exists st. split; [assumption|]. split; [assumption|].
  split; [assumption|].
  rewrite <- Hlen0, <- !(length_map fst). unfold keys in Hkeys.
  now rewrite Hkeys.
Qed.

(** With as many communities as nodes, the first sweep moves no node. *)
Lemma asyn_fluidc_run_singletons (max_iter : Z) (rng : RandomState) :
  connected G -> (0 < len G)%Z ->
  exists st,
    asyn_fluidc_run shuffle choice G (PyInt (len G)) max_iter rng
      = Some (Ok st) /\
    sound_state G st /\ counted_state st /\
    iter_count st = 1%Z /\ cont st = false /\
    NoDup (values (communities st)) /\
    (forall v, In v (nodes G) -> assigned st v) /\
    (forall c d, getitem (density st) c = Ok d -> d = max_density).
Proof.
  intros Hc Hk. unfold asyn_fluidc_run, initial_checks.
  replace (len G >? 0)%Z with true by (symmetry; apply Z.gtb_lt; lia).
  assert (Hne : nodes G <> []).
  { unfold len in Hk. unfold nodes, keys.
    destruct (adj G); [simpl in Hk; lia | discriminate]. }
  rewrite (connected_is_connected G Hwf Hne Hc). simpl.
  rewrite Z.ltb_irrefl.
  destruct (initialize_total RandomState shuffle G Hshuffle (len G) rng
              (nodes_once Hwf)) as (st0 & Hinit & _).
  rewrite Hinit.
  destruct (initialize_shape (len G) rng st0 Hinit ltac:(lia))
    as (Hs0 & Hcnt0 & Hcont0 & Hit0 & _ & Hlen0 & Hvals0 & Hdens0).
  assert (Hall : forall v, In v (nodes G) -> assigned st0 v).
  { intros v Hv. unfold assigned.
    apply (@NoDup_length_incl _ (keys (communities st0)) (nodes G)
             (assigned_once Hs0));
      [|exact (assigned_are_nodes Hs0)|exact Hv].
    unfold nodes, keys. rewrite !length_map, Hlen0. unfold len. lia. }
  assert (Halone : forall v old, getitem (communities st0) v = Ok old ->
                                 size (communities st0) old = 1%Z).
  { intros v old Hv. apply size_once; [assumption|].
    apply getitem_Ok_In in Hv. apply (in_map snd) in Hv. exact Hv. }
  destruct (sweep_tables st0 Hs0 Hcnt0)
    as (st1 & Hsweep & Hs1 & Hcnt1 & _ & Hit1 & Hsame).
  destruct (Hsame Halone Hall) as (Hcont1 & Hcom1 & Hden1).
  exists st1.
  assert (Hrun : while_cont shuffle choice (S (Z.to_nat max_iter)) G max_iter
                   st0 = Some (Ok st1)).
  { simpl. rewrite Hcont0, Hsweep.
    destruct (iter_count st1 >? max_iter)%Z; [reflexivity|].
    destruct (Z.to_nat max_iter); simpl; now rewrite Hcont1. }
  split; [assumption|]. split; [assumption|]. split; [assumption|].
  split; [lia|]. split; [assumption|].
  split; [now rewrite Hcom1|]. split.
  - intros v Hv. unfold assigned. rewrite Hcom1. now apply Hall.
  - rewrite Hden1. exact Hdens0.
Qed.

(** the communities that have a group are the communities of the tables *)
Lemma groups_keys_density (st : State RandomState) :
  sound_state G st -> counted_state st ->
  Permutation (keys (groups (communities st))) (keys (density st)).
Proof.
  intros Hs Hcnt.
  destruct (groups_spec (communities st) (assigned_once Hs))
    as (Hgd & Hgk & _).
  apply NoDup_Permutation; [assumption | exact (density_once Hcnt) |].
  intros c. rewrite Hgk. split.
  - intros Hc. apply in_map_iff in Hc as ([v c'] & <- & Hin). simpl.
    apply (community_has_density Hs v).
    apply In_getitem_NoDup; [exact (assigned_once Hs) | exact Hin].
  - intros Hc.
    destruct (in_dec Z.eq_dec c (values (communities st))) as [Hin|Hout];
      [assumption|].
    apply size_absent in Hout.
    apply (same_communities Hcnt) in Hc.
    apply getitem_Ok_keys in Hc as (n & Hn).
    destruct (count_is_size Hcnt _ Hn) as (-> & Hpos). lia.
Qed.

End Tables.

Lemma inverse_between (n : Z) :
  (1 <= n)%Z ->
  (0 < max_density / inject_Z n)%Q /\ (max_density / inject_Z n <= 1)%Q.
Proof.
  intros Hn. destruct n as [|p|p]; try lia.
  unfold max_density, Qdiv, Qinv, inject_Z, Qlt, Qle. simpl. lia.
Qed.

(** *** graphs and generators to try the properties on *)

Lemma undirected_graphb_sound (G : Graph) :
  undirected_graphb G = true -> undirected_graph G.
Proof.
  unfold undirected_graphb. intros H.
  apply andb_true_iff in H as (H & Hadj).
  apply andb_true_iff in H as (Hdir & Hnodes).
  rewrite forallb_forall in Hadj.
  assert (Hentry : forall v ns w, neighbors G v = Ok ns -> In w ns ->
            NoDup ns /\
            exists ns', neighbors G w = Ok ns' /\ In v ns').
  { intros v ns w Hns Hw. apply getitem_Ok_In in Hns.
    specialize (Hadj _ Hns). simpl in Hadj.
    apply andb_true_iff in Hadj as (Hnd & Hsym).
    split; [now apply nodupb_NoDup|].
    rewrite forallb_forall in Hsym. specialize (Hsym w Hw).
    destruct (neighbors G w) as [ns'|e]; [|discriminate].
    exists ns'. split; [reflexivity|]. now apply list_contains_In. }
  split.
  - now apply negb_true_iff.
  - now apply nodupb_NoDup.
  - intros v ns w Hns Hw. destruct (Hentry v ns w Hns Hw) as (_ & ns' & Hw' & _).
    unfold nodes. apply getitem_Ok_keys. eauto.
  - intros v ns Hns. apply getitem_Ok_In in Hns.
    specialize (Hadj _ Hns). simpl in Hadj.
    apply andb_true_iff in Hadj as (Hnd & _). now apply nodupb_NoDup.
  - intros v ns w Hns Hw. now destruct (Hentry v ns w Hns Hw).
Qed.

Lemma rev_shuffle_shuffles : shuffle_permutes rev_shuffle.
Proof.
  intros rng l. unfold rev_shuffle. simpl.
  destruct (rng =? 0); [reflexivity|].
  symmetry. apply Permutation_rev.
Defined.

Lemma first_choice_chooses : choice_picks first_choice.
Proof.
  intros rng [|x l] Hl; [congruence|]. now left.
Defined.

Lemma triangle_with_tail_is_undirected : undirected_graph triangle_with_tail.
Proof. apply undirected_graphb_sound. reflexivity. Defined.

Lemma triangle_with_tail_is_connected : connected triangle_with_tail.
Proof.
  apply is_connected_connected;
    [exact triangle_with_tail_is_undirected | reflexivity].
Defined.

(** the shape of what is returned from a state of a run *)
Lemma results_shape {RandomState : Type} (G : Graph)
    (st : State RandomState) :
  sound_state G st -> counted_state st ->
  List.length (fst (results st)) = List.length (density st) /\
  List.length (snd (results st)) = List.length (density st) /\
  Forall (fun g => g <> []) (fst (results st)) /\
  Forall (fun d => (0 < d)%Q /\ (d <= 1)%Q) (snd (results st)).
Proof.
  intros Hs Hcnt.
  pose proof (groups_keys_density RandomState G st Hs Hcnt) as Hperm.
  destruct (groups_spec (communities st) (assigned_once Hs))
    as (Hgd & Hgk & Hgs).
  simpl. unfold values. rewrite !length_map.
  split; [|split; [reflexivity|split]].
  - pose proof (Permutation_length Hperm) as Hl.
    unfold keys in Hl. now rewrite !length_map in Hl.
  - apply Forall_forall. intros g Hg.
    apply in_map_iff in Hg as ([c g'] & <- & Hin). simpl.
    assert (Hget : getitem (groups (communities st)) c = Ok g')
      by now apply In_getitem_NoDup.
    assert (Hc : In c (keys (density st))).
    { apply (Permutation_in c Hperm). apply (in_map fst) in Hin.
      exact Hin. }
    apply (same_communities Hcnt) in Hc.
    apply getitem_Ok_keys in Hc as (n & Hn).
    destruct (count_is_size Hcnt _ Hn) as (Hsize & Hpos).
    specialize (Hgs c g' Hget). intros ->. simpl in Hgs. lia.
  - apply Forall_forall. intros d Hd.
    apply in_map_iff in Hd as ([c d'] & <- & Hin). simpl.
    assert (Hget : getitem (density st) c = Ok d')
      by (apply In_getitem_NoDup; [exact (density_once Hcnt) | exact Hin]).
    assert (Hc : In c (keys (com_to_numvertices st))).
    { apply (same_communities Hcnt). apply (in_map fst) in Hin. exact Hin. }
    apply getitem_Ok_keys in Hc as (n & Hn).
    destruct (count_is_size Hcnt _ Hn) as (_ & Hpos).
    rewrite (density_is_inverse Hcnt _ Hn) in Hget. injection Hget as <-.
    now apply inverse_between.
Qed.

(** X9.  On a connected undirected graph, with [k] between one and the
    number of nodes, [asyn_fluidc] returns [k] groups and [k] densities:
    no community is ever left without a node (so that the density of none
    is ever a division by zero), and every density lies between zero,
    excluded, and one. *)
Theorem asyn_fluidc_returns_k_communities :
  forall (RandomState : Type)
         (shuffle : RandomState -> list node -> list node * RandomState)
         (choice : RandomState -> list Z -> Z * RandomState)
         (G : Graph) (k : Z) (max_iter : Z) (rng : RandomState),
    shuffle_permutes shuffle ->
    choice_picks choice ->
    undirected_graph G ->
    connected G ->
    (0 < k <= len G)%Z ->
    exists groups dens,
      asyn_fluidc shuffle choice G (PyInt k) max_iter rng
        = Some (Ok (groups, dens)) /\
      Z.of_nat (List.length groups) = k /\
      Z.of_nat (List.length dens) = k /\
      Forall (fun g => g <> []) groups /\
      Forall (fun d => (0 < d)%Q /\ (d <= 1)%Q) dens.
Proof.
  intros RandomState shuffle choice G k max_iter rng Hshuffle Hchoice Hwf
         Hconn Hk.
  destruct (asyn_fluidc_run_tables RandomState shuffle choice G Hchoice Hwf
              Hshuffle k max_iter rng Hconn Hk)
    as (st & Hrun & Hs & Hcnt & Hlen).
  destruct (results_shape G st Hs Hcnt) as (Hg & Hd & Hne & Hin).
  exists (fst (results st)), (snd (results st)).
  split; [unfold asyn_fluidc; rewrite Hrun; now destruct (results st)|].
  split; [lia|]. split; [lia|]. split; assumption.
Qed.

Lemma asyn_fluidc_returns_k_communities_witness :
  exists groups dens,
    asyn_fluidc rev_shuffle first_choice triangle_with_tail (PyInt 2)
      default_max_iter 0 = Some (Ok (groups, dens)) /\
    Z.of_nat (List.length groups) = 2%Z /\
    Z.of_nat (List.length dens) = 2%Z /\
    Forall (fun g => g <> []) groups /\
    Forall (fun d => (0 < d)%Q /\ (d <= 1)%Q) dens.
Proof.
  apply (asyn_fluidc_returns_k_communities nat rev_shuffle first_choice
           triangle_with_tail 2 default_max_iter 0).
  - exact rev_shuffle_shuffles.
  - exact first_choice_chooses.
  - exact triangle_with_tail_is_undirected.
  - exact triangle_with_tail_is_connected.
  - unfold len. simpl. lia.
Defined.

(** X10.  On the same inputs, the densities returned are those of the
    groups returned, in some order: there is a way to list them against
    the groups such that every density times the size of its group is
    one. *)
Theorem densities_are_those_of_the_groups :
  forall (RandomState : Type)
         (shuffle : RandomState -> list node -> list node * RandomState)
         (choice : RandomState -> list Z -> Z * RandomState)
         (G : Graph) (k : Z) (max_iter : Z) (rng : RandomState),
    shuffle_permutes shuffle ->
    choice_picks choice ->
    undirected_graph G ->
    connected G ->
    (0 < k <= len G)%Z ->
    exists groups dens dens',
      asyn_fluidc shuffle choice G (PyInt k) max_iter rng
        = Some (Ok (groups, dens)) /\
      Permutation dens' dens /\
      densities_match groups dens'.
Proof.
  intros RandomState shuffle choice G k max_iter rng Hshuffle Hchoice Hwf
         Hconn Hk.
  destruct (asyn_fluidc_run_tables RandomState shuffle choice G Hchoice Hwf
              Hshuffle k max_iter rng Hconn Hk)
    as (st & Hrun & Hs & Hcnt & _).
  destruct (returned_densities_up_to_order RandomState G st Hs Hcnt)
    as (dens' & Hperm & Hmatch).
  exists (fst (results st)), (snd (results st)), dens'.
  split; [unfold asyn_fluidc; rewrite Hrun; now destruct (results st)|].
  split; assumption.
Qed.

Lemma densities_are_those_of_the_groups_witness :
  exists groups dens dens',
    asyn_fluidc rev_shuffle first_choice triangle_with_tail (PyInt 2)
      default_max_iter 0 = Some (Ok (groups, dens)) /\
    Permutation dens' dens /\
    densities_match groups dens'.
Proof.
  apply (densities_are_those_of_the_groups nat rev_shuffle first_choice
           triangle_with_tail 2 default_max_iter 0).
  - exact rev_shuffle_shuffles.
  - exact first_choice_chooses.
  - exact triangle_with_tail_is_undirected.
  - exact triangle_with_tail_is_connected.
  - unfold len. simpl. lia.
Defined.

(** X11.  On the same inputs, the number of sweeps made lies between one
    and [max_iter + 1]: one sweep is made even when [max_iter] is zero or
    negative. *)
Theorem sweeps_between_one_and_max_iter_plus_one :
  forall (RandomState : Type)
         (shuffle : RandomState -> list node -> list node * RandomState)
         (choice : RandomState -> list Z -> Z * RandomState)
         (G : Graph) (k : Z) (max_iter : Z) (rng : RandomState),
    shuffle_permutes shuffle ->
    choice_picks choice ->
    undirected_graph G ->
    connected G ->
    (0 < k <= len G)%Z ->
    exists st,
      asyn_fluidc_run shuffle choice G (PyInt k) max_iter rng
        = Some (Ok st) /\
      (1 <= iter_count st <= Z.max max_iter 0 + 1)%Z /\
      (cont st = true -> iter_count st = (Z.max max_iter 0 + 1)%Z).
Proof.
  intros RandomState shuffle choice G k max_iter rng Hshuffle Hchoice Hwf
         Hconn Hk.
  destruct (asyn_fluidc_run_total RandomState shuffle choice Hshuffle
              Hchoice G k max_iter rng Hwf Hconn Hk)
    as (st & Hrun & _).
  exists st. split; [assumption|].
  destruct (asyn_fluidc_run_sound RandomState shuffle choice Hshuffle
              G (PyInt k) max_iter rng st Hwf Hrun)
    as (_ & _ & _ & Hcount).
  split; [assumption|].
  intros Hcont.
  assert (Hexit : (iter_count st > max_iter)%Z); [|lia].
  unfold asyn_fluidc_run in Hrun.
  destruct (initial_checks G (PyInt k)) as [z|e]; [|discriminate].
  destruct (initialize shuffle G z rng) as [st0|e]; [|discriminate].
  revert Hrun Hcont. generalize (S (Z.to_nat max_iter)). clear.
  intros fuel. revert st0.
  induction fuel as [|fuel IH]; intros st0; simpl.
  - destruct (cont st0) eqn:E; [discriminate|]. intros [= <-]. congruence.
  - destruct (cont st0) eqn:E; [|intros [= <-]; congruence].
    destruct (sweep shuffle choice G st0) as [st1|e]; [|discriminate].
    destruct (iter_count st1 >? max_iter)%Z eqn:Hgt.
    + intros [= <-] _. now apply Z.gtb_lt in Hgt; lia.
    + apply IH.
Qed.

Lemma sweeps_between_one_and_max_iter_plus_one_witness :
  exists st,
    asyn_fluidc_run rev_shuffle first_choice triangle_with_tail (PyInt 2)
      0 0 = Some (Ok st) /\
    (1 <= iter_count st <= Z.max 0 0 + 1)%Z /\
    (cont st = true -> iter_count st = (Z.max 0 0 + 1)%Z).
Proof.
  apply (sweeps_between_one_and_max_iter_plus_one nat rev_shuffle
           first_choice triangle_with_tail 2 0 0).
  - exact rev_shuffle_shuffles.
  - exact first_choice_chooses.
  - exact triangle_with_tail_is_undirected.
  - exact triangle_with_tail_is_connected.
  - unfold len. simpl. lia.
Defined.

(** X12.  With as many communities as nodes ([k = len(G)], which is what
    the caller asks for on a graph of fewer than [i] nodes) every node is a
    community of its own: one sweep is made, it moves no node, and the
    call returns one group per node, each of density one. *)
Theorem one_community_per_node :
  forall (RandomState : Type)
         (shuffle : RandomState -> list node -> list node * RandomState)
         (choice : RandomState -> list Z -> Z * RandomState)
         (G : Graph) (max_iter : Z) (rng : RandomState),
    shuffle_permutes shuffle ->
    choice_picks choice ->
    undirected_graph G ->
    connected G ->
    (0 < len G)%Z ->
    exists st,
      asyn_fluidc_run shuffle choice G (PyInt (len G)) max_iter rng
        = Some (Ok st) /\
      iter_count st = 1%Z /\ cont st = false /\
      partitions G (fst (results st)) /\
      Forall (fun g => List.length g = 1) (fst (results st)) /\
      Forall (fun d => d = 1%Q) (snd (results st)).
Proof.
  intros RandomState shuffle choice G max_iter rng Hshuffle Hchoice Hwf
         Hconn Hk.
  destruct (asyn_fluidc_run_singletons RandomState shuffle choice G Hchoice
              Hwf Hshuffle max_iter rng Hconn Hk)
    as (st & Hrun & Hs & Hcnt & Hit & Hcont & Hvals & Hall & Hdens).
  exists st. split; [assumption|]. split; [assumption|].
  split; [assumption|]. simpl.
  destruct (groups_spec (communities st) (assigned_once Hs))
    as (Hgd & Hgk & Hgs).
  split; [|split].
  - unfold partitions.
    etransitivity;
      [exact (groups_permutation (communities st) (assigned_once Hs))|].
    apply NoDup_Permutation;
      [exact (assigned_once Hs) | exact (nodes_once Hwf) |].
    intros x. split; [apply (assigned_are_nodes Hs) | apply Hall].
  - apply Forall_forall. intros g Hg.
    apply in_map_iff in Hg as ([c g'] & <- & Hin). simpl.
    assert (Hget : getitem (groups (communities st)) c = Ok g')
      by now apply In_getitem_NoDup.
    specialize (Hgs c g' Hget).
    rewrite size_once in Hgs; [lia | assumption |].
    apply Hgk. apply (in_map fst) in Hin. exact Hin.
  - apply Forall_forall. intros d Hd.
    apply in_map_iff in Hd as ([c d'] & <- & Hin). simpl.
    apply (Hdens c). apply In_getitem_NoDup;
      [exact (density_once Hcnt) | exact Hin].
Qed.

Lemma one_community_per_node_witness :
  exists st,
    asyn_fluidc_run rev_shuffle first_choice triangle_with_tail
      (PyInt (len triangle_with_tail)) default_max_iter 0 = Some (Ok st) /\
    iter_count st = 1%Z /\ cont st = false /\
    partitions triangle_with_tail (fst (results st)) /\
    Forall (fun g => List.length g = 1) (fst (results st)) /\
    Forall (fun d => d = 1%Q) (snd (results st)).
Proof.
  apply (one_community_per_node nat rev_shuffle first_choice
           triangle_with_tail default_max_iter 0).
  - exact rev_shuffle_shuffles.
  - exact first_choice_chooses.
  - exact triangle_with_tail_is_undirected.
  - exact triangle_with_tail_is_connected.
  - unfold len. simpl. lia.
Defined.

(** X13.  On an undirected graph that has a node, [is_connected] answers
    [True] exactly when every node can be reached from every node, and
    [False] otherwise: the breadth-first search misses no node and meets
    none that cannot be reached. *)
Theorem is_connected_decides_connectedness :
  forall (G : Graph),
    undirected_graph G ->
    nodes G <> [] ->
    (is_connected G = Ok true <-> connected G) /\
    (is_connected G = Ok false <-> ~ connected G).
Proof.
  intros G Hwf Hne.
  assert (Hiff : is_connected G = Ok true <-> connected G).
  { split; [now apply is_connected_connected|].
    now apply connected_is_connected. }
  split; [exact Hiff|].
  assert (Hb : exists b, is_connected G = Ok b).
  { unfold is_connected. rewrite (graph_undirected Hwf).
    destruct (nodes G); [congruence | eauto]. }
  destruct Hb as ([|] & Hb); rewrite Hb.
  - split; [discriminate|]. intros Hn. exfalso. apply Hn, Hiff, Hb.
  - split; [|reflexivity]. intros _ Hc. apply Hiff in Hc. congruence.
Qed.

Lemma is_connected_decides_connectedness_witness :
  (is_connected two_isolated_nodes = Ok true
   <-> connected two_isolated_nodes) /\
  (is_connected two_isolated_nodes = Ok false
   <-> ~ connected two_isolated_nodes).
Proof.
  apply (is_connected_decides_connectedness two_isolated_nodes).
  - apply undirected_graphb_sound. reflexivity.
  - discriminate.
Defined.

(** *** [groups] turns the dictionary round *)

Lemma groups_fold_members (l : dict node Z) :
  forall (acc : dict Z (list node)) (processed : dict node Z),
    NoDup (keys processed ++ keys l) ->
    (forall c, In c (keys acc) <-> In c (values processed)) ->
    (forall c s, getitem acc c = Ok s ->
       NoDup s /\ forall v, In v s <-> In (v, c) processed) ->
    let r := fold_left
               (fun one_to_many vk =>
                  let '(v, k) := vk in
                  match getitem one_to_many k with
                  | Ok s =>
                      setitem one_to_many k
                              (if list_contains s v then s else s ++ [v])
                  | Raise _ => setitem one_to_many k [v]
                  end)
               l acc in
    forall c s, getitem r c = Ok s ->
      NoDup s /\ forall v, In v s <-> In (v, c) (processed ++ l).
Proof.
  induction l as [|[v k] l IH]; intros acc processed Hdup Hkeys Hmem; simpl.
  - intros c s Hs. rewrite app_nil_r. now apply Hmem.
  - assert (Hv : ~ In v (keys processed)).
    { simpl in Hdup. apply NoDup_remove_2 in Hdup. intros Hin. apply Hdup.
      apply in_or_app. now left. }
    assert (Hdup' : NoDup (keys (processed ++ [(v, k)]) ++ keys l)).
    { rewrite keys_app. simpl. rewrite <- app_assoc. exact Hdup. }
    replace (processed ++ (v, k) :: l) with ((processed ++ [(v, k)]) ++ l)
      by (rewrite <- app_assoc; reflexivity).
    apply IH; try assumption.
    + intros c. rewrite values_app, in_app_iff. simpl.
      destruct (getitem acc k) as [s|e] eqn:Hk; rewrite keys_setitem, Hkeys.
      * split; [intros [ -> | ? ]; auto | intros [ ? | [ -> | [] ] ]; auto].
      * split; [intros [ -> | ? ]; auto | intros [ ? | [ -> | [] ] ]; auto].
    + intros c s'.
      assert (Hin_app : forall x, In (x, c) (processed ++ [(v, k)]) <->
                                  In (x, c) processed \/ (x = v /\ c = k)).
      { intros x. rewrite in_app_iff. simpl. split.
        - intros [?|[[= -> ->]|[]]]; auto.
        - intros [?|[-> ->]]; auto. }
      destruct (getitem acc k) as [s|e] eqn:Hk.
      * destruct (Hmem k s Hk) as (Hnd & Hs).
        assert (Hnot : ~ In v s).
        { intros Hin. apply Hv. apply Hs in Hin.
          apply (in_map fst) in Hin. exact Hin. }
        rewrite (proj2 (list_contains_not_In _ _) Hnot).
        destruct (Z.eq_dec k c) as [<-|Hne].
        -- rewrite getitem_setitem_same. intros [= <-]. split.
           ++ apply NoDup_app; [assumption | repeat constructor; intros [] |].
              intros x Hx [<-|[]]. contradiction.
           ++ intros x. rewrite in_app_iff, Hin_app, Hs. simpl.
              intuition.
        -- rewrite getitem_setitem_other by assumption. intros Hs'.
           destruct (Hmem c s' Hs') as (Hnd' & Hs2). split; [assumption|].
           intros x. rewrite Hin_app, Hs2. intuition congruence.
      * pose proof (getitem_raises_KeyError _ _ _ Hk) as ->.
        apply getitem_Raise_keys in Hk.
        destruct (Z.eq_dec k c) as [<-|Hne].
        -- rewrite getitem_setitem_same. intros [= <-]. split.
           ++ repeat constructor. intros [].
           ++ intros x. rewrite Hin_app. simpl. split.
              ** intros [<-|[]]. auto.
              ** intros [Hin|[-> _]]; [|now left]. exfalso. apply Hk.
                 apply Hkeys. apply (in_map snd) in Hin. exact Hin.
        -- rewrite getitem_setitem_other by assumption. intros Hs'.
           destruct (Hmem c s' Hs') as (Hnd' & Hs2). split; [assumption|].
           intros x. rewrite Hin_app, Hs2. intuition congruence.
Qed.

(** X14.  [groups] turns a dictionary round: every value of the
    dictionary gets a group, and the group of a value holds, once each,
    exactly the keys that the dictionary sends to this value; so no group
    is empty. *)
Theorem groups_turns_the_dictionary_round :
  forall (many_to_one : dict node Z),
    NoDup (keys many_to_one) ->
    (forall c, In c (values many_to_one) <->
               exists s, getitem (groups many_to_one) c = Ok s) /\
    (forall c s, getitem (groups many_to_one) c = Ok s ->
       NoDup s /\ s <> [] /\
       forall v, In v s <-> getitem many_to_one v = Ok c).
Proof.
  intros d Hd.
  destruct (groups_spec d Hd) as (Hgd & Hgk & _).
  assert (Hmem : forall c s, getitem (groups d) c = Ok s ->
            NoDup s /\ forall v, In v s <-> In (v, c) d).
  { apply (groups_fold_members d [] []); simpl.
    - exact Hd.
    - tauto.
    - intros c s Hs. discriminate. }
  split.
  - intros c. rewrite <- Hgk. apply getitem_Ok_keys.
  - intros c s Hs. destruct (Hmem c s Hs) as (Hnd & Hin).
    assert (Hget : forall v, In v s <-> getitem d v = Ok c).
    { intros v. rewrite Hin. split;
        [now apply In_getitem_NoDup | apply getitem_Ok_In]. }
    split; [assumption|]. split; [|assumption].
    assert (Hc : In c (values d)).
    { apply Hgk, getitem_Ok_keys. eauto. }
    apply in_map_iff in Hc as ([v c'] & Hc' & Hvc). simpl in Hc'. subst c'.
    intros ->. apply Hin in Hvc. destruct Hvc.
Qed.

Lemma groups_turns_the_dictionary_round_witness :
  (forall c, In c (values three_in_two) <->
             exists s, getitem (groups three_in_two) c = Ok s) /\
  (forall c s, getitem (groups three_in_two) c = Ok s ->
     NoDup s /\ s <> [] /\
     forall v, In v s <-> getitem three_in_two v = Ok c).
Proof.
  apply (groups_turns_the_dictionary_round three_in_two).
  apply nodupb_NoDup. reflexivity.
Defined.

End PartitionProperties.
(** ** Properties of [AsynfluidCommunities.feature_extraction] *)

Module CommunitiesProperties.

Import AsynFluid PartitionStated Tests PartitionNotions Numpy Communities
       CommunitiesNotions PyFacts TestsFacts PartitionFacts
       PartitionProperties.

Lemma arg_best_bound (better : Q -> Q -> bool) (l : list Q) :
  forall i best_i best,
    best_i < i -> arg_best better l i best_i best < i + List.length l.
Proof.
  induction l as [|x l IH]; intros i best_i best Hlt; simpl; [lia|].
  destruct (better x best).
  - specialize (IH (S i) i x). lia.
  - specialize (IH (S i) best_i best). lia.
Qed.

Lemma argmax_bound (l : list Q) : l <> [] -> argmax l < List.length l.
Proof.
  destruct l as [|x l]; [congruence|]. intros _. simpl.
  pose proof (arg_best_bound (fun a b => qltb b a) l 1 0 x). lia.
Qed.

Lemma argmin_bound (l : list Q) : l <> [] -> argmin l < List.length l.
Proof.
  destruct l as [|x l]; [congruence|]. intros _. simpl.
  pose proof (arg_best_bound (fun a b => qltb a b) l 1 0 x). lia.
Qed.

Lemma add_quality_keys (names : list string) :
  forall vals i fl,
    List.length names <= List.length vals ->
    exists fl', add_quality names vals i fl = Ok fl' /\
                forall n, In n (keys fl) -> In n (keys fl').
Proof.
  induction names as [|name names IH]; intros vals i fl Hlen; simpl.
  - eauto.
  - destruct vals as [|val vals]; [simpl in Hlen; lia|].
    destruct (IH vals i (setitem fl (name ++ "_" ++ str i)%string val))
      as (fl' & Hrun & Hin); [simpl in Hlen; lia|].
    exists fl'. split; [assumption|].
    intros n Hn. apply Hin, keys_setitem. now right.
Qed.

Lemma add_quality_raises (names : list string) :
  forall vals i fl e,
    add_quality names vals i fl = Raise e -> e = IndexError.
Proof.
  induction names as [|name names IH]; intros vals i fl e; simpl.
  - discriminate.
  - destruct vals as [|val vals]; [now intros [= <-] | apply IH].
Qed.

Section Features.

Variable RandomState : Type.
Variable shuffle : RandomState -> list node -> list node * RandomState.
Variable choice : RandomState -> list Z -> Z * RandomState.
Variable clustering_quality :
  Graph -> list (list node) -> result (list string * list value).
Variable G : Graph.

(** what the loop needs of the communities and densities it is given *)
Lemma community_features_Ok (i : nat) (c : list (list node))
    (density : list Q) (fl : dict string value) :
  List.length c = List.length density ->
  2 <= List.length c ->
  Forall (fun g => g <> []) c ->
  (exists names vals,
      clustering_quality G c = Ok (names, vals) /\
      List.length names <= List.length vals) ->
  exists fl',
    community_features clustering_quality G i c density fl = Ok fl' /\
    (forall n, In n (keys fl) -> In n (keys fl')) /\
    (forall n, In n (own_names i) -> In n (keys fl')).
Proof.
  intros Hlen Hc Hne (names & vals & Hq & Hnv).
  assert (Hd : density <> []) by (destruct density; simpl in *; [lia | discriminate]).
  unfold community_features.
  unfold np_min, np_max.
  destruct density as [|d0 density'] eqn:Hdens; [congruence|].
  rewrite <- Hdens in *. cbn [bind].
  unfold most_dense, least_dense.
  pose proof (argmax_bound density Hd) as Hmax.
  pose proof (argmin_bound density Hd) as Hmin.
  destruct (nth_error c (argmax density)) as [g1|] eqn:E1;
    [|apply nth_error_None in E1; lia].
  destruct (nth_error c (argmin density)) as [g2|] eqn:E2;
    [|apply nth_error_None in E2; lia].
  cbn [bind]. rewrite Hq. cbn [bind].
  set (fl4 := setitem _ ("least_dense_" ++ str i)%string _).
  destruct (add_quality_keys names vals i fl4 Hnv) as (fl5 & Hrun & Hin5).
  rewrite Hrun. cbn [bind].
  unfold num_nodes_ratio.
  destruct c as [|c0 [|c1 c']]; try (simpl in Hc; lia).
  cbn [nth_error].
  assert (Hc1 : c1 <> []).
  { rewrite Forall_forall in Hne. apply Hne. right. now left. }
  destruct c1 as [|x c1']; [congruence|]. cbn [List.length Nat.eqb bind].
  eexists. split; [reflexivity|].
  assert (H4 : forall n,
             In n (keys fl) \/
             In n [ "total_density_" ++ str i; "ratio_density_" ++ str i;
                    "most_dense_" ++ str i; "least_dense_" ++ str i ]%string
             -> In n (keys fl4)).
  { intros n Hn. unfold fl4. rewrite !keys_setitem. simpl in Hn.
    intuition. }
  split.
  - intros n Hn. apply keys_setitem. right. apply Hin5, H4. now left.
  - intros n Hn. apply keys_setitem. simpl in Hn.
    destruct Hn as [Hn|[Hn|[Hn|[Hn|[Hn|[]]]]]]; subst n;
      try (right; apply Hin5, H4; right; simpl; tauto).
    now left.
Qed.

Hypothesis Hshuffle : shuffle_permutes shuffle.
Hypothesis Hchoice : choice_picks choice.
Hypothesis Hwf : undirected_graph G.

Lemma for_each_k_total (range : list nat) :
  connected G -> (2 <= len G)%Z ->
  (forall c, exists names vals,
      clustering_quality G c = Ok (names, vals) /\
      List.length names <= List.length vals) ->
  Forall (fun i => 2 <= i) range ->
  forall fl rng,
    exists fl' rng',
      for_each_k shuffle choice clustering_quality G range fl rng
        = Some (Ok (fl', rng')) /\
      (forall n, In n (keys fl) -> In n (keys fl')) /\
      (forall i n, In i range -> In n (own_names i) -> In n (keys fl')).
Proof.
  intros Hconn Hlen Hq.
  induction range as [|i range IH]; intros Hrange fl rng.
  - exists fl, rng. split; [reflexivity|]. split; [auto|]. intros i n [].
  - inversion Hrange as [|? ? Hi Hrest]; subst.
    cbn [for_each_k].
    set (k := if (Z.of_nat i >? len G)%Z then len G else Z.of_nat i).
    assert (Hk : (2 <= k <= len G)%Z).
    { unfold k. destruct (Z.of_nat i >? len G)%Z eqn:E; [lia|].
      rewrite Z.gtb_ltb in E. apply Z.ltb_ge in E. lia. }
    destruct (asyn_fluidc_run_tables RandomState shuffle choice G Hchoice
                Hwf Hshuffle k default_max_iter rng Hconn ltac:(lia))
      as (st & Hrun & Hs & Hcnt & Hlenk).
    rewrite Hrun.
    destruct (results_shape G st Hs Hcnt) as (Hg & Hd & Hne & _).
    destruct (results st) as [c density] eqn:Hres. simpl in Hg, Hd, Hne.
    destruct (community_features_Ok i c density fl)
      as (fl1 & Hrun1 & Hkeep1 & Hown1);
      [congruence | lia | assumption | apply Hq |].
    rewrite Hrun1.
    destruct (IH Hrest fl1 (seed st)) as (fl2 & rng2 & Hrun2 & Hkeep2 & Hown2).
    exists fl2, rng2. split; [assumption|]. split.
    + auto.
    + intros j n [<-|Hj] Hn; [auto | eauto].
Qed.

Lemma single_node_connected :
  (len G = 1)%Z -> connected G.
Proof.
  unfold len, connected, nodes, keys. intros Hlen u v Hu Hv.
  destruct (adj G) as [|[x ns] [|p rest]]; simpl in *; try lia.
  destruct Hu as [<-|[]]. destruct Hv as [<-|[]]. constructor.
Qed.

Lemma no_node_connected :
  (len G = 0)%Z -> connected G.
Proof.
  unfold len, connected, nodes, keys. intros Hlen u v Hu.
  destruct (adj G); simpl in *; [destruct Hu | lia].
Qed.

Lemma is_connected_false :
  ~ connected G -> is_connected G = Ok false /\ (2 <= len G)%Z.
Proof.
  intros Hn.
  assert (Hlen : (2 <= len G)%Z).
  { destruct (Z.eq_dec (len G) 0) as [H0|H0];
      [destruct (Hn (no_node_connected H0))|].
    destruct (Z.eq_dec (len G) 1) as [H1|H1];
      [destruct (Hn (single_node_connected H1))|].
    unfold len in *. lia. }
  split; [|assumption].
  unfold is_connected. rewrite (graph_undirected Hwf).
  destruct (nodes G) as [|source rest] eqn:Hnodes.
  - unfold len, nodes, keys in *. destruct (adj G); [simpl in Hlen; lia|].
    discriminate.
  - destruct (List.length
                (plain_bfs (S (S (List.length (adj G)))) G [source] [])
              =? List.length (adj G)) eqn:E; [|reflexivity].
    exfalso. apply Hn. apply is_connected_connected; [assumption|].
    unfold is_connected. rewrite (graph_undirected Hwf), Hnodes.
    now rewrite E.
Qed.

Lemma for_each_k_fails (range : list nat) fl rng :
  (len G <= 1)%Z \/ ~ connected G ->
  exists e,
    for_each_k shuffle choice clustering_quality G (2 :: range) fl rng
      = Some (Raise e) /\
    ((len G = 0)%Z -> e = NetworkXError "k must be greater than 0.") /\
    (~ connected G ->
     e = NetworkXError "Fluid Communities require connected Graphs.") /\
    ((len G = 1)%Z ->
     e = IndexError \/ exists c, clustering_quality G c = Raise e).
Proof.
  intros Hcase.
  assert (Hcases : ~ connected G \/ (len G = 0)%Z \/ (len G = 1)%Z).
  { destruct Hcase as [Hle|Hn]; [|now left]. right. unfold len in *. lia. }
  cbn [for_each_k]. unfold asyn_fluidc_run at 1.
  destruct Hcases as [Hn|[H0|H1]].
  - destruct (is_connected_false Hn) as (Hfalse & Hlen).
    replace (Z.of_nat 2 >? len G)%Z with false
      by (symmetry; rewrite Z.gtb_ltb; apply Z.ltb_ge; lia).
    unfold initial_checks. rewrite Hfalse. simpl.
    eexists. split; [reflexivity|].
    split; [lia|]. split; [reflexivity|]. lia.
  - rewrite H0. simpl. eexists. split; [reflexivity|].
    split; [reflexivity|]. split; [|lia].
    intros Hn. destruct (Hn (no_node_connected H0)).
  - pose proof (single_node_connected H1) as Hconn.
    replace (Z.of_nat 2 >? len G)%Z with true by (rewrite H1; reflexivity).
    fold (asyn_fluidc_run shuffle choice G (PyInt (len G)) default_max_iter
            rng).
    destruct (asyn_fluidc_run_tables RandomState shuffle choice G Hchoice
                Hwf Hshuffle (len G) default_max_iter rng Hconn ltac:(lia))
      as (st & Hrun & Hs & Hcnt & Hlenk).
    rewrite Hrun.
    destruct (results_shape G st Hs Hcnt) as (Hg & Hd & _ & _).
    destruct (results st) as [c density] eqn:Hres. simpl in Hg, Hd.
    rewrite H1 in Hlenk. simpl in Hlenk.
    assert (Hfail : exists e,
               community_features clustering_quality G 2 c density fl
                 = Raise e /\
               (e = IndexError \/ exists c, clustering_quality G c = Raise e)).
    { unfold community_features, np_min, np_max.
      destruct density as [|d0 [|d1 density']]; try (simpl in Hd; lia).
      destruct c as [|c0 [|c1 c']]; try (simpl in Hg; lia).
      cbn [bind]. unfold most_dense, least_dense. simpl argmax.
      simpl argmin. cbn [nth_error bind].
      destruct (clustering_quality G [c0]) as [[names vals]|e] eqn:Hq;
        cbn [bind]; [|eauto].
      match goal with
      | |- context [add_quality names vals 2 ?f] =>
          destruct (add_quality names vals 2 f) as [fl5|e] eqn:Hadd
      end; cbn [bind].
      - unfold num_nodes_ratio. cbn [nth_error bind]. eauto.
      - apply add_quality_raises in Hadd as ->. eauto. }
    destruct Hfail as (e & Hfail & He). rewrite Hfail.
    exists e. split; [reflexivity|]. split; [lia|]. split; [|auto].
    intros Hn. destruct (Hn Hconn).
Qed.

End Features.

(** X15.  On a connected undirected graph of two nodes or more, the
    features of the fluid communities are all computed, provided
    [clustering_quality] answers with a value for each of its names: no
    call of [asyn_fluidc] fails, and none of the look-ups [c[...]] and
    divisions of the loop does, since every call returns as many groups as
    densities, two at least, and none empty.  The dictionary holds the five
    features of the loop for every [i] from 2 to 9. *)
Theorem communities_features_computed :
  forall (RandomState : Type)
         (shuffle : RandomState -> list node -> list node * RandomState)
         (choice : RandomState -> list Z -> Z * RandomState)
         (clustering_quality :
            Graph -> list (list node) -> result (list string * list value))
         (G : Graph) (rng : RandomState),
    shuffle_permutes shuffle ->
    choice_picks choice ->
    undirected_graph G ->
    connected G ->
    (2 <= len G)%Z ->
    (forall c, exists names vals,
        clustering_quality G c = Ok (names, vals) /\
        List.length names <= List.length vals) ->
    exists feature_list rng',
      feature_extraction shuffle choice clustering_quality G rng
        = Some (Ok (feature_list, rng')) /\
      forall i n, 2 <= i < 10 -> In n (own_names i) ->
                  In n (keys feature_list).
Proof.
  intros RandomState shuffle choice quality G rng Hshuffle Hchoice Hwf
         Hconn Hlen Hq.
  unfold feature_extraction. rewrite (graph_undirected Hwf). cbn [negb].
  destruct (for_each_k_total RandomState shuffle choice quality G Hshuffle
              Hchoice Hwf (seq 2 (kmax - 2)) Hconn Hlen Hq)
    with (fl := @nil (string * value)) (rng := rng)
    as (fl & rng' & Hrun & _ & Hown).
  { apply Forall_forall. intros i Hi. apply in_seq in Hi. lia. }
  exists fl, rng'. split; [assumption|].
  intros i n Hi. apply Hown. apply in_seq. unfold kmax. lia.
Qed.

Lemma communities_features_computed_witness :
  exists feature_list rng',
    feature_extraction rev_shuffle first_choice one_quality
      triangle_with_tail 0 = Some (Ok (feature_list, rng')) /\
    forall i n, 2 <= i < 10 -> In n (own_names i) ->
                In n (keys feature_list).
Proof.
  apply (communities_features_computed nat rev_shuffle first_choice
           one_quality triangle_with_tail 0).
  - exact rev_shuffle_shuffles.
  - exact first_choice_chooses.
  - exact triangle_with_tail_is_undirected.
  - exact triangle_with_tail_is_connected.
  - unfold len. simpl. lia.
  - intros c. eexists _, _. split; [reflexivity|]. simpl. lia.
Defined.

(** X16.  On an undirected graph with fewer than two nodes, or that is
    not connected, no feature is returned: an exception leaves the loop at
    [i = 2].  Without any node it is the check of [k]; on a graph that is
    not connected, the check of connectedness; with one node, the look-up
    [c[1]] in a list of one group (unless [clustering_quality] has raised
    before). *)
Theorem communities_features_fail_on_small_graphs :
  forall (RandomState : Type)
         (shuffle : RandomState -> list node -> list node * RandomState)
         (choice : RandomState -> list Z -> Z * RandomState)
         (clustering_quality :
            Graph -> list (list node) -> result (list string * list value))
         (G : Graph) (rng : RandomState),
    shuffle_permutes shuffle ->
    choice_picks choice ->
    undirected_graph G ->
    (len G <= 1)%Z \/ ~ connected G ->
    exists e,
      feature_extraction shuffle choice clustering_quality G rng
        = Some (Raise e) /\
      ((len G = 0)%Z -> e = NetworkXError "k must be greater than 0.") /\
      (~ connected G ->
       e = NetworkXError "Fluid Communities require connected Graphs.") /\
      ((len G = 1)%Z ->
       e = IndexError \/ exists c, clustering_quality G c = Raise e).
Proof.
  intros RandomState shuffle choice quality G rng Hshuffle Hchoice Hwf
         Hcase.
  unfold feature_extraction. rewrite (graph_undirected Hwf). cbn [negb].
  now apply for_each_k_fails.
Qed.

Lemma communities_features_fail_on_small_graphs_witness :
  exists e,
    feature_extraction rev_shuffle first_choice one_quality one_node 0
      = Some (Raise e) /\
    ((len one_node = 0)%Z -> e = NetworkXError "k must be greater than 0.") /\
    (~ connected one_node ->
     e = NetworkXError "Fluid Communities require connected Graphs.") /\
    ((len one_node = 1)%Z ->
     e = IndexError \/ exists c, one_quality one_node c = Raise e).
Proof.
  apply (communities_features_fail_on_small_graphs nat rev_shuffle
           first_choice one_quality one_node 0).
  - exact rev_shuffle_shuffles.
  - exact first_choice_chooses.
  - apply undirected_graphb_sound. reflexivity.
  - left. unfold len. simpl. lia.
Defined.

(** X17.  A directed graph is given 88 features, eleven for each [i] from
    2 to 9, under distinct names and all not-a-number; [asyn_fluidc] is not
    called, and nothing is raised. *)
Theorem communities_features_of_directed_graph :
  forall (RandomState : Type)
         (shuffle : RandomState -> list node -> list node * RandomState)
         (choice : RandomState -> list Z -> Z * RandomState)
         (clustering_quality :
            Graph -> list (list node) -> result (list string * list value))
         (G : Graph) (rng : RandomState),
    is_directed G = true ->
    exists feature_list,
      feature_extraction shuffle choice clustering_quality G rng
        = Some (Ok (feature_list, rng)) /\
      List.length feature_list = 88 /\
      NoDup (keys feature_list) /\
      Forall (fun nv => snd nv = NaN) feature_list /\
      forall i n, 2 <= i < 10 -> In n (own_names i) ->
                  In n (keys feature_list).
Proof.
  intros RandomState shuffle choice quality G rng Hdir.
  unfold feature_extraction. rewrite Hdir. cbn [negb].
  set (fl := fold_left (fun fl i => all_nan i fl) (seq 2 (kmax - 2)) []).
  exists fl. split; [reflexivity|].
  split; [vm_compute; reflexivity|]. split; [|split].
  - apply nodupb_NoDup. vm_compute. reflexivity.
  - assert (Hall : forallb (fun nv => isna (snd nv)) fl = true)
      by (vm_compute; reflexivity).
    rewrite forallb_forall in Hall. apply Forall_forall.
    intros nv Hin. specialize (Hall nv Hin).
    destruct (snd nv); try discriminate. reflexivity.
  - intros i n Hi Hn. apply list_contains_In.
    assert (Hcases : i = 2 \/ i = 3 \/ i = 4 \/ i = 5 \/ i = 6 \/ i = 7
                     \/ i = 8 \/ i = 9) by lia.
    repeat (destruct Hcases as [->|Hcases]);
      try subst i;
      simpl in Hn; repeat (destruct Hn as [<-|Hn]; [vm_compute; reflexivity|]);
      destruct Hn.
Qed.

Lemma communities_features_of_directed_graph_witness :
  exists feature_list,
    feature_extraction rev_shuffle first_choice one_quality
      {| is_directed := true; adj := [ (0, [1]); (1, []) ] |} 0
      = Some (Ok (feature_list, 0)) /\
    List.length feature_list = 88 /\
    NoDup (keys feature_list) /\
    Forall (fun nv => snd nv = NaN) feature_list /\
    forall i n, 2 <= i < 10 -> In n (own_names i) ->
                In n (keys feature_list).
Proof.
  apply (communities_features_of_directed_graph nat rev_shuffle first_choice
           one_quality {| is_directed := true; adj := [ (0, [1]); (1, []) ] |}
           0).
  reflexivity.
Defined.

End CommunitiesProperties.
(** ** Properties of [vitality.py] *)

Module VitalityProperties.

Import AsynFluid Numpy Operations Vitality VitalityNotions PyFacts.

Lemma np_median_finite (l : list Q) : l <> [] -> isfinite (np_median l) = true.
Proof.
  destruct l as [|x l]; [congruence|]. intros _. unfold np_median.
  destruct (Nat.even (List.length (x :: l))); reflexivity.
Qed.

Section Features.

Variable Graph : Type.
Variable closeness_vitality : Graph -> result (dict node value).
Variable Model : Type.
Variable best_fit_distribution : list Q -> nat -> result (Model * value).

(** what the two [try] blocks leave in the dictionary *)
Lemma measures_outcome (vals : list value) :
  exists feature_list,
    measures best_fit_distribution vals [] = (Ok tt, feature_list) /\
    keys feature_list = feature_names /\
    match finite vals, best_fit_distribution (finite vals) 10 with
    | _ :: _, Ok _ => Forall (fun nf => is_computed (snd nf)) feature_list
    | _, _ => Forall (fun nf => is_nan (snd nf)) feature_list
    end.
Proof.
  unfold measures, try_except, and_then at 1, eval at 1, ratio.
  destruct (finite vals) as [|q fin] eqn:Hfin.
  - (* no finite value *)
    destruct vals as [|v vals]; simpl List.length; cbn [Nat.eqb];
      eexists; (split; [reflexivity|]);
      (split; [reflexivity |]); repeat constructor.
  - assert (Hvals : (List.length vals =? 0) = false).
    { destruct vals; [discriminate | reflexivity]. }
    rewrite Hvals.
    set (l := q :: fin) in *.
    assert (Hl : l <> []) by discriminate.
    assert (Hmax : np_max l = Ok (qmax l)) by reflexivity.
    assert (Hmin : np_min l = Ok (qmin l)) by reflexivity.
    pose proof (np_median_finite l Hl) as Hmedian.
    assert (Hmean : np_mean l = Fin (sum l / count l)%Q) by reflexivity.
    assert (Hstd : exists v, np_std l = Sqrt (Fin v))
      by (eexists; reflexivity).
    destruct Hstd as (dev & Hstd).
    unfold standard_measures, and_then, assign, eval.
    rewrite Hmax, Hmin, Hmean, Hstd.
    destruct (np_median l) as [med| | |] eqn:Hmed; try discriminate.
    destruct (best_fit_distribution l 10) as [[opt_mod sse]|e];
      eexists; (split; [reflexivity|]);
      (split; [reflexivity |]); repeat constructor.
Qed.

End Features.

(** X20.  Once [closeness_vitality] has returned, the features of
    [Vitality] are returned whatever happens: the two handlers catch every
    exception.  The dictionary always has the same six names, in the same
    order (the ratio of finite values is computed and dropped), and its
    values are all computed or all not-a-number, never a mixture: they are
    computed when some vitality is finite and the fit of the distribution
    returns, and not-a-number otherwise, in particular on a graph without
    nodes. *)
Theorem vitality_features_all_or_nothing :
  forall (Graph : Type)
         (closeness_vitality : Graph -> result (dict node value))
         (Model : Type)
         (best_fit_distribution : list Q -> nat -> result (Model * value))
         (G : Graph),
    match closeness_vitality G with
    | Raise e =>
        feature_extraction closeness_vitality best_fit_distribution G
        = Raise e
    | Ok vitality =>
        exists feature_list,
          feature_extraction closeness_vitality best_fit_distribution G
          = Ok feature_list /\
          keys feature_list = feature_names /\
          match finite (values vitality),
                best_fit_distribution (finite (values vitality)) 10 with
          | _ :: _, Ok _ =>
              Forall (fun nf => is_computed (snd nf)) feature_list
          | _, _ => Forall (fun nf => is_nan (snd nf)) feature_list
          end
    end.
Proof.
  intros Graph closeness_vitality Model fit G. unfold feature_extraction.
  destruct (closeness_vitality G) as [vitality|e]; [|reflexivity].
  cbn [bind].
  destruct (measures_outcome Model fit (values vitality))
    as (fl & Hrun & Hkeys & Hvals).
  rewrite Hrun. exists fl. auto.
Qed.

End VitalityProperties.
(** ** Properties of [shortest_paths.py] *)

Module ShortestPathsProperties.

Import AsynFluid Numpy ShortestPaths ShortestPathsNotions EngineNotions
       PyFacts EngineProperties.

Lemma fold_Qplus (l : list Q) (a : Q) :
  (fold_left Qplus l a == a + qsum l)%Q.
Proof.
  revert a. induction l as [|x l IH]; intros a; simpl; [ring|].
  rewrite IH. ring.
Qed.

Lemma sum_qsum (l : list Q) : (sum l == qsum l)%Q.
Proof. unfold sum. rewrite fold_Qplus. ring. Qed.

Lemma count_positive (l : list Q) : l <> [] -> (0 < count l)%Q.
Proof.
  destruct l as [|x l]; [congruence|]. intros _.
  unfold count, Qlt. simpl. lia.
Qed.

Lemma count_cons (x : Q) (l : list Q) : (count (x :: l) == 1 + count l)%Q.
Proof.
  unfold count. cbn [List.length]. rewrite Nat2Z.inj_succ. unfold Z.succ.
  rewrite inject_Z_plus. ring.
Qed.

Lemma qsum_lower (lo : Q) (l : list Q) :
  (forall x, In x l -> lo <= x)%Q -> (lo * count l <= qsum l)%Q.
Proof.
  induction l as [|x l IH]; intros Hall.
  - unfold count. simpl. ring_simplify. apply Qle_refl.
  - cbn [qsum]. rewrite count_cons.
    setoid_replace (lo * (1 + count l))%Q with (lo + lo * count l)%Q by ring.
    apply Qplus_le_compat; [apply Hall; now left|].
    apply IH. intros y Hy. apply Hall. now right.
Qed.

Lemma qsum_upper (hi : Q) (l : list Q) :
  (forall x, In x l -> x <= hi)%Q -> (qsum l <= hi * count l)%Q.
Proof.
  induction l as [|x l IH]; intros Hall.
  - unfold count. simpl. ring_simplify. apply Qle_refl.
  - cbn [qsum]. rewrite count_cons.
    setoid_replace (hi * (1 + count l))%Q with (hi + hi * count l)%Q by ring.
    apply Qplus_le_compat; [apply Hall; now left|].
    apply IH. intros y Hy. apply Hall. now right.
Qed.

Lemma qmax_fold_ge (l : list Q) :
  forall m,
    let r := fold_left (fun m y => match (m ?= y)%Q with Lt => y | _ => m end)
                       l m in
    (m <= r)%Q /\ forall x, In x l -> (x <= r)%Q.
Proof.
  induction l as [|y l IH]; intros m; simpl.
  - split; [apply Qle_refl | intros x []].
  - destruct (m ?= y)%Q eqn:E.
    + apply Qeq_alt in E. destruct (IH m) as (Hm & Hl).
      split; [assumption|]. intros x [<-|Hx]; [|auto].
      rewrite <- E. exact Hm.
    + apply Qlt_alt in E. destruct (IH y) as (Hy & Hl).
      split; [eapply Qle_trans; [apply Qlt_le_weak; exact E | exact Hy]|].
      intros x [<-|Hx]; auto.
    + apply Qgt_alt in E. destruct (IH m) as (Hm & Hl).
      split; [assumption|]. intros x [<-|Hx]; [|auto].
      eapply Qle_trans; [apply Qlt_le_weak; exact E | exact Hm].
Qed.

Lemma qmax_ge (l : list Q) x : In x l -> (x <= qmax l)%Q.
Proof.
  destruct l as [|y l]; [intros []|]. unfold qmax.
  destruct (qmax_fold_ge l y) as (Hy & Hl).
  intros [<-|Hx]; auto.
Qed.

(** the mean of a list lies between a lower bound of its values and its
    greatest value *)
Lemma mean_lower (lo : Q) (l : list Q) :
  l <> [] -> (forall x, In x l -> lo <= x)%Q -> (lo <= sum l / count l)%Q.
Proof.
  intros Hl Hlo. apply Qle_shift_div_l; [now apply count_positive|].
  rewrite sum_qsum. now apply qsum_lower.
Qed.

Lemma mean_upper (l : list Q) : l <> [] -> (sum l / count l <= qmax l)%Q.
Proof.
  intros Hl. apply Qle_shift_div_r; [now apply count_positive|].
  rewrite sum_qsum. apply qsum_upper. intros x. apply qmax_ge.
Qed.

Lemma qsum_pointwise (l1 l2 : list Q) :
  Forall2 Qle l1 l2 -> (qsum l1 <= qsum l2)%Q.
Proof.
  induction 1 as [|x y l1 l2 Hxy _ IH]; simpl; [apply Qle_refl|].
  now apply Qplus_le_compat.
Qed.

Section Features.

Variable shortest_paths : dict node (dict node (list node)).

(** the two lists of the loop: a finite mean for every node, between one
    and the greatest length for this node *)
Lemma for_each_node_bounds (nodes : list node) :
  (forall i, In i nodes ->
     exists paths, getitem shortest_paths i = Ok paths /\ paths <> [] /\
                   forall p, In p (values paths) -> p <> []) ->
  forall (means maxes : list Q),
    Forall2 Qle means maxes -> Forall (Qle 1) means ->
    exists means' maxes',
      for_each_node shortest_paths nodes (map Fin means) maxes
      = Ok (map Fin means', maxes') /\
      Forall2 Qle means' maxes' /\ Forall (Qle 1) means' /\
      List.length means' = List.length means + List.length nodes.
Proof.
  induction nodes as [|i nodes IH]; intros Hnodes means maxes Hle Hone.
  - exists means, maxes. simpl. auto.
  - destruct (Hnodes i (or_introl eq_refl)) as (paths & Hget & Hne & Hpaths).
    cbn [for_each_node]. rewrite Hget. cbn [bind].
    set (lengths := map path_len (values paths)).
    assert (Hl : lengths <> []).
    { unfold lengths, values. destruct paths; [congruence | discriminate]. }
    assert (Hlo : forall x, In x lengths -> (1 <= x)%Q).
    { intros x Hx. apply in_map_iff in Hx as (p & <- & Hp).
      specialize (Hpaths p Hp). unfold path_len, Qle. simpl.
      destruct p; [congruence|]. simpl. lia. }
    pose proof (mean_lower 1 lengths Hl Hlo) as H1.
    pose proof (mean_upper lengths Hl) as H2.
    assert (Hmean : np_mean lengths = Fin (sum lengths / count lengths)%Q)
      by (destruct lengths; [congruence | reflexivity]).
    assert (Hmax : np_max lengths = Ok (qmax lengths))
      by (destruct lengths; [congruence | reflexivity]).
    rewrite Hmean, Hmax. cbn [bind].
    replace (map Fin means ++ [Fin (sum lengths / count lengths)%Q])
      with (map Fin (means ++ [(sum lengths / count lengths)%Q]))
      by (rewrite map_app; reflexivity).
    destruct (IH (fun j Hj => Hnodes j (or_intror Hj))
                 (means ++ [(sum lengths / count lengths)%Q])
                 (maxes ++ [qmax lengths]))
      as (means' & maxes' & Hrun & Hle' & Hone' & Hlen).
    + apply Forall2_app; [assumption | repeat constructor; assumption].
    + apply Forall_app. split; [assumption | repeat constructor; assumption].
    + exists means', maxes'. split; [assumption|]. split; [assumption|].
      split; [assumption|]. rewrite Hlen, length_app. simpl. lia.
Qed.

End Features.

(** X21.  The three features of the shortest paths count the nodes of a
    path, not its edges.  On a graph without nodes they are not returned:
    the greatest of no length raises [ValueError].  On a graph with a
    node, for which networkx lists from every node a path to itself at
    least, they are returned, are finite, and are in order: one is no more
    than the mean of the means, which is no more than the mean of the
    greatest lengths, which is no more than the greatest length. *)
Theorem path_length_features_in_order :
  forall (shortest_path : Graph -> dict node (dict node (list node)))
         (G : Graph),
    (nodes G = [] ->
     feature_extraction shortest_path G = Raise ValueError) /\
    (nodes G <> [] ->
     paths_from_every_node G (shortest_path G) ->
     exists mean mean_max highest,
       feature_extraction shortest_path G
       = Ok [ ("path_length_mean"%string, Fin mean);
              ("path_length_mean_max"%string, Fin mean_max);
              ("path_length_max"%string, Fin highest) ] /\
       (1 <= mean)%Q /\ (mean <= mean_max)%Q /\ (mean_max <= highest)%Q).
Proof.
  intros shortest_path G. unfold feature_extraction. split.
  - intros ->. reflexivity.
  - intros Hne Hpaths.
    destruct (for_each_node_bounds (shortest_path G) (nodes G) Hpaths [] [])
      as (means & maxes & Hrun & Hle & Hone & Hlen);
      [constructor | constructor |].
    change (@nil value) with (map Fin (@nil Q)). rewrite Hrun. cbn [bind].
    assert (Hmeans : means <> []).
    { destruct means; [|discriminate]. destruct (nodes G); [congruence|].
      simpl in Hlen. lia. }
    assert (Hmaxes : maxes <> []).
    { destruct maxes; [|discriminate]. inversion Hle. congruence. }
    assert (Hcount : (count means == count maxes)%Q).
    { unfold count. now rewrite (Forall2_length Hle). }
    destruct (vsum_Fin means) as (s & Hs & Hseq).
    assert (Hmm : np_mean_floats (map Fin means)
                  = Fin (s / count means)%Q).
    { unfold np_mean_floats. destruct means as [|m means']; [congruence|].
      change (Fin m :: map Fin means') with (map Fin (m :: means')).
      rewrite Hs, length_map. reflexivity. }
    assert (Hmx : np_mean maxes = Fin (sum maxes / count maxes)%Q)
      by (destruct maxes; [congruence | reflexivity]).
    assert (Hhi : np_max maxes = Ok (qmax maxes))
      by (destruct maxes; [congruence | reflexivity]).
    rewrite Hmm, Hmx, Hhi. cbn [bind].
    exists (s / count means)%Q, (sum maxes / count maxes)%Q, (qmax maxes).
    split; [reflexivity|].
    pose proof (count_positive means Hmeans) as Hn.
    split; [|split].
    + apply Qle_shift_div_l; [assumption|]. rewrite Hseq.
      apply qsum_lower. intros x Hx.
      rewrite Forall_forall in Hone. now apply Hone.
    + rewrite <- Hcount. unfold Qdiv. apply Qmult_le_compat_r.
      * rewrite Hseq, sum_qsum. now apply qsum_pointwise.
      * apply Qinv_le_0_compat. now apply Qlt_le_weak.
    + now apply mean_upper.
Qed.

Lemma path_length_features_in_order_witness :
  exists mean mean_max highest,
    feature_extraction one_edge_paths one_edge
    = Ok [ ("path_length_mean"%string, Fin mean);
           ("path_length_mean_max"%string, Fin mean_max);
           ("path_length_max"%string, Fin highest) ] /\
    (1 <= mean)%Q /\ (mean <= mean_max)%Q /\ (mean_max <= highest)%Q.
Proof.
  apply (proj2 (path_length_features_in_order one_edge_paths one_edge)).
  - discriminate.
  - intros i [<-|[<-|[]]]; eexists; (split; [reflexivity|]);
      (split; [discriminate|]); simpl;
      intros p Hp; repeat (destruct Hp as [<-|Hp]; [discriminate|]);
      destruct Hp.
Defined.

End ShortestPathsProperties.
(** ** Properties of [test_dataset.py] *)

Module TestDatasetProperties.

Import TestDataset TestDatasetNotions PyFacts.

(** *** the store *)

Lemma update_length (h : Heap) r f : List.length (update h r f) = List.length h.
Proof.
  revert r. induction h as [|g h IH]; intros [|r]; simpl; auto.
Qed.

Lemma nth_error_update (h : Heap) r f r' :
  nth_error (update h r f) r'
  = if r =? r' then option_map f (nth_error h r') else nth_error h r'.
Proof.
  revert r r'. induction h as [|g h IH]; intros [|r] [|r']; simpl; auto.
  - destruct (r =? r'); reflexivity.
Qed.

Lemma graph_add_node u attrs g : graph (add_node u attrs g) = graph g.
Proof. reflexivity. Qed.

Lemma graph_add_nodes_from nodes g : graph (add_nodes_from nodes g) = graph g.
Proof.
  unfold add_nodes_from. revert g.
  induction nodes as [|u nodes IH]; intros g; simpl; [reflexivity|].
  now rewrite IH.
Qed.

Lemma graph_path_graph n : graph (path_graph n) = [].
Proof. unfold path_graph. simpl. now rewrite graph_add_nodes_from. Qed.

Section Described.

Variable first : nat.

Lemma described_only_new (g0 : GraphData) (h : Heap) :
  graph g0 = [] -> described_only first h ->
  described_only first (h ++ [g0]).
Proof.
  intros Hg0 Hh r g Hr Hget key Hkey.
  destruct (Nat.lt_ge_cases r (List.length h)) as [Hlt|Hge].
  - rewrite nth_error_app1 in Hget by assumption. eapply Hh; eauto.
  - rewrite nth_error_app2 in Hget by assumption.
    destruct (r - List.length h) as [|k]; simpl in Hget.
    + injection Hget as <-. rewrite Hg0 in Hkey. destruct Hkey.
    + destruct k; discriminate.
Qed.

Lemma described_only_update (h : Heap) r f :
  (forall g key, In key (keys (graph (f g))) ->
                 key = "description"%string \/ In key (keys (graph g))) ->
  described_only first h -> described_only first (update h r f).
Proof.
  intros Hf Hh r' g Hr Hget key Hkey. rewrite nth_error_update in Hget.
  destruct (r =? r'); [|eapply Hh; eauto].
  destruct (nth_error h r') as [g0|] eqn:Hg0; [|discriminate].
  injection Hget as <-. destruct (Hf g0 key Hkey) as [?|Hold]; [assumption|].
  eapply Hh; eauto.
Qed.

Lemma described_only_same_graph (h : Heap) r f :
  (forall g, graph (f g) = graph g) ->
  described_only first h -> described_only first (update h r f).
Proof.
  intros Hf. apply described_only_update. intros g key Hkey.
  rewrite Hf in Hkey. now right.
Qed.

Lemma described_only_desc (h : Heap) r desc :
  described_only first h ->
  described_only first
    (update h r (set_graph_attr "description" (Text desc))).
Proof.
  apply described_only_update. intros g key Hkey. simpl in Hkey.
  apply keys_setitem in Hkey. tauto.
Qed.

End Described.

(** *** the loops *)

Section Loops.

Variable RandomState : Type.
Variable rand : RandomState -> nat -> list Q * RandomState.
Variable first : nat.

Lemma small_graphs_shape (graphs : list ref) (h : Heap) :
  exists h',
    small_graphs graphs h
    = (graphs ++ [List.length h; List.length h + 1; List.length h + 2], h')
    /\ List.length h' = List.length h + 3 /\
    (described_only first h -> described_only first h').
Proof.
  unfold small_graphs, new_object, _add_graph_desc.
  set (h1 := update (h ++ [grid_graph 1]) (List.length h) _).
  set (h2 := update (h1 ++ [grid_graph 2]) (List.length h1) _).
  set (h3 := update (h2 ++ [grid_graph 3]) (List.length h2) _).
  assert (Hlen1 : List.length h1 = List.length h + 1).
  { unfold h1. rewrite update_length, length_app. reflexivity. }
  assert (Hlen2 : List.length h2 = List.length h + 2).
  { unfold h2. rewrite update_length, length_app, Hlen1. simpl. lia. }
  assert (Hlen3 : List.length h3 = List.length h + 3).
  { unfold h3. rewrite update_length, length_app, Hlen2. simpl. lia. }
  exists h3. split; [|split; [exact Hlen3|]].
  - rewrite Hlen1, Hlen2, <- !app_assoc. reflexivity.
  - intros Hh. unfold h3, h2, h1.
    repeat (first [ apply described_only_desc
                  | apply described_only_new;
                    [apply graph_path_graph|] ]).
    exact Hh.
Qed.

Lemma first_loop_shape (l : list nat) :
  forall graphs h,
    exists h',
      fold_left (fun st (_ : nat) => small_graphs (fst st) (snd st)) l
                (graphs, h)
      = (graphs ++ seq (List.length h) (3 * List.length l), h') /\
      List.length h' = List.length h + 3 * List.length l /\
      (described_only first h -> described_only first h').
Proof.
  induction l as [|x l IH]; intros graphs h.
  - exists h. simpl. rewrite app_nil_r. auto.
  - cbn [fold_left fst snd].
    destruct (small_graphs_shape graphs h) as (h1 & Hstep & Hlen1 & Hd1).
    rewrite Hstep.
    destruct (IH (graphs ++ [List.length h; List.length h + 1;
                             List.length h + 2]) h1)
      as (h2 & Hrest & Hlen2 & Hd2).
    exists h2. rewrite Hrest. split; [|split].
    + rewrite <- app_assoc. do 2 f_equal. rewrite Hlen1.
      replace (3 * List.length (x :: l))
        with (S (S (S (3 * List.length l)))) by (simpl; lia).
      simpl. repeat f_equal; lia.
    + simpl. lia.
    + auto.
Qed.

Lemma append_loop_shape (G : ref) (desc : string) (l : list nat) :
  forall graphs h,
    exists h',
      fold_left
        (fun st (_ : nat) =>
           let '(graphs, h) := st in
           let '(g, h) := _add_graph_desc G desc h in
           (graphs ++ [g], h))
        l (graphs, h)
      = (graphs ++ repeat G (List.length l), h') /\
      List.length h' = List.length h /\
      (described_only first h -> described_only first h').
Proof.
  induction l as [|x l IH]; intros graphs h.
  - exists h. simpl. rewrite app_nil_r. auto.
  - cbn [fold_left]. unfold _add_graph_desc at 2.
    destruct (IH (graphs ++ [G])
                 (update h G (set_graph_attr "description" (Text desc))))
      as (h' & Hrest & Hlen & Hd).
    exists h'. rewrite Hrest. split; [|split].
    + rewrite <- app_assoc. reflexivity.
    + now rewrite Hlen, update_length.
    + intros Hh. apply Hd. now apply described_only_desc.
Qed.

Lemma append_times_shape (n_graphs : Z) (G : ref) (desc : string)
    (graphs : list ref) (h : Heap) :
  exists h',
    append_times n_graphs G desc graphs h
    = (graphs ++ repeat G (Z.to_nat n_graphs), h') /\
    List.length h' = List.length h /\
    (described_only first h -> described_only first h').
Proof.
  unfold append_times, range.
  destruct (append_loop_shape G desc (seq 0 (Z.to_nat n_graphs)) graphs h)
    as (h' & Hrun & Hlen & Hd).
  rewrite length_seq in Hrun. eauto.
Qed.

Lemma add_dummy_node_features_shape (graph : ref) (h : Heap)
    (rng : RandomState) :
  exists h' rng',
    add_dummy_node_features rand graph h rng = (graph, h', rng') /\
    List.length h' = List.length h /\
    (described_only first h -> described_only first h').
Proof.
  unfold add_dummy_node_features.
  generalize (match nth_error h graph with
              | Some g => keys (node_attrs g)
              | None => []
              end).
  intros nodes. revert h rng.
  induction nodes as [|u nodes IH]; intros h rng.
  - exists h, rng. simpl. auto.
  - cbn [fold_left]. destruct (rand rng 10) as [feat rng1].
    destruct (IH (update h graph (set_node_attr u "feat" (Array feat))) rng1)
      as (h' & rng' & Hrest & Hlen & Hd).
    destruct (fold_left _ nodes _) as [h2 rng2].
    injection Hrest as -> ->.
    exists h', rng'. split; [reflexivity|]. split.
    + now rewrite Hlen, update_length.
    + intros Hh. apply Hd. now apply described_only_same_graph.
Qed.

Lemma add_features_to_all_shape (graphs : list ref) (h : Heap)
    (rng : RandomState) :
  exists h' rng',
    add_features_to_all rand graphs h rng = (graphs, h', rng') /\
    List.length h' = List.length h /\
    (described_only first h -> described_only first h').
Proof.
  unfold add_features_to_all.
  assert (Hgen : forall acc h rng,
             exists h' rng',
               fold_left
                 (fun st graph =>
                    let '(graphs, h, rng) := st in
                    let '(graph, h, rng) :=
                      add_dummy_node_features rand graph h rng in
                    (graphs ++ [graph], h, rng))
                 graphs (acc, h, rng)
               = (acc ++ graphs, h', rng') /\
               List.length h' = List.length h /\
               (described_only first h -> described_only first h')).
  { clear. induction graphs as [|g graphs IH]; intros acc h rng.
    - exists h, rng. simpl. rewrite app_nil_r. auto.
    - cbn [fold_left].
      destruct (add_dummy_node_features_shape g h rng)
        as (h1 & rng1 & Hstep & Hlen1 & Hd1).
      rewrite Hstep.
      destruct (IH (acc ++ [g]) h1 rng1) as (h2 & rng2 & Hrest & Hlen2 & Hd2).
      exists h2, rng2. rewrite Hrest, <- app_assoc.
      split; [reflexivity|]. split; [lia | auto]. }
  apply (Hgen [] h rng).
Qed.

End Loops.

Section Build.

Variable RandomState : Type.
Variable rand : RandomState -> nat -> list Q * RandomState.
Variable randint : RandomState -> Z -> Z -> nat -> list Z * RandomState.
Variable Disk : Type.

(** what [make_test_dataset] has built when it comes to write it *)
Lemma build_shape (add_features : bool) (n_graphs : Z)
    (w : World RandomState Disk) :
  exists labels w1 rng,
    build rand randint add_features n_graphs w
    = (listed (List.length (heap w)) (Z.to_nat n_graphs), labels, w1) /\
    labels = fst (randint rng 0 2 (6 * Z.to_nat n_graphs)) /\
    disk w1 = disk w /\
    List.length (heap w1)
    = List.length (heap w) + 3 * Z.to_nat n_graphs + 3 /\
    described_only (List.length (heap w)) (heap w1).
Proof.
  set (first0 := List.length (heap w)).
  assert (Hd0 : described_only first0 (heap w)).
  { intros r g Hr Hget. apply nth_error_None in Hr. congruence. }
  unfold build.
  destruct (first_loop_shape first0 (range n_graphs) [] (heap w))
    as (h1 & Hrun1 & Hlen1 & Hd1).
  unfold range in Hlen1, Hrun1 at 2. rewrite length_seq in Hlen1, Hrun1.
  fold first0 in Hlen1, Hrun1.
  rewrite Hrun1. cbn [app]. unfold new_object.
  (* no edges *)
  set (h2 := update (update (update (h1 ++ [empty_graph false]) _ _) _ _) _ _).
  assert (Hlen2 : List.length h2 = first0 + 3 * Z.to_nat n_graphs + 1).
  { unfold h2. rewrite !update_length, length_app. simpl. lia. }
  assert (Hd2 : described_only first0 h2).
  { unfold h2. repeat (apply described_only_same_graph; [reflexivity|]).
    apply described_only_new; [reflexivity | auto]. }
  match goal with
  | |- context [append_times ?k ?G ?desc ?graphs ?h] =>
      destruct (append_times_shape first0 k G desc graphs h)
        as (h3 & Hrun3 & Hlen3 & Hd3)
  end.
  rewrite Hrun3.
  (* directed graph no weights *)
  set (h4 := update (h3 ++ [empty_graph true]) _ _).
  assert (Hlen4 : List.length h4 = first0 + 3 * Z.to_nat n_graphs + 2).
  { unfold h4. rewrite !update_length, length_app. simpl. lia. }
  assert (Hd4 : described_only first0 h4).
  { unfold h4. apply described_only_same_graph;
      [intros g; apply graph_add_nodes_from|].
    apply described_only_new; [reflexivity | auto]. }
  match goal with
  | |- context [append_times ?k ?G ?desc ?graphs ?h] =>
      destruct (append_times_shape first0 k G desc graphs h)
        as (h5 & Hrun5 & Hlen5 & Hd5)
  end.
  rewrite Hrun5.
  (* directed graph weighted *)
  set (h6 := update (update (h5 ++ [empty_graph true]) _ _) _ _).
  assert (Hlen6 : List.length h6 = first0 + 3 * Z.to_nat n_graphs + 3).
  { unfold h6. rewrite !update_length, length_app. simpl. lia. }
  assert (Hd6 : described_only first0 h6).
  { unfold h6. apply described_only_same_graph; [reflexivity|].
    apply described_only_same_graph;
      [intros g; apply graph_add_nodes_from|].
    apply described_only_new; [reflexivity | auto]. }
  match goal with
  | |- context [append_times ?k ?G ?desc ?graphs ?h] =>
      destruct (append_times_shape first0 k G desc graphs h)
        as (h7 & Hrun7 & Hlen7 & Hd7)
  end.
  rewrite Hrun7.
  match goal with
  | |- context [add_features_to_all _ ?graphs] =>
      assert (Hlisted : graphs = listed first0 (Z.to_nat n_graphs))
  end.
  { unfold listed. rewrite <- !app_assoc.
    replace (List.length h1) with (first0 + 3 * Z.to_nat n_graphs) by lia.
    replace (List.length h3) with (first0 + 3 * Z.to_nat n_graphs + 1) by lia.
    replace (List.length h5) with (first0 + 3 * Z.to_nat n_graphs + 2) by lia.
    reflexivity. }
  rewrite Hlisted.
  assert (Hcount : List.length (listed first0 (Z.to_nat n_graphs)) = 6 * Z.to_nat n_graphs).
  { unfold listed. rewrite !length_app, length_seq, !repeat_length. lia. }
  destruct add_features.
  - destruct (add_features_to_all_shape RandomState rand first0
                (listed first0 (Z.to_nat n_graphs)) h7
                (random w)) as (h8 & rng8 & Hrun8 & Hlen8 & Hd8).
    rewrite Hrun8, Hcount.
    destruct (randint rng8 0 2 (6 * Z.to_nat n_graphs)) as [labels rng9] eqn:Hlab.
    exists labels, {| heap := h8; random := rng9; disk := disk w |}, rng8.
    rewrite Hlab. simpl. split; [reflexivity|]. split; [reflexivity|].
    split; [reflexivity|]. split; [lia | auto].
  - rewrite Hcount.
    destruct (randint (random w) 0 2 (6 * Z.to_nat n_graphs)) as [labels rng9] eqn:Hlab.
    exists labels, {| heap := h7; random := rng9; disk := disk w |},
           (random w).
    rewrite Hlab. simpl. split; [reflexivity|]. split; [reflexivity|].
    split; [reflexivity|]. split; [lia | auto].
Qed.

End Build.

Lemma listed_bounds (first n : nat) (r : ref) :
  In r (listed first n) -> first <= r < first + 3 * n + 3.
Proof.
  unfold listed. rewrite !in_app_iff, in_seq.
  intros [H|[H|[H|H]]]; try lia; apply repeat_spec in H; lia.
Qed.

Lemma listed_length (first n : nat) : List.length (listed first n) = 6 * n.
Proof.
  unfold listed. rewrite !length_app, length_seq, !repeat_length. lia.
Qed.

Lemma in_repeat {A} (x : A) (n : nat) : 0 < n -> In x (repeat x n).
Proof. destruct n; [lia|]. intros _. now left. Qed.

Lemma number_graphs_length (l : list ref) (h : Heap) :
  List.length (number_graphs l h) = List.length h.
Proof.
  unfold number_graphs. revert h.
  induction l as [|a l IH]; intros h; simpl; [reflexivity|].
  now rewrite IH, update_length.
Qed.

Lemma number_graphs_numbers (l : list ref) :
  forall (h : Heap) (r : ref),
    r < List.length h -> In r l \/ numbered_one h r ->
    numbered_one (number_graphs l h) r.
Proof.
  unfold number_graphs.
  induction l as [|a l IH]; intros h r Hr Hcase; simpl.
  - destruct Hcase as [[]|H]. exact H.
  - apply IH; [now rewrite update_length|].
    destruct (Nat.eq_dec a r) as [->|Hne].
    + right. unfold numbered_one. rewrite nth_error_update, Nat.eqb_refl.
      destruct (nth_error h r) as [g|] eqn:Hg;
        [|apply nth_error_None in Hg; lia].
      eexists. split; [reflexivity|]. simpl.
      apply getitem_setitem_same.
    + destruct Hcase as [[?|Hin]|Hnum]; [congruence | now left |].
      right. unfold numbered_one in *. rewrite nth_error_update.
      now replace (a =? r) with false by (symmetry; now apply Nat.eqb_neq).
Qed.

(** X22.  [make_test_dataset] returns [6 * n_graphs] graphs and as many
    labels, but [3 * n_graphs + 3] objects only: after the [3 * n_graphs]
    small graphs, which are objects of their own, each of the three
    hand-made graphs is one object that is listed [n_graphs] times, so
    that what is written on one entry of the list shows on the others. *)
Theorem test_dataset_lists_objects_repeatedly :
  forall (RandomState : Type)
         (rand : RandomState -> nat -> list Q * RandomState)
         (randint : RandomState -> Z -> Z -> nat -> list Z * RandomState)
         (Disk : Type)
         (save_dataset :
            list ref -> Heap -> list Z -> string -> string -> Disk ->
            result Disk)
         (folder : string) (add_features write_to_file : bool)
         (n_graphs : Z) (w : World RandomState Disk)
         (graphs : list ref) (labels : list Z) (w' : World RandomState Disk),
    (forall rng low high n,
        List.length (fst (randint rng low high n)) = n) ->
    make_test_dataset rand randint save_dataset folder add_features
      write_to_file n_graphs w = Ok (graphs, labels, w') ->
    let n := Z.to_nat n_graphs in
    let first := List.length (heap w) in
    graphs = listed first n /\
    List.length graphs = 6 * n /\
    List.length labels = List.length graphs /\
    List.length (heap w') = first + 3 * n + 3 /\
    incl graphs (seq first (3 * n + 3)) /\
    (0 < n -> incl (seq first (3 * n + 3)) graphs).
Proof.
  intros RandomState rand randint Disk save folder add_features write
         n_graphs w graphs labels w' Hrandint Hrun n first.
  unfold make_test_dataset in Hrun.
  destruct (build_shape RandomState rand randint Disk add_features n_graphs w)
    as (labels1 & w1 & rng & Hbuild & Hlabels & Hdisk & Hlen & _).
  rewrite Hbuild in Hrun.
  apply bind_Ok_inv in Hrun as (d & _ & [= <- <- <-]).
  fold n first in Hlen |- *.
  split; [reflexivity|]. split; [apply listed_length|].
  split; [rewrite listed_length, Hlabels; apply Hrandint|].
  split; [simpl; now rewrite number_graphs_length|]. split.
  - intros r Hr. apply listed_bounds in Hr. apply in_seq. lia.
  - intros Hn r Hr. apply in_seq in Hr. unfold listed.
    rewrite !in_app_iff, in_seq.
    destruct (Nat.lt_ge_cases r (first + 3 * n)) as [?|?]; [left; lia|].
    right.
    assert (Hcases : r = first + 3 * n \/ r = first + 3 * n + 1
                     \/ r = first + 3 * n + 2) by lia.
    destruct Hcases as [ -> | [ -> | -> ] ];
      [left | right; left | right; right]; now apply in_repeat.
Qed.

Lemma test_dataset_lists_objects_repeatedly_witness :
  let n := Z.to_nat 2 in
  let first := List.length (heap empty_world) in
  listed 0 2 = listed first n /\
  List.length (listed 0 2) = 6 * n /\
  List.length (repeat 0%Z 12) = List.length (listed 0 2) /\
  List.length
    (heap {| heap := number_graphs (listed 0 2)
                       (heap (snd (build zeros zero_labels true 2
                                     empty_world)));
             random := tt; disk := 12 |})
  = first + 3 * n + 3 /\
  incl (listed 0 2) (seq first (3 * n + 3)) /\
  (0 < n -> incl (seq first (3 * n + 3)) (listed 0 2)).
Proof.
  apply (test_dataset_lists_objects_repeatedly unit zeros zero_labels nat
           count_graphs "datasets"%string true true 2 empty_world).
  - intros rng low high n. apply repeat_length.
  - vm_compute. reflexivity.
Defined.

(** X23.  The identifiers are given after the data set is written, and
    are all the same: the graphs that [save_dataset] is handed have no
    ["id"], and every graph of the list returned has the ["id"] one. *)
Theorem graphs_numbered_after_writing :
  forall (RandomState : Type)
         (rand : RandomState -> nat -> list Q * RandomState)
         (randint : RandomState -> Z -> Z -> nat -> list Z * RandomState)
         (Disk : Type)
         (save_dataset :
            list ref -> Heap -> list Z -> string -> string -> Disk ->
            result Disk)
         (folder : string) (add_features write_to_file : bool)
         (n_graphs : Z) (w : World RandomState Disk),
    let '(graphs, labels, w1) := build rand randint add_features n_graphs w in
    (forall r g, In r graphs -> nth_error (heap w1) r = Some g ->
                 getitem (graph g) "id"%string = Raise KeyError) /\
    make_test_dataset rand randint save_dataset folder add_features
      write_to_file n_graphs w
    = (d <- (if write_to_file
             then save_dataset graphs (heap w1) labels "TESTDATA"%string folder
                               (disk w1)
             else Ok (disk w1)) ;;
       Ok (graphs, labels,
           {| heap := number_graphs graphs (heap w1);
              random := random w1;
              disk := d |})) /\
    forall r, In r graphs ->
      numbered_one (number_graphs graphs (heap w1)) r.
Proof.
  intros RandomState rand randint Disk save folder add_features write
         n_graphs w.
  unfold make_test_dataset.
  destruct (build_shape RandomState rand randint Disk add_features n_graphs w)
    as (labels & w1 & rng & Hbuild & _ & _ & Hlen & Hdesc).
  rewrite Hbuild. split; [|split; [reflexivity|]].
  - intros r g Hr Hg. apply listed_bounds in Hr.
    apply getitem_Raise_keys. intros Hid.
    specialize (Hdesc r g ltac:(lia) Hg _ Hid). discriminate.
  - intros r Hr. apply number_graphs_numbers; [|now left].
    apply listed_bounds in Hr. lia.
Qed.

End TestDatasetProperties.
(** ** Properties of [node_features.py] *)

Module NodeFeaturesProperties.

Import AsynFluid Numpy Operations NodeFeatures NodeFeaturesNotions PyFacts.

(** *** bodies of [try] *)

Lemma and_then_Ok {Model A B} (m : Body Model A) (f : A -> Body Model B)
    fl b fl' :
  and_then m f fl = (Ok b, fl') ->
  exists a fl1, m fl = (Ok a, fl1) /\ f a fl1 = (Ok b, fl').
Proof.
  unfold and_then. destruct (m fl) as [[a|e] fl1]; [eauto | discriminate].
Qed.

Lemma eval_Ok {Model A} (r : result A) (fl : dict string (feature Model))
    a fl' :
  eval r fl = (Ok a, fl') -> r = Ok a /\ fl' = fl.
Proof. unfold eval. now intros [= -> ->]. Qed.

Lemma assign_Ok {Model} name (v : feature Model) fl u fl' :
  assign name v fl = (Ok u, fl') -> fl' = setitem fl name v.
Proof. unfold assign. now intros [= _ <-]. Qed.

(** every call that may raise is taken to have returned *)
Ltac body_cases H :=
  cbv beta iota delta [and_then eval assign done] in H;
  repeat match type of H with
         | context [match ?r with Ok _ => _ | Raise _ => _ end] =>
             destruct r; [|discriminate H];
             cbv beta iota in H
         end.

Section Features.

Variable Model : Type.
Variable best_fit_distribution : list Q -> nat -> result (Model * value).
Variable power_law_fit : list Q -> nat -> result (list value * value).
Variable feat : Graph -> node -> result (list Q).

Lemma six_statistics_keys prefix data (fl fl' : dict string (feature Model))
    u :
  six_statistics prefix data fl = (Ok u, fl') ->
  (forall name, In name (keys fl) -> In name (keys fl')) /\
  In (prefix ++ "sum")%string (keys fl').
Proof.
  unfold six_statistics. intros H. body_cases H. injection H as _ <-.
  split.
  - intros name Hn. rewrite !keys_setitem. tauto.
  - apply keys_setitem. now left.
Qed.

Lemma fit_keys prefix data b (fl fl' : dict string (feature Model)) u :
  fit best_fit_distribution power_law_fit prefix data b fl = (Ok u, fl') ->
  forall name, In name (keys fl) -> In name (keys fl').
Proof.
  unfold fit. intros H. body_cases H. injection H as _ <-.
  intros name Hn. rewrite !keys_setitem. tauto.
Qed.

Lemma for_each_bin_keys prefix data bins :
  forall (fl fl' : dict string (feature Model)) u,
    for_each_bin best_fit_distribution power_law_fit prefix data bins fl
    = (Ok u, fl') ->
    forall name, In name (keys fl) -> In name (keys fl').
Proof.
  induction bins as [|b bins IH]; intros fl fl' u; simpl.
  - unfold done. now intros [= _ <-].
  - intros H. apply and_then_Ok in H as (a & fl1 & Hfit & Hrest).
    intros name Hn. eapply IH; [exact Hrest|]. eapply fit_keys; eauto.
Qed.

(** what the part before the [try] leaves when it returns *)
Lemma degree_statistics_keys (G : Graph) node_degrees
    (fl : dict string (feature Model)) :
  degree_statistics best_fit_distribution power_law_fit G []
  = (Ok node_degrees, fl) ->
  keys fl = degree_names.
Proof.
  unfold degree_statistics, six_statistics, bins. cbn [for_each_bin].
  unfold fit. intros H. body_cases H. injection H as _ <-.
  reflexivity.
Qed.

(** the handler *)
Lemma all_nan_run (names : list string) :
  forall fl : dict string (feature Model),
    all_nan names fl
    = (Ok tt, fold_left (fun d name => setitem d name (Number NaN)) names fl).
Proof.
  induction names as [|name names IH]; intros fl; simpl; [reflexivity|].
  unfold and_then, assign. apply IH.
Qed.

Lemma fold_setitem_keys (names : list string) :
  forall fl : dict string (feature Model),
    NoDup names -> (forall name, In name names -> ~ In name (keys fl)) ->
    keys (fold_left (fun d name => setitem d name (Number NaN)) names fl)
    = keys fl ++ names.
Proof.
  induction names as [|name names IH]; intros fl Hnd Hfresh; simpl.
  - now rewrite app_nil_r.
  - inversion Hnd as [|? ? Hnot Hnd']; subst.
    rewrite IH; [|assumption|].
    + rewrite setitem_absent by (apply Hfresh; now left).
      rewrite keys_app, <- app_assoc. reflexivity.
    + intros n Hn Hin. apply keys_setitem in Hin as [->|Hin];
        [contradiction|]. apply (Hfresh n); [now right | assumption].
Qed.

Lemma fold_setitem_getitem (names : list string) :
  forall (fl : dict string (feature Model)) name,
    In name names \/ getitem fl name = Ok (Number NaN) ->
    getitem (fold_left (fun d name => setitem d name (Number NaN)) names fl)
            name
    = Ok (Number NaN).
Proof.
  induction names as [|n names IH]; intros fl name Hcase; simpl.
  - destruct Hcase as [[]|H]. exact H.
  - apply IH. destruct (string_dec n name) as [->|Hne].
    + right. apply getitem_setitem_same.
    + destruct Hcase as [[?|Hin]|H]; [congruence | now left |].
      right. now rewrite getitem_setitem_other.
Qed.

Lemma degree_raises (G : Graph) i e : degree G i = Raise e -> e = KeyError.
Proof.
  unfold degree, neighbors. destruct (getitem (adj G) i) eqn:Hget; simpl;
    [discriminate|].
  intros [= <-]. exact (getitem_raises_KeyError _ _ _ Hget).
Qed.

(** the rows of the matrix *)
Lemma node_rows_loop (G : Graph) (l : list nat) :
  forall rows rows',
    foldM (fun node_matrix i => row <- feat G i ;; vstack node_matrix row)
          l rows = Ok rows' ->
    exists new,
      rows' = rows ++ new /\
      mapM (feat G) l = Ok new.
Proof.
  induction l as [|i l IH]; intros rows rows'; simpl.
  - intros [= <-]. exists []. now rewrite app_nil_r.
  - destruct (feat G i) as [row|e]; simpl; [|discriminate].
    destruct (vstack rows row) as [rows1|e] eqn:Hstack; simpl;
      [|discriminate].
    intros Hrest. destruct (IH _ _ Hrest) as (new & -> & Hnew).
    rewrite Hnew. simpl. exists (row :: new). split; [|reflexivity].
    unfold vstack in Hstack. destruct rows as [|first rest].
    + injection Hstack as <-. reflexivity.
    + destruct (List.length first =? List.length row); [|discriminate].
      injection Hstack as <-. simpl. f_equal. now rewrite <- app_assoc.
Qed.

End Features.

(** X24.  [NodeFeatures] needs the nodes of the graph to be the numbers
    from zero to [N - 1]: it looks the degrees up under these numbers,
    outside the [try], so that a graph in which one of them is not a node
    raises [KeyError] and gets no feature at all; and a graph without
    nodes raises [ValueError], on the greatest of no degree. *)
Theorem node_features_need_nodes_numbered_from_zero :
  forall (Model : Type)
         (best_fit_distribution : list Q -> nat -> result (Model * value))
         (power_law_fit : list Q -> nat -> result (list value * value))
         (feat : Graph -> node -> result (list Q))
         (G : Graph),
    (adj G = [] ->
     feature_extraction best_fit_distribution power_law_fit feat G
     = Raise ValueError) /\
    ((exists i, i < List.length (adj G) /\ ~ In i (nodes G)) ->
     feature_extraction best_fit_distribution power_law_fit feat G
     = Raise KeyError).
Proof.
  intros Model best law feat G. split.
  - intros Hadj. unfold feature_extraction, features, degree_statistics.
    rewrite Hadj. reflexivity.
  - intros (i & Hi & Hnot).
    unfold feature_extraction, features, degree_statistics.
    unfold and_then at 1. unfold and_then at 1. unfold eval at 1.
    destruct (mapM (degree G) (seq 0 (List.length (adj G))))
      as [node_degrees|e] eqn:Hdeg.
    + exfalso. apply Hnot.
      destruct (mapM_Ok_inv _ _ _ Hdeg i) as (d & Hd);
        [apply in_seq; lia|].
      unfold degree, neighbors in Hd.
      destruct (getitem (adj G) i) eqn:Hget; [|discriminate].
      unfold nodes. apply getitem_Ok_keys. eauto.
    + apply mapM_raise_inv in Hdeg as (x & _ & Hx).
      apply degree_raises in Hx as ->. reflexivity.
Qed.

Lemma node_features_need_nodes_numbered_from_zero_witness :
  feature_extraction constant_fit constant_law two_feats renumbered_graph
  = Raise KeyError.
Proof.
  apply (proj2 (node_features_need_nodes_numbered_from_zero unit
                  constant_fit constant_law two_feats renumbered_graph)).
  exists 0. split; [simpl; lia|]. simpl. intuition discriminate.
Defined.

(** X25.  The dictionary of [NodeFeatures] has not the same names for a
    graph with node features and for a graph without: when the [try]
    succeeds, ["norm_sum"] is among the features; when the features of the
    node 0 cannot be read, the dictionary holds the nine features of the
    degrees and the 28 names of the handler, all not-a-number, and
    ["norm_sum"] is not among them. *)
Theorem node_features_names_differ :
  forall (Model : Type)
         (best_fit_distribution : list Q -> nat -> result (Model * value))
         (power_law_fit : list Q -> nat -> result (list value * value))
         (feat : Graph -> node -> result (list Q))
         (G : Graph) (node_degrees : list Q)
         (fl : dict string (feature Model)),
    degree_statistics best_fit_distribution power_law_fit G []
    = (Ok node_degrees, fl) ->
    (forall fl',
        feature_statistics best_fit_distribution power_law_fit feat G
          (List.length (adj G)) node_degrees fl = (Ok tt, fl') ->
        feature_extraction best_fit_distribution power_law_fit feat G
        = Ok fl' /\
        In "norm_sum"%string (keys fl')) /\
    (forall e,
        feat G 0 = Raise e ->
        exists fl',
          feature_extraction best_fit_distribution power_law_fit feat G
          = Ok fl' /\
          keys fl' = degree_names ++ handler_names /\
          ~ In "norm_sum"%string (keys fl') /\
          forall name, In name handler_names ->
                       getitem fl' name = Ok (Number NaN)).
Proof.
  intros Model best law feat G node_degrees fl Hdeg.
  pose proof (degree_statistics_keys Model best law G node_degrees fl Hdeg)
    as Hkeys.
  split.
  - intros fl' Htry. split.
    + unfold feature_extraction, features. unfold and_then at 1.
      rewrite Hdeg. unfold try_except. rewrite Htry. reflexivity.
    + unfold feature_statistics in Htry.
      do 7 (apply and_then_Ok in Htry as (? & ? & _ & Htry)).
      apply and_then_Ok in Htry as (u & fl8 & Hsix & Hlast).
      eapply for_each_bin_keys with (1 := Hlast).
      apply six_statistics_keys in Hsix as [_ Hsix]; assumption.
  - intros e Hfeat.
    assert (Htry : feature_statistics best law feat G (List.length (adj G))
                     node_degrees fl = (Raise e, fl)).
    { unfold feature_statistics, node_rows. rewrite Hfeat. reflexivity. }
    eexists. split; [|split; [|split]].
    + unfold feature_extraction, features. unfold and_then at 1.
      rewrite Hdeg. unfold try_except. rewrite Htry, all_nan_run.
      reflexivity.
    + rewrite fold_setitem_keys, Hkeys; [reflexivity | |].
      * apply TestsFacts.nodupb_NoDup. vm_compute. reflexivity.
      * intros name Hn. rewrite Hkeys. revert name Hn.
        apply Forall_forall. vm_compute.
        repeat constructor; intuition discriminate.
    + rewrite fold_setitem_keys, Hkeys.
      * vm_compute. intuition discriminate.
      * apply TestsFacts.nodupb_NoDup. vm_compute. reflexivity.
      * intros name Hn. rewrite Hkeys. revert name Hn.
        apply Forall_forall. vm_compute.
        repeat constructor; intuition discriminate.
    + intros name Hn. apply fold_setitem_getitem. now left.
Qed.

Lemma node_features_names_differ_witness :
  exists fl' : dict string (feature unit),
    feature_extraction constant_fit constant_law no_feat edge_graph = Ok fl' /\
    keys fl' = degree_names ++ handler_names /\
    ~ In "norm_sum"%string (keys fl') /\
    forall name, In name handler_names ->
                 getitem fl' name = Ok (Number NaN).
Proof.
  destruct (node_features_names_differ unit constant_fit constant_law
              no_feat edge_graph _ _ eq_refl) as [_ H].
  exact (H KeyError eq_refl).
Defined.

(** X26.  The matrix of the node features holds the features of the node 0
    twice: when it can be built for a graph of [N] nodes it has [N + 1]
    rows, its first row is the features of the node 0 and its row [i + 1]
    is the features of the node [i], so that the row [i] is not the node
    [i] whose degree is subtracted from its mean. *)
Theorem node_zero_is_stacked_twice :
  forall (feat : Graph -> node -> result (list Q)) (G : Graph) (N : nat)
         (node_matrix : list (list Q)),
    node_rows feat G N = Ok node_matrix ->
    List.length node_matrix = S N /\
    (exists first, feat G 0 = Ok first /\
                   nth_error node_matrix 0 = Some first) /\
    forall i, i < N ->
              exists row, feat G i = Ok row /\
                          nth_error node_matrix (S i) = Some row.
Proof.
  intros feat G N node_matrix. unfold node_rows.
  destruct (feat G 0) as [first|e] eqn:Hfirst; simpl; [|discriminate].
  intros Hloop. apply node_rows_loop in Hloop as (new & -> & Hnew).
  split; [|split].
  - simpl. now rewrite (mapM_length _ _ _ Hnew), length_seq.
  - exists first. split; reflexivity.
  - intros i Hi.
    destruct (mapM_nth (feat G) (seq 0 N) new i i Hnew) as (row & Hrow & Hf).
    + rewrite nth_error_nth' with (d := 0) by (rewrite length_seq; lia).
      now rewrite seq_nth.
    + exists row. split; assumption.
Qed.

Lemma node_zero_is_stacked_twice_witness :
  List.length [ [0; 1]; [0; 1]; [1; 2] ]%Q = 3 /\
  (exists first, two_feats edge_graph 0 = Ok first /\
                 nth_error [ [0; 1]; [0; 1]; [1; 2] ]%Q 0 = Some first) /\
  forall i, i < 2 ->
            exists row, two_feats edge_graph i = Ok row /\
                        nth_error [ [0; 1]; [0; 1]; [1; 2] ]%Q (S i)
                        = Some row.
Proof.
  apply (node_zero_is_stacked_twice two_feats edge_graph 2).
  reflexivity.
Defined.

End NodeFeaturesProperties.
